(** * Tree-style tabs: the tree manager of [src/modules/treeTabManager.ts]

    A shallow embedding of [TreeTabManager]: the node store (a JavaScript
    [Map], kept here as an insertion-ordered association list), the tree
    structure (root list and collapsed set), the mutation operations, the
    reconciliation pass against the host's tab list, and the persisted
    document.

    The asynchronous write that ends most operations ([saveTreeStructure()],
    not awaited, failures logged) leaves the tree as it is; the operations
    below therefore stop before it, and [saveTreeStructure] is the document
    that call would write. *)

From Stdlib Require Import List String Ascii Bool Arith Lia.
Import ListNotations.
Open Scope string_scope.
Open Scope list_scope.

(** ** JavaScript values used by the manager *)

(** [if (x)] on a [string | null]: [null] and the empty string are falsy. *)
Definition truthy (o : option string) : option string :=
  match o with
  | Some s => if s =? "" then None else Some s
  | None => None
  end.

(** [arr.includes(x)] *)
Definition includes (x : string) (l : list string) : bool :=
  existsb (String.eqb x) l.

(** [idx = arr.indexOf(x); if (idx !== -1) arr.splice(idx, 1)] *)
Fixpoint remove_first (x : string) (l : list string) : list string :=
  match l with
  | [] => []
  | y :: l' => if x =? y then l' else y :: remove_first x l'
  end.

(** [arr.push(x)] *)
Definition push (l : list string) (x : string) : list string := l ++ [x].

(** [Set<string>]: iteration follows insertion order. *)
Definition set_add (x : string) (s : list string) : list string :=
  if includes x s then s else s ++ [x].

Definition set_delete (x : string) (s : list string) : list string :=
  remove_first x s.

(** ** Data model *)

Inductive NodeType : Type := TabKind | GroupKind.

Definition NodeType_eqb (a b : NodeType) : bool :=
  match a, b with
  | TabKind, TabKind | GroupKind, GroupKind => true
  | _, _ => false
  end.

(** [TabNode].  Its declaration ([src/addon.ts]) is not among the sources;
    the fields are those of the object literal that [addTab] builds and
    types as [TabNode]. *)
Record TabNode : Type := mkTabNode {
  id : string;
  parentId : option string;
  childIds : list string;
  level : nat;
  collapsed : bool;
  title : string;
  type : string;
  nodeType : NodeType;
  selected : bool
}.

Definition set_id (v : string) (n : TabNode) : TabNode :=
  mkTabNode v (parentId n) (childIds n) (level n) (collapsed n) (title n) (type n) (nodeType n) (selected n).
Definition set_parentId (v : option string) (n : TabNode) : TabNode :=
  mkTabNode (id n) v (childIds n) (level n) (collapsed n) (title n) (type n) (nodeType n) (selected n).
Definition set_childIds (v : list string) (n : TabNode) : TabNode :=
  mkTabNode (id n) (parentId n) v (level n) (collapsed n) (title n) (type n) (nodeType n) (selected n).
Definition set_level (v : nat) (n : TabNode) : TabNode :=
  mkTabNode (id n) (parentId n) (childIds n) v (collapsed n) (title n) (type n) (nodeType n) (selected n).
Definition set_collapsed (v : bool) (n : TabNode) : TabNode :=
  mkTabNode (id n) (parentId n) (childIds n) (level n) v (title n) (type n) (nodeType n) (selected n).
Definition set_title (v : string) (n : TabNode) : TabNode :=
  mkTabNode (id n) (parentId n) (childIds n) (level n) (collapsed n) v (type n) (nodeType n) (selected n).
Definition set_type (v : string) (n : TabNode) : TabNode :=
  mkTabNode (id n) (parentId n) (childIds n) (level n) (collapsed n) (title n) v (nodeType n) (selected n).
Definition set_selected (v : bool) (n : TabNode) : TabNode :=
  mkTabNode (id n) (parentId n) (childIds n) (level n) (collapsed n) (title n) (type n) (nodeType n) v.

(** [Map<string, TabNode>]: [get] finds the entry of a key, [set] replaces
    the value of a key in place or appends a new entry, [delete] drops the
    entry.  Every [tabs.set(k, node)] of the source stores a node whose [id]
    is [k], so each node object sits under one key and a field assignment on
    an object obtained by [get] is [modify] at that key. *)
Definition TabMap : Type := list (string * TabNode).

Fixpoint tabs_get (k : string) (m : TabMap) : option TabNode :=
  match m with
  | [] => None
  | (k', v) :: m' => if k =? k' then Some v else tabs_get k m'
  end.

Definition tabs_has (k : string) (m : TabMap) : bool :=
  match tabs_get k m with Some _ => true | None => false end.

Fixpoint tabs_set (k : string) (v : TabNode) (m : TabMap) : TabMap :=
  match m with
  | [] => [(k, v)]
  | (k', v') :: m' => if k =? k' then (k', v) :: m' else (k', v') :: tabs_set k v m'
  end.

Fixpoint tabs_delete (k : string) (m : TabMap) : TabMap :=
  match m with
  | [] => []
  | (k', v') :: m' => if k =? k' then m' else (k', v') :: tabs_delete k m'
  end.

Fixpoint modify (k : string) (f : TabNode -> TabNode) (m : TabMap) : TabMap :=
  match m with
  | [] => []
  | (k', v) :: m' => if k =? k' then (k', f v) :: m' else (k', v) :: modify k f m'
  end.

Definition keys (m : TabMap) : list string := map fst m.

(** The manager's state: [data.treeData.tabs], [data.treeData.structure]
    ([roots] and the [collapsed] set, as the getter [structure] defaults
    them) and the static [lastActiveTabId]. *)
Record TreeData : Type := mkTreeData {
  tabs : TabMap;
  roots : list string;
  collapsedSet : list string;
  lastActiveTabId : option string
}.

Definition with_tabs (f : TabMap -> TabMap) (s : TreeData) : TreeData :=
  mkTreeData (f (tabs s)) (roots s) (collapsedSet s) (lastActiveTabId s).
Definition with_roots (f : list string -> list string) (s : TreeData) : TreeData :=
  mkTreeData (tabs s) (f (roots s)) (collapsedSet s) (lastActiveTabId s).
Definition with_collapsedSet (f : list string -> list string) (s : TreeData) : TreeData :=
  mkTreeData (tabs s) (roots s) (f (collapsedSet s)) (lastActiveTabId s).
Definition with_lastActive (v : option string) (s : TreeData) : TreeData :=
  mkTreeData (tabs s) (roots s) (collapsedSet s) v.

Definition emptyTree : TreeData := mkTreeData [] [] [] None.

(** ** Outcomes of a call

    The recursive helpers follow [childIds] without a visited set, so on a
    cyclic store they recurse until the engine raises a [RangeError].  The
    first argument [fuel] of those functions is the call depth available. *)
Inductive outcome (A : Type) : Type :=
| Done (a : A)      (* the call returned; [a] is the state it left *)
| Thrown (a : A)    (* an exception left the call; [a] is the state at the throw *)
| Hang.             (* the call never returns *)
Arguments Done {A} a.
Arguments Thrown {A} a.
Arguments Hang {A}.

Definition bind {A : Type} (o : outcome A) (f : A -> outcome A) : outcome A :=
  match o with
  | Done a => f a
  | Thrown a => Thrown a
  | Hang => Hang
  end.

Notation "o >>= f" := (bind o f) (at level 50, left associativity).

(** A [for (const x of xs) body(x)] loop over an array the body leaves alone. *)
Fixpoint for_of {A : Type} (xs : list string) (body : string -> A -> outcome A) (s : A) : outcome A :=
  match xs with
  | [] => Done s
  | x :: xs' => body x s >>= for_of xs' body
  end.

(** ** Levels *)

Definition level_of (k : string) (m : TabMap) : nat :=
  match tabs_get k m with Some n => level n | None => 0 end.

(** [updateChildLevels(parentId)] *)
Fixpoint updateChildLevels (fuel : nat) (parentId : string) (s : TreeData) : outcome TreeData :=
  match fuel with
  | 0 => Thrown s
  | S fuel' =>
      match tabs_get parentId (tabs s) with
      | None => Done s
      | Some parent =>
          for_of (childIds parent)
            (fun childId s =>
               match tabs_get childId (tabs s) with
               | None => Done s
               | Some _ =>
                   updateChildLevels fuel' childId
                     (with_tabs (modify childId (set_level (level_of parentId (tabs s) + 1))) s)
               end) s
      end
  end.

(** [recalculateLevels()] *)
Definition recalculateLevels (fuel : nat) (s : TreeData) : outcome TreeData :=
  for_of (roots s)
    (fun rootId s =>
       match tabs_get rootId (tabs s) with
       | None => Done s
       | Some _ => updateChildLevels fuel rootId (with_tabs (modify rootId (set_level 0)) s)
       end) s.

(** [getDescendants(id)]; [None] is the [RangeError] of a cyclic store. *)
Fixpoint getDescendants (fuel : nat) (i : string) (m : TabMap) : option (list string) :=
  match fuel with
  | 0 => None
  | S fuel' =>
      match tabs_get i m with
      | None => Some []
      | Some node =>
          (fix each (cs : list string) : option (list string) :=
             match cs with
             | [] => Some []
             | childId :: cs' =>
                 match getDescendants fuel' childId m, each cs' with
                 | Some ds, Some rest => Some (childId :: ds ++ rest)
                 | _, _ => None
                 end
             end) (childIds node)
      end
  end.

(** ** Host collaborators

    What the manager reads from Zotero: the tab list of the window
    ([Zotero_Tabs._tabs], [Zotero_Tabs.selectedID]), item titles, and the
    two preferences. *)

Record ZoteroTabData : Type := mkZoteroTabData {
  itemID : nat;                (* 0 when absent: falsy *)
  data_title : string          (* empty when absent: falsy *)
}.

Record ZoteroTab : Type := mkZoteroTab {
  zt_id : string;
  zt_title : string;           (* empty when absent: falsy *)
  zt_type : string;
  zt_data : option ZoteroTabData
}.

Record Window : Type := mkWindow {
  zoteroTabs : option (list ZoteroTab);   (* [None]: no [Zotero_Tabs._tabs] *)
  selectedID : option string
}.

Record Host : Type := mkHost {
  (* [Zotero.Items.get(itemID).getField("title")]; [None] when there is no
     such item or the lookup throws *)
  itemTitle : nat -> option string;
  pref_collapseOnClose : option bool;
  pref_autoCollapse : option bool
}.

(** Strings are sequences of code units; these are the white-space code
    units below 256 that [String.prototype.trim] strips. *)
Definition is_ws (c : ascii) : bool :=
  let n := nat_of_ascii c in
  (((9 <=? n) && (n <=? 13)) || (n =? 32) || (n =? 160))%nat.

Fixpoint trim_start (s : string) : string :=
  match s with
  | EmptyString => EmptyString
  | String c s' => if is_ws c then trim_start s' else s
  end.

Fixpoint trim_end (s : string) : string :=
  match s with
  | EmptyString => EmptyString
  | String c s' =>
      match trim_end s' with
      | EmptyString => if is_ws c then EmptyString else String c EmptyString
      | t => String c t
      end
  end.

Definition trim (s : string) : string := trim_end (trim_start s).

(** [x && x.trim() !== ""] *)
Definition nonblank (s : string) : bool := negb (trim s =? "").

(** [getTabTitle(zt)] *)
Definition getTabTitle (h : Host) (zt : ZoteroTab) : string :=
  if nonblank (zt_title zt) then zt_title zt
  else
    let fallback := if zt_type zt =? "" then "Tab" else zt_type zt in
    match zt_data zt with
    | Some d =>
        if zt_type zt =? "reader" then
          let fromData := if nonblank (data_title d) then data_title d else fallback in
          match itemID d with
          | 0 => fromData
          | S _ =>
              match itemTitle h (itemID d) with
              | Some t => if nonblank t then t else fromData
              | None => fromData
              end
          end
        else fallback
    | None => fallback
    end.

(** ** Mutation operations *)

(** The shared tail of [addTab] and [createGroup]. *)
Definition insertNode (node : TabNode) (s : TreeData) : TreeData :=
  match truthy (parentId node) with
  | Some p =>
      match tabs_get p (tabs s) with
      | Some parent =>
          let s1 := with_tabs (modify p (fun n => set_childIds (push (childIds n) (id node)) n)) s in
          with_tabs (tabs_set (id node) (set_level (level parent + 1) node)) s1
      | None =>
          with_tabs (tabs_set (id node) (set_parentId None node)) (with_roots (fun r => push r (id node)) s)
      end
  | None =>
      with_tabs (tabs_set (id node) (set_parentId None node)) (with_roots (fun r => push r (id node)) s)
  end.

(** [addTab(id, title, type, parentId = null)] *)
Definition addTab (i ttl ty : string) (parent : option string) (s : TreeData) : TreeData :=
  insertNode (mkTabNode i parent [] 0 false ttl ty TabKind false) s.

(** [createGroup(title = "New Group", parentId = null)]; [gid] is the
    identifier built from [Date.now()] and [Math.random()]. *)
Definition createGroup (gid ttl : string) (parent : option string) (s : TreeData) : TreeData :=
  insertNode (mkTabNode gid parent [] 0 false ttl "group" GroupKind false) s.

(** [renameNode(id, title)] *)
Definition renameNode (i ttl : string) (s : TreeData) : TreeData :=
  match tabs_get i (tabs s) with
  | None => s
  | Some _ =>
      with_tabs (modify i (fun n => set_title (if trim ttl =? "" then title n else trim ttl) n)) s
  end.

(** One pass of the promotion loop of [removeNodeFromTree] for [childId]. *)
Definition promoteChild (fuel : nat) (i childId : string) (s : TreeData) : outcome TreeData :=
  match tabs_get childId (tabs s), tabs_get i (tabs s) with
  | Some _, Some node =>
      updateChildLevels fuel childId
        (with_tabs (modify childId (fun c => set_level (level node) (set_parentId (parentId node) c))) s)
      >>= fun s1 =>
        match truthy (parentId node) with
        | Some g => Done (with_tabs (modify g (fun n => set_childIds (push (childIds n) childId) n)) s1)
        | None =>
            Done (if includes childId (roots s1) then s1 else with_roots (fun r => push r childId) s1)
        end
  | _, _ => Done s
  end.

(** [removeNodeFromTree(id, promoteChildren)].  When the node is its own
    parent, the promotion loop pushes onto the very array it iterates, so
    with one live child it never ends. *)
Definition removeNodeFromTree (fuel : nat) (i : string) (promoteChildren : bool) (s : TreeData)
  : outcome TreeData :=
  match tabs_get i (tabs s) with
  | None => Done s
  | Some node =>
      (if promoteChildren then
         for_of (childIds node) (promoteChild fuel i) s >>= fun s1 =>
           match truthy (parentId node) with
           | Some g =>
               if (g =? i) && existsb (fun c => tabs_has c (tabs s)) (childIds node)
               then Hang else Done s1
           | None => Done s1
           end
       else Done s)
      >>= fun s1 =>
        let s2 :=
          match truthy (parentId node) with
          | Some p => with_tabs (modify p (fun n => set_childIds (remove_first i (childIds n)) n)) s1
          | None => with_roots (remove_first i) s1
          end in
        Done (with_tabs (tabs_delete i) (with_collapsedSet (set_delete i) s2))
  end.

(** [removeTabFromTree(id)]: [getPref("collapseOnClose") ?? true] *)
Definition removeTabFromTree (fuel : nat) (h : Host) (i : string) (s : TreeData) : outcome TreeData :=
  removeNodeFromTree fuel i
    (match pref_collapseOnClose h with Some b => b | None => true end) s.

(** [removeGroup(id)] *)
Definition removeGroup (fuel : nat) (i : string) (s : TreeData) : outcome TreeData :=
  removeNodeFromTree fuel i true s.

(** [onTabAdded(win, ids, extraData)] *)
Definition onTabAdded (win : Window) (ids : list string) (s : TreeData) : TreeData :=
  fold_left
    (fun s i =>
       match zoteroTabs win with
       | None => s
       | Some zts =>
           match find (fun t => zt_id t =? i) zts with
           | Some zt =>
               if tabs_has i (tabs s) then s
               else addTab i (if zt_title zt =? "" then zt_type zt else zt_title zt) (zt_type zt) None s
           | None => s
           end
       end) ids s.

(** [onTabClosed(win, ids)] *)
Definition onTabClosed (fuel : nat) (h : Host) (ids : list string) (s : TreeData) : outcome TreeData :=
  for_of ids (removeTabFromTree fuel h) s.

(** [onTabSelected(win, ids)]: [ids[0]] is [undefined] on an empty array. *)
Definition onTabSelected (ids : list string) (s : TreeData) : TreeData :=
  let selectedId := hd_error ids in
  with_lastActive selectedId
    (with_tabs (map (fun e => (fst e, set_selected
                                        (match selectedId with
                                         | Some x => id (snd e) =? x
                                         | None => false
                                         end) (snd e)))) s).

(** [autoCollapseSiblings(expandedId)] *)
Definition autoCollapseSiblings (expandedId : string) (s : TreeData) : TreeData :=
  match tabs_get expandedId (tabs s) with
  | None => s
  | Some node =>
      let siblingIds :=
        match truthy (parentId node) with
        | Some p => match tabs_get p (tabs s) with Some n => childIds n | None => [] end
        | None => roots s
        end in
      fold_left
        (fun s siblingId =>
           if siblingId =? expandedId then s
           else match tabs_get siblingId (tabs s) with
                | Some sibling =>
                    match childIds sibling with
                    | [] => s
                    | _ :: _ =>
                        with_collapsedSet (set_add siblingId)
                          (with_tabs (modify siblingId (set_collapsed true)) s)
                    end
                | None => s
                end) siblingIds s
  end.

(** [toggleCollapsed(id)] *)
Definition toggleCollapsed (h : Host) (i : string) (s : TreeData) : TreeData :=
  match tabs_get i (tabs s) with
  | None => s
  | Some node =>
      match childIds node with
      | [] => s
      | _ :: _ =>
          let s1 := with_tabs (modify i (set_collapsed (negb (collapsed node)))) s in
          if negb (collapsed node) then with_collapsedSet (set_add i) s1
          else
            let s2 := with_collapsedSet (set_delete i) s1 in
            match pref_autoCollapse h with
            | Some true => autoCollapseSiblings i s2
            | _ => s2
            end
      end
  end.

(** [collapseAll(win)] *)
Definition collapseAll (s : TreeData) : TreeData :=
  fold_left
    (fun s e =>
       match childIds (snd e) with
       | [] => s
       | _ :: _ =>
           with_collapsedSet (set_add (id (snd e)))
             (with_tabs (modify (fst e) (set_collapsed true)) s)
       end) (tabs s) s.

(** [expandAll(win)] *)
Definition expandAll (s : TreeData) : TreeData :=
  with_collapsedSet (fun _ => [])
    (with_tabs (map (fun e => (fst e, set_collapsed false (snd e)))) s).

(** [attachTabTo(tabId, newParentId)] *)
Definition attachTabTo (fuel : nat) (tabId : string) (newParentId : option string) (s : TreeData)
  : outcome TreeData :=
  match tabs_get tabId (tabs s) with
  | None => Done s
  | Some tab =>
      let relink :=
        (* remove from old parent *)
        let s1 :=
          match truthy (parentId tab) with
          | Some op => with_tabs (modify op (fun n => set_childIds (remove_first tabId (childIds n)) n)) s
          | None => with_roots (remove_first tabId) s
          end in
        (* add to new parent *)
        let s2 := with_tabs (modify tabId (set_parentId newParentId)) s1 in
        let s3 :=
          match truthy newParentId with
          | Some np =>
              match tabs_get np (tabs s2) with
              | Some newParent =>
                  with_tabs (modify tabId (set_level (level newParent + 1)))
                    (with_tabs (modify np (fun n => set_childIds (push (childIds n) tabId) n)) s2)
              | None => s2
              end
          | None => with_tabs (modify tabId (set_level 0)) (with_roots (fun r => push r tabId) s2)
          end in
        updateChildLevels fuel tabId s3 in
      match truthy newParentId with
      | Some np =>
          match getDescendants fuel tabId (tabs s) with
          | None => Thrown s
          | Some descendants => if includes np descendants then Done s else relink
          end
      | None => relink
      end
  end.

(** [makeRootTab(tabId)] *)
Definition makeRootTab (fuel : nat) (tabId : string) (s : TreeData) : outcome TreeData :=
  attachTabTo fuel tabId None s.

(** ** Reordering among siblings *)

(** [arr.indexOf(x)]; [None] is [-1]. *)
Fixpoint indexOf (x : string) (l : list string) : option nat :=
  match l with
  | [] => None
  | y :: l' => if x =? y then Some 0 else option_map S (indexOf x l')
  end.

(** [arr.splice(i, 1)] for an index [0 <= i] *)
Fixpoint splice_out (i : nat) (l : list string) : list string :=
  match i, l with
  | _, [] => []
  | 0, _ :: l' => l'
  | S i', y :: l' => y :: splice_out i' l'
  end.

(** [arr.splice(i, 0, x)] for an index [0 <= i] *)
Fixpoint splice_in (i : nat) (x : string) (l : list string) : list string :=
  match i, l with
  | 0, _ => x :: l
  | S i', [] => [x]
  | S i', y :: l' => y :: splice_in i' x l'
  end.

Definition move_up (tabId : string) (siblings : list string) : list string :=
  match indexOf tabId siblings with
  | Some (S i) => splice_in i tabId (splice_out (S i) siblings)
  | _ => siblings
  end.

(** With [idx = -1] the guard [idx < siblings.length - 1] holds on a
    non-empty array: [splice(-1, 1)] drops the last entry and
    [splice(0, 0, tabId)] puts [tabId] in front. *)
Definition move_down (tabId : string) (siblings : list string) : list string :=
  match indexOf tabId siblings with
  | Some i =>
      if (S i <? List.length siblings)%nat then splice_in (S i) tabId (splice_out i siblings)
      else siblings
  | None =>
      match siblings with
      | [] => siblings
      | _ :: _ => tabId :: removelast siblings
      end
  end.

Definition moveWith (mv : string -> list string -> list string) (tabId : string) (s : TreeData)
  : TreeData :=
  match tabs_get tabId (tabs s) with
  | None => s
  | Some tab =>
      match truthy (parentId tab) with
      | Some p => with_tabs (modify p (fun n => set_childIds (mv tabId (childIds n)) n)) s
      | None => with_roots (mv tabId) s
      end
  end.

(** [moveUp(tabId)] and [moveDown(tabId)] *)
Definition moveUp : string -> TreeData -> TreeData := moveWith move_up.
Definition moveDown : string -> TreeData -> TreeData := moveWith move_down.

(** ** Queries *)

(** The closure [addWithChildren(id, isHidden)] of [getTabsInTreeOrder];
    the list is what the call pushes onto [result]. *)
Fixpoint addWithChildren (fuel : nat) (i : string) (isHidden : bool) (m : TabMap)
  : option (list TabNode) :=
  match fuel with
  | 0 => None
  | S fuel' =>
      match tabs_get i m with
      | None => Some []
      | Some node =>
          let shouldHideChildren := isHidden || collapsed node in
          match
            (fix each (cs : list string) : option (list TabNode) :=
               match cs with
               | [] => Some []
               | childId :: cs' =>
                   match addWithChildren fuel' childId shouldHideChildren m, each cs' with
                   | Some a, Some b => Some (a ++ b)
                   | _, _ => None
                   end
               end) (childIds node)
          with
          | Some below => Some (node :: below)
          | None => None
          end
      end
  end.

(** [getTabsInTreeOrder()] *)
Fixpoint treeOrderFrom (fuel : nat) (rs : list string) (m : TabMap) : option (list TabNode) :=
  match rs with
  | [] => Some []
  | rootId :: rs' =>
      match addWithChildren fuel rootId false m, treeOrderFrom fuel rs' m with
      | Some a, Some b => Some (a ++ b)
      | _, _ => None
      end
  end.

Definition getTabsInTreeOrder (fuel : nat) (s : TreeData) : option (list TabNode) :=
  treeOrderFrom fuel (roots s) (tabs s).

(** The [while (current)] loop of [isTabVisible]; [fuel] bounds its
    iterations and [None] is a loop that does not end. *)
Fixpoint visibleFrom (fuel : nat) (current : option string) (m : TabMap) : option bool :=
  match fuel with
  | 0 => None
  | S fuel' =>
      match truthy current with
      | None => Some true
      | Some c =>
          match tabs_get c m with
          | None => Some true
          | Some parent =>
              if collapsed parent then Some false else visibleFrom fuel' (parentId parent) m
          end
      end
  end.

(** [isTabVisible(tabId)] *)
Definition isTabVisible (fuel : nat) (tabId : string) (s : TreeData) : option bool :=
  match tabs_get tabId (tabs s) with
  | None => Some false
  | Some tab => visibleFrom fuel (parentId tab) (tabs s)
  end.

Definition is_tab (n : TabNode) : bool := NodeType_eqb (nodeType n) TabKind.
Definition is_group (n : TabNode) : bool := NodeType_eqb (nodeType n) GroupKind.

(** [resetAllToRoot()] *)
Definition resetAllToRoot (s : TreeData) : TreeData :=
  let reset n := set_collapsed false (set_level 0 (set_childIds [] (set_parentId None n))) in
  let m1 := map (fun e => if is_tab (snd e) then (fst e, reset (snd e)) else e) (tabs s) in
  let allTabIds := map (fun e => id (snd e)) (filter (fun e => is_tab (snd e)) (tabs s)) in
  mkTreeData (filter (fun e => negb (is_group (snd e))) m1) allTabIds [] (lastActiveTabId s).

(** ** Persistence *)

(** One record of the [tabs] array of the persisted document; a field that
    may be absent from the JSON text is an [option]. *)
Record TabData : Type := mkTabData {
  td_id : string;
  td_parentId : option string;
  td_childIds : option (list string);
  td_collapsed : option bool;
  td_nodeType : option NodeType;
  td_title : option string;
  td_type : option string
}.

Record Document : Type := mkDocument {
  version : option nat;
  doc_tabs : option (list TabData);
  doc_roots : option (list string);
  doc_collapsed : option (list string)
}.

(** The record [saveTreeStructure()] writes for one entry of the store. *)
Definition tabData_of (e : string * TabNode) : TabData :=
  mkTabData (fst e) (parentId (snd e)) (Some (childIds (snd e)))
    (Some (collapsed (snd e))) (Some (nodeType (snd e)))
    (Some (title (snd e))) (Some (type (snd e))).

(** The document [saveTreeStructure()] hands to [JSON.stringify]. *)
Definition saveTreeStructure (s : TreeData) : Document :=
  mkDocument (Some 1) (Some (map tabData_of (tabs s))) (Some (roots s)) (Some (collapsedSet s)).

(** [x || d] on an optional string *)
Definition or_string (o : option string) (d : string) : string :=
  match o with Some v => if v =? "" then d else v | None => d end.

(** [new Set(arr)] *)
Definition set_of (l : list string) : list string :=
  fold_left (fun acc x => set_add x acc) l [].

(** The node [loadTreeStructure()] builds from one record. *)
Definition restoreNode (tabData : TabData) : TabNode :=
  mkTabNode (td_id tabData) (td_parentId tabData)
    (match td_childIds tabData with Some c => c | None => [] end)
    0
    (match td_collapsed tabData with Some b => b | None => false end)
    (or_string (td_title tabData) "")
    (or_string (td_type tabData) "")
    (match td_nodeType tabData with Some t => t | None => TabKind end)
    false.

(** [loadTreeStructure()]; [contents] is the parsed file, [None] when the
    file is missing or empty. *)
Definition loadTreeStructure (contents : option Document) (s : TreeData) : TreeData :=
  match contents with
  | None => s
  | Some data =>
      let s1 :=
        mkTreeData (tabs s)
          (match doc_roots data with Some r => r | None => [] end)
          (set_of (match doc_collapsed data with Some c => c | None => [] end))
          (lastActiveTabId s) in
      match doc_tabs data with
      | None => s1
      | Some tds =>
          fold_left
            (fun s tabData =>
               if tabs_has (td_id tabData) (tabs s) then s
               else with_tabs (tabs_set (td_id tabData) (restoreNode tabData)) s) tds s1
      end
  end.

(** [init(win)]: load, then [recalculateLevels()]. *)
Definition init (fuel : nat) (contents : option Document) (s : TreeData) : outcome TreeData :=
  recalculateLevels fuel (loadTreeStructure contents s).

(** ** Reconciliation with the host's tabs *)

(** [idMigrationMap : Map<string, string>] (old id to new id) *)
Fixpoint mig_get (k : string) (m : list (string * string)) : option string :=
  match m with
  | [] => None
  | (k', v) :: m' => if k =? k' then Some v else mig_get k m'
  end.

Fixpoint mig_set (k v : string) (m : list (string * string)) : list (string * string) :=
  match m with
  | [] => [(k, v)]
  | (k', v') :: m' => if k =? k' then (k', v) :: m' else (k', v') :: mig_set k v m'
  end.

(** [idMigrationMap.get(x) || x] *)
Definition migrated (mig : list (string * string)) (x : string) : string :=
  match mig_get x mig with
  | Some v => if v =? "" then x else v
  | None => x
  end.

(** What the first pass carries from one reported tab to the next. *)
Record SyncAcc : Type := mkSyncAcc {
  acc_tree : TreeData;
  currentTabIds : list string;
  idMigrationMap : list (string * string)
}.

Definition is_selected (selectedTabId : option string) (i : string) : bool :=
  match selectedTabId with Some x => i =? x | None => false end.

(** The title search of the first pass: the first entry of the store, in
    iteration order, that is a tab-kind node with the reported title and
    whose key is not among the ids collected so far. *)
Definition findExisting (ztTitle : string) (ids : list string) (m : TabMap)
  : option (string * TabNode) :=
  find (fun e => is_tab (snd e) && (title (snd e) =? ztTitle) && negb (includes (fst e) ids)) m.

(** The body of the first pass, for one reported tab [zt]. *)
Definition syncTab (h : Host) (selectedTabId : option string) (a : SyncAcc) (zt : ZoteroTab)
  : SyncAcc :=
  let ids := set_add (zt_id zt) (currentTabIds a) in
  let ztTitle := getTabTitle h zt in
  let s := acc_tree a in
  match findExisting ztTitle ids (tabs s) with
  | Some (tabId, existingNode) =>
      (* migrate the existing node to the new id *)
      let moved :=
        set_selected (is_selected selectedTabId (zt_id zt))
          (set_type (zt_type zt) (set_title ztTitle (set_id (zt_id zt) existingNode))) in
      mkSyncAcc
        (with_tabs (fun m => tabs_set (zt_id zt) moved (tabs_delete (id existingNode) m)) s)
        ids
        (mig_set tabId (zt_id zt) (idMigrationMap a))
  | None =>
      if negb (tabs_has (zt_id zt) (tabs s)) then
        (* truly new tab *)
        mkSyncAcc (addTab (zt_id zt) ztTitle (zt_type zt) None s) ids (idMigrationMap a)
      else
        (* update the existing tab with the same id *)
        mkSyncAcc
          (with_tabs (modify (zt_id zt)
                        (fun n => set_selected (is_selected selectedTabId (zt_id zt))
                                    (set_type (zt_type zt) (set_title ztTitle n)))) s)
          ids (idMigrationMap a)
  end.

(** The second pass on one node: [parentId], then [childIds]. *)
Definition migrateParent (mig : list (string * string)) (n : TabNode) : TabNode :=
  match truthy (parentId n) with
  | Some p => match mig_get p mig with Some v => set_parentId (Some v) n | None => n end
  | None => n
  end.

Definition migrateChildren (mig : list (string * string)) (n : TabNode) : TabNode :=
  set_childIds (map (migrated mig) (childIds n)) n.

(** The second pass: rewrite parent ids, child ids, roots and the collapsed
    set through the migration map, when the map is not empty. *)
Definition applyMigration (mig : list (string * string)) (s : TreeData) : TreeData :=
  match mig with
  | [] => s
  | _ :: _ =>
      mkTreeData
        (map (fun e => (fst e, migrateChildren mig (migrateParent mig (snd e)))) (tabs s))
        (map (migrated mig) (roots s))
        (set_of (map (migrated mig) (collapsedSet s)))
        (lastActiveTabId s)
  end.

(** Lines 97-161 of [syncWithZoteroTabs]: both migration passes. *)
Definition migrateTabs (h : Host) (selectedTabId : option string) (zts : list ZoteroTab)
  (s : TreeData) : SyncAcc :=
  let a := fold_left (syncTab h selectedTabId) zts (mkSyncAcc s [] []) in
  mkSyncAcc (applyMigration (idMigrationMap a) (acc_tree a)) (currentTabIds a) (idMigrationMap a).

(** [syncWithZoteroTabs(win)].  The [try]/[catch] around the body logs a
    [RangeError] and returns, leaving the state as it was at the throw:
    this is the [Thrown] outcome here. *)
Definition syncWithZoteroTabs (fuel : nat) (h : Host) (win : Window) (s : TreeData)
  : outcome TreeData :=
  match zoteroTabs win with
  | None => Done s
  | Some zts =>
      let a := migrateTabs h (selectedID win) zts s in
      let s2 := acc_tree a in
      (* remove tabs that no longer exist in Zotero *)
      let gone :=
        map fst (filter (fun e => is_tab (snd e) && negb (includes (fst e) (currentTabIds a)))
                   (tabs s2)) in
      for_of gone (removeTabFromTree fuel h) s2 >>= fun s3 =>
        (* update selection state *)
        let s4 :=
          with_tabs (map (fun e => (fst e, set_selected
                                             (is_tab (snd e) && is_selected (selectedID win) (id (snd e)))
                                             (snd e)))) s3 in
        recalculateLevels fuel s4
  end.

(** ** Example stores and auxiliary predicates *)

(** A store with the single root [i]. *)
Definition lone (i : string) : TreeData :=
  mkTreeData [(i, mkTabNode i None [] 0 false "Paper.pdf" "reader" TabKind false)] [i] [] None.

(** The node [i] as its own parent and its own child, at level [l]. *)
Definition selfParented (i : string) (l : nat) : TreeData :=
  mkTreeData [(i, mkTabNode i (Some i) [i] l false "Paper.pdf" "reader" TabKind false)] [] [] None.

(** The node [i] with a parent id that names no node, in no list. *)
Definition orphaned (i p : string) : TreeData :=
  mkTreeData [(i, mkTabNode i (Some p) [] 0 false "Paper.pdf" "reader" TabKind false)] [] [] None.

(** [i] is listed as a child by some node of the store. *)
Definition listed_as_child (i : string) (s : TreeData) : Prop :=
  exists k n, tabs_get k (tabs s) = Some n /\ In i (childIds n).

(** A root tab node as [addTab] creates it. *)
Definition rootTab (i ttl ty : string) : TabNode :=
  mkTabNode i None [] 0 false ttl ty TabKind false.

(** Two open reader tabs with the same title. *)
Definition twinTabs : Window :=
  mkWindow (Some [mkZoteroTab "t1" "Paper.pdf" "reader" None;
                  mkZoteroTab "t2" "Paper.pdf" "reader" None]) None.

Definition twinNodes : TabMap :=
  [("t1", rootTab "t1" "Paper.pdf" "reader"); ("t2", rootTab "t2" "Paper.pdf" "reader")].


(** The state [s] with the node [n] appended to the store and its id
    appended to [roots]. *)
Definition appendRoot (n : TabNode) (s : TreeData) : TreeData :=
  mkTreeData (tabs s ++ [(id n, n)]) (roots s ++ [id n]) (collapsedSet s) (lastActiveTabId s).

(** ** Trees as a yardstick

    A rose tree of ids, independent of the store, against which the
    traversals of the manager are compared. *)

Unset Elimination Schemes.
Inductive tree : Type := T (i : string) (kids : list tree).
Set Elimination Schemes.

Definition root_of (t : tree) : string := match t with T i _ => i end.
Definition kids_of (t : tree) : list tree := match t with T _ ks => ks end.

(** The ids of a tree in depth-first order, a node before its subtrees. *)
Fixpoint ids (t : tree) : list string :=
  match t with T i ks => i :: flat_map ids ks end.

Fixpoint height (t : tree) : nat :=
  match t with T _ ks => S (fold_right Nat.max 0 (map height ks)) end.

Definition all (l : list Prop) : Prop := fold_right and True l.

(** The store lists, for every node of [t], exactly the roots of its
    subtrees as [childIds], in order. *)
Fixpoint shaped (m : TabMap) (t : tree) : Prop :=
  match t with
  | T i ks => option_map childIds (tabs_get i m) = Some (map root_of ks) /\ all (map (shaped m) ks)
  end.

(** Every node of [t] has its depth as [level]; the root of [t] has [d]. *)
Fixpoint leveled (m : TabMap) (d : nat) (t : tree) : Prop :=
  match t with
  | T i ks => option_map level (tabs_get i m) = Some d /\ all (map (leveled m (S d)) ks)
  end.

(** Set the level of every node of [t] to its depth, the root to [d]. *)
Fixpoint relevel (d : nat) (t : tree) (m : TabMap) : TabMap :=
  match t with
  | T i ks => fold_left (fun m k => relevel (S d) k m) ks (modify i (set_level d) m)
  end.

Definition relevel_all (d : nat) (ks : list tree) (m : TabMap) : TabMap :=
  fold_left (fun m k => relevel d k m) ks m.

(** The nodes stored under the keys [l], in the order of [l]. *)
Definition nodes_at (m : TabMap) (l : list string) : list TabNode :=
  flat_map (fun k => match tabs_get k m with Some n => [n] | None => [] end) l.

(** Every entry of the store holds a node whose [id] is its key. *)
Definition keys_ok (m : TabMap) : Prop :=
  forall k n, tabs_get k m = Some n -> id n = k.

(** [chain m n d a]: following [parentId] from [d], through nodes of the
    store, reaches [a] after [n] steps. *)
Inductive chain (m : TabMap) : nat -> string -> string -> Prop :=
| chain_parent d a nd :
    tabs_get d m = Some nd -> truthy (parentId nd) = Some a -> tabs_has a m = true ->
    chain m 1 d a
| chain_step n d b a nd :
    tabs_get d m = Some nd -> truthy (parentId nd) = Some b -> chain m n b a ->
    chain m (S n) d a.

(** Executable checks of [keys_ok] and [NoDup]. *)
Definition keys_okb (m : TabMap) : bool := forallb (fun e => id (snd e) =? fst e) m.

Fixpoint distinctb (l : list string) : bool :=
  match l with
  | [] => true
  | x :: l' => negb (includes x l') && distinctb l'
  end.

(** The chain "a" > "b" > "c" under the single root "a", all expanded. *)
Definition chainNodes : TabMap :=
  [("a", mkTabNode "a" None ["b"] 0 false "Library" "library" TabKind false);
   ("b", mkTabNode "b" (Some "a") ["c"] 1 false "Paper.pdf" "reader" TabKind false);
   ("c", mkTabNode "c" (Some "b") [] 2 false "Notes" "reader" TabKind false)].

Definition chainTree : tree := T "a" [T "b" [T "c" []]].

Definition chainStore : TreeData := mkTreeData chainNodes ["a"] [] None.

Definition quietHost : Host := mkHost (fun _ => None) None None.

(** ** Auxiliary relations *)


(** [m'] differs from [m] at most in levels. *)
Definition releveled (m m' : TabMap) : Prop :=
  keys m' = keys m
  /\ forall k, option_map (set_level 0) (tabs_get k m') = option_map (set_level 0) (tabs_get k m).

(** The loop shared by [updateChildLevels] and [recalculateLevels]: give
    the root of each tree the level [g s], then descend into it. *)
Definition level_loop_body (fuel : nat) (g : TreeData -> nat) (c : string) (s : TreeData)
  : outcome TreeData :=
  match tabs_get c (tabs s) with
  | None => Done s
  | Some _ => updateChildLevels fuel c (with_tabs (modify c (set_level (g s))) s)
  end.

Definition descends (t : tree) : Prop :=
  forall fuel s,
    shaped (tabs s) t -> NoDup (ids t) -> height t <= fuel ->
    updateChildLevels fuel (root_of t) s
    = Done (with_tabs (relevel_all (S (level_of (root_of t) (tabs s))) (kids_of t)) s).

(** A node with its transient fields as a fresh load leaves them. *)
Definition untouched (n : TabNode) : TabNode := set_selected false (set_level 0 n).

(** ** Promotion, spelled out

    What one pass of the promotion loop of [removeNodeFromTree] does for a
    child whose subtree is [k]: the child takes the removed node's parent
    [pP] and level [L], its descendants are re-levelled, and it is attached
    where the removed node hung. *)

Definition adopt (pP : option string) (L : nat) (k : tree) (m : TabMap) : TabMap :=
  relevel L k (modify (root_of k) (set_parentId pP) m).

Definition attachChild (pP : option string) (c : string) (s : TreeData) : TreeData :=
  match truthy pP with
  | Some g => with_tabs (modify g (fun n => set_childIds (push (childIds n) c) n)) s
  | None => if includes c (roots s) then s else with_roots (fun r => push r c) s
  end.

Definition promoted (pP : option string) (L : nat) (s : TreeData) (k : tree) : TreeData :=
  attachChild pP (root_of k) (with_tabs (adopt pP L k) s).

(** A family: the root "G" has the children "P" and "Q"; "P", collapsed,
    has the children "A", "B" and "C"; "A" has the child "D". *)
Definition member (i : string) (p : option string) (cs : list string) (l : nat) (c : bool)
  : TabNode :=
  mkTabNode i p cs l c i "reader" TabKind false.

Definition familyStore : TreeData :=
  mkTreeData
    [("G", member "G" None ["P"; "Q"] 0 false);
     ("P", member "P" (Some "G") ["A"; "B"; "C"] 1 true);
     ("Q", member "Q" (Some "G") [] 1 false);
     ("A", member "A" (Some "P") ["D"] 2 false);
     ("B", member "B" (Some "P") [] 2 false);
     ("C", member "C" (Some "P") [] 2 false);
     ("D", member "D" (Some "A") [] 3 false)]
    ["G"] ["P"] None.

Definition belowP : list tree := [T "A" [T "D" []]; T "B" []; T "C" []].

(** ** The collapsed flag and the collapsed set *)

(** The state a call leaves behind, whether it returned or threw. *)
Definition carried (o : outcome TreeData) : option TreeData :=
  match o with
  | Done s => Some s
  | Thrown s => Some s
  | Hang => None
  end.

(** Each node's [collapsed] flag is true exactly when its id is in the
    collapsed set. *)
Definition lockstep (s : TreeData) : Prop :=
  forall k n, tabs_get k (tabs s) = Some n -> (collapsed n = true <-> In k (collapsedSet s)).

(** The collapsed set holds exactly the keys of the collapsed nodes. *)
Definition exact_set (s : TreeData) : Prop :=
  forall k, In k (collapsedSet s) <-> exists n, tabs_get k (tabs s) = Some n /\ collapsed n = true.

Definition flags_inv (s : TreeData) : Prop :=
  NoDup (keys (tabs s)) /\ keys_ok (tabs s) /\ NoDup (collapsedSet s) /\ exact_set s.

Definition flags (n : TabNode) : string * bool := (id n, collapsed n).

(** [s'] has the keys, the ids, the collapsed flags and the collapsed set
    of [s]. *)
Definition same_flags (s s' : TreeData) : Prop :=
  keys (tabs s') = keys (tabs s)
  /\ collapsedSet s' = collapsedSet s
  /\ forall k, option_map flags (tabs_get k (tabs s')) = option_map flags (tabs_get k (tabs s)).


(** ** Identifier migration *)

(** A node without the fields the first pass refreshes from the host. *)
Definition core (n : TabNode) : TabNode := set_selected false (set_type "" (set_title "" n)).

(** Title matches between the report [zts] and the store [m] only pair a
    stored tab-kind node whose id the host no longer reports with a
    reported id the store does not hold. *)
Definition clean_matches (h : Host) (zts : list ZoteroTab) (m : TabMap) : Prop :=
  forall zt k n,
    In zt zts -> tabs_get k m = Some n ->
    is_tab n = true -> title n = getTabTitle h zt -> k <> zt_id zt ->
    ~ In k (map zt_id zts) /\ tabs_has (zt_id zt) m = false.

Definition clean_matchesb (h : Host) (zts : list ZoteroTab) (m : TabMap) : bool :=
  forallb
    (fun zt =>
       forallb
         (fun e =>
            implb (is_tab (snd e) && (title (snd e) =? getTabTitle h zt)
                   && negb (fst e =? zt_id zt))
                  (negb (includes (fst e) (map zt_id zts)) && negb (tabs_has (zt_id zt) m))) m)
    zts.

(** Where the migration map sends an id: [idMigrationMap.get(x)], or [x]
    itself when the map has no entry. *)
Definition target (mig : list (string * string)) (x : string) : string :=
  match mig_get x mig with Some v => v | None => x end.

(** What holds after the first pass has handled the reported tabs with
    the ids [seen], started from the store [m0] with roots [r0]. *)
Record sync_inv (h : Host) (zts : list ZoteroTab) (s0 : TreeData) (seen : list string)
  (a : SyncAcc) : Prop := mkSyncInv {
  inv_ids : forall x, In x (currentTabIds a) <-> In x seen;
  inv_nodup : NoDup (keys (tabs (acc_tree a)));
  inv_mig :
    forall old new, mig_get old (idMigrationMap a) = Some new ->
      In new seen /\ ~ In new (keys (tabs s0)) /\ ~ In old (map zt_id zts)
      /\ exists X zt, tabs_get old (tabs s0) = Some X /\ is_tab X = true /\ In zt zts
                      /\ zt_id zt = new /\ title X = getTabTitle h zt;
  inv_kept :
    forall k n, tabs_get k (tabs s0) = Some n -> mig_get k (idMigrationMap a) = None ->
      exists n', tabs_get k (tabs (acc_tree a)) = Some n' /\ core n' = core n
                 /\ (~ In k seen -> n' = n);
  inv_moved :
    forall k n new, tabs_get k (tabs s0) = Some n -> mig_get k (idMigrationMap a) = Some new ->
      exists n', tabs_get new (tabs (acc_tree a)) = Some n' /\ core n' = core (set_id new n);
  inv_unseen :
    forall k n', tabs_get k (tabs (acc_tree a)) = Some n' -> ~ In k seen ->
      tabs_get k (tabs s0) = Some n' /\ mig_get k (idMigrationMap a) = None;
  inv_roots :
    exists added, roots (acc_tree a) = roots s0 ++ added
                  /\ forall i, In i added -> In i seen;
  inv_collapsed : collapsedSet (acc_tree a) = collapsedSet s0;
  inv_id : forall k n', tabs_get k (tabs (acc_tree a)) = Some n' -> id n' = k;
  inv_origin :
    forall k n', tabs_get k (tabs (acc_tree a)) = Some n' -> collapsed n' = true ->
      exists k0 n0, tabs_get k0 (tabs s0) = Some n0 /\ collapsed n0 = true
                    /\ target (idMigrationMap a) k0 = k
}.

(** The states the manager reaches from the empty tree: by its mutation
    operations, by a restart (the saved document loaded into the empty
    store), and by reconciliation passes against any window.  A node is
    created under an id the store does not hold yet: the callers of
    [addTab] test [tabs.has(id)] first, and [createGroup] draws a new id.
    A call that throws leaves a reachable state as well. *)
Inductive reachable : TreeData -> Prop :=
| reach_empty : reachable emptyTree
| reach_addTab s i ttl ty p :
    reachable s -> tabs_has i (tabs s) = false -> reachable (addTab i ttl ty p s)
| reach_createGroup s gid ttl p :
    reachable s -> tabs_has gid (tabs s) = false -> reachable (createGroup gid ttl p s)
| reach_renameNode s i ttl : reachable s -> reachable (renameNode i ttl s)
| reach_removeNode s fuel i promote s' :
    reachable s -> carried (removeNodeFromTree fuel i promote s) = Some s' -> reachable s'
| reach_attachTabTo s fuel i p s' :
    reachable s -> carried (attachTabTo fuel i p s) = Some s' -> reachable s'
| reach_toggleCollapsed s h i : reachable s -> reachable (toggleCollapsed h i s)
| reach_collapseAll s : reachable s -> reachable (collapseAll s)
| reach_expandAll s : reachable s -> reachable (expandAll s)
| reach_moveUp s i : reachable s -> reachable (moveUp i s)
| reach_moveDown s i : reachable s -> reachable (moveDown i s)
| reach_onTabSelected s ids : reachable s -> reachable (onTabSelected ids s)
| reach_resetAllToRoot s : reachable s -> reachable (resetAllToRoot s)
| reach_restart s fuel s' :
    reachable s ->
    carried (init fuel (Some (saveTreeStructure s)) emptyTree) = Some s' -> reachable s'
| reach_sync s fuel h win s' :
    reachable s -> carried (syncWithZoteroTabs fuel h win s) = Some s' -> reachable s'.

(** The reachable states in whose history every reconciliation pass had
    distinct, non-empty reported ids and clean title matches. *)
Inductive cleanly_reachable : TreeData -> Prop :=
| clean_empty : cleanly_reachable emptyTree
| clean_addTab s i ttl ty p :
    cleanly_reachable s -> tabs_has i (tabs s) = false -> cleanly_reachable (addTab i ttl ty p s)
| clean_createGroup s gid ttl p :
    cleanly_reachable s -> tabs_has gid (tabs s) = false ->
    cleanly_reachable (createGroup gid ttl p s)
| clean_renameNode s i ttl : cleanly_reachable s -> cleanly_reachable (renameNode i ttl s)
| clean_removeNode s fuel i promote s' :
    cleanly_reachable s -> carried (removeNodeFromTree fuel i promote s) = Some s' ->
    cleanly_reachable s'
| clean_attachTabTo s fuel i p s' :
    cleanly_reachable s -> carried (attachTabTo fuel i p s) = Some s' -> cleanly_reachable s'
| clean_toggleCollapsed s h i : cleanly_reachable s -> cleanly_reachable (toggleCollapsed h i s)
| clean_collapseAll s : cleanly_reachable s -> cleanly_reachable (collapseAll s)
| clean_expandAll s : cleanly_reachable s -> cleanly_reachable (expandAll s)
| clean_moveUp s i : cleanly_reachable s -> cleanly_reachable (moveUp i s)
| clean_moveDown s i : cleanly_reachable s -> cleanly_reachable (moveDown i s)
| clean_onTabSelected s ids : cleanly_reachable s -> cleanly_reachable (onTabSelected ids s)
| clean_resetAllToRoot s : cleanly_reachable s -> cleanly_reachable (resetAllToRoot s)
| clean_restart s fuel s' :
    cleanly_reachable s ->
    carried (init fuel (Some (saveTreeStructure s)) emptyTree) = Some s' -> cleanly_reachable s'
| clean_sync s fuel h win zts s' :
    cleanly_reachable s ->
    zoteroTabs win = Some zts ->
    NoDup (map zt_id zts) -> ~ In "" (map zt_id zts) ->
    clean_matches h zts (tabs s) ->
    carried (syncWithZoteroTabs fuel h win s) = Some s' -> cleanly_reachable s'.


(** The store of the migration example: the stale tab "old1" with its
    child "y". *)
Definition staleStore : TreeData :=
  mkTreeData
    [("old1", mkTabNode "old1" None ["y"] 0 true "Paper.pdf" "reader" TabKind false);
     ("y", mkTabNode "y" (Some "old1") [] 1 false "Notes" "reader" TabKind false)]
    ["old1"] ["old1"] None.

Definition reopened : list ZoteroTab :=
  [mkZoteroTab "new1" "Paper.pdf" "reader" None; mkZoteroTab "y" "Notes" "reader" None].

(** Two root tabs with the same title, the first collapsed over a child,
    and a window that reports all three. *)
Definition twinFamily : TreeData :=
  toggleCollapsed quietHost "t1"
    (addTab "c" "Notes" "reader" (Some "t1")
       (addTab "t2" "Paper.pdf" "reader" None
          (addTab "t1" "Paper.pdf" "reader" None emptyTree))).

Definition twinFamilyWindow : Window :=
  mkWindow (Some [mkZoteroTab "t1" "Paper.pdf" "reader" None;
                  mkZoteroTab "t2" "Paper.pdf" "reader" None;
                  mkZoteroTab "c" "Notes" "reader" None]) None.

(** [staleStore] after a reconciliation pass against [reopened] with
    "new1" selected. *)
Definition relabelled : TreeData :=
  mkTreeData
    [("y", mkTabNode "y" (Some "new1") [] 1 false "Notes" "reader" TabKind false);
     ("new1", mkTabNode "new1" None ["y"] 0 true "Paper.pdf" "reader" TabKind true)]
    ["new1"] ["new1"] None.


(** The stale tab "old1" with its child "y", beside the root "z"; "y" and
    "z" have the same title.  The window reports "new1" with the title of
    "old1", and "z" and "y". *)
Definition staleTwins : TreeData :=
  addTab "z" "Same" "reader" None
    (addTab "y" "Same" "reader" (Some "old1")
       (addTab "old1" "Paper.pdf" "reader" None emptyTree)).

Definition staleTwinsReport : list ZoteroTab :=
  [mkZoteroTab "new1" "Paper.pdf" "reader" None;
   mkZoteroTab "z" "Same" "reader" None;
   mkZoteroTab "y" "Same" "reader" None].

Definition staleTwinsSynced : TreeData :=
  mkTreeData
    [("z", mkTabNode "z" (Some "new1") [] 0 false "Same" "reader" TabKind false);
     ("new1", mkTabNode "new1" None ["z"] 0 false "Paper.pdf" "reader" TabKind false);
     ("y", mkTabNode "y" None [] 0 false "Same" "reader" TabKind false)]
    ["new1"; "z"; "z"] [] None.

(** The open tab "t2" inside the group "g"; the window [twinTabs] reports
    it together with the new tab "t1" of the same title. *)
Definition groupedTwin : TreeData :=
  addTab "t2" "Paper.pdf" "reader" (Some "g") (createGroup "g" "Reading" None emptyTree).

Definition groupedTwinSynced : TreeData :=
  mkTreeData
    [("g", mkTabNode "g" None ["t1"] 0 false "Reading" "group" GroupKind false);
     ("t1", mkTabNode "t1" (Some "g") [] 0 false "Paper.pdf" "reader" TabKind false);
     ("t2", mkTabNode "t2" None [] 0 false "Paper.pdf" "reader" TabKind false)]
    ["g"; "t1"] [] None.


(** * Further operations of the manager and of its callers *)

From Stdlib Require Import Permutation.

(** The sibling array of [moveUp] and [moveDown]: [childIds] of the parent,
    [undefined] when the parent is not in the store, or [roots]. *)
Definition siblingsOf (tab : TabNode) (s : TreeData) : option (list string) :=
  match truthy (parentId tab) with
  | Some p => option_map childIds (tabs_get p (tabs s))
  | None => Some (roots s)
  end.

(** A group node as [createGroup] builds it before it is placed. *)
Definition rootGroup (gid ttl : string) : TabNode :=
  mkTabNode gid None [] 0 false ttl "group" GroupKind false.

(** The parent argument of [addTab] and [createGroup] names no node. *)
Definition no_parent (parent : option string) (s : TreeData) : Prop :=
  match truthy parent with
  | Some p => tabs_get p (tabs s) = None
  | None => True
  end.

(** [s'] has the nodes of [s] with the same fields, except that [roots]
    and each [childIds] may be in another order. *)
Definition reordered (s s' : TreeData) : Prop :=
  keys (tabs s') = keys (tabs s)
  /\ Permutation (roots s') (roots s)
  /\ collapsedSet s' = collapsedSet s
  /\ forall k,
       match tabs_get k (tabs s'), tabs_get k (tabs s) with
       | Some n', Some n =>
           set_childIds [] n' = set_childIds [] n /\ Permutation (childIds n') (childIds n)
       | None, None => True
       | _, _ => False
       end.

(** A store in which "c" names "t1" as its parent though "t1" lists only
    "d". *)
Definition strayStore : TreeData :=
  mkTreeData
    [("t1", mkTabNode "t1" None ["d"] 0 false "Paper.pdf" "reader" TabKind false);
     ("c", mkTabNode "c" (Some "t1") [] 1 false "Notes" "reader" TabKind false);
     ("d", mkTabNode "d" (Some "t1") [] 1 false "Draft" "reader" TabKind false)]
    ["t1"] [] None.

(** [depth] decreases from every node to its parent, when the parent is
    in the store: no node is its own ancestor. *)
Definition ranked (m : TabMap) (depth : string -> nat) : Prop :=
  forall k n p,
    tabs_get k m = Some n -> truthy (parentId n) = Some p -> tabs_has p m = true ->
    depth p < depth k.

Definition rankedb (m : TabMap) (depth : string -> nat) : bool :=
  forallb
    (fun e =>
       match truthy (parentId (snd e)) with
       | Some p => if tabs_has p m then (depth p <? depth (fst e))%nat else true
       | None => true
       end) m.

(** [node.childIds.length > 0] *)
Definition has_children (n : TabNode) : bool :=
  match childIds n with [] => false | _ :: _ => true end.

(** What [collapseAll] does to one node. *)
Definition collapse_parent (n : TabNode) : TabNode :=
  match childIds n with
  | [] => n
  | _ :: _ => set_collapsed true n
  end.

(** The body of the loop of [autoCollapseSiblings]. *)
Definition collapseSibling (expandedId : string) (s : TreeData) (siblingId : string) : TreeData :=
  if siblingId =? expandedId then s
  else match tabs_get siblingId (tabs s) with
       | Some sibling =>
           match childIds sibling with
           | [] => s
           | _ :: _ =>
               with_collapsedSet (set_add siblingId)
                 (with_tabs (modify siblingId (set_collapsed true)) s)
           end
       | None => s
       end.

(** [closeTabTree(win, id)]: the ids handed to [closeTab], and through it
    to the host's [Zotero_Tabs.close], in the order of the calls; [None]
    is the [RangeError] of [getDescendants] on a cyclic store, which this
    function does not catch. *)
Definition closeTabTree (fuel : nat) (i : string) (s : TreeData) : option (list string) :=
  match getDescendants fuel i (tabs s) with
  | Some descendants => Some (rev descendants ++ [i])
  | None => None
  end.

(** The [drop] listener that the sidebar puts on the row of the node
    [target]; [draggedId] is [dataTransfer.getData("text/plain")]. *)
Definition onDrop (fuel : nat) (draggedId : option string) (target : string) (s : TreeData)
  : outcome TreeData :=
  match truthy draggedId with
  | Some d => if d =? target then Done s else attachTabTo fuel d (Some target) s
  | None => Done s
  end.

(** [familyStore] after the tab "Q" was closed. *)
Definition familyWithoutQ : TreeData :=
  mkTreeData
    [("G", member "G" None ["P"] 0 false);
     ("P", member "P" (Some "G") ["A"; "B"; "C"] 1 true);
     ("A", member "A" (Some "P") ["D"] 2 false);
     ("B", member "B" (Some "P") [] 2 false);
     ("C", member "C" (Some "P") [] 2 false);
     ("D", member "D" (Some "A") [] 3 false)]
    ["G"] ["P"] None.

Definition familyTree : tree :=
  T "G" [T "P" [T "A" [T "D" []]; T "B" []; T "C" []]; T "Q" []].

(** The host with [collapseOnClose] switched off. *)
Definition keepChildrenHost : Host := mkHost (fun _ => None) (Some false) None.

(** What [resetAllToRoot] assigns to a tab-kind node. *)
Definition resetNode (n : TabNode) : TabNode :=
  set_collapsed false (set_level 0 (set_childIds [] (set_parentId None n))).

(** A store with a group: the group "g" holds the tab "a", collapsed, and
    "b" is a child of "a". *)
Definition groupedStore : TreeData :=
  mkTreeData
    [("g", mkTabNode "g" None ["a"] 0 true "Reading" "group" GroupKind false);
     ("a", mkTabNode "a" (Some "g") ["b"] 1 false "Paper.pdf" "reader" TabKind true);
     ("b", mkTabNode "b" (Some "a") [] 2 false "Notes" "reader" TabKind false)]
    ["g"] ["g"] None.

(** [x || []] on an optional array *)
Definition or_nil {A : Type} (o : option (list A)) : list A :=
  match o with Some l => l | None => [] end.

(** ** Well-formed forests *)

(** The parent a node names, as the code tests it, and the children it
    lists. *)
Definition links (n : TabNode) : option string * list string :=
  (truthy (parentId n), childIds n).

(** [s'] has the keys, the roots and the links of [s]. *)
Definition same_links (s s' : TreeData) : Prop :=
  keys (tabs s') = keys (tabs s)
  /\ roots s' = roots s
  /\ forall k, option_map links (tabs_get k (tabs s')) = option_map links (tabs_get k (tabs s)).

(** Parent and child links agree: a node without a parent is in [roots],
    a node with a parent is listed by that parent, and conversely; no list
    names a node twice. *)
Record linked (s : TreeData) : Prop := mkLinked {
  lk_keys : NoDup (keys (tabs s));
  lk_roots : NoDup (roots s);
  lk_children : forall k n, tabs_get k (tabs s) = Some n -> NoDup (childIds n);
  lk_up :
    forall k n, tabs_get k (tabs s) = Some n ->
      match truthy (parentId n) with
      | Some p => exists pn, tabs_get p (tabs s) = Some pn /\ In k (childIds pn)
      | None => In k (roots s)
      end;
  lk_root :
    forall r, In r (roots s) ->
      exists n, tabs_get r (tabs s) = Some n /\ truthy (parentId n) = None;
  lk_down :
    forall p pn c, tabs_get p (tabs s) = Some pn -> In c (childIds pn) ->
      exists cn, tabs_get c (tabs s) = Some cn /\ truthy (parentId cn) = Some p
}.

(** The roots and the children of [k] after [tabId], whose node was
    [tab], has been moved under [np] (to the roots when [np] is [None]). *)
Definition roots_after_move (tabId : string) (tab : TabNode) (np : option string) (r : list string)
  : list string :=
  let r1 := match truthy (parentId tab) with
            | Some _ => r
            | None => remove_first tabId r
            end in
  match np with Some _ => r1 | None => r1 ++ [tabId] end.

Definition children_after_move (tabId : string) (tab : TabNode) (np : option string)
  (k : string) (cs : list string) : list string :=
  let c1 := match truthy (parentId tab) with
            | Some o => if o =? k then remove_first tabId cs else cs
            | None => cs
            end in
  match np with
  | Some p => if p =? k then c1 ++ [tabId] else c1
  | None => c1
  end.

(** [s3] is [s] with [tabId] moved under [np]. *)
Definition moved (tabId : string) (tab : TabNode) (np : option string) (s s3 : TreeData) : Prop :=
  keys (tabs s3) = keys (tabs s)
  /\ roots s3 = roots_after_move tabId tab np (roots s)
  /\ forall k n, tabs_get k (tabs s) = Some n ->
       exists n', tabs_get k (tabs s3) = Some n'
                  /\ truthy (parentId n') = (if tabId =? k then np else truthy (parentId n))
                  /\ childIds n' = children_after_move tabId tab np k (childIds n).

(** The loop of [getDescendants] over the children [cs], with [f] the
    recursive call. *)
Section DescendEach.

Variable f : string -> option (list string).

Fixpoint descend_each (cs : list string) : option (list string) :=
  match cs with
  | [] => Some []
  | childId :: cs' =>
      match f childId, descend_each cs' with
      | Some ds, Some rest => Some (childId :: ds ++ rest)
      | _, _ => None
      end
  end.

End DescendEach.

(** The depths after the subtree of [tabId], whose descendants are [ds],
    has been hung under [np]. *)
Definition depth_after_move (depth : string -> nat) (tabId : string) (ds : list string)
  (np : string) (x : string) : nat :=
  if includes x (tabId :: ds) then depth x + depth np + 1 else depth x.

(** Executable check of [linked]. *)
Definition linkedb (s : TreeData) : bool :=
  distinctb (keys (tabs s)) && distinctb (roots s)
  && forallb
       (fun e =>
          distinctb (childIds (snd e))
          && match truthy (parentId (snd e)) with
             | Some p =>
                 match tabs_get p (tabs s) with
                 | Some pn => includes (fst e) (childIds pn)
                 | None => false
                 end
             | None => includes (fst e) (roots s)
             end
          && forallb
               (fun c =>
                  match tabs_get c (tabs s) with
                  | Some cn =>
                      match truthy (parentId cn) with
                      | Some q => q =? fst e
                      | None => false
                      end
                  | None => false
                  end) (childIds (snd e))) (tabs s)
  && forallb
       (fun r =>
          match tabs_get r (tabs s) with
          | Some n => match truthy (parentId n) with Some _ => false | None => true end
          | None => false
          end) (roots s).

(** ** Promotion on consistent links

    [s1] is [s] after the promotion loop of [removeNodeFromTree] has
    handed the children [done] of a node over to that node's parent [g]
    ([None]: to the roots). *)
Definition handed_over (g : option string) (done : list string) (s s1 : TreeData) : Prop :=
  keys (tabs s1) = keys (tabs s)
  /\ roots s1 = roots s ++ match g with None => done | Some _ => [] end
  /\ forall k n0, tabs_get k (tabs s) = Some n0 ->
       exists n, tabs_get k (tabs s1) = Some n
                 /\ truthy (parentId n) = (if includes k done then g else truthy (parentId n0))
                 /\ childIds n = childIds n0 ++ match g with
                                                | Some p => if p =? k then done else []
                                                | None => []
                                                end.

(** The guard under which [attachTabTo] is called below: the new parent
    is null, or a node of the store other than the moved node. *)
Definition parent_ok (tabId : string) (newParentId : option string) (s : TreeData) : Prop :=
  match truthy newParentId with
  | Some np => np <> tabId /\ tabs_has np (tabs s) = true
  | None => True
  end.

(** The states reached from the empty tree when nodes are created under
    new ids, moved under nodes of the store, removed with promotion, and
    otherwise renamed, reordered, collapsed, selected or reset. *)
Inductive tended : TreeData -> Prop :=
| tend_empty : tended emptyTree
| tend_addTab s i ttl ty p :
    tended s -> tabs_has i (tabs s) = false -> tended (addTab i ttl ty p s)
| tend_createGroup s gid ttl p :
    tended s -> tabs_has gid (tabs s) = false -> tended (createGroup gid ttl p s)
| tend_renameNode s i ttl : tended s -> tended (renameNode i ttl s)
| tend_removeNode s fuel i s' :
    tended s -> removeNodeFromTree fuel i true s = Done s' -> tended s'
| tend_attachTabTo s fuel i p s' :
    tended s -> parent_ok i p s -> carried (attachTabTo fuel i p s) = Some s' -> tended s'
| tend_toggleCollapsed s h i : tended s -> tended (toggleCollapsed h i s)
| tend_collapseAll s : tended s -> tended (collapseAll s)
| tend_expandAll s : tended s -> tended (expandAll s)
| tend_moveUp s i : tended s -> tended (moveUp i s)
| tend_moveDown s i : tended s -> tended (moveDown i s)
| tend_onTabSelected s ids : tended s -> tended (onTabSelected ids s)
| tend_resetAllToRoot s : tended s -> tended (resetAllToRoot s).

(** A forest: consistent links and no cycle. *)
Definition forest (s : TreeData) : Prop :=
  linked s /\ exists depth, ranked (tabs s) depth.

(** [familyStore] after "A", with its child "D", was moved under "Q". *)
Definition familyMoved : TreeData :=
  mkTreeData
    [("G", member "G" None ["P"; "Q"] 0 false);
     ("P", member "P" (Some "G") ["B"; "C"] 1 true);
     ("Q", member "Q" (Some "G") ["A"] 1 false);
     ("A", member "A" (Some "Q") ["D"] 2 false);
     ("B", member "B" (Some "P") [] 2 false);
     ("C", member "C" (Some "P") [] 2 false);
     ("D", member "D" (Some "A") [] 3 false)]
    ["G"] ["P"] None.

(** ** Call depth on forests *)

(** [depth] grows from every node to each child it lists, when the child
    is in the store. *)
Definition down_ranked (m : TabMap) (depth : string -> nat) : Prop :=
  forall p pn c,
    tabs_get p m = Some pn -> In c (childIds pn) -> tabs_has c m = true ->
    depth p < depth c.

(** The nodes [path] lie above [i], each once, and all are in the store. *)
Definition above (depth : string -> nat) (m : TabMap) (path : list string) (i : string) : Prop :=
  NoDup path /\ incl path (keys m) /\ forall x, In x path -> depth x < depth i.

(** The tree that the child lists spell out below [i], cut after [fuel]
    generations. *)
Fixpoint grow (fuel : nat) (m : TabMap) (i : string) : tree :=
  T i match fuel with
      | 0 => []
      | S fuel' =>
          match tabs_get i m with
          | Some n => map (grow fuel' m) (childIds n)
          | None => []
          end
      end.

(** ** Reconciliation with the window *)

(** What a node shows of itself, apart from its place in the tree. *)
Definition face (n : TabNode) : string * string * string * NodeType * bool * bool :=
  (id n, title n, type n, nodeType n, selected n, collapsed n).

Definition same_faces (s s' : TreeData) : Prop :=
  forall k, option_map face (tabs_get k (tabs s')) = option_map face (tabs_get k (tabs s)).

(** What holds when the first pass of [syncWithZoteroTabs], started from
    [s0], has handled the reported tabs [done]. *)
Definition reported (h : Host) (s0 : TreeData) (done : list ZoteroTab) (a : SyncAcc) : Prop :=
  NoDup (keys (tabs (acc_tree a)))
  /\ keys_ok (tabs (acc_tree a))
  /\ (forall x, In x (currentTabIds a) <-> In x (map zt_id done))
  /\ (forall zt, In zt done ->
        exists n, tabs_get (zt_id zt) (tabs (acc_tree a)) = Some n
                  /\ title n = getTabTitle h zt /\ type n = zt_type zt)
  /\ (forall k n, tabs_get k (tabs s0) = Some n -> is_tab n = false ->
        ~ In k (map zt_id done) -> tabs_get k (tabs (acc_tree a)) = Some n).

(** The window that reports the two tabs of [groupedStore], "b" selected. *)
Definition groupedWindow : Window :=
  mkWindow (Some [mkZoteroTab "a" "Paper.pdf" "reader" None;
                  mkZoteroTab "b" "Notes (2)" "reader" None]) (Some "b").

(** [groupedStore] after a reconciliation pass against [groupedWindow]. *)
Definition groupedSynced : TreeData :=
  mkTreeData
    [("g", mkTabNode "g" None ["a"] 0 true "Reading" "group" GroupKind false);
     ("a", mkTabNode "a" (Some "g") ["b"] 1 false "Paper.pdf" "reader" TabKind false);
     ("b", mkTabNode "b" (Some "a") [] 2 false "Notes (2)" "reader" TabKind true)]
    ["g"] ["g"] None.

(** The store agrees with the window: every reported tab has a tab-kind
    node with the reported title and type, every tab-kind node is
    reported, and the selection flags are those of the window. *)
Definition settled (h : Host) (win : Window) (zts : list ZoteroTab) (s : TreeData) : Prop :=
  (forall zt, In zt zts ->
     exists n, tabs_get (zt_id zt) (tabs s) = Some n /\ is_tab n = true
               /\ title n = getTabTitle h zt /\ type n = zt_type zt)
  /\ (forall k n, tabs_get k (tabs s) = Some n -> is_tab n = true -> In k (map zt_id zts))
  /\ (forall k n, tabs_get k (tabs s) = Some n ->
        selected n = is_tab n && is_selected (selectedID win) k).

(** [zoteroTabs?._tabs?.find((t) => t.id === id)] *)
Definition findTab (win : Window) (i : string) : option ZoteroTab :=
  match zoteroTabs win with
  | Some zts => find (fun t => zt_id t =? i) zts
  | None => None
  end.

(** ** The sidebar list *)



(** * Properties *)

(** ** The store *)

Lemma tabs_get_modify_same k f m :
  tabs_get k (modify k f m) = option_map f (tabs_get k m).
Proof.
  induction m as [|[k' v] m IH]; simpl; [reflexivity|].
  destruct (k =? k') eqn:E; simpl; rewrite E; [reflexivity | exact IH].
Qed.

Lemma tabs_get_modify_other k k' f m :
  k <> k' -> tabs_get k' (modify k f m) = tabs_get k' m.
Proof.
  intros Hne. induction m as [|[k0 v] m IH]; simpl; [reflexivity|].
  destruct (k =? k0) eqn:E; simpl.
  - apply String.eqb_eq in E. subst k0.
    destruct (k' =? k) eqn:E'; [apply String.eqb_eq in E'; congruence | reflexivity].
  - destruct (k' =? k0); [reflexivity | exact IH].
Qed.

Lemma keys_modify k f m : keys (modify k f m) = keys m.
Proof.
  induction m as [|[k' v] m IH]; simpl; [reflexivity|].
  destruct (k =? k'); simpl; [reflexivity | f_equal; exact IH].
Qed.

Lemma tabs_get_set_same k v m : tabs_get k (tabs_set k v m) = Some v.
Proof.
  induction m as [|[k' v'] m IH]; simpl.
  - now rewrite String.eqb_refl.
  - destruct (k =? k') eqn:E; simpl; rewrite E; [reflexivity | exact IH].
Qed.

Lemma tabs_get_set_other k k' v m :
  k <> k' -> tabs_get k' (tabs_set k v m) = tabs_get k' m.
Proof.
  intros Hne. induction m as [|[k0 v0] m IH]; simpl.
  - destruct (k' =? k) eqn:E; [apply String.eqb_eq in E; congruence | reflexivity].
  - destruct (k =? k0) eqn:E; simpl.
    + apply String.eqb_eq in E. subst k0.
      destruct (k' =? k) eqn:E'; [apply String.eqb_eq in E'; congruence | reflexivity].
    + destruct (k' =? k0); [reflexivity | exact IH].
Qed.

Lemma tabs_get_In k m : In k (keys m) <-> tabs_get k m <> None.
Proof.
  induction m as [|[k' v] m IH]; simpl.
  - split; [intros [] | congruence].
  - destruct (k =? k') eqn:E.
    + apply String.eqb_eq in E. subst. split; [congruence | auto].
    + apply String.eqb_neq in E. rewrite <- IH. split; [intros [H|H]; [symmetry in H; contradiction | exact H] | auto].
Qed.

Lemma tabs_get_None k m : ~ In k (keys m) <-> tabs_get k m = None.
Proof.
  rewrite tabs_get_In. destruct (tabs_get k m); split; intros H; try congruence.
  exfalso. apply H. congruence.
Qed.

Lemma tabs_get_delete_same k m : NoDup (keys m) -> tabs_get k (tabs_delete k m) = None.
Proof.
  induction m as [|[k' v] m IH]; simpl; intros Hnd; [reflexivity|].
  inversion Hnd as [|? ? Hni Hnd']; subst.
  destruct (k =? k') eqn:E; simpl.
  - apply String.eqb_eq in E. subst. now apply tabs_get_None.
  - rewrite E. auto.
Qed.

Lemma tabs_get_delete_other k k' m :
  k <> k' -> tabs_get k' (tabs_delete k m) = tabs_get k' m.
Proof.
  intros Hne. induction m as [|[k0 v] m IH]; simpl; [reflexivity|].
  destruct (k =? k0) eqn:E; simpl.
  - apply String.eqb_eq in E. subst k0.
    destruct (k' =? k) eqn:E'; [apply String.eqb_eq in E'; congruence | reflexivity].
  - destruct (k' =? k0); [reflexivity | exact IH].
Qed.

Lemma keys_okb_ok m : keys_okb m = true -> keys_ok m.
Proof.
  unfold keys_okb, keys_ok. induction m as [|[k' v] m IH]; simpl; intros H k n Hget; [discriminate|].
  apply andb_prop in H. destruct H as [H1 H2].
  destruct (k =? k') eqn:E.
  - apply String.eqb_eq in E. apply String.eqb_eq in H1. congruence.
  - eauto.
Qed.

Lemma includes_In x l : includes x l = true <-> In x l.
Proof.
  unfold includes. rewrite existsb_exists. split.
  - intros (y & Hin & E). apply String.eqb_eq in E. now subst.
  - intros H. exists x. split; [exact H | apply String.eqb_refl].
Qed.

Lemma includes_false x l : includes x l = false <-> ~ In x l.
Proof.
  rewrite <- includes_In. destruct (includes x l); split; congruence.
Qed.

Lemma distinctb_NoDup l : distinctb l = true -> NoDup l.
Proof.
  induction l as [|x l IH]; simpl; intros H; constructor.
  - apply andb_prop in H. destruct H as [H _].
    apply includes_false. now destruct (includes x l).
  - apply IH. now apply andb_prop in H.
Qed.

(** ** Reparenting: the cycle guard *)

Lemma updateChildLevels_selfParented fuel l :
  updateChildLevels fuel "a" (selfParented "a" l) = Thrown (selfParented "a" (l + fuel)).
Proof.
  revert l. induction fuel as [|fuel IH]; intros l; simpl.
  - now rewrite Nat.add_0_r.
  - change (updateChildLevels fuel "a" (selfParented "a" (l + 1)) >>= (fun s => Done s)
            = Thrown (selfParented "a" (l + S fuel))).
    rewrite IH. simpl. do 2 f_equal. lia.
Qed.

(** The guard does reject a proposed parent found among the descendants. *)
Lemma attachTabTo_rejects_descendant fuel tabId np tab ds s :
  tabs_get tabId (tabs s) = Some tab ->
  np <> "" ->
  getDescendants fuel tabId (tabs s) = Some ds ->
  In np ds ->
  attachTabTo fuel tabId (Some np) s = Done s.
Proof.
  intros Hget Hne Hds Hin. unfold attachTabTo. rewrite Hget. simpl.
  destruct (np =? "") eqn:E; [apply String.eqb_eq in E; congruence|].
  rewrite Hds.
  assert (Hinc : includes np ds = true).
  { unfold includes. apply existsb_exists. exists np. split; [assumption | apply String.eqb_refl]. }
  now rewrite Hinc.
Qed.

(** C1 (evaluation at the failing input).  On the store with the single
    root "a", [attachTabTo("a", "a")] is not rejected: "a" is not among
    its own descendants, so the node is taken out of [roots], made its own
    parent and pushed onto its own [childIds]; [updateChildLevels] then
    recurses on "a" for ever and the call ends in a [RangeError], leaving
    the self-parented node behind. *)
Theorem C1_attach_to_self_makes_cycle :
  forall fuel,
    attachTabTo (S fuel) "a" (Some "a") (lone "a") = Thrown (selfParented "a" (fuel + 2)).
Proof.
  intros fuel. unfold attachTabTo. simpl.
  change (updateChildLevels (S fuel) "a" (selfParented "a" 1)
          = Thrown (selfParented "a" (fuel + 2))).
  rewrite updateChildLevels_selfParented. do 2 f_equal. lia.
Qed.

(** ** Roots and children *)

(** C2 (evaluation at the failing input).  On the store with the single
    root "a", [attachTabTo("a", "ghost")] with "ghost" naming no node
    returns normally with "a" still in the store but neither in [roots]
    nor in the [childIds] of any node. *)
Theorem C2_attach_to_missing_parent_orphans :
  forall fuel,
    attachTabTo (S fuel) "a" (Some "ghost") (lone "a") = Done (orphaned "a" "ghost")
    /\ tabs_has "a" (tabs (orphaned "a" "ghost")) = true
    /\ ~ In "a" (roots (orphaned "a" "ghost"))
    /\ ~ listed_as_child "a" (orphaned "a" "ghost").
Proof.
  intros fuel. split; [reflexivity|]. split; [reflexivity|]. split.
  - simpl. tauto.
  - intros (k & n & Hget & Hin). simpl in Hget.
    destruct (k =? "a"); [|discriminate].
    injection Hget as <-. simpl in Hin. exact Hin.
Qed.

(** ** Reconciling twice *)

(** C4 (evaluation at the failing input).  The host reports two tabs "t1"
    and "t2" with the same title.  The first pass from the empty store adds
    both as roots.  The second pass with the same report changes the tree:
    while "t1" is handled, "t2" is not yet in [currentTabIds], so the node
    of "t2" matches by title and is migrated onto "t1"; "t2" is then added
    anew, and the rewrite of [roots] through the migration map turns every
    "t2" into "t1". *)
Theorem C4_second_sync_changes_roots :
  forall fuel h,
    syncWithZoteroTabs (S fuel) h twinTabs emptyTree
      = Done (mkTreeData twinNodes ["t1"; "t2"] [] None)
    /\ syncWithZoteroTabs (S fuel) h twinTabs (mkTreeData twinNodes ["t1"; "t2"] [] None)
      = Done (mkTreeData twinNodes ["t1"; "t1"; "t1"] [] None).
Proof.
  intros fuel h. split; reflexivity.
Qed.

(** ** Loading a persisted document *)



(** ** New tabs *)

Lemma tabs_set_fresh k v m : tabs_has k m = false -> tabs_set k v m = m ++ [(k, v)].
Proof.
  unfold tabs_has. induction m as [|[k' v'] m IH]; simpl; intros H; [reflexivity|].
  destruct (k =? k'); [discriminate|]. f_equal. exact (IH H).
Qed.

Lemma addTab_root i ttl ty s :
  tabs_has i (tabs s) = false -> addTab i ttl ty None s = appendRoot (rootTab i ttl ty) s.
Proof.
  intros H. unfold addTab, insertNode, appendRoot, with_tabs, with_roots, push. simpl.
  now rewrite (tabs_set_fresh _ _ _ H).
Qed.

Lemma findExisting_None t ids m :
  (forall k n, In (k, n) m -> is_tab n = true -> title n = t -> In k ids) ->
  findExisting t ids m = None.
Proof.
  unfold findExisting. induction m as [|[k n] m IH]; intros H; simpl; [reflexivity|].
  destruct (is_tab n) eqn:Etab; simpl.
  - destruct (String.eqb_spec (title n) t) as [Et|Et]; simpl.
    + assert (Hin : includes k ids = true).
      { apply includes_In. apply (H k n); auto. now left. }
      rewrite Hin. simpl. apply IH. intros k' n' Hin'. apply H. now right.
    + apply IH. intros k' n' Hin'. apply H. now right.
  - apply IH. intros k' n' Hin'. apply H. now right.
Qed.

(** Let the pass have collected the ids [ids] when it comes to the
    reported tab [zt], whose id is not in the store.  If every stored
    tab-kind node with the title of [zt] sits under an id the pass has
    collected, then [zt] is appended to the store as a root: [parentId]
    null, [level] 0, its id pushed at the end of [roots].  The tab-added
    handler does the same for an id it finds in the host's list, whatever
    the titles.  Neither reads [lastActiveTabId]. *)
Lemma unmatched_new_tab_becomes_root :
  forall h sel ids mig win zts zt s,
    tabs_has (zt_id zt) (tabs s) = false ->
    (forall k n, In (k, n) (tabs s) -> is_tab n = true -> title n = getTabTitle h zt ->
       In k (set_add (zt_id zt) ids)) ->
    zoteroTabs win = Some zts ->
    find (fun t => zt_id t =? zt_id zt) zts = Some zt ->
    acc_tree (syncTab h sel (mkSyncAcc s ids mig) zt)
      = appendRoot (rootTab (zt_id zt) (getTabTitle h zt) (zt_type zt)) s
    /\ onTabAdded win [zt_id zt] s
      = appendRoot (rootTab (zt_id zt) (if zt_title zt =? "" then zt_type zt else zt_title zt)
                      (zt_type zt)) s
    /\ parentId (rootTab (zt_id zt) (getTabTitle h zt) (zt_type zt)) = None
    /\ level (rootTab (zt_id zt) (getTabTitle h zt) (zt_type zt)) = 0.
Proof.
  intros h sel ids mig win zts zt s Hnew Hnone Hwin Hfind.
  split; [|split; [|split; reflexivity]].
  - unfold syncTab. simpl. rewrite (findExisting_None _ _ _ Hnone), Hnew. simpl.
    now apply addTab_root.
  - unfold onTabAdded. simpl. rewrite Hwin, Hfind, Hnew. now apply addTab_root.
Qed.

(** At a concrete store: "a" is the last active tab, "b" is reported new;
    "b" becomes the second root. *)
Example new_tab_beside_last_active :
  acc_tree (syncTab quietHost (Some "a")
              (mkSyncAcc (with_lastActive (Some "a") (lone "a")) ["a"] [])
              (mkZoteroTab "b" "Notes" "reader" None))
  = appendRoot (rootTab "b" "Notes" "reader") (with_lastActive (Some "a") (lone "a")).
Proof.
  apply (unmatched_new_tab_becomes_root quietHost (Some "a") ["a"] []
           (mkWindow (Some [mkZoteroTab "b" "Notes" "reader" None]) (Some "a"))
           [mkZoteroTab "b" "Notes" "reader" None]
           (mkZoteroTab "b" "Notes" "reader" None)
           (with_lastActive (Some "a") (lone "a"))); try reflexivity.
  intros k n [E|[]] _ Ht. injection E as <- <-. discriminate.
Qed.

(** C6 (evaluation at the failing input).  The tab "t2" is open inside the
    group "g", and the window reports it together with the new tab "t1" of
    the same title, "t1" first.  No stored tab is absent from the report,
    yet while "t1" is handled "t2" is not yet in [currentTabIds]: the node
    of "t2" is taken for a stale one and stored under "t1".  The new tab
    "t1" ends inside the group, with [parentId] "g" and listed by "g",
    instead of as a root with no parent. *)
Theorem C6_new_tab_takes_open_twin :
  tabs_has "t1" (tabs groupedTwin) = false
  /\ (forall k n, tabs_get k (tabs groupedTwin) = Some n -> is_tab n = true ->
        In k (map zt_id [mkZoteroTab "t1" "Paper.pdf" "reader" None;
                         mkZoteroTab "t2" "Paper.pdf" "reader" None]))
  /\ syncWithZoteroTabs 4 quietHost twinTabs groupedTwin = Done groupedTwinSynced
  /\ option_map parentId (tabs_get "t1" (tabs groupedTwinSynced)) = Some (Some "g")
  /\ option_map childIds (tabs_get "g" (tabs groupedTwinSynced)) = Some ["t1"]
  /\ onTabAdded twinTabs ["t1"] groupedTwin
     = appendRoot (rootTab "t1" "Paper.pdf" "reader") groupedTwin.
Proof.
  split; [reflexivity|]. split.
  - intros k n Hget Htab. simpl in Hget.
    destruct (String.eqb_spec k "g") as [->|_]; [injection Hget as <-; discriminate|].
    destruct (String.eqb_spec k "t2") as [->|_]; [simpl; tauto | discriminate].
  - repeat split; reflexivity.
Qed.


(** ** Trees *)

Lemma tree_rose_ind (P : tree -> Prop) :
  (forall i ks, Forall P ks -> P (T i ks)) -> forall t, P t.
Proof.
  intros H. fix IH 1. intros [i ks]. apply H.
  induction ks as [|k ks IHks]; constructor; [apply IH | exact IHks].
Qed.

Lemma all_map_Forall {A : Type} (P : A -> Prop) (l : list A) : all (map P l) <-> Forall P l.
Proof.
  unfold all. induction l as [|x l IH]; simpl.
  - split; [constructor | trivial].
  - rewrite IH. split.
    + intros [H1 H2]. now constructor.
    + intros H. inversion H; subst. now split.
Qed.

Lemma height_kids i ks n :
  height (T i ks) <= S n -> Forall (fun k => height k <= n) ks.
Proof.
  simpl. intros H. apply le_S_n in H.
  induction ks as [|k ks IH]; simpl in *; constructor.
  - lia.
  - apply IH. lia.
Qed.

Lemma height_pos t : 1 <= height t.
Proof. destruct t; simpl; lia. Qed.

Lemma shaped_get m i ks :
  shaped m (T i ks) ->
  exists n, tabs_get i m = Some n /\ childIds n = map root_of ks.
Proof.
  simpl. intros [H _]. destruct (tabs_get i m) as [n|]; [|discriminate].
  exists n. split; [reflexivity|]. simpl in H. congruence.
Qed.

Lemma shaped_kids m i ks : shaped m (T i ks) -> Forall (shaped m) ks.
Proof. simpl. intros [_ H]. now apply all_map_Forall. Qed.

Lemma shaped_ext m m' t :
  (forall k, option_map childIds (tabs_get k m') = option_map childIds (tabs_get k m)) ->
  shaped m t -> shaped m' t.
Proof.
  intros Hext. induction t as [i ks IH] using tree_rose_ind. simpl. intros [H1 H2]. split.
  - now rewrite Hext.
  - apply all_map_Forall. apply all_map_Forall in H2.
    rewrite Forall_forall in *. auto.
Qed.

Lemma nodes_at_app m l1 l2 : nodes_at m (l1 ++ l2) = nodes_at m l1 ++ nodes_at m l2.
Proof. unfold nodes_at. apply flat_map_app. Qed.

(** ** The display order *)

Lemma addWithChildren_shaped t :
  forall fuel hidden m,
    shaped m t -> height t <= fuel ->
    addWithChildren fuel (root_of t) hidden m = Some (nodes_at m (ids t)).
Proof.
  induction t as [i ks IH] using tree_rose_ind. intros fuel hidden m Hsh Hh.
  destruct fuel as [|fuel]; [pose proof (height_pos (T i ks)); lia|].
  destruct (shaped_get _ _ _ Hsh) as (n & Hget & Hkids).
  pose proof (shaped_kids _ _ _ Hsh) as Hshk.
  pose proof (height_kids _ _ _ Hh) as Hhk.
  simpl. rewrite Hget, Hkids. simpl.
  generalize (hidden || collapsed n). intros hid.
  assert (Heach :
    (fix each (cs : list string) : option (list TabNode) :=
       match cs with
       | [] => Some []
       | childId :: cs' =>
           match addWithChildren fuel childId hid m, each cs' with
           | Some a, Some b => Some (a ++ b)
           | _, _ => None
           end
       end) (map root_of ks) = Some (nodes_at m (flat_map ids ks))).
  { clear Hget Hkids Hsh Hh.
    induction ks as [|k ks IHks]; simpl; [reflexivity|].
    inversion IH as [|? ? IHk IHrest]; subst.
    inversion Hshk as [|? ? Hk Hrest]; subst.
    inversion Hhk as [|? ? Hhk1 Hhrest]; subst.
    rewrite (IHk fuel hid m Hk Hhk1), (IHks IHrest Hrest Hhrest).
    now rewrite nodes_at_app. }
  rewrite Heach. reflexivity.
Qed.

Lemma treeOrderFrom_shaped F :
  forall fuel m,
    Forall (shaped m) F -> Forall (fun t => height t <= fuel) F ->
    treeOrderFrom fuel (map root_of F) m = Some (nodes_at m (flat_map ids F)).
Proof.
  induction F as [|t F IH]; intros fuel m Hsh Hh; simpl; [reflexivity|].
  inversion Hsh; subst. inversion Hh; subst.
  rewrite addWithChildren_shaped by assumption. rewrite IH by assumption.
  now rewrite nodes_at_app.
Qed.

Lemma shaped_live m t : shaped m t -> forall k, In k (ids t) -> tabs_get k m <> None.
Proof.
  induction t as [i ks IH] using tree_rose_ind. intros Hsh k Hin.
  destruct (shaped_get _ _ _ Hsh) as (n & Hget & _).
  pose proof (shaped_kids _ _ _ Hsh) as Hk.
  simpl in Hin. destruct Hin as [<-|Hin]; [congruence|].
  apply in_flat_map in Hin. destruct Hin as (t & Ht & Hin).
  rewrite Forall_forall in IH, Hk. eauto.
Qed.



(** ** Collapsing *)










(** A node below a collapsed ancestor is not visible. *)
Lemma visibleFrom_chain m n d a :
  chain m n d a ->
  forall na, tabs_get a m = Some na -> collapsed na = true ->
  forall fuel, n <= fuel ->
  exists nd, tabs_get d m = Some nd /\ visibleFrom fuel (parentId nd) m = Some false.
Proof.
  intros Hc na Ha Hcol.
  induction Hc as [d a nd Hd Hp _ | n d b a nd Hd Hp Hc IH]; intros fuel Hle.
  - exists nd. split; [exact Hd|].
    destruct fuel as [|fuel]; [lia|]. simpl. now rewrite Hp, Ha, Hcol.
  - exists nd. split; [exact Hd|].
    destruct fuel as [|fuel]; [lia|]. simpl. rewrite Hp.
    destruct (IH Ha fuel ltac:(lia)) as (nb & Hb & Hvis). rewrite Hb.
    destruct (collapsed nb); [reflexivity | exact Hvis].
Qed.


(** ** Levels *)

Lemma fold_left_rel {A B : Type} (R : A -> A -> Prop) (f : A -> B -> A) (l : list B) :
  (forall a, R a a) ->
  (forall a b c, R a b -> R b c -> R a c) ->
  (forall a b, In b l -> R a (f a b)) ->
  forall a, R a (fold_left f l a).
Proof.
  intros Hrefl Htrans. induction l as [|x l IH]; simpl; intros Hstep a; [apply Hrefl|].
  eapply Htrans; [apply Hstep; now left|]. apply IH. intros a' b Hb. apply Hstep. now right.
Qed.

Lemma tabs_get_relevel t :
  forall d m j, ~ In j (ids t) -> tabs_get j (relevel d t m) = tabs_get j m.
Proof.
  induction t as [i ks IH] using tree_rose_ind. intros d m j Hj. simpl in *.
  assert (Hji : i <> j) by tauto.
  rewrite <- (tabs_get_modify_other i j (set_level d) m Hji).
  apply (fold_left_rel (fun a b => tabs_get j b = tabs_get j a)); [reflexivity | congruence |].
  intros a k Hk. rewrite Forall_forall in IH. apply IH; [exact Hk|].
  intros Hin. apply Hj. right. apply in_flat_map. eauto.
Qed.

Lemma tabs_get_relevel_all ks d m j :
  ~ In j (flat_map ids ks) -> tabs_get j (relevel_all d ks m) = tabs_get j m.
Proof.
  intros Hj. unfold relevel_all.
  apply (fold_left_rel (fun a b => tabs_get j b = tabs_get j a)); [reflexivity | congruence |].
  intros a k Hk. apply tabs_get_relevel. intros Hin. apply Hj. apply in_flat_map. eauto.
Qed.

Lemma releveled_refl m : releveled m m.
Proof. split; reflexivity. Qed.

Lemma releveled_trans m1 m2 m3 : releveled m1 m2 -> releveled m2 m3 -> releveled m1 m3.
Proof. intros [K1 T1] [K2 T2]. split; [congruence|]. intros k. now rewrite T2. Qed.

Lemma releveled_modify j d m : releveled m (modify j (set_level d) m).
Proof.
  split; [apply keys_modify|]. intros k.
  destruct (String.eqb_spec j k) as [->|Hne].
  - rewrite tabs_get_modify_same. now destruct (tabs_get k m).
  - now rewrite tabs_get_modify_other.
Qed.

Lemma releveled_relevel t : forall d m, releveled m (relevel d t m).
Proof.
  induction t as [i ks IH] using tree_rose_ind. intros d m. simpl.
  eapply releveled_trans; [apply (releveled_modify i d)|].
  apply (fold_left_rel releveled); [apply releveled_refl | apply releveled_trans |].
  intros a k Hk. rewrite Forall_forall in IH. now apply IH.
Qed.

Lemma releveled_relevel_all ks d m : releveled m (relevel_all d ks m).
Proof.
  apply (fold_left_rel releveled); [apply releveled_refl | apply releveled_trans |].
  intros a k _. apply releveled_relevel.
Qed.

Lemma releveled_field {A : Type} (f : TabNode -> A) m m' :
  (forall n, f (set_level 0 n) = f n) ->
  releveled m m' ->
  forall k, option_map f (tabs_get k m') = option_map f (tabs_get k m).
Proof.
  intros Hf [_ H] k. specialize (H k).
  destruct (tabs_get k m') as [n'|], (tabs_get k m) as [n|];
    cbn [option_map] in H |- *; try discriminate; [|reflexivity].
  assert (E : set_level 0 n' = set_level 0 n) by congruence.
  f_equal. rewrite <- (Hf n'), <- (Hf n). now rewrite E.
Qed.

Lemma releveled_shaped m m' t : releveled m m' -> shaped m t -> shaped m' t.
Proof.
  intros Hr. apply shaped_ext. apply (releveled_field childIds); [reflexivity | exact Hr].
Qed.

Lemma level_of_modify_same k d m :
  tabs_get k m <> None -> level_of k (modify k (set_level d) m) = d.
Proof.
  intros H. unfold level_of. rewrite tabs_get_modify_same.
  destruct (tabs_get k m); [reflexivity | congruence].
Qed.

Lemma NoDup_flat_map_head (k : tree) ks :
  NoDup (flat_map ids (k :: ks)) ->
  NoDup (ids k) /\ NoDup (flat_map ids ks)
  /\ (forall j, In j (ids k) -> ~ In j (flat_map ids ks)).
Proof.
  simpl. intros H. split; [|split].
  - eapply NoDup_app_remove_r; eauto.
  - eapply NoDup_app_remove_l; eauto.
  - intros j Hj Hin. revert H Hj Hin. generalize (ids k) (flat_map ids ks).
    intros l1 l2 H. induction l1 as [|x l1 IH]; simpl in *; [tauto|].
    inversion H; subst. intros [->|Hj] Hin.
    + apply H2. apply in_or_app. now right.
    + now apply IH.
Qed.

Lemma level_loop fuel g d ks :
  Forall descends ks ->
  forall s,
    (forall m', releveled (tabs s) m' ->
       (forall j, ~ In j (flat_map ids ks) -> tabs_get j m' = tabs_get j (tabs s)) ->
       g (with_tabs (fun _ => m') s) = d) ->
    Forall (shaped (tabs s)) ks ->
    NoDup (flat_map ids ks) ->
    Forall (fun k => height k <= fuel) ks ->
    for_of (map root_of ks) (level_loop_body fuel g) s
    = Done (with_tabs (relevel_all d ks) s).
Proof.
  induction ks as [|k ks IH]; intros Hdesc s Hg Hsh Hnd Hh; simpl.
  - now destruct s.
  - inversion Hdesc as [|? ? Hk Hdesc']; subst.
    inversion Hsh as [|? ? Hshk Hsh']; subst.
    inversion Hh as [|? ? Hhk Hh']; subst.
    destruct (NoDup_flat_map_head _ _ Hnd) as (Hndk & Hnd' & Hdisj).
    assert (Hlive : tabs_get (root_of k) (tabs s) <> None).
    { eapply shaped_live; [exact Hshk|]. destruct k; simpl; auto. }
    assert (Hgs : g s = d).
    { rewrite <- (Hg (tabs s)); [now destruct s | apply releveled_refl | reflexivity]. }
    unfold level_loop_body at 1.
    destruct (tabs_get (root_of k) (tabs s)) eqn:E; [|congruence].
    rewrite Hk; [| eapply releveled_shaped; [apply releveled_modify | exact Hshk]
                 | exact Hndk | exact Hhk].
    simpl. rewrite level_of_modify_same by congruence. rewrite Hgs.
    assert (Hs1 : with_tabs (relevel_all (S d) (kids_of k))
                    (with_tabs (modify (root_of k) (set_level d)) s)
                  = with_tabs (relevel d k) s) by (destruct k; reflexivity).
    rewrite Hs1.
    rewrite IH; [reflexivity | exact Hdesc' | | | exact Hnd' | exact Hh'].
    + intros m' Hr Hother. simpl in *.
      change (with_tabs (fun _ => m') (with_tabs (relevel d k) s))
        with (with_tabs (fun _ => m') s).
      apply Hg.
      * eapply releveled_trans; [apply (releveled_relevel k d) | exact Hr].
      * intros j Hj. rewrite Hother.
        -- apply tabs_get_relevel. intros Hin. apply Hj. apply in_or_app. now left.
        -- intros Hin. apply Hj. apply in_or_app. now right.
    + simpl. rewrite Forall_forall in *. intros t' Ht'.
      eapply releveled_shaped; [apply releveled_relevel | auto].
Qed.

Lemma updateChildLevels_shaped t : descends t.
Proof.
  induction t as [i ks IH] using tree_rose_ind. intros fuel s Hsh Hnd Hh.
  destruct fuel as [|fuel]; [pose proof (height_pos (T i ks)); lia|].
  destruct (shaped_get _ _ _ Hsh) as (n & Hget & Hkids).
  simpl. rewrite Hget, Hkids.
  inversion Hnd as [|? ? Hi Hnd']; subst.
  apply (level_loop fuel (fun s => level_of i (tabs s) + 1) (S (level_of i (tabs s))) ks IH s).
  - intros m' _ Hother. simpl. unfold level_of. rewrite (Hother i Hi). lia.
  - now apply shaped_kids in Hsh.
  - exact Hnd'.
  - now apply height_kids in Hh.
Qed.

Lemma recalculateLevels_shaped F fuel s :
  roots s = map root_of F ->
  Forall (shaped (tabs s)) F ->
  NoDup (flat_map ids F) ->
  Forall (fun t => height t <= fuel) F ->
  recalculateLevels fuel s = Done (with_tabs (relevel_all 0 F) s).
Proof.
  intros Hroots Hsh Hnd Hh. unfold recalculateLevels. rewrite Hroots.
  apply (level_loop fuel (fun _ => 0) 0 F); try assumption.
  - apply Forall_forall. intros t _. apply updateChildLevels_shaped.
  - reflexivity.
Qed.

Lemma leveled_ext m m' t :
  (forall k, In k (ids t) -> tabs_get k m' = tabs_get k m) ->
  forall d, leveled m d t -> leveled m' d t.
Proof.
  induction t as [i ks IH] using tree_rose_ind. intros Hext d [H1 H2]. simpl. split.
  - rewrite Hext; [exact H1 | simpl; auto].
  - apply all_map_Forall. apply all_map_Forall in H2.
    rewrite Forall_forall in *. intros k Hk. apply IH; [exact Hk | | auto].
    intros j Hj. apply Hext. simpl. right. apply in_flat_map. eauto.
Qed.

Lemma relevel_all_leveled d ks :
  Forall (fun k => forall d m, shaped m k -> NoDup (ids k) -> leveled (relevel d k m) d k) ks ->
  forall m,
    Forall (shaped m) ks -> NoDup (flat_map ids ks) ->
    Forall (leveled (relevel_all d ks m) d) ks.
Proof.
  induction ks as [|k ks IH]; intros HI m Hsh Hnd; constructor;
    inversion HI as [|? ? HIk HI']; subst;
    inversion Hsh as [|? ? Hshk Hsh']; subst;
    destruct (NoDup_flat_map_head _ _ Hnd) as (Hndk & Hnd' & Hdisj).
  - simpl. eapply leveled_ext; [|apply HIk; eassumption].
    intros j Hj. apply tabs_get_relevel_all. now apply Hdisj.
  - simpl. apply IH; [exact HI' | | exact Hnd'].
    rewrite Forall_forall in *. intros t Ht.
    eapply releveled_shaped; [apply releveled_relevel | auto].
Qed.

Lemma relevel_leveled t :
  forall d m, shaped m t -> NoDup (ids t) -> leveled (relevel d t m) d t.
Proof.
  induction t as [i ks IH] using tree_rose_ind. intros d m Hsh Hnd.
  destruct (shaped_get _ _ _ Hsh) as (n & Hget & _).
  inversion Hnd as [|? ? Hi Hnd']; subst.
  change (relevel d (T i ks) m) with (relevel_all (S d) ks (modify i (set_level d) m)).
  simpl. split.
  - rewrite tabs_get_relevel_all by exact Hi. rewrite tabs_get_modify_same, Hget. reflexivity.
  - apply all_map_Forall. apply relevel_all_leveled; [exact IH | | exact Hnd'].
    apply shaped_kids in Hsh. rewrite Forall_forall in *. intros t Ht.
    eapply releveled_shaped; [apply releveled_modify | auto].
Qed.

Lemma leveled_agree m m' t :
  forall d, leveled m d t -> leveled m' d t ->
  forall k, In k (ids t) -> option_map level (tabs_get k m') = option_map level (tabs_get k m).
Proof.
  induction t as [i ks IH] using tree_rose_ind. intros d [H1 H2] [H1' H2'] k Hk.
  simpl in Hk. destruct Hk as [<-|Hk]; [congruence|].
  apply in_flat_map in Hk. destruct Hk as (t & Ht & Hk).
  apply all_map_Forall in H2, H2'. rewrite Forall_forall in *. eauto.
Qed.

Lemma store_ext (m1 m2 : TabMap) :
  keys m1 = keys m2 -> NoDup (keys m1) ->
  (forall k, In k (keys m1) -> tabs_get k m1 = tabs_get k m2) ->
  m1 = m2.
Proof.
  revert m2. induction m1 as [|[k v] m1 IH]; intros [|[k2 v2] m2] Hk Hnd Hget;
    simpl in *; try discriminate; [reflexivity|].
  injection Hk as -> Hk. inversion Hnd as [|? ? Hni Hnd']; subst.
  pose proof (Hget k2 (or_introl eq_refl)) as Hv. rewrite String.eqb_refl in Hv.
  injection Hv as ->. f_equal. apply IH; [exact Hk | exact Hnd' |].
  intros j Hj. specialize (Hget j (or_intror Hj)).
  destruct (j =? k2) eqn:E; [|exact Hget].
  apply String.eqb_eq in E. subst. contradiction.
Qed.

(** ** Persistence round trip *)

Lemma set_of_acc l :
  forall acc, NoDup (acc ++ l) -> fold_left (fun acc x => set_add x acc) l acc = acc ++ l.
Proof.
  induction l as [|x l IH]; intros acc Hnd; cbn [fold_left].
  - now rewrite app_nil_r.
  - assert (Hx : includes x acc = false).
    { apply includes_false. intros Hin. apply NoDup_remove_2 in Hnd.
      apply Hnd. apply in_or_app. now left. }
    replace (set_add x acc) with (acc ++ [x]) by (unfold set_add; now rewrite Hx).
    rewrite IH.
    + now rewrite <- app_assoc.
    + now rewrite <- app_assoc.
Qed.

Lemma set_of_NoDup l : NoDup l -> set_of l = l.
Proof. intros H. unfold set_of. now rewrite set_of_acc. Qed.

Lemma tabs_has_In k m : tabs_has k m = true <-> In k (keys m).
Proof.
  rewrite tabs_get_In. unfold tabs_has. destruct (tabs_get k m); split; congruence.
Qed.

Lemma tabs_has_false k m : tabs_has k m = false <-> ~ In k (keys m).
Proof.
  rewrite <- tabs_has_In. destruct (tabs_has k m); split; congruence.
Qed.

Lemma load_records tds :
  forall s,
    NoDup (keys (tabs s) ++ map td_id tds) ->
    fold_left
      (fun s tabData =>
         if tabs_has (td_id tabData) (tabs s) then s
         else with_tabs (tabs_set (td_id tabData) (restoreNode tabData)) s) tds s
    = with_tabs (fun m => m ++ map (fun td => (td_id td, restoreNode td)) tds) s.
Proof.
  induction tds as [|td tds IH]; intros s Hnd; simpl.
  - unfold with_tabs. rewrite app_nil_r. now destruct s.
  - assert (Hfresh : tabs_has (td_id td) (tabs s) = false).
    { apply tabs_has_false. intros Hin. apply NoDup_remove_2 in Hnd.
      apply Hnd. apply in_or_app. now left. }
    rewrite Hfresh. rewrite IH.
    + unfold with_tabs. simpl. rewrite (tabs_set_fresh _ _ _ Hfresh).
      now rewrite <- app_assoc.
    + simpl. rewrite (tabs_set_fresh _ _ _ Hfresh). unfold keys.
      rewrite map_app. simpl. now rewrite <- app_assoc.
Qed.

Lemma restore_saved e : id (snd e) = fst e -> restoreNode (tabData_of e) = untouched (snd e).
Proof.
  destruct e as [k n]. simpl. intros <-. unfold restoreNode, tabData_of, untouched. simpl.
  destruct n as [i p c l col ttl ty nt sel]. simpl.
  unfold set_selected, set_level. simpl. f_equal.
  - now destruct (ttl =? "") eqn:E; [apply String.eqb_eq in E|].
  - now destruct (ty =? "") eqn:E; [apply String.eqb_eq in E|].
Qed.

Lemma keys_ok_entries m :
  NoDup (keys m) -> keys_ok m -> forall e, In e m -> id (snd e) = fst e.
Proof.
  induction m as [|[k v] m IH]; intros Hnd Hok e Hin; [destruct Hin|].
  inversion Hnd as [|? ? Hni Hnd']; subst. destruct Hin as [<-|Hin].
  - simpl. apply Hok. simpl. now rewrite String.eqb_refl.
  - apply IH; [exact Hnd' | | exact Hin].
    intros k' n' Hget. apply Hok. simpl.
    destruct (k' =? k) eqn:E; [|exact Hget].
    apply String.eqb_eq in E. subst. exfalso. apply Hni.
    apply tabs_get_In. congruence.
Qed.

Lemma load_save s :
  NoDup (keys (tabs s)) -> NoDup (collapsedSet s) -> keys_ok (tabs s) ->
  loadTreeStructure (Some (saveTreeStructure s)) emptyTree
  = mkTreeData (map (fun e => (fst e, untouched (snd e))) (tabs s)) (roots s) (collapsedSet s) None.
Proof.
  intros Hnd Hcol Hok. unfold loadTreeStructure, saveTreeStructure. simpl.
  rewrite load_records.
  - unfold with_tabs. simpl. rewrite (set_of_NoDup _ Hcol). f_equal.
    rewrite map_map.
    apply map_ext_in. intros e He. simpl.
    now rewrite (restore_saved e (keys_ok_entries _ Hnd Hok e He)).
  - simpl. rewrite map_map. exact Hnd.
Qed.

Lemma tabs_get_map (f : TabNode -> TabNode) k m :
  tabs_get k (map (fun e => (fst e, f (snd e))) m) = option_map f (tabs_get k m).
Proof.
  induction m as [|[k' v] m IH]; simpl; [reflexivity|].
  destruct (k =? k'); [reflexivity | exact IH].
Qed.

Lemma keys_map (f : TabNode -> TabNode) m : keys (map (fun e => (fst e, f (snd e))) m) = keys m.
Proof. unfold keys. rewrite map_map. reflexivity. Qed.

Lemma forest_leveled_agree m m' F :
  Forall (leveled m 0) F -> Forall (leveled m' 0) F ->
  forall k, In k (flat_map ids F) -> option_map level (tabs_get k m') = option_map level (tabs_get k m).
Proof.
  intros H H' k Hk. apply in_flat_map in Hk. destruct Hk as (t & Ht & Hk).
  rewrite Forall_forall in *. eapply leveled_agree; eauto.
Qed.

(** C8.  For a store that lists the forest [F] under its roots, with every
    node in [F] and every level equal to the depth: loading the saved
    document into the empty store gives back the same roots, the same
    collapsed set, the same keys in the same order and, for every node, the
    same fields except [level] (0) and [selected] (false);
    [recalculateLevels] on the loaded store then restores every level. *)
Theorem C8_save_load_round_trip :
  forall F s fuel,
    roots s = map root_of F ->
    Forall (shaped (tabs s)) F ->
    Forall (leveled (tabs s) 0) F ->
    NoDup (flat_map ids F) ->
    (forall k, In k (keys (tabs s)) -> In k (flat_map ids F)) ->
    NoDup (keys (tabs s)) ->
    keys_ok (tabs s) ->
    NoDup (collapsedSet s) ->
    Forall (fun t => height t <= fuel) F ->
    roots (loadTreeStructure (Some (saveTreeStructure s)) emptyTree) = roots s
    /\ collapsedSet (loadTreeStructure (Some (saveTreeStructure s)) emptyTree) = collapsedSet s
    /\ keys (tabs (loadTreeStructure (Some (saveTreeStructure s)) emptyTree)) = keys (tabs s)
    /\ (forall k n, tabs_get k (tabs s) = Some n ->
          tabs_get k (tabs (loadTreeStructure (Some (saveTreeStructure s)) emptyTree))
          = Some (untouched n))
    /\ recalculateLevels fuel (loadTreeStructure (Some (saveTreeStructure s)) emptyTree)
       = Done (mkTreeData (map (fun e => (fst e, set_selected false (snd e))) (tabs s))
                 (roots s) (collapsedSet s) None).
Proof.
  intros F s fuel Hroots Hsh Hlev HndF Hcover Hnd Hok Hcol Hh.
  rewrite (load_save s Hnd Hcol Hok). simpl.
  split; [reflexivity|]. split; [reflexivity|]. split; [apply keys_map|].
  split; [intros k n Hget; now rewrite tabs_get_map, Hget|].
  set (m0 := map (fun e => (fst e, untouched (snd e))) (tabs s)).
  assert (Hsh0 : Forall (shaped m0) F).
  { rewrite Forall_forall in *. intros t Ht. eapply shaped_ext; [|apply Hsh, Ht].
    intros k. unfold m0. rewrite tabs_get_map. now destruct (tabs_get k (tabs s)). }
  rewrite (recalculateLevels_shaped F fuel); try assumption.
  unfold with_tabs. simpl. do 2 f_equal.
  pose proof (releveled_relevel_all F 0 m0) as [Hkeys Hsame].
  assert (HlevF : Forall (leveled (relevel_all 0 F m0) 0) F).
  { apply relevel_all_leveled; [|exact Hsh0 | exact HndF].
    apply Forall_forall. intros t _ d m. apply relevel_leveled. }
  apply store_ext.
  - rewrite Hkeys. unfold m0. now rewrite !keys_map.
  - rewrite Hkeys. unfold m0. now rewrite keys_map.
  - intros k Hk. rewrite Hkeys in Hk. unfold m0 in Hk. rewrite keys_map in Hk.
    pose proof (forest_leveled_agree _ _ F Hlev HlevF k (Hcover k Hk)) as Hl.
    specialize (Hsame k). unfold m0 in Hsame at 2. rewrite tabs_get_map in Hsame.
    rewrite tabs_get_map.
    apply tabs_get_In in Hk. destruct (tabs_get k (tabs s)) as [n|]; [|congruence].
    destruct (tabs_get k (relevel_all 0 F m0)) as [nF|]; [|discriminate].
    cbn [option_map] in *.
    assert (E0 : set_level 0 nF = set_level 0 (untouched n)) by congruence.
    assert (El : level nF = level n) by congruence.
    f_equal. clear - E0 El.
    destruct nF, n. unfold untouched, set_level, set_selected in *. simpl in *.
    congruence.
Qed.

(** C8 on the chain "a" > "b" > "c". *)
Lemma C8_save_load_round_trip_witness :
  recalculateLevels 3 (loadTreeStructure (Some (saveTreeStructure chainStore)) emptyTree)
  = Done (mkTreeData (map (fun e => (fst e, set_selected false (snd e))) (tabs chainStore))
            (roots chainStore) (collapsedSet chainStore) None).
Proof.
  apply (C8_save_load_round_trip [chainTree] chainStore 3).
  - reflexivity.
  - repeat constructor.
  - repeat constructor.
  - apply distinctb_NoDup. reflexivity.
  - simpl. tauto.
  - apply distinctb_NoDup. reflexivity.
  - apply keys_okb_ok. reflexivity.
  - constructor.
  - repeat constructor.
Defined.

(** ** Removing a node and promoting its children *)

Lemma modify_modify k f g m :
  modify k f (modify k g m) = modify k (fun n => f (g n)) m.
Proof.
  induction m as [|[k' v] m IH]; simpl; [reflexivity|].
  destruct (k =? k') eqn:E; simpl; rewrite E; [reflexivity | now rewrite IH].
Qed.

Lemma tabs_get_modify k j f m :
  tabs_get j (modify k f m) = if k =? j then option_map f (tabs_get j m) else tabs_get j m.
Proof.
  destruct (String.eqb_spec k j) as [->|Hne].
  - apply tabs_get_modify_same.
  - now apply tabs_get_modify_other.
Qed.

Lemma childIds_modify k j f m :
  (forall n, childIds (f n) = childIds n) ->
  option_map childIds (tabs_get j (modify k f m)) = option_map childIds (tabs_get j m).
Proof.
  intros Hf. rewrite tabs_get_modify. destruct (k =? j); [|reflexivity].
  destruct (tabs_get j m); simpl; [now rewrite Hf | reflexivity].
Qed.

Lemma shaped_ext_on m m' t :
  (forall k, In k (ids t) ->
     option_map childIds (tabs_get k m') = option_map childIds (tabs_get k m)) ->
  shaped m t -> shaped m' t.
Proof.
  induction t as [i ks IH] using tree_rose_ind. intros Hext [H1 H2]. simpl. split.
  - rewrite Hext; [exact H1 | simpl; auto].
  - apply all_map_Forall. apply all_map_Forall in H2.
    rewrite Forall_forall in *. intros k Hk. apply IH; [exact Hk | | auto].
    intros j Hj. apply Hext. simpl. right. apply in_flat_map. eauto.
Qed.

Lemma adopt_childIds pP L k m j :
  option_map childIds (tabs_get j (adopt pP L k m)) = option_map childIds (tabs_get j m).
Proof.
  unfold adopt.
  rewrite (releveled_field childIds _ _ (fun _ => eq_refl) (releveled_relevel k L _) j).
  now apply childIds_modify.
Qed.

Lemma adopt_other pP L k m j :
  ~ In j (ids k) -> tabs_get j (adopt pP L k m) = tabs_get j m.
Proof.
  intros Hj. unfold adopt. rewrite tabs_get_relevel by exact Hj.
  apply tabs_get_modify_other. intros E. apply Hj. rewrite <- E. destruct k; simpl; auto.
Qed.

Lemma keys_adopt pP L k m : keys (adopt pP L k m) = keys m.
Proof.
  unfold adopt. destruct (releveled_relevel k L (modify (root_of k) (set_parentId pP) m)) as [-> _].
  apply keys_modify.
Qed.

Lemma attachChild_get pP c s j :
  truthy pP <> Some j -> tabs_get j (tabs (attachChild pP c s)) = tabs_get j (tabs s).
Proof.
  intros Hj. unfold attachChild. destruct (truthy pP) as [g|].
  - simpl. apply tabs_get_modify_other. congruence.
  - now destruct (includes c (roots s)).
Qed.

Lemma keys_attachChild pP c s : keys (tabs (attachChild pP c s)) = keys (tabs s).
Proof.
  unfold attachChild. destruct (truthy pP) as [g|].
  - apply keys_modify.
  - now destruct (includes c (roots s)).
Qed.

Lemma promoted_get pP L s k j :
  ~ In j (ids k) -> truthy pP <> Some j ->
  tabs_get j (tabs (promoted pP L s k)) = tabs_get j (tabs s).
Proof.
  intros Hj Hg. unfold promoted. rewrite attachChild_get by exact Hg.
  simpl. now apply adopt_other.
Qed.

Lemma promoted_childIds pP L s k j :
  truthy pP <> Some j ->
  option_map childIds (tabs_get j (tabs (promoted pP L s k)))
  = option_map childIds (tabs_get j (tabs s)).
Proof.
  intros Hg. unfold promoted. rewrite attachChild_get by exact Hg.
  simpl. apply adopt_childIds.
Qed.

Lemma promoteChild_shaped fuel P nP k s :
  tabs_get P (tabs s) = Some nP ->
  shaped (tabs s) k -> NoDup (ids k) -> height k <= fuel ->
  promoteChild fuel P (root_of k) s = Done (promoted (parentId nP) (level nP) s k).
Proof.
  intros HP Hsh Hnd Hh. unfold promoteChild. rewrite HP.
  assert (Hlive : tabs_get (root_of k) (tabs s) <> None).
  { eapply shaped_live; [exact Hsh|]. destruct k; simpl; auto. }
  destruct (tabs_get (root_of k) (tabs s)) eqn:E; [|congruence].
  rewrite updateChildLevels_shaped; [| | exact Hnd | exact Hh].
  - simpl. unfold level_of. rewrite tabs_get_modify_same, E. simpl.
    assert (Hs : with_tabs (relevel_all (S (level nP)) (kids_of k))
                   (with_tabs (modify (root_of k)
                                 (fun c => set_level (level nP) (set_parentId (parentId nP) c))) s)
                 = with_tabs (adopt (parentId nP) (level nP) k) s).
    { unfold adopt, with_tabs. simpl. destruct k as [c kk]. simpl.
      now rewrite modify_modify. }
    rewrite Hs. unfold promoted, attachChild.
    destruct (truthy (parentId nP)); reflexivity.
  - simpl. eapply shaped_ext; [|exact Hsh]. intros j. now apply childIds_modify.
Qed.

Lemma promote_loop fuel P nP ks :
  forall s,
    tabs_get P (tabs s) = Some nP ->
    Forall (shaped (tabs s)) ks ->
    NoDup (flat_map ids ks) ->
    ~ In P (flat_map ids ks) ->
    (forall G, truthy (parentId nP) = Some G -> G <> P /\ ~ In G (flat_map ids ks)) ->
    Forall (fun k => height k <= fuel) ks ->
    for_of (map root_of ks) (promoteChild fuel P) s
    = Done (fold_left (promoted (parentId nP) (level nP)) ks s).
Proof.
  induction ks as [|k ks IH]; intros s HP Hsh Hnd HPout HG Hh; simpl; [reflexivity|].
  inversion Hsh as [|? ? Hshk Hsh']; subst.
  inversion Hh as [|? ? Hhk Hh']; subst.
  destruct (NoDup_flat_map_head _ _ Hnd) as (Hndk & Hnd' & Hdisj).
  simpl in HPout.
  rewrite (promoteChild_shaped fuel P nP k s HP Hshk Hndk Hhk). simpl.
  assert (HGk : forall j, In j (flat_map ids ks) \/ j = P -> truthy (parentId nP) <> Some j).
  { intros j Hj Hg. destruct (HG j Hg) as [Hne Hout]. destruct Hj as [Hj| ->]; [|congruence].
    apply Hout. simpl. apply in_or_app. now right. }
  apply IH.
  - rewrite promoted_get; [exact HP | | apply HGk; now right].
    intros Hin. apply HPout. apply in_or_app. now left.
  - rewrite Forall_forall in *. intros t Ht.
    eapply shaped_ext_on; [|apply Hsh', Ht].
    intros j Hj. apply promoted_childIds. apply HGk. left. apply in_flat_map. eauto.
  - exact Hnd'.
  - intros Hin. apply HPout. apply in_or_app. now right.
  - intros G Hg. destruct (HG G Hg) as [Hne Hout]. split; [exact Hne|].
    intros Hin. apply Hout. simpl. apply in_or_app. now right.
  - exact Hh'.
Qed.

Section Promotion.

Variables (pP : option string) (L : nat).

Lemma fold_promoted_keys ks s :
  keys (tabs (fold_left (promoted pP L) ks s)) = keys (tabs s).
Proof.
  apply (fold_left_rel (fun a b => keys (tabs b) = keys (tabs a))); [reflexivity | congruence |].
  intros a k _. unfold promoted. rewrite keys_attachChild. simpl. apply keys_adopt.
Qed.

Lemma fold_promoted_collapsedSet ks s :
  collapsedSet (fold_left (promoted pP L) ks s) = collapsedSet s.
Proof.
  apply (fold_left_rel (fun a b => collapsedSet b = collapsedSet a)); [reflexivity | congruence |].
  intros a k _. unfold promoted, attachChild. destruct (truthy pP); [reflexivity|].
  simpl. now destruct (includes (root_of k) (roots a)).
Qed.

Lemma fold_promoted_get ks s j :
  ~ In j (flat_map ids ks) -> truthy pP <> Some j ->
  tabs_get j (tabs (fold_left (promoted pP L) ks s)) = tabs_get j (tabs s).
Proof.
  intros Hj Hg.
  apply (fold_left_rel (fun a b => tabs_get j (tabs b) = tabs_get j (tabs a)));
    [reflexivity | congruence |].
  intros a k Hk. apply promoted_get; [|exact Hg].
  intros Hin. apply Hj. apply in_flat_map. eauto.
Qed.

Lemma fold_promoted_childIds ks s j :
  truthy pP <> Some j ->
  option_map childIds (tabs_get j (tabs (fold_left (promoted pP L) ks s)))
  = option_map childIds (tabs_get j (tabs s)).
Proof.
  intros Hg.
  apply (fold_left_rel (fun a b => option_map childIds (tabs_get j (tabs b))
                                   = option_map childIds (tabs_get j (tabs a))));
    [reflexivity | congruence |].
  intros a k _. now apply promoted_childIds.
Qed.

Lemma fold_promoted_parent G ks :
  truthy pP = Some G ->
  forall s g,
    ~ In G (flat_map ids ks) ->
    tabs_get G (tabs s) = Some g ->
    tabs_get G (tabs (fold_left (promoted pP L) ks s))
    = Some (set_childIds (childIds g ++ map root_of ks) g)
    /\ roots (fold_left (promoted pP L) ks s) = roots s.
Proof.
  intros HG. induction ks as [|k ks IH]; intros s g Hout Hget; simpl.
  - rewrite app_nil_r. split; [|reflexivity]. rewrite Hget. now destruct g.
  - simpl in Hout.
    assert (Hk : tabs_get G (tabs (promoted pP L s k))
                 = Some (set_childIds (childIds g ++ [root_of k]) g)).
    { unfold promoted, attachChild. rewrite HG. simpl.
      rewrite tabs_get_modify_same, adopt_other, Hget; [reflexivity|].
      intros Hin. apply Hout. apply in_or_app. now left. }
    destruct (IH (promoted pP L s k) _ (fun H => Hout (in_or_app _ _ _ (or_intror H))) Hk)
      as [Hg Hr].
    split.
    + rewrite Hg. simpl. now rewrite <- app_assoc.
    + rewrite Hr. unfold promoted, attachChild. now rewrite HG.
Qed.

Lemma fold_promoted_roots ks :
  truthy pP = None ->
  forall s,
    NoDup (roots s ++ map root_of ks) ->
    roots (fold_left (promoted pP L) ks s) = roots s ++ map root_of ks.
Proof.
  intros HG. induction ks as [|k ks IH]; intros s Hnd; simpl.
  - now rewrite app_nil_r.
  - simpl in Hnd.
    assert (Hk : roots (promoted pP L s k) = roots s ++ [root_of k]).
    { unfold promoted, attachChild. rewrite HG. simpl.
      assert (Hx : includes (root_of k) (roots s) = false).
      { apply includes_false. intros Hin. apply NoDup_remove_2 in Hnd.
        apply Hnd. apply in_or_app. now left. }
      now rewrite Hx. }
    rewrite IH; rewrite Hk, <- app_assoc; [reflexivity | exact Hnd].
Qed.

Lemma fold_promoted_kids ks :
  forall s,
    Forall (shaped (tabs s)) ks ->
    NoDup (flat_map ids ks) ->
    (forall G, truthy pP = Some G -> ~ In G (flat_map ids ks)) ->
    Forall (fun k =>
              leveled (tabs (fold_left (promoted pP L) ks s)) L k
              /\ option_map parentId (tabs_get (root_of k) (tabs (fold_left (promoted pP L) ks s)))
                 = Some pP) ks.
Proof.
  induction ks as [|k ks IH]; intros s Hsh Hnd HG; constructor;
    inversion Hsh as [|? ? Hshk Hsh']; subst;
    destruct (NoDup_flat_map_head _ _ Hnd) as (Hndk & Hnd' & Hdisj).
  - assert (Hkeep : forall j, In j (ids k) ->
              tabs_get j (tabs (fold_left (promoted pP L) ks (promoted pP L s k)))
              = tabs_get j (adopt pP L k (tabs s))).
    { intros j Hj. rewrite fold_promoted_get.
      - unfold promoted. rewrite attachChild_get; [reflexivity|].
        intros Hg. apply (HG j Hg). simpl. apply in_or_app. now left.
      - now apply Hdisj.
      - intros Hg. apply (HG j Hg). simpl. apply in_or_app. now left. }
    assert (Hsh1 : shaped (modify (root_of k) (set_parentId pP) (tabs s)) k).
    { eapply shaped_ext; [|exact Hshk]. intros j. now apply childIds_modify. }
    simpl. split.
    + eapply leveled_ext; [exact Hkeep|]. unfold adopt. now apply relevel_leveled.
    + rewrite Hkeep by (destruct k; simpl; auto). unfold adopt.
      rewrite (releveled_field parentId _ _ (fun _ => eq_refl) (releveled_relevel k L _)).
      rewrite tabs_get_modify_same.
      assert (Hlive : tabs_get (root_of k) (tabs s) <> None).
      { eapply shaped_live; [exact Hshk|]. destruct k; simpl; auto. }
      destruct (tabs_get (root_of k) (tabs s)); [reflexivity | congruence].
  - simpl. apply IH.
    + rewrite Forall_forall in *. intros t Ht.
      eapply shaped_ext_on; [|apply Hsh', Ht].
      intros j Hj. apply promoted_childIds.
      intros Hg. apply (HG j Hg). simpl. apply in_or_app. right. apply in_flat_map. eauto.
    + exact Hnd'.
    + intros G Hg Hin. apply (HG G Hg). simpl. apply in_or_app. now right.
Qed.

End Promotion.

Lemma remove_first_In x y l : In y (remove_first x l) -> In y l.
Proof.
  induction l as [|z l IH]; simpl; [tauto|].
  destruct (x =? z); simpl; tauto.
Qed.

Lemma remove_first_NoDup x l : NoDup l -> ~ In x (remove_first x l).
Proof.
  induction l as [|z l IH]; simpl; intros Hnd; [tauto|].
  inversion Hnd as [|? ? Hni Hnd']; subst.
  destruct (String.eqb_spec x z) as [->|Hne]; [exact Hni|].
  simpl. intros [E|Hin]; [congruence | now apply IH].
Qed.

Lemma remove_first_app x l1 l2 :
  ~ In x l2 -> remove_first x (l1 ++ l2) = remove_first x l1 ++ l2.
Proof.
  intros H2. induction l1 as [|z l1 IH]; simpl.
  - induction l2 as [|w l2 IH2]; simpl; [reflexivity|].
    destruct (String.eqb_spec x w) as [->|Hne]; [exfalso; apply H2; now left|].
    f_equal. apply IH2. intros Hin. apply H2. now right.
  - destruct (x =? z); [reflexivity | now rewrite IH].
Qed.

Lemma In_root_of_ids (k : tree) ks : In k ks -> In (root_of k) (flat_map ids ks).
Proof. intros H. apply in_flat_map. exists k. split; [exact H | destruct k; simpl; auto]. Qed.

Lemma map_root_of_ids ks j : In j (map root_of ks) -> In j (flat_map ids ks).
Proof.
  intros H. apply in_map_iff in H. destruct H as (k & <- & Hk). now apply In_root_of_ids.
Qed.

(** C5 (amended).  [P] has the subtrees [ks] below it, in that order.
    [removeNodeFromTree(P, true)] returns, and afterwards: [P] is in
    neither the store, nor [roots], nor the collapsed set, nor any
    [childIds]; when [P] hung under [G], the children of [P] stand, in their
    order, at the END of [G]'s [childIds], after the former siblings of [P];
    when [P] was a root they stand at the end of [roots]; each child has
    the parent and the level [P] had, and the levels below it follow. *)
Theorem C5_children_promoted_at_end :
  forall fuel s P nP ks,
    tabs_get P (tabs s) = Some nP ->
    shaped (tabs s) (T P ks) ->
    NoDup (ids (T P ks)) ->
    Forall (fun k => height k <= fuel) ks ->
    NoDup (keys (tabs s)) ->
    NoDup (collapsedSet s) ->
    (forall G, truthy (parentId nP) = Some G ->
       ~ In G (ids (T P ks)) /\ ~ In P (roots s)
       /\ exists g, tabs_get G (tabs s) = Some g /\ NoDup (childIds g)) ->
    (truthy (parentId nP) = None -> NoDup (roots s ++ map root_of ks)) ->
    (forall j n, tabs_get j (tabs s) = Some n -> In P (childIds n) ->
       truthy (parentId nP) = Some j) ->
    exists s',
      removeNodeFromTree fuel P true s = Done s'
      /\ tabs_get P (tabs s') = None
      /\ ~ In P (roots s')
      /\ ~ In P (collapsedSet s')
      /\ (forall j n, tabs_get j (tabs s') = Some n -> ~ In P (childIds n))
      /\ (forall G g, truthy (parentId nP) = Some G -> tabs_get G (tabs s) = Some g ->
            roots s' = roots s
            /\ option_map childIds (tabs_get G (tabs s'))
               = Some (remove_first P (childIds g) ++ map root_of ks))
      /\ (truthy (parentId nP) = None ->
            roots s' = remove_first P (roots s) ++ map root_of ks)
      /\ Forall (fun k =>
                   leveled (tabs s') (level nP) k
                   /\ option_map parentId (tabs_get (root_of k) (tabs s')) = Some (parentId nP)) ks.
Proof.
  intros fuel s P nP ks HP Hsh Hnd Hh Hkeys Hcol Hpar Hroot Honly.
  destruct (shaped_get _ _ _ Hsh) as (nP' & HP' & Hkids).
  rewrite HP in HP'. injection HP' as <-.
  pose proof (shaped_kids _ _ _ Hsh) as Hshk.
  inversion Hnd as [|? ? HPout Hndk]; subst.
  assert (HPkids : ~ In P (map root_of ks)).
  { intros Hin. apply HPout. now apply map_root_of_ids. }
  assert (HG : forall G, truthy (parentId nP) = Some G -> G <> P /\ ~ In G (flat_map ids ks)).
  { intros G Hg. destruct (Hpar G Hg) as (Hout & _). simpl in Hout. split.
    - intros ->. apply Hout. now left.
    - intros Hin. apply Hout. now right. }
  set (s1 := fold_left (promoted (parentId nP) (level nP)) ks s).
  assert (Hloop : for_of (childIds nP) (promoteChild fuel P) s = Done s1).
  { rewrite Hkids. now apply promote_loop. }
  assert (Hkeys1 : NoDup (keys (tabs s1))).
  { unfold s1. now rewrite fold_promoted_keys. }
  pose proof (fold_promoted_kids (parentId nP) (level nP) ks s Hshk Hndk
                (fun G Hg => proj2 (HG G Hg))) as Hk1.
  fold s1 in Hk1.
  assert (Hcol1 : NoDup (collapsedSet s1)).
  { unfold s1. now rewrite fold_promoted_collapsedSet. }
  unfold removeNodeFromTree. rewrite HP, Hloop. simpl.
  destruct (truthy (parentId nP)) as [G|] eqn:Hg.
  - (* P hangs under G *)
    destruct (HG G eq_refl) as [HGP HGout].
    destruct (Hpar G eq_refl) as (_ & HProots & g & Hgget & Hgnd).
    assert (E : (G =? P) = false) by now apply String.eqb_neq.
    rewrite E. simpl.
    destruct (fold_promoted_parent (parentId nP) (level nP) G ks Hg s g HGout Hgget)
      as [Hg1 Hr1]. fold s1 in Hg1, Hr1.
    eexists. split; [reflexivity|]. simpl.
    assert (Hget' : forall j, j <> P -> j <> G ->
              tabs_get j (tabs_delete P
                (modify G (fun n => set_childIds (remove_first P (childIds n)) n) (tabs s1)))
              = tabs_get j (tabs s1)).
    { intros j HjP HjG. rewrite tabs_get_delete_other by congruence.
      apply tabs_get_modify_other. congruence. }
    assert (HgetG : tabs_get G (tabs_delete P
                (modify G (fun n => set_childIds (remove_first P (childIds n)) n) (tabs s1)))
              = Some (set_childIds (remove_first P (childIds g) ++ map root_of ks) g)).
    { rewrite tabs_get_delete_other by congruence.
      rewrite tabs_get_modify_same, Hg1. simpl.
      now rewrite (remove_first_app _ _ _ HPkids). }
    split. { apply tabs_get_delete_same. now rewrite keys_modify. }
    split. { now rewrite Hr1. }
    split. { now apply remove_first_NoDup. }
    split.
    { intros j n Hj Hin.
      destruct (String.eqb_spec j P) as [->|HjP].
      { rewrite tabs_get_delete_same in Hj; [discriminate | now rewrite keys_modify]. }
      destruct (String.eqb_spec j G) as [->|HjG].
      * rewrite HgetG in Hj. injection Hj as <-. simpl in Hin.
        apply in_app_or in Hin. destruct Hin as [Hin|Hin]; [|contradiction].
        now apply (remove_first_NoDup P (childIds g)).
      * rewrite Hget' in Hj by assumption.
        assert (Hc : option_map childIds (tabs_get j (tabs s1))
                     = option_map childIds (tabs_get j (tabs s))).
        { apply fold_promoted_childIds. rewrite Hg. congruence. }
        rewrite Hj in Hc.
        destruct (tabs_get j (tabs s)) as [n0|] eqn:Hj0; [|discriminate].
        simpl in Hc. injection Hc as E0. rewrite E0 in Hin.
        specialize (Honly j n0 Hj0 Hin). congruence. }
    split.
    { intros G' g' HG' Hg'. injection HG' as <-. rewrite Hgget in Hg'. injection Hg' as <-.
      split; [exact Hr1 | now rewrite HgetG]. }
    split. { discriminate. }
    rewrite Forall_forall in *. intros k Hk. destruct (Hk1 k Hk) as [Hlev Hpk].
    assert (Hin : forall j, In j (ids k) -> j <> P /\ j <> G).
    { intros j Hj. assert (In j (flat_map ids ks)) by (apply in_flat_map; eauto).
      split; intros ->; contradiction. }
    split.
    + eapply leveled_ext; [|exact Hlev]. intros j Hj.
      destruct (Hin j Hj). now apply Hget'.
    + destruct (Hin (root_of k)) as [? ?]; [destruct k; simpl; auto|].
      now rewrite Hget'.
  - (* P is a root *)
    specialize (Hroot eq_refl).
    pose proof (fold_promoted_roots (parentId nP) (level nP) ks Hg s Hroot) as Hr1.
    fold s1 in Hr1.
    eexists. split; [reflexivity|]. simpl.
    assert (Hget' : forall j, j <> P ->
              tabs_get j (tabs_delete P (tabs s1)) = tabs_get j (tabs s1)).
    { intros j HjP. apply tabs_get_delete_other. congruence. }
    assert (Hroots' : remove_first P (roots s1) = remove_first P (roots s) ++ map root_of ks).
    { rewrite Hr1. now apply remove_first_app. }
    split. { now apply tabs_get_delete_same. }
    split.
    { rewrite Hroots'. intros Hin. apply in_app_or in Hin.
      destruct Hin as [Hin|Hin]; [|contradiction].
      apply NoDup_app_remove_r in Hroot. now apply (remove_first_NoDup P (roots s)). }
    split. { now apply remove_first_NoDup. }
    split.
    { intros j n Hj Hin.
      destruct (String.eqb_spec j P) as [->|HjP].
      { rewrite tabs_get_delete_same in Hj; [discriminate | exact Hkeys1]. }
      rewrite Hget' in Hj by assumption.
      assert (Hc : option_map childIds (tabs_get j (tabs s1))
                   = option_map childIds (tabs_get j (tabs s))).
      { apply fold_promoted_childIds. rewrite Hg. congruence. }
      rewrite Hj in Hc.
      destruct (tabs_get j (tabs s)) as [n0|] eqn:Hj0; [|discriminate].
      simpl in Hc. injection Hc as E0. rewrite E0 in Hin.
      specialize (Honly j n0 Hj0 Hin). congruence. }
    split. { discriminate. }
    split. { intros _. exact Hroots'. }
    rewrite Forall_forall in *. intros k Hk. destruct (Hk1 k Hk) as [Hlev Hpk].
    assert (Hin : forall j, In j (ids k) -> j <> P).
    { intros j Hj. assert (In j (flat_map ids ks)) by (apply in_flat_map; eauto).
      intros ->; contradiction. }
    split.
    + eapply leveled_ext; [|exact Hlev]. intros j Hj. now apply Hget', Hin.
    + rewrite Hget'; [exact Hpk|]. apply Hin. destruct k; simpl; auto.
Qed.

(** C5 (counterexample).  "G" lists [P; Q] and "P" lists [A; B; C].
    After [removeNodeFromTree("P", true)], "G" lists [Q; A; B; C]: the
    children of "P" follow "Q" instead of standing where "P" stood. *)
Lemma C5_not_at_former_position :
  exists s',
    removeNodeFromTree 3 "P" true familyStore = Done s'
    /\ option_map childIds (tabs_get "G" (tabs s')) = Some ["Q"; "A"; "B"; "C"]
    /\ option_map childIds (tabs_get "G" (tabs s')) <> Some ["A"; "B"; "C"; "Q"].
Proof.
  eexists. split; [reflexivity|]. split; [reflexivity | discriminate].
Qed.

(** C5 (amended) on the family store. *)
Lemma C5_children_promoted_at_end_witness :
  exists s',
    removeNodeFromTree 3 "P" true familyStore = Done s'
    /\ tabs_get "P" (tabs s') = None
    /\ option_map childIds (tabs_get "G" (tabs s'))
       = Some (remove_first "P" ["P"; "Q"] ++ ["A"; "B"; "C"]).
Proof.
  destruct (C5_children_promoted_at_end 3 familyStore "P"
              (member "P" (Some "G") ["A"; "B"; "C"] 1 true) belowP)
    as (s' & Hrun & Hgone & _ & _ & _ & Hparent & _).
  - reflexivity.
  - repeat split.
  - apply distinctb_NoDup. reflexivity.
  - repeat constructor.
  - apply distinctb_NoDup. reflexivity.
  - apply distinctb_NoDup. reflexivity.
  - intros G HG. injection HG as <-. split; [|split].
    + apply includes_false. reflexivity.
    + apply includes_false. reflexivity.
    + eexists. split; [reflexivity|]. apply distinctb_NoDup. reflexivity.
  - discriminate.
  - intros j n Hget Hin. simpl in Hget.
    repeat match type of Hget with
           | context [if ?a =? ?b then _ else _] =>
               destruct (String.eqb_spec a b) as [->|?];
                 [injection Hget as <-; simpl in Hin;
                  try reflexivity; exfalso; intuition discriminate|]
           end.
    discriminate.
  - exists s'. split; [exact Hrun|]. split; [exact Hgone|].
    exact (proj2 (Hparent "G" (member "G" None ["P"; "Q"] 0 false) eq_refl eq_refl)).
Defined.

(** ** The collapsed flag and the collapsed set in lockstep *)

Lemma same_flags_refl s : same_flags s s.
Proof. repeat split. Qed.

Lemma same_flags_trans s1 s2 s3 : same_flags s1 s2 -> same_flags s2 s3 -> same_flags s1 s3.
Proof.
  intros (K1 & C1 & F1) (K2 & C2 & F2). split; [congruence|]. split; [congruence|].
  intros k. now rewrite F2.
Qed.

Lemma same_flags_modify k f s :
  (forall n, flags (f n) = flags n) -> same_flags s (with_tabs (modify k f) s).
Proof.
  intros Hf. split; [apply keys_modify|]. split; [reflexivity|]. intros j. simpl.
  rewrite tabs_get_modify. destruct (k =? j); [|reflexivity].
  destruct (tabs_get j (tabs s)); simpl; [now rewrite Hf | reflexivity].
Qed.

Lemma same_flags_map f s :
  (forall n, flags (f n) = flags n) ->
  same_flags s (with_tabs (map (fun e => (fst e, f (snd e)))) s).
Proof.
  intros Hf. split; [apply keys_map|]. split; [reflexivity|]. intros j. simpl.
  rewrite tabs_get_map. destruct (tabs_get j (tabs s)); simpl; [now rewrite Hf | reflexivity].
Qed.

Lemma same_flags_map_entry (g : string * TabNode -> TabNode) s :
  (forall e, flags (g e) = flags (snd e)) ->
  same_flags s (with_tabs (map (fun e => (fst e, g e))) s).
Proof.
  intros Hg. split; [|split; [reflexivity|]]; simpl.
  - unfold keys. rewrite map_map. reflexivity.
  - intros j. induction (tabs s) as [|[k v] m IH]; simpl; [reflexivity|].
    destruct (j =? k); [|exact IH]. simpl. now rewrite Hg.
Qed.

Lemma same_flags_roots f s : same_flags s (with_roots f s).
Proof. repeat split. Qed.

Lemma same_flags_lastActive v s : same_flags s (with_lastActive v s).
Proof. repeat split. Qed.

Create HintDb flags discriminated.
#[local] Hint Resolve same_flags_refl same_flags_roots same_flags_lastActive : flags.
#[local] Hint Extern 1 (same_flags _ (with_tabs (modify _ _) _)) =>
  apply same_flags_modify; intros []; reflexivity : flags.
#[local] Hint Extern 1 (same_flags _ (with_tabs (map _) _)) =>
  apply same_flags_map; intros []; reflexivity : flags.

(** Chain [same_flags] steps through nested state updates. *)
Ltac flags_step :=
  match goal with
  | |- same_flags ?s ?s => apply same_flags_refl
  | |- same_flags ?s (with_tabs ?f ?s1) =>
      apply (same_flags_trans s s1); [|solve [auto with flags]]
  | |- same_flags ?s (with_roots ?f ?s1) =>
      apply (same_flags_trans s s1); [|solve [auto with flags]]
  | |- same_flags ?s (with_lastActive ?v ?s1) =>
      apply (same_flags_trans s s1); [|solve [auto with flags]]
  end.

Ltac flags_chain := repeat flags_step; auto with flags.

Lemma flags_inv_same s s' : flags_inv s -> same_flags s s' -> flags_inv s'.
Proof.
  intros (Hnd & Hok & Hcol & Hex) (K & C & F). unfold flags_inv. rewrite K, C.
  split; [exact Hnd|]. split; [|split; [exact Hcol|]].
  - intros k n' Hget. specialize (F k). rewrite Hget in F.
    destruct (tabs_get k (tabs s)) as [n|] eqn:E; [|discriminate].
    simpl in F. injection F as Hid _. rewrite Hid. eauto.
  - intros k. unfold exact_set in Hex. rewrite C, Hex. specialize (F k). split.
    + intros (n & Hget & Hc). rewrite Hget in F.
      destruct (tabs_get k (tabs s')) as [n'|]; [|discriminate].
      simpl in F. injection F as _ Hc'. exists n'. split; congruence.
    + intros (n' & Hget & Hc). rewrite Hget in F.
      destruct (tabs_get k (tabs s)) as [n|]; [|discriminate].
      simpl in F. injection F as _ Hc'. exists n. split; congruence.
Qed.

Lemma flags_inv_lockstep s : flags_inv s -> lockstep s.
Proof.
  intros (_ & _ & _ & Hex) k n Hget. rewrite (Hex k). split.
  - intros Hc. eauto.
  - intros (n' & Hget' & Hc). congruence.
Qed.

Lemma for_of_carried (R : TreeData -> TreeData -> Prop) body xs :
  (forall s, R s s) ->
  (forall a b c, R a b -> R b c -> R a c) ->
  (forall x s s', carried (body x s) = Some s' -> R s s') ->
  forall s s', carried (for_of xs body s) = Some s' -> R s s'.
Proof.
  intros Hrefl Htrans Hbody. induction xs as [|x xs IH]; intros s s' H; simpl in H.
  - injection H as <-. apply Hrefl.
  - destruct (body x s) as [s1|s1|] eqn:E; simpl in H.
    + eapply Htrans; [apply Hbody with (x := x); now rewrite E | now apply IH].
    + injection H as <-. apply Hbody with (x := x). now rewrite E.
    + discriminate.
Qed.

Lemma updateChildLevels_flags fuel :
  forall i s s', carried (updateChildLevels fuel i s) = Some s' -> same_flags s s'.
Proof.
  induction fuel as [|fuel IH]; intros i s s' H; simpl in H.
  - injection H as <-. apply same_flags_refl.
  - destruct (tabs_get i (tabs s)) as [parent|]; [|injection H as <-; apply same_flags_refl].
    revert H. apply for_of_carried; [apply same_flags_refl | apply same_flags_trans |].
    intros c s0 s0' H0. destruct (tabs_get c (tabs s0)); [|injection H0 as <-; apply same_flags_refl].
    eapply same_flags_trans; [|apply (IH _ _ _ H0)]. auto with flags.
Qed.

Lemma set_add_In x y l : In y (set_add x l) <-> y = x \/ In y l.
Proof.
  unfold set_add. destruct (includes x l) eqn:E.
  - apply includes_In in E. split; [auto | intros [->|H]; assumption].
  - rewrite in_app_iff. simpl. split; [intros [H|[H|[]]]; auto | intros [H|H]; auto].
Qed.

Lemma set_add_NoDup x l : NoDup l -> NoDup (set_add x l).
Proof.
  intros H. unfold set_add. destruct (includes x l) eqn:E; [exact H|].
  apply includes_false in E. apply NoDup_app; [exact H | repeat constructor; intros [] |].
  intros y Hy [<-|[]]. contradiction.
Qed.

Lemma remove_first_NoDup_keep x l : NoDup l -> NoDup (remove_first x l).
Proof.
  induction l as [|z l IH]; simpl; intros Hnd; [constructor|].
  inversion Hnd as [|? ? Hni Hnd']; subst.
  destruct (x =? z); [exact Hnd'|]. constructor; [|now apply IH].
  intros Hin. apply Hni. eapply remove_first_In; eauto.
Qed.

Lemma remove_first_other x y l : y <> x -> In y l -> In y (remove_first x l).
Proof.
  intros Hne. induction l as [|z l IH]; simpl; [tauto|].
  destruct (String.eqb_spec x z) as [->|Hxz]; intros [E|Hin]; simpl; auto; congruence.
Qed.

Lemma remove_first_iff x y l : NoDup l -> (In y (remove_first x l) <-> y <> x /\ In y l).
Proof.
  intros Hnd. split.
  - intros Hin. split; [|eapply remove_first_In; eauto].
    intros ->. now apply (remove_first_NoDup x l).
  - intros [Hne Hin]. now apply remove_first_other.
Qed.

Lemma keys_tabs_delete k m : keys (tabs_delete k m) = remove_first k (keys m).
Proof.
  induction m as [|[k' v] m IH]; simpl; [reflexivity|].
  destruct (k =? k'); simpl; [reflexivity | now rewrite IH].
Qed.

Lemma keys_tabs_set_fresh k v m : tabs_has k m = false -> keys (tabs_set k v m) = keys m ++ [k].
Proof.
  intros H. rewrite (tabs_set_fresh _ _ _ H). unfold keys. now rewrite map_app.
Qed.

Lemma tabs_get_entry k n m : tabs_get k m = Some n -> In (k, n) m.
Proof.
  induction m as [|[k' v] m IH]; simpl; [discriminate|].
  destruct (String.eqb_spec k k') as [->|Hne].
  - intros H. injection H as ->. now left.
  - intros H. right. now apply IH.
Qed.

Lemma entry_tabs_get k n m : NoDup (keys m) -> In (k, n) m -> tabs_get k m = Some n.
Proof.
  induction m as [|[k' v] m IH]; simpl; intros Hnd Hin; [destruct Hin|].
  inversion Hnd as [|? ? Hni Hnd']; subst. destruct Hin as [E|Hin].
  - injection E as -> ->. now rewrite String.eqb_refl.
  - destruct (String.eqb_spec k k') as [->|Hne]; [|now apply IH].
    exfalso. apply Hni. change k' with (fst (k', n)). now apply in_map.
Qed.

(** Marking the node [k] collapsed, flag and set together. *)
Lemma flags_inv_collapse k s :
  flags_inv s -> tabs_has k (tabs s) = true ->
  flags_inv (with_collapsedSet (set_add k) (with_tabs (modify k (set_collapsed true)) s)).
Proof.
  intros (Hnd & Hok & Hcol & Hex) Hk. unfold flags_inv. simpl.
  rewrite keys_modify. split; [exact Hnd|]. split; [|split; [now apply set_add_NoDup|]].
  - intros j n. rewrite tabs_get_modify. destruct (k =? j); [|apply Hok].
    destruct (tabs_get j (tabs s)) as [n0|] eqn:E; [|discriminate].
    simpl. intros H. injection H as <-. simpl. eauto.
  - intros j. simpl. rewrite set_add_In, (Hex j), tabs_get_modify.
    destruct (String.eqb_spec k j) as [->|Hne].
    + unfold tabs_has in Hk. destruct (tabs_get j (tabs s)) as [n0|]; [|discriminate].
      simpl. split; [intros _; eexists; split; reflexivity | auto].
    + split; [intros [E|H]; [congruence | exact H] | auto].
Qed.

(** Marking the node [k] expanded, flag and set together. *)
Lemma flags_inv_expand k s :
  flags_inv s ->
  flags_inv (with_collapsedSet (set_delete k) (with_tabs (modify k (set_collapsed false)) s)).
Proof.
  intros (Hnd & Hok & Hcol & Hex). unfold flags_inv. simpl.
  rewrite keys_modify. split; [exact Hnd|].
  split; [|split; [now apply remove_first_NoDup_keep|]].
  - intros j n. rewrite tabs_get_modify. destruct (k =? j); [|apply Hok].
    destruct (tabs_get j (tabs s)) as [n0|] eqn:E; [|discriminate].
    simpl. intros H. injection H as <-. simpl. eauto.
  - intros j. simpl. unfold set_delete. rewrite (remove_first_iff k j _ Hcol), (Hex j).
    rewrite tabs_get_modify. destruct (String.eqb_spec k j) as [->|Hne].
    + split; [intros [H _]; congruence|].
      intros (n & Hget & Hc). destruct (tabs_get j (tabs s)); simpl in Hget; [|discriminate].
      injection Hget as <-. discriminate.
    + split; [tauto | intros H; split; [congruence | exact H]].
Qed.

Lemma flags_inv_set_fresh i n s :
  flags_inv s -> tabs_has i (tabs s) = false -> id n = i -> collapsed n = false ->
  flags_inv (with_tabs (tabs_set i n) s).
Proof.
  intros (Hnd & Hok & Hcol & Hex) Hfresh Hid Hc. unfold flags_inv. simpl.
  pose proof (proj1 (tabs_has_false _ _) Hfresh) as Hni.
  rewrite (keys_tabs_set_fresh _ _ _ Hfresh).
  split; [|split; [|split; [exact Hcol|]]].
  - apply NoDup_app; [exact Hnd | repeat constructor; intros [] |].
    intros y Hy [<-|[]]. contradiction.
  - intros j nj. destruct (String.eqb_spec i j) as [->|Hne].
    + rewrite tabs_get_set_same. congruence.
    + rewrite tabs_get_set_other by exact Hne. apply Hok.
  - intros j. simpl. rewrite (Hex j). destruct (String.eqb_spec i j) as [->|Hne].
    + rewrite tabs_get_set_same. split.
      * intros (n0 & Hget & _). exfalso. apply Hni. apply tabs_get_In. congruence.
      * intros (n0 & Hget & Hc0). congruence.
    + now rewrite tabs_get_set_other.
Qed.

Lemma flags_inv_delete i s :
  flags_inv s -> flags_inv (with_tabs (tabs_delete i) (with_collapsedSet (set_delete i) s)).
Proof.
  intros (Hnd & Hok & Hcol & Hex). unfold flags_inv. simpl.
  rewrite keys_tabs_delete.
  split; [now apply remove_first_NoDup_keep|].
  split; [|split; [now apply remove_first_NoDup_keep|]].
  - intros j n Hget. destruct (String.eqb_spec i j) as [->|Hne].
    + now rewrite tabs_get_delete_same in Hget.
    + rewrite tabs_get_delete_other in Hget by exact Hne. eauto.
  - intros j. simpl. unfold set_delete. rewrite (remove_first_iff i j _ Hcol), (Hex j).
    destruct (String.eqb_spec i j) as [->|Hne].
    + rewrite tabs_get_delete_same by exact Hnd. split; [tauto|].
      intros (n & Hget & _). discriminate.
    + rewrite tabs_get_delete_other by exact Hne. split; [tauto | intros H; split; [congruence | exact H]].
Qed.

Lemma carried_bind o f s' :
  carried (o >>= f) = Some s' ->
  o = Thrown s' \/ exists s1, o = Done s1 /\ carried (f s1) = Some s'.
Proof.
  destruct o as [s1|s1|]; simpl; intros H.
  - right. eauto.
  - left. congruence.
  - discriminate.
Qed.

Lemma insertNode_flags_inv node s :
  flags_inv s -> tabs_has (id node) (tabs s) = false -> collapsed node = false ->
  flags_inv (insertNode node s).
Proof.
  intros Hinv Hfresh Hc. unfold insertNode.
  assert (Hroot : flags_inv (with_tabs (tabs_set (id node) (set_parentId None node))
                               (with_roots (fun r => push r (id node)) s))).
  { apply flags_inv_set_fresh; [|exact Hfresh | now destruct node | now destruct node].
    eapply flags_inv_same; [exact Hinv | auto with flags]. }
  destruct (truthy (parentId node)) as [p|]; [|exact Hroot].
  destruct (tabs_get p (tabs s)) as [parent|]; [|exact Hroot].
  apply flags_inv_set_fresh; [| | now destruct node | now destruct node].
  - eapply flags_inv_same; [exact Hinv | auto with flags].
  - simpl. unfold tabs_has in *. rewrite tabs_get_modify.
    destruct (p =? id node); [|exact Hfresh].
    now destruct (tabs_get (id node) (tabs s)).
Qed.

Lemma promoteChild_flags fuel i c s s' :
  carried (promoteChild fuel i c s) = Some s' -> same_flags s s'.
Proof.
  unfold promoteChild. intros H.
  destruct (tabs_get c (tabs s)); [|injection H as <-; apply same_flags_refl].
  destruct (tabs_get i (tabs s)) as [node|]; [|injection H as <-; apply same_flags_refl].
  apply carried_bind in H. destruct H as [H|(s1 & H & H1)].
  - eapply same_flags_trans; [|apply (updateChildLevels_flags fuel c _ s'); now rewrite H].
    auto with flags.
  - assert (H0 : same_flags s s1).
    { eapply same_flags_trans; [|apply (updateChildLevels_flags fuel c _ s1); now rewrite H].
      auto with flags. }
    destruct (truthy (parentId node)); simpl in H1; injection H1 as <-.
    + flags_chain.
    + destruct (includes c (roots s1)); flags_chain.
Qed.

Lemma removeNodeFromTree_flags_inv fuel i promote s s' :
  flags_inv s -> carried (removeNodeFromTree fuel i promote s) = Some s' -> flags_inv s'.
Proof.
  intros Hinv H. unfold removeNodeFromTree in H.
  destruct (tabs_get i (tabs s)) as [node|]; [|injection H as <-; exact Hinv].
  assert (Hloop : forall s1,
            carried (if promote
                     then for_of (childIds node) (promoteChild fuel i) s >>= (fun s1 =>
                            match truthy (parentId node) with
                            | Some g =>
                                if (g =? i) && existsb (fun c => tabs_has c (tabs s)) (childIds node)
                                then Hang else Done s1
                            | None => Done s1
                            end)
                     else Done s) = Some s1 -> same_flags s s1).
  { intros s1 H1. destruct promote; [|injection H1 as <-; apply same_flags_refl].
    assert (Hfor : forall s2, carried (for_of (childIds node) (promoteChild fuel i) s) = Some s2 ->
                              same_flags s s2).
    { intros s2. apply for_of_carried; [apply same_flags_refl | apply same_flags_trans |].
      intros c s0 s0'. apply promoteChild_flags. }
    apply carried_bind in H1. destruct H1 as [H1|(s2 & H1 & H2)].
    - apply Hfor. now rewrite H1.
    - assert (same_flags s s2) by (apply Hfor; now rewrite H1).
      destruct (truthy (parentId node)) as [g|].
      + destruct ((g =? i) && existsb (fun c => tabs_has c (tabs s)) (childIds node));
          [discriminate | now injection H2 as <-].
      + now injection H2 as <-. }
  apply carried_bind in H. destruct H as [H|(s1 & H & H1)].
  - eapply flags_inv_same; [exact Hinv|]. apply Hloop. now rewrite H.
  - assert (H0 : same_flags s s1) by (apply Hloop; now rewrite H).
    simpl in H1. injection H1 as <-. apply flags_inv_delete.
    eapply flags_inv_same; [exact Hinv|].
    eapply same_flags_trans; [exact H0|].
    destruct (truthy (parentId node)); auto with flags.
Qed.

Lemma attachTabTo_flags fuel i p s s' :
  carried (attachTabTo fuel i p s) = Some s' -> same_flags s s'.
Proof.
  unfold attachTabTo. intros H.
  destruct (tabs_get i (tabs s)) as [tab|]; [|injection H as <-; apply same_flags_refl].
  assert (Hrelink : forall s3, same_flags s s3 ->
                      carried (updateChildLevels fuel i s3) = Some s' -> same_flags s s').
  { intros s3 H3 Hu. eapply same_flags_trans; [exact H3|].
    eapply updateChildLevels_flags; eauto. }
  set (s1 := match truthy (parentId tab) with
             | Some op =>
                 with_tabs (modify op (fun n => set_childIds (remove_first i (childIds n)) n)) s
             | None => with_roots (remove_first i) s
             end) in *.
  assert (Hs1 : same_flags s s1).
  { unfold s1. destruct (truthy (parentId tab)); auto with flags. }
  clearbody s1.
  assert (Hgo : carried (updateChildLevels fuel i
            match truthy p with
            | Some np =>
                match tabs_get np (tabs (with_tabs (modify i (set_parentId p)) s1)) with
                | Some newParent =>
                    with_tabs (modify i (set_level (level newParent + 1)))
                      (with_tabs (modify np (fun n => set_childIds (push (childIds n) i) n))
                         (with_tabs (modify i (set_parentId p)) s1))
                | None => with_tabs (modify i (set_parentId p)) s1
                end
            | None =>
                with_tabs (modify i (set_level 0))
                  (with_roots (fun r => push r i) (with_tabs (modify i (set_parentId p)) s1))
            end) = Some s' -> same_flags s s').
  { apply Hrelink. eapply same_flags_trans; [exact Hs1|].
    destruct (truthy p) as [np|]; [|flags_chain].
    match goal with
    | |- context [match tabs_get ?a ?b with _ => _ end] => destruct (tabs_get a b)
    end; flags_chain. }
  destruct (truthy p) as [np|] eqn:Hp; [|exact (Hgo H)].
  destruct (getDescendants fuel i (tabs s)) as [ds|]; [|injection H as <-; apply same_flags_refl].
  destruct (includes np ds); [injection H as <-; apply same_flags_refl | exact (Hgo H)].
Qed.

Lemma autoCollapseSiblings_flags_inv i s : flags_inv s -> flags_inv (autoCollapseSiblings i s).
Proof.
  unfold autoCollapseSiblings. destruct (tabs_get i (tabs s)) as [node|]; [|auto].
  generalize (match truthy (parentId node) with
              | Some p => match tabs_get p (tabs s) with Some n => childIds n | None => [] end
              | None => roots s
              end). intros sib. revert s.
  induction sib as [|x sib IH]; simpl; intros s Hinv; [exact Hinv|].
  apply IH. destruct (x =? i); [exact Hinv|].
  destruct (tabs_get x (tabs s)) as [sibling|] eqn:E; [|exact Hinv].
  destruct (childIds sibling); [exact Hinv|].
  apply flags_inv_collapse; [exact Hinv|]. unfold tabs_has. now rewrite E.
Qed.

Lemma toggleCollapsed_flags_inv h i s : flags_inv s -> flags_inv (toggleCollapsed h i s).
Proof.
  intros Hinv. unfold toggleCollapsed.
  destruct (tabs_get i (tabs s)) as [node|] eqn:E; [|exact Hinv].
  destruct (childIds node); [exact Hinv|].
  destruct (collapsed node); simpl.
  - destruct (pref_autoCollapse h) as [[|]|];
      try apply autoCollapseSiblings_flags_inv; now apply flags_inv_expand.
  - apply flags_inv_collapse; [exact Hinv|]. unfold tabs_has. now rewrite E.
Qed.

Lemma collapseAll_flags_inv s : flags_inv s -> flags_inv (collapseAll s).
Proof.
  intros Hinv. unfold collapseAll.
  assert (Hall : forall e, In e (tabs s) -> id (snd e) = fst e /\ In (fst e) (keys (tabs s))).
  { intros e He. destruct Hinv as (Hnd & Hok & _). split.
    - now apply (keys_ok_entries (tabs s)).
    - unfold keys. now apply in_map. }
  assert (Hgen : forall l s0,
            (forall e, In e l -> id (snd e) = fst e /\ In (fst e) (keys (tabs s0))) ->
            flags_inv s0 ->
            flags_inv (fold_left
              (fun s e =>
                 match childIds (snd e) with
                 | [] => s
                 | _ :: _ =>
                     with_collapsedSet (set_add (id (snd e)))
                       (with_tabs (modify (fst e) (set_collapsed true)) s)
                 end) l s0)).
  { induction l as [|e l IH]; simpl; intros s0 Hl H0; [exact H0|].
    destruct (Hl e (or_introl eq_refl)) as [Hid Hin].
    apply IH.
    - intros e' He'. destruct (Hl e' (or_intror He')) as [Hid' Hin']. split; [exact Hid'|].
      destruct (childIds (snd e)); [exact Hin'|]. simpl. now rewrite keys_modify.
    - destruct (childIds (snd e)); [exact H0|]. rewrite Hid.
      apply flags_inv_collapse; [exact H0 | now apply tabs_has_In]. }
  now apply Hgen.
Qed.

Lemma expandAll_flags_inv s : flags_inv s -> flags_inv (expandAll s).
Proof.
  intros (Hnd & Hok & Hcol & Hex). unfold expandAll, flags_inv. simpl.
  rewrite keys_map. split; [exact Hnd|]. split; [|split; [constructor|]].
  - intros k n. rewrite tabs_get_map. destruct (tabs_get k (tabs s)) as [n0|] eqn:E; [|discriminate].
    simpl. intros H. injection H as <-. simpl. eauto.
  - intros k. simpl. split; [tauto|]. intros (n & Hget & Hc).
    rewrite tabs_get_map in Hget. destruct (tabs_get k (tabs s)); [|discriminate].
    simpl in Hget. injection Hget as <-. discriminate.
Qed.

Lemma NoDup_keys_filter (P : string * TabNode -> bool) m :
  NoDup (keys m) -> NoDup (keys (filter P m)).
Proof.
  induction m as [|[k v] m IH]; simpl; intros Hnd; [constructor|].
  inversion Hnd as [|? ? Hni Hnd']; subst.
  destruct (P (k, v)); [|now apply IH]. simpl. constructor; [|now apply IH].
  intros Hin. apply Hni. unfold keys in *. apply in_map_iff in Hin.
  destruct Hin as (e & He & Hin). apply filter_In in Hin. destruct Hin as [Hin _].
  rewrite <- He. now apply in_map.
Qed.

Lemma resetAllToRoot_flags_inv s : flags_inv s -> flags_inv (resetAllToRoot s).
Proof.
  intros (Hnd & Hok & Hcol & Hex). unfold resetAllToRoot, flags_inv. cbn [tabs collapsedSet].
  set (m1 := map (fun e : string * TabNode =>
                    if is_tab (snd e)
                    then (fst e, set_collapsed false
                                   (set_level 0 (set_childIds [] (set_parentId None (snd e)))))
                    else e) (tabs s)).
  assert (Hk1 : keys m1 = keys (tabs s)).
  { unfold m1, keys. rewrite map_map. apply map_ext. intros [k v]. simpl. now destruct (is_tab v). }
  assert (Hent : forall k n, In (k, n) (filter (fun e => negb (is_group (snd e))) m1) ->
                   id n = k /\ collapsed n = false).
  { intros k n Hin. apply filter_In in Hin. destruct Hin as [Hin Hng].
    unfold m1 in Hin. apply in_map_iff in Hin. destruct Hin as ([k0 v0] & He & Hin0).
    pose proof (keys_ok_entries _ Hnd Hok _ Hin0) as Hid. simpl in *.
    destruct (is_tab v0) eqn:Et.
    - injection He as <- <-. split; [now destruct v0 | reflexivity].
    - injection He as <- <-. exfalso. unfold is_tab, is_group in *.
      destruct (nodeType v0); simpl in *; discriminate. }
  split; [apply NoDup_keys_filter; now rewrite Hk1|].
  split; [|split; [constructor|]].
  - unfold keys_ok. intros k n Hget. apply tabs_get_entry in Hget. now apply Hent.
  - unfold exact_set. intros k. cbn [tabs collapsedSet]. split; [intros []|].
    intros (n & Hget & Hc).
    apply tabs_get_entry in Hget. destruct (Hent _ _ Hget). congruence.
Qed.

(** ** Identifier migration *)

Lemma mig_get_set_same k v m : mig_get k (mig_set k v m) = Some v.
Proof.
  induction m as [|[k' v'] m IH]; simpl.
  - now rewrite String.eqb_refl.
  - destruct (k =? k') eqn:E; simpl; rewrite E; [reflexivity | exact IH].
Qed.

Lemma mig_get_set_other k k' v m : k <> k' -> mig_get k' (mig_set k v m) = mig_get k' m.
Proof.
  intros Hne. induction m as [|[k0 v0] m IH]; simpl.
  - destruct (String.eqb_spec k' k); [congruence | reflexivity].
  - destruct (String.eqb_spec k k0) as [->|Hk]; simpl.
    + destruct (String.eqb_spec k' k0); [congruence | reflexivity].
    + destruct (k' =? k0); [reflexivity | exact IH].
Qed.

Lemma findExisting_Some t ids m k n :
  findExisting t ids m = Some (k, n) ->
  In (k, n) m /\ is_tab n = true /\ title n = t /\ ~ In k ids.
Proof.
  unfold findExisting. intros H. apply find_some in H. destruct H as [Hin Hp]. simpl in Hp.
  apply andb_prop in Hp. destruct Hp as [Hp Hids].
  apply andb_prop in Hp. destruct Hp as [Htab Htitle].
  split; [exact Hin|]. split; [exact Htab|]. split; [now apply String.eqb_eq|].
  apply includes_false. now destruct (includes k ids).
Qed.

Lemma tabs_get_migrate k i tabId v m :
  NoDup (keys m) -> tabId <> i ->
  tabs_get k (tabs_set i v (tabs_delete tabId m))
  = if k =? i then Some v else if k =? tabId then None else tabs_get k m.
Proof.
  intros Hnd Hne. destruct (String.eqb_spec k i) as [->|Hki].
  - apply tabs_get_set_same.
  - rewrite tabs_get_set_other by congruence.
    destruct (String.eqb_spec k tabId) as [->|Hkt].
    + now apply tabs_get_delete_same.
    + apply tabs_get_delete_other. congruence.
Qed.

Lemma tabs_get_app k m e :
  tabs_get k (m ++ [e])
  = match tabs_get k m with
    | Some n => Some n
    | None => if k =? fst e then Some (snd e) else None
    end.
Proof.
  induction m as [|[k' v] m IH]; simpl.
  - now destruct e.
  - destruct (k =? k'); [reflexivity | exact IH].
Qed.

Lemma core_refresh sel ty ttl n :
  core (set_selected sel (set_type ty (set_title ttl n))) = core n.
Proof. now destruct n. Qed.

Section Migration.

(** One first pass: the host [h], the selected id, the report [zts] and
    the store [s0] it starts from. *)
Variables (h : Host) (sel : option string) (zts : list ZoteroTab) (s0 : TreeData).
Hypothesis Hnd0 : NoDup (keys (tabs s0)).
Hypothesis Hok0 : keys_ok (tabs s0).
Hypothesis Hclean : clean_matches h zts (tabs s0).

Lemma sync_inv_start : sync_inv h zts s0 [] (mkSyncAcc s0 [] []).
Proof.
  constructor; simpl.
  - tauto.
  - exact Hnd0.
  - discriminate.
  - eauto.
  - discriminate.
  - auto.
  - exists []. split; [now rewrite app_nil_r | intros i []].
  - reflexivity.
  - exact Hok0.
  - intros k n' Hk Hc. exists k, n'. auto.
Qed.

Lemma sync_inv_step seen a zt :
  In zt zts -> ~ In (zt_id zt) seen ->
  sync_inv h zts s0 seen a ->
  sync_inv h zts s0 (seen ++ [zt_id zt]) (syncTab h sel a zt).
Proof.
  intros Hzt Hnew [Iids Ind Imig Ikept Imoved Iunseen Iroots Icol Iid Iorigin].
  set (i := zt_id zt) in *.
  assert (Hids' : forall x, In x (set_add i (currentTabIds a)) <-> In x (seen ++ [i])).
  { intros x. rewrite set_add_In, in_app_iff, Iids. simpl. intuition congruence. }
  assert (Hseen' : forall x, In x seen -> In x (seen ++ [i])).
  { intros x Hx. apply in_or_app. now left. }
  unfold syncTab. fold i.
  destruct (findExisting (getTabTitle h zt) (set_add i (currentTabIds a)) (tabs (acc_tree a)))
    as [[tabId ex]|] eqn:Hfind.
  - (* migration *)
    apply findExisting_Some in Hfind. destruct Hfind as (Hin & Htab & Htitle & Hout).
    rewrite Hids' in Hout.
    assert (HtabIdSeen : ~ In tabId seen) by (intros Hx; apply Hout; auto).
    assert (HtabIdi : tabId <> i).
    { intros ->. apply Hout. apply in_or_app. right. now left. }
    pose proof (entry_tabs_get _ _ _ Ind Hin) as Hget.
    destruct (Iunseen _ _ Hget HtabIdSeen) as [Hget0 Hmig0].
    pose proof (Hok0 _ _ Hget0) as Hid.
    destruct (Hclean zt tabId ex Hzt Hget0 Htab Htitle HtabIdi) as [Hstale Hfresh0].
    fold i in Hfresh0.
    assert (Hfresh : tabs_get i (tabs (acc_tree a)) = None).
    { destruct (tabs_get i (tabs (acc_tree a))) as [n'|] eqn:E; [|reflexivity].
      destruct (Iunseen _ _ E Hnew) as [E0 _]. unfold tabs_has in Hfresh0.
      now rewrite E0 in Hfresh0. }
    assert (Hget' : forall k v,
              tabs_get k (tabs_set i v (tabs_delete (id ex) (tabs (acc_tree a))))
              = if k =? i then Some v else if k =? tabId then None
                else tabs_get k (tabs (acc_tree a))).
    { intros k v. rewrite Hid. now apply tabs_get_migrate. }
    constructor; simpl.
    + exact Hids'.
    + rewrite Hid. rewrite keys_tabs_set_fresh.
      * rewrite keys_tabs_delete. apply NoDup_app.
        -- now apply remove_first_NoDup_keep.
        -- repeat constructor. intros [].
        -- intros y Hy [<-|[]]. apply remove_first_In in Hy.
           apply tabs_get_In in Hy. contradiction.
      * unfold tabs_has. rewrite tabs_get_delete_other by exact HtabIdi. now rewrite Hfresh.
    + intros old new Hm. destruct (String.eqb_spec tabId old) as [<-|Hne].
      * rewrite mig_get_set_same in Hm. injection Hm as <-.
        split; [apply in_or_app; right; now left|].
        split; [now apply tabs_has_false|]. split; [exact Hstale|].
        exists ex, zt. auto.
      * rewrite mig_get_set_other in Hm by exact Hne.
        destruct (Imig _ _ Hm) as (H1 & H2 & H3 & H4). auto.
    + intros k n Hk Hm. destruct (String.eqb_spec tabId k) as [<-|Hne].
      { now rewrite mig_get_set_same in Hm. }
      rewrite mig_get_set_other in Hm by exact Hne.
      destruct (Ikept _ _ Hk Hm) as (n' & Hn' & Hcore & Hsame).
      exists n'. rewrite Hget'.
      assert (Hki : k <> i).
      { intros ->. unfold tabs_has in Hfresh0. now rewrite Hk in Hfresh0. }
      destruct (String.eqb_spec k i); [contradiction|].
      destruct (String.eqb_spec k tabId); [congruence|].
      split; [exact Hn'|]. split; [exact Hcore|]. intros Hx. apply Hsame. auto.
    + intros k n new Hk Hm. destruct (String.eqb_spec tabId k) as [<-|Hne].
      * rewrite mig_get_set_same in Hm. injection Hm as <-.
        rewrite Hget0 in Hk. injection Hk as <-.
        eexists. rewrite Hget', String.eqb_refl. split; [reflexivity|].
        rewrite core_refresh. reflexivity.
      * rewrite mig_get_set_other in Hm by exact Hne.
        destruct (Imoved _ _ _ Hk Hm) as (n' & Hn' & Hcore).
        destruct (Imig _ _ Hm) as (Hnseen & _).
        exists n'. rewrite Hget'.
        destruct (String.eqb_spec new i) as [->|_]; [contradiction|].
        destruct (String.eqb_spec new tabId) as [->|_]; [contradiction|].
        auto.
    + intros k n' Hk Hx. rewrite Hget' in Hk.
      destruct (String.eqb_spec k i) as [->|Hki].
      { exfalso. apply Hx. apply in_or_app. right. now left. }
      destruct (String.eqb_spec k tabId) as [->|Hkt]; [discriminate|].
      destruct (Iunseen _ _ Hk (fun H => Hx (Hseen' _ H))) as [H1 H2].
      split; [exact H1|]. rewrite mig_get_set_other by congruence. exact H2.
    + destruct Iroots as (added & Hr & Hadd). exists added. auto.
    + exact Icol.
    + intros k n' Hk. rewrite Hget' in Hk.
      destruct (String.eqb_spec k i) as [->|Hki]; [now injection Hk as <-|].
      destruct (String.eqb_spec k tabId) as [->|Hkt]; [discriminate|]. now apply Iid.
    + intros k n' Hk Hc. rewrite Hget' in Hk.
      destruct (String.eqb_spec k i) as [->|Hki].
      * injection Hk as <-. exists tabId, ex. split; [exact Hget0|]. split; [exact Hc|].
        unfold target. now rewrite mig_get_set_same.
      * destruct (String.eqb_spec k tabId) as [->|Hkt]; [discriminate|].
        destruct (Iorigin _ _ Hk Hc) as (k0 & n0 & Hk0 & Hc0 & Ht).
        exists k0, n0. split; [exact Hk0|]. split; [exact Hc0|].
        unfold target in *. destruct (String.eqb_spec tabId k0) as [<-|Hne].
        -- rewrite Hmig0 in Ht. congruence.
        -- now rewrite mig_get_set_other.
  - destruct (tabs_has i (tabs (acc_tree a))) eqn:Hhas; simpl.
    + (* refresh of the node stored under the same id *)
      constructor; simpl.
      * exact Hids'.
      * now rewrite keys_modify.
      * intros old new Hm. destruct (Imig _ _ Hm) as (H1 & H2 & H3 & H4). auto.
      * intros k n Hk Hm. destruct (Ikept _ _ Hk Hm) as (n' & Hn' & Hcore & Hsame).
        rewrite tabs_get_modify. destruct (String.eqb_spec i k) as [<-|Hne].
        -- rewrite Hn'. simpl. eexists. split; [reflexivity|]. split.
           ++ now rewrite core_refresh.
           ++ intros Hx. exfalso. apply Hx. apply in_or_app. right. now left.
        -- exists n'. split; [exact Hn'|]. split; [exact Hcore|]. intros Hx. apply Hsame. auto.
      * intros k n new Hk Hm. destruct (Imoved _ _ _ Hk Hm) as (n' & Hn' & Hcore).
        destruct (Imig _ _ Hm) as (Hnseen & _).
        exists n'. rewrite tabs_get_modify_other; [auto|]. intros <-. contradiction.
      * intros k n' Hk Hx. rewrite tabs_get_modify in Hk.
        destruct (String.eqb_spec i k) as [<-|Hne].
        { exfalso. apply Hx. apply in_or_app. right. now left. }
        apply Iunseen; auto.
      * destruct Iroots as (added & Hr & Hadd). exists added. auto.
      * exact Icol.
      * intros k n' Hk. rewrite tabs_get_modify in Hk.
        destruct (String.eqb_spec i k) as [<-|Hne]; [|now apply Iid].
        destruct (tabs_get i (tabs (acc_tree a))) as [n1|] eqn:E; [|discriminate].
        injection Hk as <-. exact (Iid _ _ E).
      * intros k n' Hk Hc. rewrite tabs_get_modify in Hk.
        destruct (String.eqb_spec i k) as [<-|Hne]; [|now apply (Iorigin _ _ Hk)].
        destruct (tabs_get i (tabs (acc_tree a))) as [n1|] eqn:E; [|discriminate].
        injection Hk as <-. exact (Iorigin _ _ E Hc).
    + (* a new root *)
      rewrite addTab_root by exact Hhas.
      assert (Hnone : tabs_get i (tabs (acc_tree a)) = None).
      { unfold tabs_has in Hhas. now destruct (tabs_get i (tabs (acc_tree a))). }
      constructor; simpl.
      * exact Hids'.
      * unfold keys. rewrite map_app. simpl. apply NoDup_app.
        -- exact Ind.
        -- repeat constructor. intros [].
        -- intros y Hy [<-|[]]. apply (proj1 (tabs_has_false _ _) Hhas). exact Hy.
      * intros old new Hm. destruct (Imig _ _ Hm) as (H1 & H2 & H3 & H4). auto.
      * intros k n Hk Hm. destruct (Ikept _ _ Hk Hm) as (n' & Hn' & Hcore & Hsame).
        exists n'. rewrite tabs_get_app, Hn'. split; [reflexivity|]. split; [exact Hcore|].
        intros Hx. apply Hsame. auto.
      * intros k n new Hk Hm. destruct (Imoved _ _ _ Hk Hm) as (n' & Hn' & Hcore).
        exists n'. rewrite tabs_get_app, Hn'. auto.
      * intros k n' Hk Hx. rewrite tabs_get_app in Hk.
        destruct (tabs_get k (tabs (acc_tree a))) as [n1|] eqn:E.
        -- injection Hk as <-. apply Iunseen; auto.
        -- simpl in Hk. destruct (String.eqb_spec k i) as [->|Hne]; [|discriminate].
           exfalso. apply Hx. apply in_or_app. right. now left.
      * destruct Iroots as (added & Hr & Hadd). exists (added ++ [i]). split.
        -- rewrite Hr. now rewrite <- app_assoc.
        -- intros j Hj. apply in_app_or in Hj. destruct Hj as [Hj|[<-|[]]]; [auto|].
           apply in_or_app. right. now left.
      * exact Icol.
      * intros k n' Hk. rewrite tabs_get_app in Hk.
        destruct (tabs_get k (tabs (acc_tree a))) as [n1|] eqn:E.
        -- injection Hk as <-. exact (Iid _ _ E).
        -- simpl in Hk. destruct (String.eqb_spec k i) as [->|Hne]; [|discriminate].
           now injection Hk as <-.
      * intros k n' Hk Hc. rewrite tabs_get_app in Hk.
        destruct (tabs_get k (tabs (acc_tree a))) as [n1|] eqn:E.
        -- injection Hk as <-. exact (Iorigin _ _ E Hc).
        -- simpl in Hk. destruct (String.eqb_spec k i) as [->|Hne]; [|discriminate].
           injection Hk as <-. discriminate.
Qed.

Lemma sync_inv_fold rest :
  forall seen a,
    (forall zt, In zt rest -> In zt zts) ->
    NoDup (seen ++ map zt_id rest) ->
    sync_inv h zts s0 seen a ->
    sync_inv h zts s0 (seen ++ map zt_id rest) (fold_left (syncTab h sel) rest a).
Proof.
  induction rest as [|zt rest IH]; intros seen a Hsub Hnd Hinv; simpl.
  - now rewrite app_nil_r.
  - replace (seen ++ zt_id zt :: map zt_id rest) with ((seen ++ [zt_id zt]) ++ map zt_id rest)
      by now rewrite <- app_assoc.
    apply IH.
    + intros z Hz. apply Hsub. now right.
    + now rewrite <- app_assoc.
    + apply sync_inv_step; try assumption.
      * apply Hsub. now left.
      * apply NoDup_remove_2 in Hnd. intros Hin. apply Hnd. apply in_or_app. now left.
Qed.

End Migration.

Lemma core_fields a b :
  core a = core b ->
  id a = id b /\ parentId a = parentId b /\ childIds a = childIds b
  /\ level a = level b /\ collapsed a = collapsed b /\ nodeType a = nodeType b.
Proof.
  destruct a, b. unfold core, set_selected, set_type, set_title. simpl.
  intros H. injection H. intros. subst. repeat split.
Qed.

Lemma migrated_Some mig k v : mig_get k mig = Some v -> v <> "" -> migrated mig k = v.
Proof.
  intros H Hv. unfold migrated. rewrite H.
  destruct (String.eqb_spec v ""); [contradiction | reflexivity].
Qed.

Lemma migrated_None mig k : mig_get k mig = None -> migrated mig k = k.
Proof. intros H. unfold migrated. now rewrite H. Qed.

Lemma set_childIds_same n : set_childIds (childIds n) n = n.
Proof. now destruct n. Qed.

Lemma migrateParent_parentId mig n :
  (forall old new, mig_get old mig = Some new -> new <> "") ->
  mig_get "" mig = None ->
  parentId (migrateParent mig n) = option_map (migrated mig) (parentId n).
Proof.
  intros Hnew Hempty. unfold migrateParent.
  destruct (parentId n) as [p|] eqn:Ep; simpl; [|now rewrite Ep].
  destruct (String.eqb_spec p "") as [->|Hp].
  - rewrite Ep. simpl. now rewrite (migrated_None _ _ Hempty).
  - destruct (mig_get p mig) as [v|] eqn:Ev.
    + simpl. now rewrite (migrated_Some _ _ _ Ev (Hnew _ _ Ev)).
    + rewrite Ep. simpl. now rewrite (migrated_None _ _ Ev).
Qed.

Lemma migrateParent_rest mig n :
  id (migrateParent mig n) = id n /\ childIds (migrateParent mig n) = childIds n
  /\ level (migrateParent mig n) = level n /\ collapsed (migrateParent mig n) = collapsed n
  /\ nodeType (migrateParent mig n) = nodeType n.
Proof.
  unfold migrateParent. destruct (truthy (parentId n)) as [p|]; [|repeat split].
  destruct (mig_get p mig); repeat split.
Qed.

(** The second pass, read off at one key. *)
Lemma applyMigration_get mig s k :
  (forall old new, mig_get old mig = Some new -> new <> "") ->
  mig_get "" mig = None ->
  forall n, tabs_get k (tabs s) = Some n ->
  exists n2,
    tabs_get k (tabs (applyMigration mig s)) = Some n2
    /\ id n2 = id n /\ parentId n2 = option_map (migrated mig) (parentId n)
    /\ childIds n2 = map (migrated mig) (childIds n)
    /\ level n2 = level n /\ collapsed n2 = collapsed n /\ nodeType n2 = nodeType n.
Proof.
  intros Hnew Hempty n Hget. destruct mig as [|e mig'] eqn:Emig.
  - exists n. simpl. split; [exact Hget|]. split; [reflexivity|]. split.
    + now destruct (parentId n).
    + split; [|repeat split]. symmetry. apply map_id.
  - rewrite <- Emig in *.
    assert (Hm : tabs (applyMigration mig s)
                 = map (fun e => (fst e, migrateChildren mig (migrateParent mig (snd e)))) (tabs s)).
    { rewrite Emig. reflexivity. }
    rewrite Hm, (tabs_get_map (fun n => migrateChildren mig (migrateParent mig n))), Hget.
    simpl. eexists. split; [reflexivity|].
    destruct (migrateParent_rest mig n) as (H1 & H2 & H3 & H4 & H5).
    pose proof (migrateParent_parentId mig n Hnew Hempty) as H0.
    unfold migrateChildren. simpl. rewrite H2. auto 10.
Qed.

Lemma applyMigration_roots mig s :
  roots (applyMigration mig s) = map (migrated mig) (roots s).
Proof.
  destruct mig; simpl; [|reflexivity]. symmetry. apply map_id.
Qed.

Lemma applyMigration_collapsed mig s :
  NoDup (collapsedSet s) ->
  collapsedSet (applyMigration mig s) = set_of (map (migrated mig) (collapsedSet s)).
Proof.
  intros Hnd. destruct mig; simpl; [|reflexivity].
  rewrite map_id. symmetry. now apply set_of_NoDup.
Qed.

Lemma clean_matchesb_ok h zts m : clean_matchesb h zts m = true -> clean_matches h zts m.
Proof.
  unfold clean_matchesb, clean_matches. intros H zt k n Hzt Hget Htab Htitle Hne.
  rewrite forallb_forall in H. specialize (H zt Hzt).
  rewrite forallb_forall in H. specialize (H (k, n) (tabs_get_entry _ _ _ Hget)).
  simpl in H. rewrite Htab, Htitle, String.eqb_refl in H. simpl in H.
  destruct (String.eqb_spec k (zt_id zt)); [contradiction|]. simpl in H.
  apply andb_prop in H. destruct H as [H1 H2]. split.
  - apply includes_false. now destruct (includes k (map zt_id zts)).
  - now destruct (tabs_has (zt_id zt) m).
Qed.

(** Take a store and a report in which a title match only ever pairs
    a stored tab-kind node whose id is no longer reported with a reported
    id new to the store.  After both migration passes every node of the
    store is found under its migrated id, with [parentId] and every
    [childIds] entry rewritten through the migration map and level,
    collapsed flag and kind untouched; [roots] is the old list rewritten,
    followed by the ids of the new tabs; the collapsed set is the old set
    rewritten.  Hence a child [y] of a migrated node [X] ends with
    [parentId] equal to [X]'s new id and is still listed by [X]. *)
Lemma clean_migration_rewrites_references :
  forall h sel zts s,
    NoDup (keys (tabs s)) -> keys_ok (tabs s) -> ~ In "" (keys (tabs s)) ->
    NoDup (collapsedSet s) ->
    NoDup (map zt_id zts) -> ~ In "" (map zt_id zts) ->
    clean_matches h zts (tabs s) ->
    let a := migrateTabs h sel zts s in
    let sigma := migrated (idMigrationMap a) in
    (forall old new, mig_get old (idMigrationMap a) = Some new ->
       sigma old = new /\ In new (map zt_id zts) /\ ~ In new (keys (tabs s))
       /\ ~ In old (map zt_id zts)
       /\ exists X zt, tabs_get old (tabs s) = Some X /\ is_tab X = true /\ In zt zts
                       /\ zt_id zt = new /\ title X = getTabTitle h zt)
    /\ (forall k n, tabs_get k (tabs s) = Some n ->
          exists n2, tabs_get (sigma k) (tabs (acc_tree a)) = Some n2
                     /\ id n2 = sigma k
                     /\ parentId n2 = option_map sigma (parentId n)
                     /\ childIds n2 = map sigma (childIds n)
                     /\ level n2 = level n /\ collapsed n2 = collapsed n
                     /\ nodeType n2 = nodeType n)
    /\ (exists added, roots (acc_tree a) = map sigma (roots s) ++ added
                      /\ forall i, In i added -> In i (map zt_id zts))
    /\ collapsedSet (acc_tree a) = set_of (map sigma (collapsedSet s))
    /\ (forall old new X y Y,
          mig_get old (idMigrationMap a) = Some new ->
          tabs_get old (tabs s) = Some X -> In y (childIds X) ->
          tabs_get y (tabs s) = Some Y -> parentId Y = Some old ->
          exists X2 Y2,
            tabs_get new (tabs (acc_tree a)) = Some X2 /\ id X2 = new
            /\ In (sigma y) (childIds X2)
            /\ tabs_get (sigma y) (tabs (acc_tree a)) = Some Y2
            /\ parentId Y2 = Some new).
Proof.
  intros h sel zts s Hnd Hok Hne Hcol Hzts Hzne Hclean a sigma.
  pose proof (sync_inv_fold h sel zts s Hok Hclean zts [] (mkSyncAcc s [] [])
                (fun _ H => H) Hzts (sync_inv_start h zts s Hnd Hok)) as Hinv.
  simpl in Hinv.
  set (a1 := fold_left (syncTab h sel) zts (mkSyncAcc s [] [])) in *.
  destruct Hinv as [Iids Ind Imig Ikept Imoved Iunseen Iroots Icol _ _].
  assert (Hmig : idMigrationMap a = idMigrationMap a1) by reflexivity.
  assert (Htree : acc_tree a = applyMigration (idMigrationMap a1) (acc_tree a1)) by reflexivity.
  unfold sigma. rewrite Hmig, Htree. clear Hmig Htree.
  set (mig := idMigrationMap a1) in *.
  assert (Hnew : forall old new, mig_get old mig = Some new -> new <> "").
  { intros old new Hm. destruct (Imig _ _ Hm) as (Hseen & _). intros ->. contradiction. }
  assert (Hempty : mig_get "" mig = None).
  { destruct (mig_get "" mig) as [v|] eqn:E; [|reflexivity].
    destruct (Imig _ _ E) as (_ & _ & _ & X & zt & HX & _).
    exfalso. apply Hne. apply tabs_get_In. congruence. }
  assert (Hnodes : forall k n, tabs_get k (tabs s) = Some n ->
            exists n2, tabs_get (migrated mig k) (tabs (applyMigration mig (acc_tree a1))) = Some n2
                       /\ id n2 = migrated mig k
                       /\ parentId n2 = option_map (migrated mig) (parentId n)
                       /\ childIds n2 = map (migrated mig) (childIds n)
                       /\ level n2 = level n /\ collapsed n2 = collapsed n
                       /\ nodeType n2 = nodeType n).
  { intros k n Hk. destruct (mig_get k mig) as [new|] eqn:Em.
    - destruct (Imoved _ _ _ Hk Em) as (n' & Hn' & Hcore).
      rewrite (migrated_Some _ _ _ Em (Hnew _ _ Em)).
      destruct (applyMigration_get mig (acc_tree a1) new Hnew Hempty n' Hn')
        as (n2 & H2 & Hid & Hp & Hc & Hl & Hcl & Hnt).
      destruct (core_fields _ _ Hcore) as (C1 & C2 & C3 & C4 & C5 & C6).
      exists n2. rewrite H2, Hid, Hp, Hc, Hl, Hcl, Hnt, C1, C2, C3, C4, C5, C6.
      now destruct n.
    - destruct (Ikept _ _ Hk Em) as (n' & Hn' & Hcore & _).
      rewrite (migrated_None _ _ Em).
      destruct (applyMigration_get mig (acc_tree a1) k Hnew Hempty n' Hn')
        as (n2 & H2 & Hid & Hp & Hc & Hl & Hcl & Hnt).
      destruct (core_fields _ _ Hcore) as (C1 & C2 & C3 & C4 & C5 & C6).
      exists n2. rewrite H2, Hid, Hp, Hc, Hl, Hcl, Hnt, C1, C2, C3, C4, C5, C6.
      rewrite (Hok _ _ Hk). auto 10. }
  split.
  { intros old new Hm. destruct (Imig _ _ Hm) as (H1 & H2 & H3 & H4).
    split; [apply migrated_Some; eauto|]. auto. }
  split; [exact Hnodes|].
  split.
  { destruct Iroots as (added & Hr & Hadd). exists added.
    rewrite applyMigration_roots, Hr, map_app. split; [|exact Hadd]. f_equal.
    rewrite <- (map_id added) at 2. apply map_ext_in. intros i Hi.
    apply migrated_None. destruct (mig_get i mig) as [v|] eqn:E; [|reflexivity].
    destruct (Imig _ _ E) as (_ & _ & Hstale & _). exfalso. apply Hstale, Hadd, Hi. }
  split.
  { rewrite applyMigration_collapsed; rewrite Icol; [reflexivity | exact Hcol]. }
  intros old new X y Y Hm HX Hy HY HpY.
  destruct (Hnodes _ _ HX) as (X2 & HX2 & HidX & _ & HcX & _).
  destruct (Hnodes _ _ HY) as (Y2 & HY2 & _ & HpY2 & _).
  rewrite (migrated_Some _ _ _ Hm (Hnew _ _ Hm)) in HX2, HidX.
  exists X2, Y2. split; [exact HX2|]. split; [exact HidX|].
  split; [rewrite HcX; now apply in_map|]. split; [exact HY2|].
  rewrite HpY2, HpY. simpl. now rewrite (migrated_Some _ _ _ Hm (Hnew _ _ Hm)).
Qed.

(** The stale tab "old1" (title "Paper.pdf") with child "y", when the
    host reports "new1" with that title: "y" ends under "new1". *)
Example stale_tab_keeps_its_child :
  exists X2 Y2,
    tabs_get "new1" (tabs (acc_tree (migrateTabs quietHost None reopened staleStore))) = Some X2
    /\ id X2 = "new1" /\ In "y" (childIds X2)
    /\ tabs_get "y" (tabs (acc_tree (migrateTabs quietHost None reopened staleStore))) = Some Y2
    /\ parentId Y2 = Some "new1".
Proof.
  destruct (clean_migration_rewrites_references quietHost None reopened staleStore)
    as (_ & _ & _ & _ & H).
  - apply distinctb_NoDup. reflexivity.
  - apply keys_okb_ok. reflexivity.
  - apply includes_false. reflexivity.
  - apply distinctb_NoDup. reflexivity.
  - apply distinctb_NoDup. reflexivity.
  - apply includes_false. reflexivity.
  - apply clean_matchesb_ok. reflexivity.
  - apply (H "old1" "new1"
             (mkTabNode "old1" None ["y"] 0 true "Paper.pdf" "reader" TabKind false) "y"
             (mkTabNode "y" (Some "old1") [] 1 false "Notes" "reader" TabKind false));
      try reflexivity. simpl. now left.
Qed.

(** The whole pass on the same example, with "new1" selected: "old1" is
    relabelled, "y" stays under it, and nothing is removed. *)
Example sync_relabels_stale_tab :
  syncWithZoteroTabs 3 quietHost (mkWindow (Some reopened) (Some "new1")) staleStore
  = Done relabelled.
Proof. reflexivity. Qed.

(** C3 (evaluation at the failing input).  The stored tab "old1" has the
    child "y" and is no longer reported; the window reports "new1" with
    its title, so "old1" is migrated to "new1".  The window also reports
    the open tabs "z" and "y", which share a title.  While "z" is handled,
    "y" is not yet in [currentTabIds]: the node of "y" matches by title
    and is stored under "z", "y" is added anew as a root, and the rewrite
    of the references turns every "y" into "z".  After the pass the node
    "new1" lists "z" and not "y", the node under "y" has no parent and is
    in neither [roots] nor any [childIds], and [roots] names "z" twice. *)
Theorem C3_twin_title_breaks_hierarchy :
  tabs_get "old1" (tabs staleTwins)
    = Some (mkTabNode "old1" None ["y"] 0 false "Paper.pdf" "reader" TabKind false)
  /\ tabs_get "y" (tabs staleTwins)
     = Some (mkTabNode "y" (Some "old1") [] 1 false "Same" "reader" TabKind false)
  /\ ~ In "old1" (map zt_id staleTwinsReport)
  /\ mig_get "old1" (idMigrationMap (migrateTabs quietHost None staleTwinsReport staleTwins))
     = Some "new1"
  /\ syncWithZoteroTabs 4 quietHost (mkWindow (Some staleTwinsReport) None) staleTwins
     = Done staleTwinsSynced
  /\ option_map childIds (tabs_get "new1" (tabs staleTwinsSynced)) = Some ["z"]
  /\ option_map parentId (tabs_get "y" (tabs staleTwinsSynced)) = Some None
  /\ ~ In "y" (roots staleTwinsSynced)
  /\ ~ listed_as_child "y" staleTwinsSynced.
Proof.
  split; [reflexivity|]. split; [reflexivity|].
  split; [simpl; intros [E|[E|[E|[]]]]; discriminate|].
  split; [reflexivity|]. split; [reflexivity|]. split; [reflexivity|]. split; [reflexivity|].
  split.
  - simpl. intros [E|[E|[E|[]]]]; discriminate.
  - intros (k & n & Hget & Hin). simpl in Hget.
    destruct (k =? "z"); [injection Hget as <-; simpl in Hin; exact Hin|].
    destruct (k =? "new1");
      [injection Hget as <-; simpl in Hin; destruct Hin as [E|[]]; discriminate|].
    destruct (k =? "y"); [injection Hget as <-; simpl in Hin; exact Hin | discriminate].
Qed.


(** ** The collapsed flags through reconciliation and restart *)

Lemma set_of_acc_In l :
  forall acc x, In x (fold_left (fun acc x => set_add x acc) l acc) <-> In x acc \/ In x l.
Proof.
  induction l as [|y l IH]; intros acc x; cbn [fold_left].
  - simpl. tauto.
  - rewrite IH, set_add_In. simpl. intuition congruence.
Qed.

Lemma set_of_In x l : In x (set_of l) <-> In x l.
Proof. unfold set_of. rewrite set_of_acc_In. simpl. tauto. Qed.

Lemma set_of_acc_distinct l :
  forall acc, NoDup acc -> NoDup (fold_left (fun acc x => set_add x acc) l acc).
Proof.
  induction l as [|y l IH]; intros acc H; cbn [fold_left]; [exact H|].
  apply IH. now apply set_add_NoDup.
Qed.

Lemma set_of_distinct l : NoDup (set_of l).
Proof. apply set_of_acc_distinct. constructor. Qed.

Lemma flags_get k m m' n :
  option_map flags (tabs_get k m') = option_map flags (tabs_get k m) ->
  tabs_get k m = Some n ->
  exists n', tabs_get k m' = Some n' /\ id n' = id n /\ collapsed n' = collapsed n.
Proof.
  intros H Hk. rewrite Hk in H. destruct (tabs_get k m') as [n'|]; [|discriminate].
  simpl in H. unfold flags in H. injection H as H1 H2. eauto.
Qed.

(** The second pass leaves keys, ids and collapsed flags as they are. *)
Lemma applyMigration_flags mig s :
  keys (tabs (applyMigration mig s)) = keys (tabs s)
  /\ forall k, option_map flags (tabs_get k (tabs (applyMigration mig s)))
               = option_map flags (tabs_get k (tabs s)).
Proof.
  destruct mig as [|e mig'] eqn:Emig; [split; reflexivity|].
  rewrite <- Emig.
  assert (Hm : tabs (applyMigration mig s)
               = map (fun e => (fst e, migrateChildren mig (migrateParent mig (snd e)))) (tabs s)).
  { rewrite Emig. reflexivity. }
  rewrite Hm. split.
  - apply (keys_map (fun n => migrateChildren mig (migrateParent mig n))).
  - intros k. rewrite (tabs_get_map (fun n => migrateChildren mig (migrateParent mig n))).
    destruct (tabs_get k (tabs s)) as [n|]; [|reflexivity]. simpl.
    destruct (migrateParent_rest mig n) as (H1 & _ & _ & H4 & _).
    unfold flags, migrateChildren. simpl. now rewrite H1, H4.
Qed.

(** Both migration passes keep the flags and the set together when the
    title matches are clean. *)
Lemma migrateTabs_flags_inv h sel zts s :
  flags_inv s ->
  NoDup (map zt_id zts) -> ~ In "" (map zt_id zts) ->
  clean_matches h zts (tabs s) ->
  flags_inv (acc_tree (migrateTabs h sel zts s)).
Proof.
  intros (Hnd & Hok & Hcol & Hex) Hzts Hzne Hclean.
  pose proof (sync_inv_fold h sel zts s Hok Hclean zts [] (mkSyncAcc s [] [])
                (fun _ H => H) Hzts (sync_inv_start h zts s Hnd Hok)) as Hinv.
  simpl in Hinv.
  change (acc_tree (migrateTabs h sel zts s))
    with (applyMigration (idMigrationMap (fold_left (syncTab h sel) zts (mkSyncAcc s [] [])))
            (acc_tree (fold_left (syncTab h sel) zts (mkSyncAcc s [] [])))).
  set (a1 := fold_left (syncTab h sel) zts (mkSyncAcc s [] [])) in *.
  destruct Hinv as [_ Ind Imig Ikept Imoved _ _ Icol Iid Iorigin].
  set (mig := idMigrationMap a1) in *.
  assert (Hnew : forall old new, mig_get old mig = Some new -> new <> "").
  { intros old new Hm. destruct (Imig _ _ Hm) as (Hseen & _). intros ->. contradiction. }
  destruct (applyMigration_flags mig (acc_tree a1)) as [Hkeys Hflags].
  assert (Hcol1 : NoDup (collapsedSet (acc_tree a1))) by now rewrite Icol.
  split; [now rewrite Hkeys|].
  split.
  { intros k n Hk.
    destruct (flags_get k _ _ n (eq_sym (Hflags k)) Hk) as (n1 & Hn1 & Hid & _).
    rewrite <- Hid. exact (Iid _ _ Hn1). }
  split; [rewrite applyMigration_collapsed by exact Hcol1; apply set_of_distinct|].
  intros k. rewrite applyMigration_collapsed by exact Hcol1.
  rewrite Icol, set_of_In, in_map_iff. split.
  - intros (k0 & Hk0 & Hin). apply Hex in Hin. destruct Hin as (n0 & Hn0 & Hc0).
    destruct (mig_get k0 mig) as [new|] eqn:Em.
    + rewrite (migrated_Some _ _ _ Em (Hnew _ _ Em)) in Hk0. subst new.
      destruct (Imoved _ _ _ Hn0 Em) as (n' & Hn' & Hcore).
      destruct (core_fields _ _ Hcore) as (_ & _ & _ & _ & C5 & _).
      destruct (flags_get k _ _ n' (Hflags k) Hn') as (n2 & Hn2 & _ & Hc2).
      exists n2. split; [exact Hn2|]. rewrite Hc2, C5. now destruct n0.
    + rewrite (migrated_None _ _ Em) in Hk0. subst k0.
      destruct (Ikept _ _ Hn0 Em) as (n' & Hn' & Hcore & _).
      destruct (core_fields _ _ Hcore) as (_ & _ & _ & _ & C5 & _).
      destruct (flags_get k _ _ n' (Hflags k) Hn') as (n2 & Hn2 & _ & Hc2).
      exists n2. split; [exact Hn2|]. now rewrite Hc2, C5.
  - intros (n & Hk & Hc).
    destruct (flags_get k _ _ n (eq_sym (Hflags k)) Hk) as (n1 & Hn1 & _ & Hc1).
    rewrite Hc in Hc1.
    destruct (Iorigin _ _ Hn1 Hc1) as (k0 & n0 & Hn0 & Hc0 & Ht).
    exists k0. split; [|apply Hex; eauto].
    unfold target in Ht. destruct (mig_get k0 mig) as [v|] eqn:Em.
    + subst v. apply (migrated_Some _ _ _ Em (Hnew _ _ Em)).
    + subst k0. now apply migrated_None.
Qed.

Lemma recalculateLevels_flags fuel s s' :
  carried (recalculateLevels fuel s) = Some s' -> same_flags s s'.
Proof.
  unfold recalculateLevels. apply for_of_carried; [apply same_flags_refl | apply same_flags_trans |].
  intros r s0 s0' H0.
  destruct (tabs_get r (tabs s0)); [|injection H0 as <-; apply same_flags_refl].
  eapply same_flags_trans; [|apply (updateChildLevels_flags _ _ _ _ H0)]. auto with flags.
Qed.

(** A whole reconciliation pass with clean title matches. *)
Lemma syncWithZoteroTabs_flags_inv fuel h win zts s s' :
  flags_inv s ->
  zoteroTabs win = Some zts ->
  NoDup (map zt_id zts) -> ~ In "" (map zt_id zts) ->
  clean_matches h zts (tabs s) ->
  carried (syncWithZoteroTabs fuel h win s) = Some s' -> flags_inv s'.
Proof.
  intros Hinv Hz Hnd Hne Hclean. unfold syncWithZoteroTabs. rewrite Hz. cbv zeta.
  pose proof (migrateTabs_flags_inv h (selectedID win) zts s Hinv Hnd Hne Hclean) as H2.
  set (a := migrateTabs h (selectedID win) zts s) in *.
  assert (Hloop : forall xs t t',
            flags_inv t -> carried (for_of xs (removeTabFromTree fuel h) t) = Some t' ->
            flags_inv t').
  { intros xs t t' Ht Hc. revert Ht. revert t t' Hc.
    apply (for_of_carried (fun t t' => flags_inv t -> flags_inv t')); [auto | auto |].
    intros x t t' Hc Ht. unfold removeTabFromTree in Hc.
    eapply removeNodeFromTree_flags_inv; eauto. }
  intros Hc. apply carried_bind in Hc. destruct Hc as [Hc|(s3 & Hc & Hrest)].
  - eapply Hloop; [exact H2|]. now rewrite Hc.
  - assert (H3 : flags_inv s3) by (eapply Hloop; [exact H2|]; now rewrite Hc).
    eapply flags_inv_same; [|apply (recalculateLevels_flags _ _ _ Hrest)].
    eapply flags_inv_same; [exact H3|].
    apply (same_flags_map_entry
             (fun e => set_selected (is_tab (snd e) && is_selected (selectedID win) (id (snd e)))
                         (snd e))).
    intros [k []]. reflexivity.
Qed.

(** A restart: the saved document loaded into the empty store. *)
Lemma restart_flags_inv fuel s s' :
  flags_inv s ->
  carried (init fuel (Some (saveTreeStructure s)) emptyTree) = Some s' -> flags_inv s'.
Proof.
  intros (Hnd & Hok & Hcol & Hex) Hc. unfold init in Hc. rewrite load_save in Hc by assumption.
  eapply flags_inv_same; [|apply (recalculateLevels_flags _ _ _ Hc)].
  eapply flags_inv_same; [exact (conj Hnd (conj Hok (conj Hcol Hex)))|].
  split; [|split].
  - simpl. apply (keys_map untouched).
  - reflexivity.
  - intros k. simpl. rewrite (tabs_get_map untouched).
    destruct (tabs_get k (tabs s)) as [[]|]; reflexivity.
Qed.

Lemma flags_inv_cleanly_reachable s : cleanly_reachable s -> flags_inv s.
Proof.
  induction 1 as [ | s i ttl ty p _ IH Hf | s gid ttl p _ IH Hf | s i ttl _ IH
                   | s fuel i promote s' _ IH Hc | s fuel i p s' _ IH Hc
                   | s h i _ IH | s _ IH | s _ IH | s i _ IH | s i _ IH | s ids _ IH | s _ IH
                   | s fuel s' _ IH Hc | s fuel h win zts s' _ IH Hz Hnd Hne Hclean Hc ].
  - unfold flags_inv. simpl. split; [constructor|].
    split; [intros k n Hget; discriminate|]. split; [constructor|].
    intros k. simpl. split; [intros []|]. intros (n & Hget & _). discriminate.
  - now apply insertNode_flags_inv.
  - now apply insertNode_flags_inv.
  - eapply flags_inv_same; [exact IH|]. unfold renameNode.
    destruct (tabs_get i (tabs s)); auto with flags.
  - eapply removeNodeFromTree_flags_inv; eauto.
  - eapply flags_inv_same; [exact IH|]. eapply attachTabTo_flags; eauto.
  - now apply toggleCollapsed_flags_inv.
  - now apply collapseAll_flags_inv.
  - now apply expandAll_flags_inv.
  - eapply flags_inv_same; [exact IH|]. unfold moveUp, moveWith.
    destruct (tabs_get i (tabs s)) as [tab|]; [|auto with flags].
    destruct (truthy (parentId tab)); auto with flags.
  - eapply flags_inv_same; [exact IH|]. unfold moveDown, moveWith.
    destruct (tabs_get i (tabs s)) as [tab|]; [|auto with flags].
    destruct (truthy (parentId tab)); auto with flags.
  - eapply flags_inv_same; [exact IH|]. unfold onTabSelected.
    eapply same_flags_trans; [|apply same_flags_lastActive].
    apply (same_flags_map_entry
             (fun e => set_selected match hd_error ids with
                                    | Some x => id (snd e) =? x
                                    | None => false
                                    end (snd e))).
    intros [k []]. reflexivity.
  - now apply resetAllToRoot_flags_inv.
  - eapply restart_flags_inv; eauto.
  - eapply syncWithZoteroTabs_flags_inv; eauto.
Qed.

(** When two open tabs share a title, the first pass takes the second
    tab's node for a stale one and stores it under the first tab's id,
    over the collapsed node there; the collapsed set keeps the id. *)
Example sync_twin_titles_overwrites_collapsed :
  exists s',
    syncWithZoteroTabs 3 quietHost twinFamilyWindow twinFamily = Done s'
    /\ option_map collapsed (tabs_get "t1" (tabs s')) = Some false
    /\ In "t1" (collapsedSet s').
Proof.
  eexists. split; [vm_compute; reflexivity|]. split; [reflexivity | left; reflexivity].
Qed.

(** In every state reached through mutation operations, restarts and
    reconciliation passes with clean title matches, a node's [collapsed]
    flag is true exactly when its id is in the collapsed set: each
    mutation operation ([toggleCollapsed] with its auto-collapse of
    siblings, [collapseAll], [expandAll], node creation, removal with or
    without promotion, and the others) hands the lockstep on, whether it
    returns or throws. *)
Lemma lockstep_cleanly_reachable s : cleanly_reachable s -> lockstep s.
Proof.
  intros H. apply flags_inv_lockstep. now apply flags_inv_cleanly_reachable.
Qed.

Lemma cleanly_reachable_reachable s : cleanly_reachable s -> reachable s.
Proof.
  induction 1 as [ | s i ttl ty p _ IH Hf | s gid ttl p _ IH Hf | s i ttl _ IH
                   | s fuel i promote s' _ IH Hc | s fuel i p s' _ IH Hc
                   | s h i _ IH | s _ IH | s _ IH | s i _ IH | s i _ IH | s ids _ IH | s _ IH
                   | s fuel s' _ IH Hc | s fuel h win zts s' _ IH Hz Hnd Hne Hclean Hc ].
  - apply reach_empty.
  - now apply reach_addTab.
  - now apply reach_createGroup.
  - now apply reach_renameNode.
  - now apply (reach_removeNode s fuel i promote s').
  - now apply (reach_attachTabTo s fuel i p s').
  - now apply reach_toggleCollapsed.
  - now apply reach_collapseAll.
  - now apply reach_expandAll.
  - now apply reach_moveUp.
  - now apply reach_moveDown.
  - now apply reach_onTabSelected.
  - now apply reach_resetAllToRoot.
  - now apply (reach_restart s fuel s').
  - now apply (reach_sync s fuel h win s').
Qed.

Lemma twinFamily_cleanly_reachable : cleanly_reachable twinFamily.
Proof.
  unfold twinFamily. apply clean_toggleCollapsed.
  apply clean_addTab; [|reflexivity].
  apply clean_addTab; [|reflexivity].
  apply clean_addTab; [|reflexivity].
  apply clean_empty.
Qed.

(** C7 (evaluation at the failing input).  Three [addTab] calls and one
    [toggleCollapsed] give the store [twinFamily]: two root tabs "t1" and
    "t2" with the same title, "t1" collapsed over its child "c"; flags and
    collapsed set agree there.  One reconciliation pass against the window
    that reports exactly these three tabs takes the node of the open tab
    "t2" for a stale one, because "t2" is not yet in [currentTabIds] while
    "t1" is handled, and stores it under "t1", over the collapsed node.
    The state reached has the node "t1" expanded while the collapsed set
    still holds "t1": the lockstep is broken in a reachable state. *)
Theorem C7_sync_breaks_lockstep :
  reachable twinFamily /\ lockstep twinFamily
  /\ zoteroTabs twinFamilyWindow
     = Some [mkZoteroTab "t1" "Paper.pdf" "reader" None;
             mkZoteroTab "t2" "Paper.pdf" "reader" None;
             mkZoteroTab "c" "Notes" "reader" None]
  /\ exists s',
       syncWithZoteroTabs 3 quietHost twinFamilyWindow twinFamily = Done s'
       /\ reachable s'
       /\ option_map collapsed (tabs_get "t1" (tabs s')) = Some false
       /\ In "t1" (collapsedSet s')
       /\ ~ lockstep s'.
Proof.
  assert (Hr : reachable twinFamily).
  { apply cleanly_reachable_reachable. exact twinFamily_cleanly_reachable. }
  split; [exact Hr|].
  split; [apply lockstep_cleanly_reachable; exact twinFamily_cleanly_reachable|].
  split; [reflexivity|].
  destruct (syncWithZoteroTabs 3 quietHost twinFamilyWindow twinFamily) as [s'|s'|] eqn:E;
    try (vm_compute in E; discriminate).
  exists s'. split; [reflexivity|].
  assert (Hr' : reachable s').
  { apply (reach_sync twinFamily 3 quietHost twinFamilyWindow s' Hr). now rewrite E. }
  vm_compute in E. injection E as <-.
  split; [exact Hr'|]. split; [reflexivity|]. split; [now left|].
  intros H.
  destruct (H "t1" (mkTabNode "t1" None [] 0 false "Paper.pdf" "reader" TabKind false) eq_refl)
    as [_ H1].
  discriminate (H1 (or_introl eq_refl)).
Qed.


(** * Further properties *)

(** ** Titles *)

Lemma nonblank_nonempty s : nonblank s = true -> s <> "".
Proof. intros H ->. discriminate. Qed.

(** X12.  [getTabTitle] never returns the empty string: the result is a
    non-blank title, or else the tab's type, or "Tab" when the type is
    empty. *)
Theorem getTabTitle_nonempty :
  forall h zt,
    getTabTitle h zt <> ""
    /\ (nonblank (getTabTitle h zt) = true \/ getTabTitle h zt = zt_type zt).
Proof.
  intros h zt.
  assert (Hfb : forall fb, fb = (if zt_type zt =? "" then "Tab" else zt_type zt) ->
                fb <> "" /\ (nonblank fb = true \/ fb = zt_type zt)).
  { intros fb ->. destruct (String.eqb_spec (zt_type zt) "") as [E|E].
    - split; [discriminate | now left].
    - split; [exact E | now right]. }
  assert (Hnb : forall t, nonblank t = true ->
                t <> "" /\ (nonblank t = true \/ t = zt_type zt)).
  { intros t Ht. split; [now apply nonblank_nonempty | now left]. }
  unfold getTabTitle.
  destruct (nonblank (zt_title zt)) eqn:E1; [now apply Hnb|].
  destruct (zt_data zt) as [d|]; [|now apply Hfb].
  destruct (zt_type zt =? "reader") eqn:E2; [|now apply Hfb].
  assert (Hd : forall t, t = (if nonblank (data_title d) then data_title d
                              else if zt_type zt =? "" then "Tab" else zt_type zt) ->
               t <> "" /\ (nonblank t = true \/ t = zt_type zt)).
  { intros t ->. destruct (nonblank (data_title d)) eqn:E3; [now apply Hnb | now apply Hfb]. }
  destruct (itemID d); [now apply Hd|].
  destruct (itemTitle h (S n)) as [t|]; [|now apply Hd].
  destruct (nonblank t) eqn:E4; [now apply Hnb | now apply Hd].
Qed.

(** ** Creating nodes *)

Lemma truthy_Some o p : truthy o = Some p -> o = Some p /\ p <> "".
Proof.
  destruct o as [x|]; simpl; [|discriminate].
  destruct (String.eqb_spec x ""); [discriminate|]. intros E. injection E as <-. auto.
Qed.

Lemma truthy_intro p : p <> "" -> truthy (Some p) = Some p.
Proof. intros H. simpl. now destruct (String.eqb_spec p ""). Qed.

Lemma modify_id_at k f m n :
  tabs_get k m = Some n -> f n = n -> modify k f m = m.
Proof.
  induction m as [|[k' v] m IH]; simpl; intros Hget Hf; [reflexivity|].
  destruct (k =? k').
  - injection Hget as ->. now rewrite Hf.
  - f_equal. now apply IH.
Qed.

Lemma modify_absent k f m : tabs_get k m = None -> modify k f m = m.
Proof.
  induction m as [|[k' v] m IH]; simpl; intros Hget; [reflexivity|].
  destruct (k =? k'); [discriminate|]. f_equal. now apply IH.
Qed.

Lemma modify_ext_at k f g m :
  (forall n, tabs_get k m = Some n -> f n = g n) -> modify k f m = modify k g m.
Proof.
  induction m as [|[k' v] m IH]; simpl; intros H; [reflexivity|].
  destruct (k =? k').
  - now rewrite (H v eq_refl).
  - f_equal. now apply IH.
Qed.

(** X9.  [addTab] under a parent that is in the store: the new node is the
    parent's last child, one level below it; the roots, the collapsed set
    and every other node stay as they are. *)
Theorem addTab_under_parent :
  forall i ttl ty p parent s,
    p <> "" -> tabs_get p (tabs s) = Some parent -> tabs_has i (tabs s) = false ->
    let s' := addTab i ttl ty (Some p) s in
    tabs_get i (tabs s') = Some (mkTabNode i (Some p) [] (level parent + 1) false ttl ty TabKind false)
    /\ tabs_get p (tabs s') = Some (set_childIds (childIds parent ++ [i]) parent)
    /\ roots s' = roots s /\ collapsedSet s' = collapsedSet s
    /\ (forall k, k <> i -> k <> p -> tabs_get k (tabs s') = tabs_get k (tabs s)).
Proof.
  intros i ttl ty p parent s Hp Hget Hfresh s'.
  assert (Hip : i <> p).
  { intros ->. unfold tabs_has in Hfresh. now rewrite Hget in Hfresh. }
  assert (Hs' : s' = with_tabs (tabs_set i (mkTabNode i (Some p) [] (level parent + 1) false ttl ty TabKind false))
                       (with_tabs (modify p (fun n => set_childIds (push (childIds n) i) n)) s)).
  { unfold s', addTab, insertNode. cbn [parentId id]. rewrite (truthy_intro _ Hp), Hget. reflexivity. }
  rewrite Hs'. cbn [tabs roots collapsedSet with_tabs].
  split; [apply tabs_get_set_same|].
  split.
  { rewrite tabs_get_set_other by exact Hip. rewrite tabs_get_modify_same, Hget. reflexivity. }
  split; [reflexivity|]. split; [reflexivity|].
  intros k Hki Hkp. rewrite tabs_get_set_other by congruence.
  apply tabs_get_modify_other. congruence.
Qed.

Lemma addTab_under_parent_witness :
  tabs_get "c" (tabs (addTab "c" "Notes" "reader" (Some "a") (lone "a")))
  = Some (mkTabNode "c" (Some "a") [] 1 false "Notes" "reader" TabKind false).
Proof.
  refine (proj1 (addTab_under_parent "c" "Notes" "reader" "a"
                   (mkTabNode "a" None [] 0 false "Paper.pdf" "reader" TabKind false)
                   (lone "a") _ _ _)).
  - discriminate.
  - reflexivity.
  - reflexivity.
Defined.

(** X10.  [addTab] and [createGroup] with a parent argument that is null, empty
    or names no node of the store: the node becomes a root, its [parentId]
    null, appended to the store and to [roots]. *)
Theorem insert_without_parent_is_root :
  forall i ttl ty parent s,
    no_parent parent s -> tabs_has i (tabs s) = false ->
    addTab i ttl ty parent s = appendRoot (rootTab i ttl ty) s
    /\ createGroup i ttl parent s = appendRoot (rootGroup i ttl) s.
Proof.
  intros i ttl ty parent s Hno Hfresh. unfold no_parent in Hno.
  unfold addTab, createGroup, insertNode, appendRoot, with_tabs, with_roots, push.
  cbn [parentId id tabs roots collapsedSet lastActiveTabId].
  destruct (truthy parent) as [p|].
  - rewrite Hno. cbn [tabs]. now rewrite !(tabs_set_fresh _ _ _ Hfresh).
  - cbn [tabs]. now rewrite !(tabs_set_fresh _ _ _ Hfresh).
Qed.

Lemma insert_without_parent_is_root_witness :
  addTab "b" "Notes" "reader" (Some "ghost") (lone "a")
  = appendRoot (rootTab "b" "Notes" "reader") (lone "a").
Proof.
  refine (proj1 (insert_without_parent_is_root "b" "Notes" "reader" (Some "ghost") (lone "a") _ _)).
  - reflexivity.
  - reflexivity.
Defined.

(** ** Renaming *)

(** X11.  [renameNode] with a blank title changes nothing, and no rename turns
    a non-empty title into an empty one. *)
Theorem renameNode_keeps_a_title :
  forall i ttl s,
    (trim ttl = "" -> renameNode i ttl s = s)
    /\ (forall n, tabs_get i (tabs s) = Some n ->
          exists n', tabs_get i (tabs (renameNode i ttl s)) = Some n'
                     /\ (title n <> "" -> title n' <> "")
                     /\ (trim ttl <> "" -> title n' = trim ttl)
                     /\ set_title "" n' = set_title "" n)
    /\ (forall k, k <> i -> tabs_get k (tabs (renameNode i ttl s)) = tabs_get k (tabs s))
    /\ roots (renameNode i ttl s) = roots s
    /\ collapsedSet (renameNode i ttl s) = collapsedSet s.
Proof.
  intros i ttl s. unfold renameNode.
  destruct (tabs_get i (tabs s)) as [n0|] eqn:Hget.
  - split.
    { intros Hblank. rewrite Hblank. simpl.
      unfold with_tabs. rewrite (modify_id_at i _ (tabs s) n0 Hget); [now destruct s | now destruct n0]. }
    split.
    { intros n Hn. injection Hn as <-. cbn [tabs with_tabs].
      rewrite tabs_get_modify_same, Hget. simpl. eexists. split; [reflexivity|].
      cbn [title]. destruct (String.eqb_spec (trim ttl) "") as [E|E].
      - split; [auto|]. split; [intros H; contradiction | now destruct n0].
      - split; [auto|]. split; [reflexivity | now destruct n0]. }
    split; [|split; reflexivity].
    intros k Hk. cbn [tabs with_tabs]. apply tabs_get_modify_other. congruence.
  - split; [reflexivity|]. split; [discriminate|]. split; [reflexivity | split; reflexivity].
Qed.

(** ** Reordering among siblings *)

Lemma indexOf_notin x l : ~ In x l -> indexOf x l = None.
Proof.
  induction l as [|y l IH]; simpl; intros H; [reflexivity|].
  destruct (String.eqb_spec x y) as [->|Hne]; [exfalso; auto|].
  rewrite IH; [reflexivity | auto].
Qed.

Lemma indexOf_Some x l :
  forall i, indexOf x l = Some i ->
            exists a b, l = a ++ x :: b /\ ~ In x a /\ List.length a = i.
Proof.
  induction l as [|y l IH]; simpl; intros i H; [discriminate|].
  destruct (String.eqb_spec x y) as [->|Hne].
  - injection H as <-. exists [], l. auto.
  - destruct (indexOf x l) as [j|]; [|discriminate]. injection H as <-.
    destruct (IH j eq_refl) as (a & b & -> & Hni & Hlen).
    exists (y :: a), b. simpl. split; [reflexivity|]. split; [|now rewrite Hlen].
    intros [E|Hin]; [congruence | contradiction].
Qed.

Lemma indexOf_first x a b : ~ In x a -> indexOf x (a ++ x :: b) = Some (List.length a).
Proof.
  induction a as [|y a IH]; simpl; intros H.
  - now rewrite String.eqb_refl.
  - destruct (String.eqb_spec x y) as [->|Hne]; [exfalso; auto|].
    rewrite IH; [reflexivity | auto].
Qed.

Lemma indexOf_In x l : In x l -> exists i, indexOf x l = Some i.
Proof.
  induction l as [|y l IH]; simpl; intros H; [contradiction|].
  destruct (String.eqb_spec x y) as [->|Hne]; [eauto|].
  destruct H as [E|H]; [congruence|]. destruct (IH H) as [i ->]. simpl. eauto.
Qed.

Lemma splice_out_at a y b : splice_out (List.length a) (a ++ y :: b) = a ++ b.
Proof. induction a as [|z a IH]; simpl; [reflexivity | now rewrite IH]. Qed.

Lemma splice_in_at a x b : splice_in (List.length a) x (a ++ b) = a ++ x :: b.
Proof.
  induction a as [|z a IH]; simpl; [now destruct b | now rewrite IH].
Qed.

(** [move_up] swaps the tab with the sibling before it, [move_down] with
    the sibling after it. *)
Lemma move_up_swap x y a b :
  ~ In x a -> x <> y -> move_up x (a ++ y :: x :: b) = a ++ x :: y :: b.
Proof.
  intros Ha Hxy. unfold move_up.
  assert (E : indexOf x (a ++ y :: x :: b) = Some (S (List.length a))).
  { replace (a ++ y :: x :: b) with ((a ++ [y]) ++ x :: b) by now rewrite <- app_assoc.
    rewrite indexOf_first.
    - rewrite length_app. simpl. now rewrite Nat.add_1_r.
    - intros Hin. apply in_app_or in Hin.
      destruct Hin as [Hin|[E|[]]]; [contradiction | congruence]. }
  rewrite E.
  assert (E2 : splice_out (S (List.length a)) (a ++ y :: x :: b) = a ++ y :: b).
  { replace (a ++ y :: x :: b) with ((a ++ [y]) ++ x :: b) by now rewrite <- app_assoc.
    replace (S (List.length a)) with (List.length (a ++ [y])) by (rewrite length_app; simpl; lia).
    rewrite splice_out_at. now rewrite <- app_assoc. }
  rewrite E2. apply splice_in_at.
Qed.

Lemma move_down_swap x y a b :
  ~ In x a -> move_down x (a ++ x :: y :: b) = a ++ y :: x :: b.
Proof.
  intros Ha. unfold move_down. rewrite (indexOf_first _ _ _ Ha).
  assert (Hlt : (S (List.length a) <? List.length (a ++ x :: y :: b))%nat = true).
  { apply Nat.ltb_lt. rewrite length_app. simpl. lia. }
  rewrite Hlt, splice_out_at.
  replace (S (List.length a)) with (List.length (a ++ [y])) by (rewrite length_app; simpl; lia).
  replace (a ++ y :: b) with ((a ++ [y]) ++ b) by now rewrite <- app_assoc.
  rewrite splice_in_at, <- app_assoc. reflexivity.
Qed.

Lemma indexOf_before x l i :
  indexOf x l = Some (S i) ->
  exists a y b, l = a ++ y :: x :: b /\ ~ In x a /\ x <> y.
Proof.
  intros H. destruct (indexOf_Some _ _ _ H) as (a & b & -> & Hni & Hlen).
  destruct (exists_last (l := a)) as (a' & y & ->); [now destruct a|].
  exists a', y, b. rewrite <- app_assoc. split; [reflexivity|].
  split; intros Hx; apply Hni; apply in_or_app; [now left | right; left; congruence].
Qed.



Lemma with_tabs_same s m : m = tabs s -> with_tabs (fun _ => m) s = s.
Proof. intros ->. now destruct s. Qed.




Lemma move_up_perm x l : Permutation (move_up x l) l.
Proof.
  unfold move_up. destruct (indexOf x l) as [[|i]|] eqn:E; try apply Permutation_refl.
  destruct (indexOf_before _ _ _ E) as (a & y & b & -> & Ha & Hxy).
  assert (E2 : move_up x (a ++ y :: x :: b) = a ++ x :: y :: b) by now apply move_up_swap.
  unfold move_up in E2. rewrite E in E2. rewrite E2.
  apply Permutation_app_head. apply perm_swap.
Qed.

Lemma move_down_perm x l : In x l -> Permutation (move_down x l) l.
Proof.
  intros Hin. destruct (indexOf_In _ _ Hin) as [i E].
  destruct (indexOf_Some _ _ _ E) as (a & b & -> & Ha & Hlen).
  destruct b as [|y b].
  - unfold move_down. rewrite E.
    replace (S i <? List.length (a ++ [x]))%nat with false; [apply Permutation_refl|].
    symmetry. apply Nat.ltb_ge. rewrite length_app. simpl. lia.
  - rewrite (move_down_swap _ _ _ _ Ha). apply Permutation_app_head. apply perm_swap.
Qed.

Lemma reordered_refl s : reordered s s.
Proof.
  split; [reflexivity|]. split; [apply Permutation_refl|]. split; [reflexivity|].
  intros k. destruct (tabs_get k (tabs s)); [|exact I]. split; [reflexivity | apply Permutation_refl].
Qed.

Lemma moveWith_reordered mv i s :
  (forall tab sibs, tabs_get i (tabs s) = Some tab -> siblingsOf tab s = Some sibs ->
                    Permutation (mv i sibs) sibs) ->
  reordered s (moveWith mv i s).
Proof.
  intros Hmv. unfold moveWith. destruct (tabs_get i (tabs s)) as [tab|] eqn:Hget; [|apply reordered_refl].
  specialize (Hmv tab). unfold siblingsOf in Hmv.
  destruct (truthy (parentId tab)) as [p|].
  - split; [apply keys_modify|]. split; [apply Permutation_refl|]. split; [reflexivity|].
    intros k. cbn [tabs with_tabs]. rewrite tabs_get_modify.
    destruct (String.eqb_spec p k) as [<-|Hne].
    + destruct (tabs_get p (tabs s)) as [pn|]; [|exact I]. simpl.
      split; [now destruct pn | now apply Hmv].
    + destruct (tabs_get k (tabs s)); [|exact I]. split; [reflexivity | apply Permutation_refl].
  - split; [reflexivity|]. split; [now apply Hmv|]. split; [reflexivity|].
    intros k. cbn [tabs with_roots].
    destruct (tabs_get k (tabs s)); [|exact I]. split; [reflexivity | apply Permutation_refl].
Qed.

Lemma moveUp_reordered i s : reordered s (moveUp i s).
Proof. apply moveWith_reordered. intros. apply move_up_perm. Qed.

Lemma moveDown_reordered i s tab sibs :
  tabs_get i (tabs s) = Some tab -> siblingsOf tab s = Some sibs -> In i sibs ->
  reordered s (moveDown i s).
Proof.
  intros Hget Hsib Hin. apply moveWith_reordered.
  intros tab' sibs' Hget' Hsib'. rewrite Hget in Hget'. injection Hget' as <-.
  rewrite Hsib in Hsib'. injection Hsib' as <-. now apply move_down_perm.
Qed.

(** X14.  Moving a tab up or down never adds or loses a sibling: [moveUp]
    always leaves a rearrangement of the same lists, and so does
    [moveDown] of a tab that its sibling array lists. *)
Theorem moves_keep_siblings :
  forall i s,
    reordered s (moveUp i s)
    /\ (forall tab sibs,
          tabs_get i (tabs s) = Some tab -> siblingsOf tab s = Some sibs -> In i sibs ->
          reordered s (moveDown i s)).
Proof.
  intros i s. split.
  - apply moveUp_reordered.
  - intros tab sibs Hget Hsib Hin. now apply (moveDown_reordered i s tab sibs).
Qed.

Lemma moveWith_fixed mv i s tab :
  tabs_get i (tabs s) = Some tab ->
  (forall sibs, siblingsOf tab s = Some sibs -> mv i sibs = sibs) ->
  moveWith mv i s = s.
Proof.
  intros Hget Hmv. unfold moveWith. rewrite Hget. unfold siblingsOf in Hmv.
  destruct (truthy (parentId tab)) as [p|].
  - unfold with_tabs. destruct (tabs_get p (tabs s)) as [pn|] eqn:Hp.
    + rewrite (modify_id_at p _ (tabs s) pn Hp); [now destruct s|].
      rewrite (Hmv _ eq_refl). now destruct pn.
    + rewrite (modify_absent _ _ _ Hp). now destruct s.
  - unfold with_roots. rewrite (Hmv _ eq_refl). now destruct s.
Qed.

(** X15.  At the ends of the sibling array a move changes nothing: [moveUp] of
    the first sibling or of a tab the array does not list, [moveDown] of
    the last sibling, and either move when the parent is not in the
    store. *)
Theorem move_at_an_end_changes_nothing :
  forall i s tab,
    tabs_get i (tabs s) = Some tab ->
    (forall r, siblingsOf tab s = Some (i :: r) -> moveUp i s = s)
    /\ (forall sibs, siblingsOf tab s = Some sibs -> ~ In i sibs -> moveUp i s = s)
    /\ (forall r, siblingsOf tab s = Some (r ++ [i]) -> ~ In i r -> moveDown i s = s)
    /\ (siblingsOf tab s = None -> moveUp i s = s /\ moveDown i s = s).
Proof.
  intros i s tab Hget. split; [|split; [|split]].
  - intros r Hsib. apply (moveWith_fixed move_up i s tab Hget).
    intros sibs E. rewrite Hsib in E. injection E as <-.
    unfold move_up. simpl. now rewrite String.eqb_refl.
  - intros sibs Hsib Hni. apply (moveWith_fixed move_up i s tab Hget).
    intros sibs' E. rewrite Hsib in E. injection E as <-.
    unfold move_up. now rewrite (indexOf_notin _ _ Hni).
  - intros r Hsib Hni. apply (moveWith_fixed move_down i s tab Hget).
    intros sibs E. rewrite Hsib in E. injection E as <-.
    unfold move_down. rewrite (indexOf_first _ _ _ Hni).
    replace (S (List.length r) <? List.length (r ++ [i]))%nat with false; [reflexivity|].
    symmetry. apply Nat.ltb_ge. rewrite length_app. simpl. lia.
  - intros Hsib. split; apply (moveWith_fixed _ i s tab Hget); intros sibs E; congruence.
Qed.

Lemma move_at_an_end_changes_nothing_witness :
  moveUp "P" familyStore = familyStore.
Proof.
  refine (proj1 (move_at_an_end_changes_nothing "P" familyStore
                   (member "P" (Some "G") ["A"; "B"; "C"] 1 true) _) ["Q"] _).
  - reflexivity.
  - reflexivity.
Defined.

(** X16.  [moveDown] of a tab that its sibling array does not list: the index
    is -1, so the last sibling is spliced out and the tab is put in
    front. *)
Theorem moveDown_unlisted_drops_last :
  forall i s tab r z,
    tabs_get i (tabs s) = Some tab ->
    siblingsOf tab s = Some (r ++ [z]) -> ~ In i (r ++ [z]) ->
    siblingsOf tab (moveDown i s) = Some (i :: r).
Proof.
  intros i s tab r z Hget Hsib Hni.
  assert (Hmv : move_down i (r ++ [z]) = i :: r).
  { unfold move_down. rewrite (indexOf_notin _ _ Hni).
    destruct (r ++ [z]) eqn:E; [now destruct r|]. rewrite <- E. now rewrite removelast_last. }
  unfold siblingsOf in *. unfold moveDown, moveWith. rewrite Hget.
  destruct (truthy (parentId tab)) as [p|].
  - cbn [tabs with_tabs]. rewrite tabs_get_modify_same.
    destruct (tabs_get p (tabs s)) as [pn|]; [|discriminate].
    injection Hsib as Hsib. simpl. now rewrite Hsib, Hmv.
  - injection Hsib as Hsib. cbn [roots with_roots]. now rewrite Hsib, Hmv.
Qed.

Lemma moveDown_unlisted_drops_last_witness :
  siblingsOf (mkTabNode "c" (Some "t1") [] 1 false "Notes" "reader" TabKind false)
    (moveDown "c" strayStore) = Some ["c"].
Proof.
  apply (moveDown_unlisted_drops_last "c" strayStore _ [] "d").
  - reflexivity.
  - reflexivity.
  - intros [E|[]]. discriminate.
Defined.

(** ** Collapsing and expanding *)

Lemma rankedb_ok m depth : rankedb m depth = true -> ranked m depth.
Proof.
  unfold rankedb, ranked. intros H k n p Hget Hp Hhas.
  rewrite forallb_forall in H. specialize (H (k, n) (tabs_get_entry _ _ _ Hget)).
  simpl in H. rewrite Hp, Hhas in H. now apply Nat.ltb_lt.
Qed.

Lemma visibleFrom_expanded m depth :
  ranked m depth ->
  (forall k n, tabs_get k m = Some n -> collapsed n = false) ->
  forall fuel k n, tabs_get k m = Some n -> depth k < fuel ->
                   visibleFrom fuel (parentId n) m = Some true.
Proof.
  intros Hr Hc. induction fuel as [|fuel IH]; intros k n Hget Hlt; [lia|].
  simpl. destruct (truthy (parentId n)) as [p|] eqn:Ep; [|reflexivity].
  destruct (tabs_get p m) as [pn|] eqn:Hp; [|reflexivity].
  rewrite (Hc _ _ Hp). apply (IH p pn Hp).
  assert (depth p < depth k); [|lia].
  apply (Hr k n p Hget Ep). unfold tabs_has. now rewrite Hp.
Qed.

(** X17.  After [expandAll] nothing is hidden: no node is collapsed, the
    collapsed set is empty, and [isTabVisible] answers true for every node
    of a store without cycles. *)
Theorem expandAll_shows_everything :
  forall s depth fuel i,
    ranked (tabs s) depth -> tabs_has i (tabs s) = true -> depth i < fuel ->
    isTabVisible fuel i (expandAll s) = Some true
    /\ collapsedSet (expandAll s) = []
    /\ (forall k n, tabs_get k (tabs (expandAll s)) = Some n -> collapsed n = false).
Proof.
  intros s depth fuel i Hr Hhas Hlt.
  assert (Hget : forall k, tabs_get k (tabs (expandAll s))
                           = option_map (set_collapsed false) (tabs_get k (tabs s))).
  { intros k. exact (tabs_get_map (set_collapsed false) k (tabs s)). }
  assert (Hc : forall k n, tabs_get k (tabs (expandAll s)) = Some n -> collapsed n = false).
  { intros k n Hk. rewrite Hget in Hk. destruct (tabs_get k (tabs s)); [|discriminate].
    now injection Hk as <-. }
  split; [|split; [reflexivity | exact Hc]].
  unfold isTabVisible. unfold tabs_has in Hhas.
  destruct (tabs_get i (tabs (expandAll s))) as [n|] eqn:Hi.
  - apply (visibleFrom_expanded _ depth) with (k := i); try assumption.
    intros k n0 p Hk Hp Hhp. rewrite Hget in Hk.
    destruct (tabs_get k (tabs s)) as [n1|] eqn:Hk1; [|discriminate]. injection Hk as <-.
    apply (Hr k n1 p Hk1); [exact Hp|].
    unfold tabs_has in *. rewrite Hget in Hhp. now destruct (tabs_get p (tabs s)).
  - rewrite Hget in Hi. now destruct (tabs_get i (tabs s)).
Qed.

Lemma expandAll_shows_everything_witness :
  isTabVisible 4 "D" (expandAll familyStore) = Some true.
Proof.
  refine (proj1 (expandAll_shows_everything familyStore
                   (fun k => level_of k (tabs familyStore)) 4 "D" _ _ _)).
  - apply rankedb_ok. reflexivity.
  - reflexivity.
  - vm_compute. lia.
Defined.

Lemma existsb_at_key (P : TabNode -> bool) k n m :
  NoDup (keys m) -> tabs_get k m = Some n ->
  existsb (fun e => (fst e =? k) && P (snd e)) m = P n.
Proof.
  induction m as [|[k' v] m IH]; simpl; intros Hnd Hget; [discriminate|].
  inversion Hnd as [|? ? Hni Hnd']; subst.
  destruct (String.eqb_spec k k') as [<-|Hne].
  - injection Hget as ->. rewrite String.eqb_refl. simpl.
    destruct (P n); [reflexivity|]. simpl.
    apply not_true_is_false. intros H. apply existsb_exists in H.
    destruct H as ([k2 v2] & Hin & H). simpl in H. apply andb_prop in H. destruct H as [H _].
    apply String.eqb_eq in H. subst k2. apply Hni. unfold keys.
    change k with (fst (k, v2)). now apply in_map.
  - destruct (String.eqb_spec k' k); [congruence|]. simpl. now apply IH.
Qed.

Lemma collapseAll_fold_get l :
  forall s0 k,
    tabs_get k (tabs (fold_left
      (fun s e =>
         match childIds (snd e) with
         | [] => s
         | _ :: _ =>
             with_collapsedSet (set_add (id (snd e)))
               (with_tabs (modify (fst e) (set_collapsed true)) s)
         end) l s0))
    = if existsb (fun e => (fst e =? k) && has_children (snd e)) l
      then option_map (set_collapsed true) (tabs_get k (tabs s0))
      else tabs_get k (tabs s0).
Proof.
  induction l as [|e l IH]; intros s0 k; simpl; [reflexivity|].
  rewrite IH. unfold has_children at 2. destruct (childIds (snd e)).
  - now rewrite andb_false_r.
  - rewrite andb_true_r. cbn [tabs with_tabs with_collapsedSet].
    rewrite tabs_get_modify. destruct (fst e =? k); simpl; [|reflexivity].
    destruct (tabs_get k (tabs s0)) as [n|]; simpl; [|now destruct (existsb _ l)].
    now destruct (existsb _ l).
Qed.

Lemma collapseAll_fold_set l :
  forall s0 x,
    In x (collapsedSet s0)
    \/ (exists e, In e l /\ has_children (snd e) = true /\ id (snd e) = x) ->
    In x (collapsedSet (fold_left
      (fun s e =>
         match childIds (snd e) with
         | [] => s
         | _ :: _ =>
             with_collapsedSet (set_add (id (snd e)))
               (with_tabs (modify (fst e) (set_collapsed true)) s)
         end) l s0)).
Proof.
  induction l as [|e l IH]; intros s0 x H; simpl.
  - destruct H as [H|(e & [] & _)]. exact H.
  - apply IH. destruct H as [H|(e' & [<-|Hin] & Hc & Hid)].
    + left. destruct (childIds (snd e)); [exact H|]. cbn [collapsedSet with_collapsedSet with_tabs].
      apply set_add_In. now right.
    + left. unfold has_children in Hc. destruct (childIds (snd e)); [discriminate|].
      cbn [collapsedSet with_collapsedSet with_tabs]. apply set_add_In. now left.
    + right. eauto.
Qed.

Lemma collapseAll_fold_roots l :
  forall s0,
    roots (fold_left
      (fun s e =>
         match childIds (snd e) with
         | [] => s
         | _ :: _ =>
             with_collapsedSet (set_add (id (snd e)))
               (with_tabs (modify (fst e) (set_collapsed true)) s)
         end) l s0) = roots s0.
Proof.
  induction l as [|e l IH]; intros s0; simpl; [reflexivity|].
  rewrite IH. now destruct (childIds (snd e)).
Qed.

(** X18.  After [collapseAll] every node that has children is collapsed and in
    the collapsed set, a node without children is as before, and every
    child of a node that has children is hidden. *)
Theorem collapseAll_hides_children :
  forall s,
    NoDup (keys (tabs s)) ->
    (forall k n, tabs_get k (tabs s) = Some n ->
       tabs_get k (tabs (collapseAll s)) = Some (collapse_parent n)
       /\ (has_children n = true -> In (id n) (collapsedSet (collapseAll s))))
    /\ roots (collapseAll s) = roots s
    /\ (forall fuel c cn p pn,
          tabs_get c (tabs s) = Some cn -> truthy (parentId cn) = Some p ->
          tabs_get p (tabs s) = Some pn -> has_children pn = true ->
          isTabVisible (S fuel) c (collapseAll s) = Some false).
Proof.
  intros s Hnd.
  assert (Hget : forall k n, tabs_get k (tabs s) = Some n ->
                             tabs_get k (tabs (collapseAll s)) = Some (collapse_parent n)).
  { intros k n Hk. unfold collapseAll. rewrite collapseAll_fold_get.
    rewrite (existsb_at_key has_children k n (tabs s) Hnd Hk), Hk.
    unfold collapse_parent, has_children. now destruct (childIds n). }
  split; [|split].
  - intros k n Hk. split; [now apply Hget|]. intros Hc.
    unfold collapseAll. apply collapseAll_fold_set. right.
    exists (k, n). split; [now apply tabs_get_entry | auto].
  - apply collapseAll_fold_roots.
  - intros fuel c cn p pn Hc Hp Hpn Hch. unfold isTabVisible.
    rewrite (Hget _ _ Hc).
    assert (Hpar : parentId (collapse_parent cn) = parentId cn).
    { unfold collapse_parent. now destruct (childIds cn). }
    simpl. rewrite Hpar, Hp, (Hget _ _ Hpn).
    unfold collapse_parent, has_children in *. now destruct (childIds pn).
Qed.

Lemma collapseAll_hides_children_witness :
  isTabVisible 1 "Q" (collapseAll familyStore) = Some false.
Proof.
  refine (proj2 (proj2 (collapseAll_hides_children familyStore _)) 0 "Q"
            (member "Q" (Some "G") [] 1 false) "G" (member "G" None ["P"; "Q"] 0 false) _ _ _ _).
  - apply distinctb_NoDup. reflexivity.
  - reflexivity.
  - reflexivity.
  - reflexivity.
  - reflexivity.
Defined.

(** X19.  With auto-collapse off, toggling a node twice restores the store and
    the members of the collapsed set. *)
Theorem toggleCollapsed_twice :
  forall h i s,
    flags_inv s -> pref_autoCollapse h <> Some true ->
    tabs (toggleCollapsed h i (toggleCollapsed h i s)) = tabs s
    /\ roots (toggleCollapsed h i (toggleCollapsed h i s)) = roots s
    /\ (forall x, In x (collapsedSet (toggleCollapsed h i (toggleCollapsed h i s)))
                  <-> In x (collapsedSet s)).
Proof.
  intros h i s (Hnd & Hok & Hcol & Hex) Hpref.
  assert (Hoff : forall (a b : TreeData),
            match pref_autoCollapse h with Some true => a | _ => b end = b).
  { intros a b. destruct (pref_autoCollapse h) as [[|]|]; [congruence | reflexivity | reflexivity]. }
  remember (toggleCollapsed h i s) as s1 eqn:E1. unfold toggleCollapsed in E1.
  destruct (tabs_get i (tabs s)) as [node|] eqn:Hget.
  2:{ subst s1. unfold toggleCollapsed. rewrite Hget. repeat split; auto. }
  destruct (childIds node) as [|c cs] eqn:Hch.
  { subst s1. unfold toggleCollapsed. rewrite Hget, Hch. repeat split; auto. }
  destruct (collapsed node) eqn:Hc; cbn [negb] in E1.
  - (* collapsed: expand, then collapse again *)
    rewrite Hoff in E1. subst s1. unfold toggleCollapsed. cbn [tabs with_tabs with_collapsedSet].
    rewrite tabs_get_modify_same, Hget. cbn [option_map childIds set_collapsed collapsed].
    rewrite Hch. cbn [negb tabs roots collapsedSet with_tabs with_collapsedSet].
    rewrite modify_modify. split; [|split; [reflexivity|]].
    + apply (modify_id_at i _ (tabs s) node Hget). destruct node. simpl in Hc. now subst.
    + intros x. rewrite set_add_In. unfold set_delete.
      rewrite (remove_first_iff i x _ Hcol).
      assert (Hi : In i (collapsedSet s)) by (apply Hex; eauto).
      destruct (String.eqb_spec x i) as [->|Hne]; tauto.
  - (* expanded: collapse, then expand again *)
    subst s1. unfold toggleCollapsed. cbn [tabs with_tabs with_collapsedSet].
    rewrite tabs_get_modify_same, Hget. cbn [option_map childIds set_collapsed collapsed].
    rewrite Hch. cbn [negb]. rewrite Hoff.
    cbn [tabs roots collapsedSet with_tabs with_collapsedSet].
    rewrite modify_modify. split; [|split; [reflexivity|]].
    + apply (modify_id_at i _ (tabs s) node Hget). destruct node. simpl in Hc. now subst.
    + intros x. unfold set_delete.
      rewrite (remove_first_iff i x _ (set_add_NoDup i _ Hcol)), set_add_In.
      assert (Hi : ~ In i (collapsedSet s)).
      { intros Hin. apply Hex in Hin. destruct Hin as (n & Hn & Hcn). congruence. }
      destruct (String.eqb_spec x i) as [->|Hne]; tauto.
Qed.

Lemma staleStore_reachable : cleanly_reachable staleStore.
Proof.
  change staleStore
    with (toggleCollapsed quietHost "old1"
            (addTab "y" "Notes" "reader" (Some "old1")
               (addTab "old1" "Paper.pdf" "reader" None emptyTree))).
  apply clean_toggleCollapsed.
  apply clean_addTab; [|reflexivity].
  apply clean_addTab; [|reflexivity].
  apply clean_empty.
Qed.

Lemma toggleCollapsed_twice_witness :
  tabs (toggleCollapsed quietHost "old1" (toggleCollapsed quietHost "old1" staleStore))
  = tabs staleStore.
Proof.
  refine (proj1 (toggleCollapsed_twice quietHost "old1" staleStore _ _)).
  - apply flags_inv_cleanly_reachable. exact staleStore_reachable.
  - discriminate.
Defined.

(** The loop of [autoCollapseSiblings] over the sibling ids [l]. *)
Lemma autoCollapse_loop i l :
  forall s0,
    (forall x, In x (collapsedSet s0) -> In x (collapsedSet (fold_left (collapseSibling i) l s0)))
    /\ (forall k n, tabs_get k (tabs s0) = Some n ->
          exists n', tabs_get k (tabs (fold_left (collapseSibling i) l s0)) = Some n'
                     /\ childIds n' = childIds n
                     /\ (collapsed n = true -> collapsed n' = true)
                     /\ (k = i -> n' = n))
    /\ (forall j nj, In j l -> j <> i -> tabs_get j (tabs s0) = Some nj ->
          has_children nj = true ->
          exists nj', tabs_get j (tabs (fold_left (collapseSibling i) l s0)) = Some nj'
                      /\ collapsed nj' = true
                      /\ In j (collapsedSet (fold_left (collapseSibling i) l s0))).
Proof.
  set (step := collapseSibling i).
  assert (Hstep : forall y s0,
            (forall x, In x (collapsedSet s0) -> In x (collapsedSet (step s0 y)))
            /\ (forall k n, tabs_get k (tabs s0) = Some n ->
                  exists n', tabs_get k (tabs (step s0 y)) = Some n'
                             /\ childIds n' = childIds n
                             /\ (collapsed n = true -> collapsed n' = true)
                             /\ (k = i -> n' = n))
            /\ (forall nj, y <> i -> tabs_get y (tabs s0) = Some nj -> has_children nj = true ->
                  exists nj', tabs_get y (tabs (step s0 y)) = Some nj'
                              /\ collapsed nj' = true /\ In y (collapsedSet (step s0 y)))).
  { intros y s0. unfold step, collapseSibling. destruct (String.eqb_spec y i) as [->|Hyi].
    - split; [auto|]. split; [eauto 6|]. intros nj Hne. contradiction.
    - destruct (tabs_get y (tabs s0)) as [sib|] eqn:Hy.
      + destruct (childIds sib) as [|c cs] eqn:Hch.
        * split; [auto|]. split; [eauto 6|]. intros nj _ E Hc.
          assert (nj = sib) by congruence. subst nj.
          unfold has_children in Hc. rewrite Hch in Hc. discriminate.
        * split; [|split].
          -- intros x Hx. cbn [collapsedSet with_collapsedSet with_tabs].
             apply set_add_In. now right.
          -- intros k n Hk. cbn [tabs with_collapsedSet with_tabs].
             rewrite tabs_get_modify. destruct (String.eqb_spec y k) as [<-|Hne].
             ++ rewrite Hk. simpl. eexists. split; [reflexivity|].
                split; [reflexivity|]. split; [reflexivity|]. intros E. congruence.
             ++ exists n. auto.
          -- intros nj _ _ _.
             cbn [tabs collapsedSet with_collapsedSet with_tabs].
             rewrite tabs_get_modify_same, Hy. simpl. eexists. split; [reflexivity|].
             split; [reflexivity|]. apply set_add_In. now left.
      + split; [auto|]. split; [eauto 6|]. intros nj _ E. discriminate. }
  induction l as [|y l IH]; intros s0; cbn [fold_left].
  - split; [auto|]. split; [eauto 6|]. intros j nj [].
  - destruct (Hstep y s0) as (S1 & S2 & S3).
    destruct (IH (step s0 y)) as (I1 & I2 & I3).
    split; [auto|]. split.
    + intros k n Hk. destruct (S2 _ _ Hk) as (n1 & Hn1 & C1 & C2 & C3).
      destruct (I2 _ _ Hn1) as (n2 & Hn2 & D1 & D2 & D3).
      exists n2. split; [exact Hn2|]. split; [congruence|]. split; [auto|].
      intros E. rewrite (D3 E). auto.
    + intros j nj [<-|Hin] Hji Hj Hch.
      * destruct (S3 _ Hji Hj Hch) as (n1 & Hn1 & C1 & C2).
        destruct (I2 _ _ Hn1) as (n2 & Hn2 & _ & D2 & _).
        exists n2. auto.
      * destruct (S2 _ _ Hj) as (n1 & Hn1 & C1 & _).
        apply (I3 j n1 Hin Hji Hn1).
        unfold has_children in *. now rewrite C1.
Qed.

(** X20.  With auto-collapse on, expanding a collapsed node leaves it expanded
    and collapses every other sibling that has children. *)
Theorem expanding_collapses_siblings :
  forall h i s node,
    pref_autoCollapse h = Some true ->
    tabs_get i (tabs s) = Some node -> has_children node = true -> collapsed node = true ->
    tabs_get i (tabs (toggleCollapsed h i s)) = Some (set_collapsed false node)
    /\ (forall sibs j nj,
          siblingsOf node s = Some sibs -> In j sibs -> j <> i ->
          tabs_get j (tabs s) = Some nj -> has_children nj = true ->
          exists nj', tabs_get j (tabs (toggleCollapsed h i s)) = Some nj'
                      /\ collapsed nj' = true
                      /\ In j (collapsedSet (toggleCollapsed h i s))).
Proof.
  intros h i s node Hpref Hget Hch Hc.
  set (s2 := with_collapsedSet (set_delete i) (with_tabs (modify i (set_collapsed false)) s)).
  assert (Hget2 : forall k, tabs_get k (tabs s2)
                            = if i =? k then Some (set_collapsed false node) else tabs_get k (tabs s)).
  { intros k. unfold s2. cbn [tabs with_collapsedSet with_tabs]. rewrite tabs_get_modify.
    destruct (String.eqb_spec i k) as [<-|]; [now rewrite Hget | reflexivity]. }
  assert (Hi2 : tabs_get i (tabs s2) = Some (set_collapsed false node)).
  { now rewrite Hget2, String.eqb_refl. }
  set (sibs2 := match truthy (parentId (set_collapsed false node)) with
                | Some p => match tabs_get p (tabs s2) with Some n => childIds n | None => [] end
                | None => roots s2
                end).
  assert (Ht : toggleCollapsed h i s = fold_left (collapseSibling i) sibs2 s2).
  { unfold toggleCollapsed. rewrite Hget. unfold has_children in Hch.
    destruct (childIds node); [discriminate|]. rewrite Hc, Hpref. cbn [negb].
    fold s2. unfold autoCollapseSiblings. rewrite Hi2. reflexivity. }
  rewrite Ht. destruct (autoCollapse_loop i sibs2 s2) as (_ & L2 & L3). split.
  - destruct (L2 _ _ Hi2) as (n' & Hn' & _ & _ & E). now rewrite Hn', (E eq_refl).
  - intros sibs j nj Hsib Hin Hji Hj Hcj.
    apply (L3 j nj); try assumption.
    + unfold sibs2. unfold siblingsOf in Hsib. cbn [parentId set_collapsed].
      destruct (truthy (parentId node)) as [p|]; [|injection Hsib as Hsib; subst sibs; exact Hin].
      rewrite Hget2. destruct (String.eqb_spec i p) as [<-|Hne].
      * rewrite Hget in Hsib. injection Hsib as Hsib. subst sibs. exact Hin.
      * destruct (tabs_get p (tabs s)); [injection Hsib as Hsib; subst sibs; exact Hin | discriminate].
    + rewrite Hget2. destruct (String.eqb_spec i j); [congruence | exact Hj].
Qed.

Lemma expanding_collapses_siblings_witness :
  tabs_get "P" (tabs (toggleCollapsed (mkHost (fun _ => None) None (Some true)) "P" familyStore))
  = Some (set_collapsed false (member "P" (Some "G") ["A"; "B"; "C"] 1 true)).
Proof.
  refine (proj1 (expanding_collapses_siblings (mkHost (fun _ => None) None (Some true)) "P"
                   familyStore (member "P" (Some "G") ["A"; "B"; "C"] 1 true) _ _ _ _)).
  - reflexivity.
  - reflexivity.
  - reflexivity.
  - reflexivity.
Defined.

(** ** Descendants *)

Lemma getDescendants_shaped t :
  forall fuel m,
    shaped m t -> height t <= fuel ->
    getDescendants fuel (root_of t) m = Some (flat_map ids (kids_of t)).
Proof.
  induction t as [i ks IH] using tree_rose_ind. intros fuel m Hsh Hh.
  destruct fuel as [|fuel]; [pose proof (height_pos (T i ks)); lia|].
  destruct (shaped_get _ _ _ Hsh) as (n & Hget & Hkids).
  pose proof (shaped_kids _ _ _ Hsh) as Hshk.
  pose proof (height_kids _ _ _ Hh) as Hhk.
  simpl. rewrite Hget, Hkids. clear Hget Hkids Hsh Hh.
  induction ks as [|k ks IHks]; simpl; [reflexivity|].
  inversion IH as [|? ? IHk IHrest]; subst.
  inversion Hshk as [|? ? Hk Hrest]; subst.
  inversion Hhk as [|? ? Hhk1 Hhrest]; subst.
  rewrite (IHk fuel m Hk Hhk1), (IHks IHrest Hrest Hhrest).
  destruct k as [j js]. reflexivity.
Qed.

(** X6.  [getDescendants] lists the nodes below a node in depth-first order, a
    child before its own descendants, and [closeTabTree] asks the host to
    close the subtree in the reverse of that order, the node itself last. *)
Theorem closeTabTree_closes_children_first :
  forall t fuel s,
    shaped (tabs s) t -> height t <= fuel ->
    getDescendants fuel (root_of t) (tabs s) = Some (flat_map ids (kids_of t))
    /\ closeTabTree fuel (root_of t) s = Some (rev (ids t)).
Proof.
  intros t fuel s Hsh Hh.
  pose proof (getDescendants_shaped t fuel (tabs s) Hsh Hh) as Hd.
  split; [exact Hd|]. unfold closeTabTree. rewrite Hd. now destruct t.
Qed.

Lemma closeTabTree_closes_children_first_witness :
  closeTabTree 4 "G" familyStore = Some ["Q"; "C"; "B"; "D"; "A"; "P"; "G"].
Proof.
  refine (proj2 (closeTabTree_closes_children_first familyTree 4 familyStore _ _)).
  - simpl. unfold all. simpl. tauto.
  - simpl. lia.
Defined.

(** X5.  A drop on the dragged node itself or on a node of its subtree leaves
    the tree as it is: the listener skips the first, and the descendant
    walk of [attachTabTo] rejects the second. *)
Theorem drop_on_own_subtree_changes_nothing :
  forall t fuel target s,
    shaped (tabs s) t -> height t <= fuel ->
    In target (ids t) -> target <> "" ->
    onDrop fuel (Some (root_of t)) target s = Done s.
Proof.
  intros t fuel target s Hsh Hh Hin Hne. unfold onDrop.
  destruct (truthy (Some (root_of t))) as [d|] eqn:Ed; [|reflexivity].
  apply truthy_Some in Ed. destruct Ed as [Ed _]. injection Ed as <-.
  destruct (String.eqb_spec (root_of t) target) as [E|E]; [reflexivity|].
  destruct t as [i ks]. simpl in Hin. destruct Hin as [Hin|Hin]; [simpl in E; congruence|].
  destruct (shaped_get _ _ _ Hsh) as (n & Hget & _).
  apply (attachTabTo_rejects_descendant fuel i target n (flat_map ids ks)); try assumption.
  exact (getDescendants_shaped (T i ks) fuel (tabs s) Hsh Hh).
Qed.

Lemma drop_on_own_subtree_changes_nothing_witness :
  onDrop 4 (Some "G") "D" familyStore = Done familyStore.
Proof.
  apply (drop_on_own_subtree_changes_nothing familyTree 4 "D" familyStore).
  - simpl. unfold all. simpl. tauto.
  - simpl. lia.
  - simpl. tauto.
  - discriminate.
Defined.

(** ** Closing tabs *)

Lemma remove_first_absent x l : ~ In x l -> remove_first x l = l.
Proof.
  induction l as [|y l IH]; simpl; intros H; [reflexivity|].
  destruct (String.eqb_spec x y) as [->|Hne]; [exfalso; auto|]. f_equal. auto.
Qed.

Lemma for_of_Done {A : Type} (body : string -> A -> outcome A) x xs s s' :
  for_of (x :: xs) body s = Done s' ->
  exists s1, body x s = Done s1 /\ for_of xs body s1 = Done s'.
Proof.
  simpl. destruct (body x s) as [s1| |]; simpl; intros H; try discriminate. eauto.
Qed.

(** The promotion loop of [removeNodeFromTree] keeps keys and flags. *)
Lemma promotion_flags fuel i node s s1 :
  carried (for_of (childIds node) (promoteChild fuel i) s >>= (fun s1 =>
             match truthy (parentId node) with
             | Some g =>
                 if (g =? i) && existsb (fun c => tabs_has c (tabs s)) (childIds node)
                 then Hang else Done s1
             | None => Done s1
             end)) = Some s1 ->
  same_flags s s1.
Proof.
  intros H1.
  assert (Hfor : forall s2, carried (for_of (childIds node) (promoteChild fuel i) s) = Some s2 ->
                            same_flags s s2).
  { intros s2. apply for_of_carried; [apply same_flags_refl | apply same_flags_trans |].
    intros c s0 s0'. apply promoteChild_flags. }
  apply carried_bind in H1. destruct H1 as [H1|(s2 & H1 & H2)].
  - apply Hfor. now rewrite H1.
  - assert (same_flags s s2) by (apply Hfor; now rewrite H1).
    destruct (truthy (parentId node)) as [g|].
    + destruct ((g =? i) && existsb (fun c => tabs_has c (tabs s)) (childIds node));
        [discriminate | now injection H2 as <-].
    + now injection H2 as <-.
Qed.

Lemma removeNodeFromTree_keys fuel i promote s :
  (forall s', removeNodeFromTree fuel i promote s = Done s' ->
              keys (tabs s') = remove_first i (keys (tabs s)))
  /\ (forall s', carried (removeNodeFromTree fuel i promote s) = Some s' ->
                 incl (keys (tabs s')) (keys (tabs s))).
Proof.
  unfold removeNodeFromTree.
  destruct (tabs_get i (tabs s)) as [node|] eqn:Hget.
  2:{ split; intros s' H; injection H as <-.
      - symmetry. apply remove_first_absent. now apply tabs_get_None.
      - apply incl_refl. }
  set (prefix := if promote
                 then for_of (childIds node) (promoteChild fuel i) s >>= (fun s1 =>
                        match truthy (parentId node) with
                        | Some g =>
                            if (g =? i) && existsb (fun c => tabs_has c (tabs s)) (childIds node)
                            then Hang else Done s1
                        | None => Done s1
                        end)
                 else Done s).
  assert (Hpre : forall s1, carried prefix = Some s1 -> keys (tabs s1) = keys (tabs s)).
  { intros s1 H1. unfold prefix in H1. destruct promote.
    - apply promotion_flags in H1. apply H1.
    - now injection H1 as <-. }
  assert (Hlast : forall s1 s',
            Done (with_tabs (tabs_delete i)
                    (with_collapsedSet (set_delete i)
                       match truthy (parentId node) with
                       | Some p =>
                           with_tabs (modify p (fun n => set_childIds (remove_first i (childIds n)) n)) s1
                       | None => with_roots (remove_first i) s1
                       end)) = Done s' ->
            keys (tabs s') = remove_first i (keys (tabs s1))).
  { intros s1 s' H. injection H as <-. cbn [tabs with_tabs with_collapsedSet].
    rewrite keys_tabs_delete. destruct (truthy (parentId node)); cbn [tabs with_tabs with_roots].
    - now rewrite keys_modify.
    - reflexivity. }
  split; intros s' H.
  - destruct prefix as [s1|s1|] eqn:Ep; simpl in H; try discriminate.
    rewrite (Hlast s1 s' H). f_equal. apply Hpre. reflexivity.
  - apply carried_bind in H. destruct H as [H|(s1 & H & H1)].
    + rewrite (Hpre s'); [apply incl_refl | now rewrite H].
    + simpl in H1. injection H1 as H1. rewrite (Hlast s1 s' (f_equal Done H1)).
      rewrite (Hpre s1) by now rewrite H.
      intros k Hk. now apply remove_first_In in Hk.
Qed.

(** X7.  When [onTabClosed] returns, the closed ids are gone from the store
    and every other node is still there. *)
Theorem onTabClosed_removes_the_closed :
  forall fuel h ids s s',
    NoDup (keys (tabs s)) ->
    onTabClosed fuel h ids s = Done s' ->
    forall k, In k (keys (tabs s')) <-> In k (keys (tabs s)) /\ ~ In k ids.
Proof.
  intros fuel h ids. unfold onTabClosed.
  induction ids as [|i ids IH]; intros s s' Hnd H k.
  - injection H as <-. simpl. tauto.
  - apply for_of_Done in H. destruct H as (s1 & H1 & H2).
    unfold removeTabFromTree in H1.
    apply (proj1 (removeNodeFromTree_keys fuel i _ s)) in H1.
    assert (Hnd1 : NoDup (keys (tabs s1))).
    { rewrite H1. now apply remove_first_NoDup_keep. }
    rewrite (IH s1 s' Hnd1 H2 k), H1, (remove_first_iff i k _ Hnd). simpl.
    split; [intros [[Hne Hin] Hni] | intros [Hin Hni]].
    + split; [exact Hin|]. intros [E|Hin']; [congruence | contradiction].
    + split; [split; [|exact Hin] | ]; intros E; apply Hni; [left; congruence | now right].
Qed.

Lemma onTabClosed_removes_the_closed_witness :
  In "Q" (keys (tabs familyWithoutQ)) <-> In "Q" (keys (tabs familyStore)) /\ ~ In "Q" ["Q"].
Proof.
  apply (onTabClosed_removes_the_closed 1 quietHost ["Q"] familyStore familyWithoutQ).
  - apply distinctb_NoDup. reflexivity.
  - reflexivity.
Defined.

(** X8.  With [collapseOnClose] off, closing a tab takes only that node out:
    a child of it stays in the store, still names the closed tab as its
    parent, and is not made a root. *)
Theorem close_without_promotion_leaves_children :
  forall fuel h i c node cn s,
    pref_collapseOnClose h = Some false ->
    NoDup (keys (tabs s)) ->
    tabs_get i (tabs s) = Some node ->
    tabs_get c (tabs s) = Some cn -> parentId cn = Some i -> c <> i ->
    ~ In c (roots s) ->
    exists s',
      removeTabFromTree fuel h i s = Done s'
      /\ tabs_get i (tabs s') = None
      /\ (exists cn', tabs_get c (tabs s') = Some cn' /\ parentId cn' = Some i)
      /\ ~ In c (roots s').
Proof.
  intros fuel h i c node cn s Hpref Hnd Hi Hc Hpar Hci Hroot.
  unfold removeTabFromTree, removeNodeFromTree. rewrite Hpref, Hi. simpl.
  eexists. split; [reflexivity|]. cbn [tabs roots with_tabs with_collapsedSet].
  destruct (truthy (parentId node)) as [p|]; cbn [tabs roots with_tabs with_roots].
  - split; [apply tabs_get_delete_same; now rewrite keys_modify|].
    split; [|exact Hroot].
    rewrite tabs_get_delete_other by congruence. rewrite tabs_get_modify.
    destruct (p =? c); rewrite Hc; simpl; eauto.
  - split; [now apply tabs_get_delete_same|].
    split.
    + rewrite tabs_get_delete_other by congruence. eauto.
    + intros H. apply Hroot. now apply remove_first_In in H.
Qed.

Lemma close_without_promotion_leaves_children_witness :
  exists s',
    removeTabFromTree 0 keepChildrenHost "P" familyStore = Done s'
    /\ tabs_get "P" (tabs s') = None
    /\ (exists cn', tabs_get "A" (tabs s') = Some cn' /\ parentId cn' = Some "P")
    /\ ~ In "A" (roots s').
Proof.
  apply (close_without_promotion_leaves_children 0 keepChildrenHost "P" "A"
           (member "P" (Some "G") ["A"; "B"; "C"] 1 true) (member "A" (Some "P") ["D"] 2 false)).
  - reflexivity.
  - apply distinctb_NoDup. reflexivity.
  - reflexivity.
  - reflexivity.
  - reflexivity.
  - discriminate.
  - intros [E|[]]. discriminate.
Defined.

(** ** Reset *)

Lemma resetAllToRoot_tabs s :
  tabs (resetAllToRoot s)
  = map (fun e => (fst e, resetNode (snd e))) (filter (fun e => is_tab (snd e)) (tabs s)).
Proof.
  unfold resetAllToRoot. cbn [tabs]. induction (tabs s) as [|[k v] m IH]; [reflexivity|].
  cbn [map filter fst snd]. destruct (is_tab v) eqn:Et; cbn [filter snd fst].
  - assert (Hg : is_group (resetNode v) = false).
    { unfold is_tab, is_group in *. destruct v as [? ? ? ? ? ? ? []]; simpl in *; congruence. }
    unfold resetNode in Hg. rewrite Hg. cbn [negb map fst snd]. now rewrite IH.
  - assert (Hg : is_group v = true).
    { unfold is_tab, is_group in *. destruct (nodeType v); simpl in *; congruence. }
    rewrite Hg. cbn [negb]. exact IH.
Qed.

Lemma filter_all {A : Type} (P : A -> bool) l : (forall x, In x l -> P x = true) -> filter P l = l.
Proof.
  induction l as [|x l IH]; simpl; intros H; [reflexivity|].
  rewrite (H x (or_introl eq_refl)). f_equal. auto.
Qed.

Lemma resetAllToRoot_entries s k n' :
  In (k, n') (tabs (resetAllToRoot s))
  <-> exists n, In (k, n) (tabs s) /\ is_tab n = true /\ n' = resetNode n.
Proof.
  rewrite resetAllToRoot_tabs, in_map_iff. split.
  - intros ([k0 n0] & E & H). apply filter_In in H. destruct H as [H Ht]. simpl in *.
    injection E as <- <-. eauto.
  - intros (n & H & Ht & ->). exists (k, n). split; [reflexivity|].
    apply filter_In. auto.
Qed.

Lemma resetAllToRoot_roots s :
  NoDup (keys (tabs s)) -> keys_ok (tabs s) ->
  roots (resetAllToRoot s) = keys (tabs (resetAllToRoot s)).
Proof.
  intros Hnd Hok. rewrite resetAllToRoot_tabs. unfold resetAllToRoot, keys. cbn [roots].
  rewrite map_map. apply map_ext_in. intros e He. apply filter_In in He. simpl.
  exact (keys_ok_entries _ Hnd Hok e (proj1 He)).
Qed.

(** X21.  [resetAllToRoot] leaves a flat list: the tab-kind nodes, each a root
    without children at level 0 and expanded, the groups gone, [roots]
    the keys of the store in its order, the collapsed set empty.  A second
    reset changes nothing, and [getTabsInTreeOrder] returns every node of
    the store once. *)
Theorem resetAllToRoot_flattens :
  forall fuel s,
    NoDup (keys (tabs s)) -> keys_ok (tabs s) ->
    (forall k n', In (k, n') (tabs (resetAllToRoot s))
                  <-> exists n, In (k, n) (tabs s) /\ is_tab n = true /\ n' = resetNode n)
    /\ roots (resetAllToRoot s) = keys (tabs (resetAllToRoot s))
    /\ collapsedSet (resetAllToRoot s) = []
    /\ resetAllToRoot (resetAllToRoot s) = resetAllToRoot s
    /\ getTabsInTreeOrder (S fuel) (resetAllToRoot s) = Some (map snd (tabs (resetAllToRoot s))).
Proof.
  intros fuel s Hnd Hok.
  pose proof (resetAllToRoot_entries s) as Hin.
  pose proof (resetAllToRoot_roots s Hnd Hok) as Hroots.
  assert (Hnd' : NoDup (keys (tabs (resetAllToRoot s)))).
  { rewrite resetAllToRoot_tabs.
    rewrite (keys_map resetNode). now apply NoDup_keys_filter. }
  split; [exact Hin|]. split; [exact Hroots|]. split; [reflexivity|]. split.
  - assert (Hall : forall e, In e (tabs (resetAllToRoot s)) ->
                             is_tab (snd e) = true /\ resetNode (snd e) = snd e).
    { intros [k n'] He. apply Hin in He. destruct He as (n & _ & Ht & ->). simpl.
      split; [|now destruct n]. unfold is_tab in *. now destruct n. }
    assert (Hf : filter (fun e => is_tab (snd e)) (tabs (resetAllToRoot s))
                 = tabs (resetAllToRoot s)).
    { apply filter_all. intros e He. now apply Hall. }
    assert (Ht : tabs (resetAllToRoot (resetAllToRoot s)) = tabs (resetAllToRoot s)).
    { rewrite (resetAllToRoot_tabs (resetAllToRoot s)), Hf.
      rewrite <- (map_id (tabs (resetAllToRoot s))) at 2.
      apply map_ext_in. intros [k n] He. simpl. f_equal. exact (proj2 (Hall _ He)). }
    assert (Hr : roots (resetAllToRoot (resetAllToRoot s)) = roots (resetAllToRoot s)).
    { unfold resetAllToRoot at 1. cbn [roots]. rewrite Hf.
      rewrite Hroots. unfold keys. apply map_ext_in. intros [k n] He. simpl.
      apply Hin in He. destruct He as (n0 & He & _ & ->).
      pose proof (keys_ok_entries _ Hnd Hok _ He) as Hid. simpl in Hid.
      rewrite <- Hid. now destruct n0. }
    destruct (resetAllToRoot (resetAllToRoot s)) as [t r c l] eqn:E2.
    destruct (resetAllToRoot s) as [t1 r1 c1 l1] eqn:E1.
    cbn [tabs roots] in Ht, Hr. subst t r.
    assert (c = [] /\ c1 = [] /\ l = l1) as (-> & -> & ->); [|reflexivity].
    unfold resetAllToRoot in E1, E2. injection E1 as _ _ <- <-. injection E2 as _ _ <- <-. auto.
  - unfold getTabsInTreeOrder. rewrite Hroots.
    assert (Hgen : forall m l,
              (forall k n, In (k, n) l -> tabs_get k m = Some n /\ childIds n = []) ->
              treeOrderFrom (S fuel) (keys l) m = Some (map snd l)).
    { intros m l. induction l as [|[k n] l IH]; intros H; [reflexivity|].
      cbn [keys map fst snd treeOrderFrom]. fold (keys l).
      destruct (H k n (or_introl eq_refl)) as [Hget Hch].
      rewrite IH by (intros; apply H; now right).
      cbn [addWithChildren]. now rewrite Hget, Hch. }
    apply Hgen. intros k n He. split; [now apply entry_tabs_get|].
    apply Hin in He. destruct He as (n0 & _ & _ & ->). reflexivity.
Qed.

Lemma resetAllToRoot_flattens_witness :
  getTabsInTreeOrder 1 (resetAllToRoot groupedStore)
  = Some (map snd (tabs (resetAllToRoot groupedStore))).
Proof.
  refine (proj2 (proj2 (proj2 (proj2 (resetAllToRoot_flattens 0 groupedStore _ _))))).
  - apply distinctb_NoDup. reflexivity.
  - apply keys_okb_ok. reflexivity.
Defined.

(** ** Loading into a store that holds nodes *)

Lemma load_fold_get tds :
  forall s k,
    tabs_get k (tabs (fold_left
      (fun s tabData =>
         if tabs_has (td_id tabData) (tabs s) then s
         else with_tabs (tabs_set (td_id tabData) (restoreNode tabData)) s) tds s))
    = match tabs_get k (tabs s) with
      | Some n => Some n
      | None => option_map restoreNode (find (fun td => td_id td =? k) tds)
      end.
Proof.
  induction tds as [|td tds IH]; intros s k; cbn [fold_left find].
  - now destruct (tabs_get k (tabs s)).
  - rewrite IH. unfold tabs_has. destruct (tabs_get (td_id td) (tabs s)) as [n0|] eqn:Htd.
    + destruct (tabs_get k (tabs s)) as [n|] eqn:Hk; [reflexivity|].
      destruct (String.eqb_spec (td_id td) k) as [E|E]; [congruence | reflexivity].
    + cbn [tabs with_tabs]. destruct (String.eqb_spec (td_id td) k) as [<-|E].
      * now rewrite tabs_get_set_same, Htd.
      * rewrite tabs_get_set_other by exact E. reflexivity.
Qed.

Lemma load_fold_rest tds :
  forall s,
    roots (fold_left
      (fun s tabData =>
         if tabs_has (td_id tabData) (tabs s) then s
         else with_tabs (tabs_set (td_id tabData) (restoreNode tabData)) s) tds s) = roots s
    /\ collapsedSet (fold_left
      (fun s tabData =>
         if tabs_has (td_id tabData) (tabs s) then s
         else with_tabs (tabs_set (td_id tabData) (restoreNode tabData)) s) tds s) = collapsedSet s.
Proof.
  induction tds as [|td tds IH]; intros s; cbn [fold_left]; [auto|].
  destruct (IH (if tabs_has (td_id td) (tabs s) then s
                else with_tabs (tabs_set (td_id td) (restoreNode td)) s)) as [-> ->].
  now destruct (tabs_has (td_id td) (tabs s)).
Qed.

(** X22.  [loadTreeStructure] never replaces a node the store already holds.
    It takes [roots] and the collapsed set from the document, and adds a
    node for each record whose id is new; of two records with the same id
    the first one counts. *)
Theorem loadTreeStructure_keeps_existing_nodes :
  forall d s k,
    tabs_get k (tabs (loadTreeStructure (Some d) s))
    = match tabs_get k (tabs s) with
      | Some n => Some n
      | None => option_map restoreNode (find (fun td => td_id td =? k) (or_nil (doc_tabs d)))
      end
    /\ roots (loadTreeStructure (Some d) s) = or_nil (doc_roots d)
    /\ NoDup (collapsedSet (loadTreeStructure (Some d) s))
    /\ (forall x, In x (collapsedSet (loadTreeStructure (Some d) s))
                  <-> In x (or_nil (doc_collapsed d))).
Proof.
  intros d s k. unfold loadTreeStructure, or_nil.
  destruct (doc_tabs d) as [tds|].
  - rewrite load_fold_get. destruct (load_fold_rest tds
      (mkTreeData (tabs s) match doc_roots d with Some r => r | None => [] end
         (set_of match doc_collapsed d with Some c => c | None => [] end)
         (lastActiveTabId s))) as [-> ->].
    cbn [tabs roots collapsedSet].
    split; [reflexivity|]. split; [reflexivity|]. split; [apply set_of_distinct|].
    intros x. apply set_of_In.
  - cbn [tabs roots collapsedSet find option_map].
    split; [now destruct (tabs_get k (tabs s))|].
    split; [reflexivity|]. split; [apply set_of_distinct|]. intros x. apply set_of_In.
Qed.

(** ** Well-formed forests *)

Lemma same_links_refl s : same_links s s.
Proof. repeat split. Qed.

Lemma same_links_trans s1 s2 s3 : same_links s1 s2 -> same_links s2 s3 -> same_links s1 s3.
Proof.
  intros (K1 & R1 & L1) (K2 & R2 & L2). split; [congruence|]. split; [congruence|].
  intros k. now rewrite L2, L1.
Qed.

Lemma same_links_get s s' k n' :
  same_links s s' -> tabs_get k (tabs s') = Some n' ->
  exists n, tabs_get k (tabs s) = Some n /\ links n' = links n.
Proof.
  intros (_ & _ & L) H. specialize (L k). rewrite H in L.
  destruct (tabs_get k (tabs s)) as [n|]; [|discriminate]. exists n. split; [reflexivity|].
  simpl in L. congruence.
Qed.

Lemma same_links_sym s s' : same_links s s' -> same_links s' s.
Proof. intros (K & R & L). split; [auto|]. split; [auto|]. intros k. now rewrite L. Qed.

Lemma links_fields n n' :
  links n' = links n -> truthy (parentId n') = truthy (parentId n) /\ childIds n' = childIds n.
Proof. unfold links. intros H. injection H as H1 H2. auto. Qed.

Lemma linked_same_links s s' : linked s -> same_links s s' -> linked s'.
Proof.
  intros [Lk Lr Lc Lu Lroot Ld] Hs. pose proof (same_links_sym _ _ Hs) as Hs'.
  destruct Hs as (K & R & L). constructor.
  - now rewrite K.
  - now rewrite R.
  - intros k n' H. destruct (same_links_get _ _ _ _ (conj K (conj R L)) H) as (n & Hn & E).
    apply links_fields in E. destruct E as [_ E]. rewrite E. eauto.
  - intros k n' H. destruct (same_links_get _ _ _ _ (conj K (conj R L)) H) as (n & Hn & E).
    apply links_fields in E. destruct E as [E _]. rewrite E. specialize (Lu _ _ Hn).
    destruct (truthy (parentId n)) as [p|].
    + destruct Lu as (pn & Hp & Hin).
      destruct (same_links_get _ _ _ _ Hs' Hp) as (pn' & Hp' & E').
      apply links_fields in E'. destruct E' as [_ E']. exists pn'. split; [exact Hp'|]. congruence.
    + now rewrite R.
  - intros r Hr. rewrite R in Hr. destruct (Lroot _ Hr) as (n & Hn & Hp).
    destruct (same_links_get _ _ _ _ Hs' Hn) as (n' & Hn' & E).
    apply links_fields in E. destruct E as [E _]. exists n'. split; [exact Hn'|]. congruence.
  - intros p pn' c Hp Hin.
    destruct (same_links_get _ _ _ _ (conj K (conj R L)) Hp) as (pn & Hpn & E).
    apply links_fields in E. destruct E as [_ E]. rewrite E in Hin.
    destruct (Ld _ _ _ Hpn Hin) as (cn & Hc & Hpar).
    destruct (same_links_get _ _ _ _ Hs' Hc) as (cn' & Hc' & E').
    apply links_fields in E'. destruct E' as [E' _]. exists cn'. split; [exact Hc'|]. congruence.
Qed.

Lemma same_links_modify k f s :
  (forall n, links (f n) = links n) -> same_links s (with_tabs (modify k f) s).
Proof.
  intros Hf. split; [apply keys_modify|]. split; [reflexivity|].
  intros j. cbn [tabs with_tabs]. rewrite tabs_get_modify.
  destruct (k =? j); [|reflexivity]. destruct (tabs_get j (tabs s)); simpl; [|reflexivity].
  now rewrite Hf.
Qed.

(** [updateChildLevels] writes levels only. *)
Lemma updateChildLevels_links fuel :
  forall i s s', carried (updateChildLevels fuel i s) = Some s' -> same_links s s'.
Proof.
  induction fuel as [|fuel IH]; intros i s s' H; simpl in H.
  - injection H as <-. apply same_links_refl.
  - destruct (tabs_get i (tabs s)) as [parent|]; [|injection H as <-; apply same_links_refl].
    revert H. apply for_of_carried; [apply same_links_refl | apply same_links_trans |].
    intros c s0 s0' H0. destruct (tabs_get c (tabs s0)); [|injection H0 as <-; apply same_links_refl].
    eapply same_links_trans; [|apply (IH _ _ _ H0)]. now apply same_links_modify.
Qed.

Lemma NoDup_push (x : string) (l : list string) : NoDup l -> ~ In x l -> NoDup (l ++ [x]).
Proof.
  intros Hnd Hni. apply NoDup_app; [exact Hnd | repeat constructor; intros [] |].
  intros y Hy [<-|[]]. contradiction.
Qed.

Lemma linked_listed_present s p pn c :
  linked s -> tabs_get p (tabs s) = Some pn -> In c (childIds pn) -> tabs_has c (tabs s) = true.
Proof.
  intros L Hp Hin. destruct (lk_down s L _ _ _ Hp Hin) as (cn & Hc & _).
  unfold tabs_has. now rewrite Hc.
Qed.

Lemma linked_root_present s r : linked s -> In r (roots s) -> tabs_has r (tabs s) = true.
Proof.
  intros L Hin. destruct (lk_root s L _ Hin) as (n & Hn & _). unfold tabs_has. now rewrite Hn.
Qed.

(** A new node as a root. *)
Lemma insert_root_linked node s :
  linked s -> tabs_has (id node) (tabs s) = false ->
  childIds node = [] -> truthy (parentId node) = None ->
  linked (with_tabs (tabs_set (id node) node) (with_roots (fun r => push r (id node)) s)).
Proof.
  intros L Hfresh Hch Hpar. set (i := id node) in *.
  assert (Hget : forall k, tabs_get k (tabs_set i node (tabs s))
                           = if i =? k then Some node else tabs_get k (tabs s)).
  { intros k. destruct (String.eqb_spec i k) as [<-|Hne].
    - apply tabs_get_set_same.
    - now apply tabs_get_set_other. }
  assert (Hold : forall k n, tabs_get k (tabs s) = Some n -> i <> k).
  { intros k n Hk ->. unfold tabs_has in Hfresh. now rewrite Hk in Hfresh. }
  constructor; cbn [tabs roots with_tabs with_roots]; unfold push.
  - rewrite keys_tabs_set_fresh by exact Hfresh. apply NoDup_push; [apply (lk_keys s L)|].
    now apply tabs_has_false.
  - apply NoDup_push; [apply (lk_roots s L)|]. intros Hin.
    pose proof (linked_root_present s i L Hin). congruence.
  - intros k n. rewrite Hget. destruct (String.eqb_spec i k) as [<-|Hne].
    + intros E. injection E as <-. rewrite Hch. constructor.
    + apply (lk_children s L).
  - intros k n. rewrite Hget. destruct (String.eqb_spec i k) as [<-|Hne].
    + intros E. injection E as <-. rewrite Hpar. apply in_or_app. right. now left.
    + intros Hk. pose proof (lk_up s L _ _ Hk) as Hup.
      destruct (truthy (parentId n)) as [p|].
      * destruct Hup as (pn & Hp & Hin). exists pn. split; [|exact Hin].
        rewrite Hget. destruct (String.eqb_spec i p) as [<-|]; [|exact Hp].
        exfalso. now apply (Hold _ _ Hp).
      * apply in_or_app. now left.
  - intros r Hr. apply in_app_or in Hr. destruct Hr as [Hr|[<-|[]]].
    + destruct (lk_root s L _ Hr) as (n & Hn & Hp). exists n. split; [|exact Hp].
      rewrite Hget. destruct (String.eqb_spec i r) as [<-|]; [|exact Hn].
      exfalso. now apply (Hold _ _ Hn).
    + exists node. split; [|exact Hpar]. now rewrite Hget, String.eqb_refl.
  - intros p pn c. rewrite Hget. destruct (String.eqb_spec i p) as [<-|Hne].
    + intros E. injection E as <-. rewrite Hch. intros [].
    + intros Hp Hin. destruct (lk_down s L _ _ _ Hp Hin) as (cn & Hc & Hpar').
      exists cn. split; [|exact Hpar'].
      rewrite Hget. destruct (String.eqb_spec i c) as [<-|]; [|exact Hc].
      exfalso. now apply (Hold _ _ Hc).
Qed.

(** A new node as the last child of [p]. *)
Lemma insert_child_linked node p pn s :
  linked s -> tabs_has (id node) (tabs s) = false ->
  childIds node = [] -> truthy (parentId node) = Some p ->
  tabs_get p (tabs s) = Some pn ->
  linked (with_tabs (tabs_set (id node) node)
            (with_tabs (modify p (fun n => set_childIds (push (childIds n) (id node)) n)) s)).
Proof.
  intros L Hfresh Hch Hpar Hp. set (i := id node) in *.
  assert (Hold : forall k n, tabs_get k (tabs s) = Some n -> i <> k).
  { intros k n Hk ->. unfold tabs_has in Hfresh. now rewrite Hk in Hfresh. }
  pose proof (Hold _ _ Hp) as Hip.
  set (pn' := set_childIds (childIds pn ++ [i]) pn).
  assert (Hget : forall k,
            tabs_get k (tabs_set i node
                          (modify p (fun n => set_childIds (push (childIds n) i) n) (tabs s)))
            = if i =? k then Some node else if p =? k then Some pn' else tabs_get k (tabs s)).
  { intros k. destruct (String.eqb_spec i k) as [<-|Hne].
    - apply tabs_get_set_same.
    - rewrite tabs_get_set_other by exact Hne. rewrite tabs_get_modify.
      destruct (String.eqb_spec p k) as [<-|]; [now rewrite Hp | reflexivity]. }
  (* every old node is still there, with its parent and at least its children *)
  assert (Hkeep : forall k n, tabs_get k (tabs s) = Some n ->
            exists n', tabs_get k (tabs_set i node
                          (modify p (fun n => set_childIds (push (childIds n) i) n) (tabs s)))
                       = Some n'
                       /\ parentId n' = parentId n /\ incl (childIds n) (childIds n')).
  { intros k n Hk. rewrite Hget. destruct (String.eqb_spec i k) as [E|_]; [now apply Hold in Hk|].
    destruct (String.eqb_spec p k) as [<-|_].
    - exists pn'. rewrite Hp in Hk. injection Hk as <-. split; [reflexivity|].
      split; [reflexivity|]. intros x Hx. simpl. apply in_or_app. now left.
    - exists n. split; [exact Hk|]. split; [reflexivity | apply incl_refl]. }
  constructor; cbn [tabs roots with_tabs with_roots]; unfold push.
  - rewrite keys_tabs_set_fresh.
    + rewrite keys_modify. apply NoDup_push; [apply (lk_keys s L)|]. now apply tabs_has_false.
    + unfold tabs_has. rewrite tabs_get_modify_other by congruence.
      unfold tabs_has in Hfresh. exact Hfresh.
  - apply (lk_roots s L).
  - intros k n. rewrite Hget. destruct (String.eqb_spec i k) as [<-|Hne].
    + intros E. injection E as <-. rewrite Hch. constructor.
    + destruct (String.eqb_spec p k) as [<-|_]; [|apply (lk_children s L)].
      intros E. injection E as <-. simpl. apply NoDup_push; [apply (lk_children s L _ _ Hp)|].
      intros Hin. pose proof (linked_listed_present s _ _ _ L Hp Hin). congruence.
  - intros k n. rewrite Hget. destruct (String.eqb_spec i k) as [<-|Hne].
    + intros E. injection E as <-. rewrite Hpar. exists pn'. split.
      * rewrite Hget. destruct (String.eqb_spec i p); [congruence|]. now rewrite String.eqb_refl.
      * simpl. apply in_or_app. right. now left.
    + intros Hk.
      assert (Hk0 : exists n0, tabs_get k (tabs s) = Some n0 /\ parentId n = parentId n0).
      { destruct (String.eqb_spec p k) as [<-|_]; [|eauto].
        injection Hk as <-. exists pn. auto. }
      destruct Hk0 as (n0 & Hk0 & ->). pose proof (lk_up s L _ _ Hk0) as Hup.
      destruct (truthy (parentId n0)) as [q|]; [|exact Hup].
      destruct Hup as (qn & Hq & Hin). destruct (Hkeep _ _ Hq) as (qn' & Hq' & _ & Hincl).
      exists qn'. split; [exact Hq' | now apply Hincl].
  - intros r Hr. destruct (lk_root s L _ Hr) as (n & Hn & Hpn).
    destruct (Hkeep _ _ Hn) as (n' & Hn' & E & _). exists n'. split; [exact Hn'|]. congruence.
  - intros q qn c. rewrite Hget. destruct (String.eqb_spec i q) as [<-|Hne].
    + intros E. injection E as <-. rewrite Hch. intros [].
    + destruct (String.eqb_spec p q) as [<-|Hpq].
      * intros E. injection E as <-. simpl. intros Hin. apply in_app_or in Hin.
        destruct Hin as [Hin|[<-|[]]].
        -- destruct (lk_down s L _ _ _ Hp Hin) as (cn & Hc & Hcp).
           destruct (Hkeep _ _ Hc) as (cn' & Hc' & E & _). exists cn'. split; [exact Hc'|]. congruence.
        -- exists node. split; [|exact Hpar]. now rewrite Hget, String.eqb_refl.
      * intros Hq Hin. destruct (lk_down s L _ _ _ Hq Hin) as (cn & Hc & Hcp).
        destruct (Hkeep _ _ Hc) as (cn' & Hc' & E & _). exists cn'. split; [exact Hc'|]. congruence.
Qed.

Lemma insertNode_linked node s :
  linked s -> tabs_has (id node) (tabs s) = false -> childIds node = [] ->
  linked (insertNode node s).
Proof.
  intros L Hfresh Hch. unfold insertNode.
  assert (Hroot : linked (with_tabs (tabs_set (id node) (set_parentId None node))
                            (with_roots (fun r => push r (id node)) s))).
  { apply (insert_root_linked (set_parentId None node) s L); simpl; congruence. }
  destruct (truthy (parentId node)) as [p|] eqn:Ep; [|exact Hroot].
  destruct (tabs_get p (tabs s)) as [pn|] eqn:Hp; [|exact Hroot].
  apply (insert_child_linked (set_level (level pn + 1) node) p pn s L); simpl; congruence.
Qed.

(** X4.  Nodes added by [addTab] and [createGroup] under a new id keep the
    links consistent, whatever the parent argument. *)
Theorem new_nodes_keep_links :
  forall i ttl ty parent s,
    linked s -> tabs_has i (tabs s) = false ->
    linked (addTab i ttl ty parent s) /\ linked (createGroup i ttl parent s).
Proof.
  intros i ttl ty parent s L Hfresh.
  split; apply insertNode_linked; try assumption; reflexivity.
Qed.

Lemma moved_back tabId tab np s s3 k n' :
  moved tabId tab np s s3 -> tabs_get k (tabs s3) = Some n' ->
  exists n, tabs_get k (tabs s) = Some n
            /\ truthy (parentId n') = (if tabId =? k then np else truthy (parentId n))
            /\ childIds n' = children_after_move tabId tab np k (childIds n).
Proof.
  intros (K & _ & F) H.
  assert (Hin : In k (keys (tabs s))).
  { rewrite <- K. apply tabs_get_In. congruence. }
  apply tabs_get_In in Hin. destruct (tabs_get k (tabs s)) as [n|] eqn:Hk; [|congruence].
  destruct (F _ _ Hk) as (n2 & Hn2 & E1 & E2). exists n. split; [reflexivity|].
  rewrite H in Hn2. injection Hn2 as <-. auto.
Qed.

(** Moving a node under another node of the store, or to the roots,
    keeps the links consistent. *)
Lemma moved_linked tabId tab np s s3 :
  linked s -> tabs_get tabId (tabs s) = Some tab ->
  match np with Some p => p <> tabId /\ tabs_has p (tabs s) = true | None => True end ->
  moved tabId tab np s s3 ->
  linked s3.
Proof.
  intros L Htab Hnp M. pose proof M as (K & R & F).
  (* the moved node is listed nowhere but under its new parent *)
  assert (Hgone : forall q qn, tabs_get q (tabs s) = Some qn ->
            In tabId (match truthy (parentId tab) with
                      | Some o => if o =? q then remove_first tabId (childIds qn) else childIds qn
                      | None => childIds qn
                      end) -> False).
  { intros q qn Hq Hin. destruct (truthy (parentId tab)) as [o|] eqn:Eo.
    - destruct (String.eqb_spec o q) as [->|Hne].
      + revert Hin. apply remove_first_NoDup. apply (lk_children s L _ _ Hq).
      + destruct (lk_down s L _ _ _ Hq Hin) as (cn & Hc & Hp). congruence.
    - destruct (lk_down s L _ _ _ Hq Hin) as (cn & Hc & Hp). congruence. }
  assert (Hr1 : ~ In tabId (match truthy (parentId tab) with
                            | Some _ => roots s
                            | None => remove_first tabId (roots s)
                            end)).
  { destruct (truthy (parentId tab)) as [o|] eqn:Eo.
    - intros Hin. destruct (lk_root s L _ Hin) as (n & Hn & Hp). congruence.
    - apply remove_first_NoDup. apply (lk_roots s L). }
  assert (Hroots_keep : forall k, k <> tabId -> In k (roots s) -> In k (roots s3)).
  { intros k Hne Hin. rewrite R. unfold roots_after_move.
    assert (In k (match truthy (parentId tab) with
                  | Some _ => roots s
                  | None => remove_first tabId (roots s)
                  end)).
    { destruct (truthy (parentId tab)); [exact Hin | now apply remove_first_other]. }
    destruct np; [assumption | apply in_or_app; now left]. }
  assert (Hkids_keep : forall q c cs, c <> tabId -> In c cs ->
                                      In c (children_after_move tabId tab np q cs)).
  { intros q c cs Hne Hin. unfold children_after_move.
    assert (In c (match truthy (parentId tab) with
                  | Some o => if o =? q then remove_first tabId cs else cs
                  | None => cs
                  end)).
    { destruct (truthy (parentId tab)) as [o|]; [|exact Hin].
      destruct (o =? q); [now apply remove_first_other | exact Hin]. }
    destruct np as [p|]; [|assumption]. destruct (p =? q); [apply in_or_app; now left | assumption]. }
  constructor.
  - rewrite K. apply (lk_keys s L).
  - rewrite R. unfold roots_after_move.
    assert (NoDup (match truthy (parentId tab) with
                   | Some _ => roots s
                   | None => remove_first tabId (roots s)
                   end)).
    { destruct (truthy (parentId tab)); [|apply remove_first_NoDup_keep]; apply (lk_roots s L). }
    destruct np; [assumption | now apply NoDup_push].
  - intros k n' Hk. destruct (moved_back _ _ _ _ _ _ _ M Hk) as (n & Hn & _ & ->).
    unfold children_after_move.
    assert (NoDup (match truthy (parentId tab) with
                   | Some o => if o =? k then remove_first tabId (childIds n) else childIds n
                   | None => childIds n
                   end)).
    { pose proof (lk_children s L _ _ Hn). destruct (truthy (parentId tab)) as [o|]; [|assumption].
      destruct (o =? k); [now apply remove_first_NoDup_keep | assumption]. }
    destruct np as [p|]; [|assumption]. destruct (p =? k); [|assumption].
    apply NoDup_push; [assumption|]. intros Hin. exact (Hgone _ _ Hn Hin).
  - intros k n' Hk. destruct (moved_back _ _ _ _ _ _ _ M Hk) as (n & Hn & -> & _).
    destruct (String.eqb_spec tabId k) as [<-|Hne].
    + destruct np as [p|].
      * destruct Hnp as [_ Hp]. unfold tabs_has in Hp.
        destruct (tabs_get p (tabs s)) as [pn|] eqn:Hpn; [|discriminate].
        destruct (F _ _ Hpn) as (pn' & Hpn' & _ & E). exists pn'. split; [exact Hpn'|].
        rewrite E. unfold children_after_move. rewrite String.eqb_refl.
        apply in_or_app. right. now left.
      * rewrite R. unfold roots_after_move. apply in_or_app. right. now left.
    + pose proof (lk_up s L _ _ Hn) as Hup. destruct (truthy (parentId n)) as [q|].
      * destruct Hup as (qn & Hq & Hin). destruct (F _ _ Hq) as (qn' & Hq' & _ & E).
        exists qn'. split; [exact Hq'|]. rewrite E. apply Hkids_keep; congruence.
      * apply Hroots_keep; congruence.
  - intros r Hr. rewrite R in Hr. unfold roots_after_move in Hr.
    assert (Hcase : (np = None /\ r = tabId)
                    \/ (r <> tabId /\ In r (roots s))).
    { assert (Hin1 : In r (match truthy (parentId tab) with
                           | Some _ => roots s
                           | None => remove_first tabId (roots s)
                           end) -> r <> tabId /\ In r (roots s)).
      { intros Hin. split; [intros ->; contradiction|].
        destruct (truthy (parentId tab)); [exact Hin | now apply remove_first_In in Hin]. }
      destruct np; [right; auto|].
      apply in_app_or in Hr. destruct Hr as [Hr|[<-|[]]]; [right; auto | left; auto]. }
    destruct Hcase as [[-> ->]|[Hne Hin]].
    + destruct (F _ _ Htab) as (n' & Hn' & E & _). exists n'. split; [exact Hn'|].
      now rewrite E, String.eqb_refl.
    + destruct (lk_root s L _ Hin) as (n & Hn & Hp). destruct (F _ _ Hn) as (n' & Hn' & E & _).
      exists n'. split; [exact Hn'|]. rewrite E.
      destruct (String.eqb_spec tabId r); [congruence | exact Hp].
  - intros q qn' c Hq Hin. destruct (moved_back _ _ _ _ _ _ _ M Hq) as (qn & Hqn & _ & E).
    rewrite E in Hin. unfold children_after_move in Hin.
    destruct (String.eqb_spec c tabId) as [->|Hne].
    + (* the moved node: only its new parent lists it *)
      destruct np as [p|]; [|exfalso; exact (Hgone _ _ Hqn Hin)].
      destruct (String.eqb_spec p q) as [->|Hpq]; [|exfalso; exact (Hgone _ _ Hqn Hin)].
      destruct (F _ _ Htab) as (n' & Hn' & E' & _). exists n'. split; [exact Hn'|].
      now rewrite E', String.eqb_refl.
    + assert (Hin0 : In c (childIds qn)).
      { assert (Hin1 : In c (match truthy (parentId tab) with
                             | Some o => if o =? q then remove_first tabId (childIds qn)
                                         else childIds qn
                             | None => childIds qn
                             end) -> In c (childIds qn)).
        { destruct (truthy (parentId tab)) as [o|]; [|auto].
          destruct (o =? q); [apply remove_first_In | auto]. }
        destruct np as [p|]; [|auto]. destruct (p =? q); [|auto].
        apply in_app_or in Hin. destruct Hin as [Hin|[E0|[]]]; [auto | congruence]. }
      destruct (lk_down s L _ _ _ Hqn Hin0) as (cn & Hc & Hp).
      destruct (F _ _ Hc) as (cn' & Hc' & E' & _). exists cn'. split; [exact Hc'|].
      rewrite E'. destruct (String.eqb_spec tabId c); [congruence | exact Hp].
Qed.

Lemma moved_same_links tabId tab np s s3 s' :
  moved tabId tab np s s3 -> same_links s3 s' -> moved tabId tab np s s'.
Proof.
  intros (K & R & F) Hs. pose proof (same_links_sym _ _ Hs) as Hs'.
  destruct Hs as (K' & R' & L'). split; [congruence|]. split; [congruence|].
  intros k n Hk. destruct (F _ _ Hk) as (n3 & Hn3 & E1 & E2).
  destruct (same_links_get _ _ _ _ Hs' Hn3) as (n' & Hn' & E).
  apply links_fields in E. destruct E as [E3 E4].
  exists n'. split; [exact Hn'|]. split; congruence.
Qed.

(** The relinking of [attachTabTo], before levels are updated. *)
Lemma relink_under tabId tab newParentId np npn s :
  tabs_get tabId (tabs s) = Some tab ->
  truthy newParentId = Some np -> np <> tabId -> tabs_get np (tabs s) = Some npn ->
  let s1 := match truthy (parentId tab) with
            | Some op =>
                with_tabs (modify op (fun n => set_childIds (remove_first tabId (childIds n)) n)) s
            | None => with_roots (remove_first tabId) s
            end in
  let s2 := with_tabs (modify tabId (set_parentId newParentId)) s1 in
  exists L,
    match tabs_get np (tabs s2) with
    | Some newParent =>
        with_tabs (modify tabId (set_level (level newParent + 1)))
          (with_tabs (modify np (fun n => set_childIds (push (childIds n) tabId) n)) s2)
    | None => s2
    end
    = with_tabs (modify tabId (set_level L))
        (with_tabs (modify np (fun n => set_childIds (push (childIds n) tabId) n)) s2)
    /\ moved tabId tab (Some np) s
         (with_tabs (modify tabId (set_level L))
            (with_tabs (modify np (fun n => set_childIds (push (childIds n) tabId) n)) s2)).
Proof.
  intros Htab Hnew Hne Hnp s1 s2.
  assert (Hnp2 : exists n2, tabs_get np (tabs s2) = Some n2).
  { unfold s2, s1. destruct (truthy (parentId tab)) as [op|]; cbn [tabs with_tabs with_roots];
      rewrite ?tabs_get_modify; rewrite Hnp;
      repeat match goal with |- context [?a =? ?b] => destruct (a =? b) end; simpl; eauto. }
  destruct Hnp2 as (n2 & Hn2). rewrite Hn2. exists (level n2 + 1). split; [reflexivity|].
  unfold moved, roots_after_move, children_after_move, s2, s1.
  destruct (truthy (parentId tab)) as [op|]; cbn [tabs roots with_tabs with_roots].
  - split; [now rewrite !keys_modify|]. split; [reflexivity|].
    intros k n Hk. rewrite !tabs_get_modify, Hk.
    destruct (String.eqb_spec tabId k) as [E1|E1]; destruct (String.eqb_spec np k) as [E2|E2];
      destruct (String.eqb_spec op k) as [E3|E3]; try congruence;
      simpl; eexists; (split; [reflexivity|]); simpl; auto.
  - split; [now rewrite !keys_modify|]. split; [reflexivity|].
    intros k n Hk. rewrite !tabs_get_modify, Hk.
    destruct (String.eqb_spec tabId k) as [E1|E1]; destruct (String.eqb_spec np k) as [E2|E2];
      try congruence; simpl; eexists; (split; [reflexivity|]); simpl; auto.
Qed.

Lemma relink_root tabId tab newParentId s :
  tabs_get tabId (tabs s) = Some tab -> truthy newParentId = None ->
  let s1 := match truthy (parentId tab) with
            | Some op =>
                with_tabs (modify op (fun n => set_childIds (remove_first tabId (childIds n)) n)) s
            | None => with_roots (remove_first tabId) s
            end in
  let s2 := with_tabs (modify tabId (set_parentId newParentId)) s1 in
  moved tabId tab None s
    (with_tabs (modify tabId (set_level 0)) (with_roots (fun r => push r tabId) s2)).
Proof.
  intros Htab Hnew s1 s2.
  unfold moved, roots_after_move, children_after_move, s2, s1, push.
  destruct (truthy (parentId tab)) as [op|]; cbn [tabs roots with_tabs with_roots].
  - split; [now rewrite !keys_modify|]. split; [reflexivity|].
    intros k n Hk. rewrite !tabs_get_modify, Hk.
    destruct (String.eqb_spec tabId k) as [E1|E1]; destruct (String.eqb_spec op k) as [E3|E3];
      simpl; eexists; (split; [reflexivity|]); simpl; auto.
  - split; [now rewrite !keys_modify|]. split; [reflexivity|].
    intros k n Hk. rewrite !tabs_get_modify, Hk.
    destruct (String.eqb_spec tabId k) as [E1|E1];
      simpl; eexists; (split; [reflexivity|]); simpl; auto.
Qed.

(** What [attachTabTo] leaves behind: the state it was given, or that
    state with the node moved. *)
Lemma attachTabTo_moved fuel tabId newParentId s s' :
  match truthy newParentId with
  | Some np => np <> tabId /\ tabs_has np (tabs s) = true
  | None => True
  end ->
  carried (attachTabTo fuel tabId newParentId s) = Some s' ->
  s' = s \/ exists tab, tabs_get tabId (tabs s) = Some tab
                        /\ moved tabId tab (truthy newParentId) s s'
                        /\ match truthy newParentId with
                           | Some np => exists ds, getDescendants fuel tabId (tabs s) = Some ds
                                                   /\ includes np ds = false
                           | None => True
                           end.
Proof.
  intros Hnp H. unfold attachTabTo in H.
  destruct (tabs_get tabId (tabs s)) as [tab|] eqn:Htab; [|left; now injection H as <-].
  destruct (truthy newParentId) as [np|] eqn:Hnew.
  - destruct Hnp as [Hne Hhas]. unfold tabs_has in Hhas.
    destruct (tabs_get np (tabs s)) as [npn|] eqn:Hnpn; [|discriminate].
    destruct (getDescendants fuel tabId (tabs s)) as [ds|]; [|left; now injection H as <-].
    destruct (includes np ds) eqn:Hinc; [left; now injection H as <-|].
    destruct (relink_under tabId tab newParentId np npn s Htab Hnew Hne Hnpn) as (L & E & M).
    cbv zeta in E. rewrite E in H. right. exists tab. split; [reflexivity|].
    split; [|eauto].
    eapply moved_same_links; [exact M|]. eapply updateChildLevels_links. exact H.
  - right. exists tab. split; [reflexivity|]. split; [|exact I].
    eapply moved_same_links; [exact (relink_root tabId tab newParentId s Htab Hnew)|].
    eapply updateChildLevels_links. exact H.
Qed.

Lemma attachTabTo_linked fuel tabId newParentId s s' :
  linked s -> parent_ok tabId newParentId s ->
  carried (attachTabTo fuel tabId newParentId s) = Some s' ->
  linked s'.
Proof.
  intros L Hnp H.
  destruct (attachTabTo_moved fuel tabId newParentId s s' Hnp H) as [->|(tab & Htab & M & _)];
    [exact L|].
  exact (moved_linked tabId tab (truthy newParentId) s s' L Htab Hnp M).
Qed.

Lemma linkedb_ok s : linkedb s = true -> linked s.
Proof.
  unfold linkedb. intros H.
  apply andb_prop in H. destruct H as [H Hr].
  apply andb_prop in H. destruct H as [H He].
  apply andb_prop in H. destruct H as [Hk Hrs].
  rewrite forallb_forall in He, Hr.
  assert (Hent : forall k n, tabs_get k (tabs s) = Some n ->
            distinctb (childIds n) = true
            /\ match truthy (parentId n) with
               | Some p =>
                   match tabs_get p (tabs s) with
                   | Some pn => includes k (childIds pn)
                   | None => false
                   end
               | None => includes k (roots s)
               end = true
            /\ forallb
                 (fun c =>
                    match tabs_get c (tabs s) with
                    | Some cn =>
                        match truthy (parentId cn) with
                        | Some q => q =? k
                        | None => false
                        end
                    | None => false
                    end) (childIds n) = true).
  { intros k n Hget. specialize (He (k, n) (tabs_get_entry _ _ _ Hget)). simpl in He.
    apply andb_prop in He. destruct He as [He H3].
    apply andb_prop in He. destruct He as [H1 H2]. auto. }
  constructor.
  - now apply distinctb_NoDup.
  - now apply distinctb_NoDup.
  - intros k n Hget. apply distinctb_NoDup. exact (proj1 (Hent _ _ Hget)).
  - intros k n Hget. destruct (Hent _ _ Hget) as (_ & H2 & _).
    destruct (truthy (parentId n)) as [p|].
    + destruct (tabs_get p (tabs s)) as [pn|]; [|discriminate].
      exists pn. split; [reflexivity | now apply includes_In].
    + now apply includes_In.
  - intros r Hin. specialize (Hr r Hin). destruct (tabs_get r (tabs s)) as [n|]; [|discriminate].
    exists n. split; [reflexivity|]. now destruct (truthy (parentId n)).
  - intros p pn c Hget Hin. destruct (Hent _ _ Hget) as (_ & _ & H3).
    rewrite forallb_forall in H3. specialize (H3 c Hin).
    destruct (tabs_get c (tabs s)) as [cn|]; [|discriminate].
    exists cn. split; [reflexivity|].
    destruct (truthy (parentId cn)) as [q|]; [|discriminate].
    apply String.eqb_eq in H3. now subst.
Qed.

Lemma linked_empty : linked emptyTree.
Proof. apply linkedb_ok. reflexivity. Qed.

(** In a store with consistent links a node hangs in exactly one place:
    in [roots] and in no [childIds], or in the [childIds] of one node and
    not in [roots]. *)
Lemma linked_one_place s k n :
  linked s -> tabs_get k (tabs s) = Some n ->
  (In k (roots s) /\ ~ listed_as_child k s)
  \/ (~ In k (roots s)
      /\ exists p pn, tabs_get p (tabs s) = Some pn /\ In k (childIds pn)
                      /\ forall q qn, tabs_get q (tabs s) = Some qn -> In k (childIds qn) -> q = p).
Proof.
  intros L Hk. pose proof (lk_up s L _ _ Hk) as Hup.
  destruct (truthy (parentId n)) as [p|] eqn:Ep.
  - right. split.
    + intros Hin. destruct (lk_root s L _ Hin) as (n' & Hn' & Hp). congruence.
    + destruct Hup as (pn & Hp & Hin). exists p, pn. split; [exact Hp|]. split; [exact Hin|].
      intros q qn Hq Hinq. destruct (lk_down s L _ _ _ Hq Hinq) as (cn & Hc & Hcp). congruence.
  - left. split; [exact Hup|]. intros (q & qn & Hq & Hin).
    destruct (lk_down s L _ _ _ Hq Hin) as (cn & Hc & Hcp). congruence.
Qed.

(** X3.  [attachTabTo] under a node of the store other than the moved node,
    and [makeRootTab], keep the links consistent, whether the call returns
    or throws: afterwards every node is in [roots] and in no [childIds],
    or in the [childIds] of exactly one node and not in [roots]. *)
Theorem attachTabTo_keeps_links :
  forall fuel tabId newParentId s s',
    linked s -> parent_ok tabId newParentId s ->
    carried (attachTabTo fuel tabId newParentId s) = Some s' ->
    linked s'
    /\ forall k n, tabs_get k (tabs s') = Some n ->
         (In k (roots s') /\ ~ listed_as_child k s')
         \/ (~ In k (roots s')
             /\ exists p pn, tabs_get p (tabs s') = Some pn /\ In k (childIds pn)
                             /\ forall q qn, tabs_get q (tabs s') = Some qn ->
                                             In k (childIds qn) -> q = p).
Proof.
  intros fuel tabId newParentId s s' L Hnp H.
  pose proof (attachTabTo_linked fuel tabId newParentId s s' L Hnp H) as L'.
  split; [exact L'|]. intros k n Hk. exact (linked_one_place s' k n L' Hk).
Qed.

Lemma new_nodes_keep_links_witness :
  linked (addTab "c" "Notes" "reader" (Some "a") (lone "a")).
Proof.
  refine (proj1 (new_nodes_keep_links "c" "Notes" "reader" (Some "a") (lone "a") _ _)).
  - apply linkedb_ok. reflexivity.
  - reflexivity.
Defined.

Lemma attachTabTo_keeps_links_witness : linked familyMoved.
Proof.
  refine (proj1 (attachTabTo_keeps_links 4 "A" (Some "Q") familyStore familyMoved _ _ _)).
  - apply linkedb_ok. reflexivity.
  - split; [discriminate | reflexivity].
  - reflexivity.
Defined.

(** ** No cycles *)

Lemma getDescendants_step fuel i m :
  getDescendants (S fuel) i m
  = match tabs_get i m with
    | None => Some []
    | Some node => descend_each (fun c => getDescendants fuel c m) (childIds node)
    end.
Proof. reflexivity. Qed.

Lemma descend_each_spec f cs :
  forall r, descend_each f cs = Some r ->
    (forall c, In c cs -> In c r /\ exists dc, f c = Some dc /\ incl dc r)
    /\ (forall x, In x r -> In x cs \/ exists c dc, In c cs /\ f c = Some dc /\ In x dc).
Proof.
  induction cs as [|c cs IH]; simpl; intros r H.
  - injection H as <-. split; [intros c [] | intros x []].
  - destruct (f c) as [dc|] eqn:Ec; [|discriminate].
    destruct (descend_each f cs) as [rest|]; [|discriminate]. injection H as <-.
    destruct (IH rest eq_refl) as [I1 I2]. split.
    + intros c' [<-|Hin].
      * split; [now left|]. exists dc. split; [exact Ec|].
        intros x Hx. right. apply in_or_app. now left.
      * destruct (I1 _ Hin) as (Hr & dc' & Hf & Hincl). split.
        -- right. apply in_or_app. now right.
        -- exists dc'. split; [exact Hf|]. intros x Hx. right. apply in_or_app. right. auto.
    + intros x [<-|Hx]; [left; now left|].
      apply in_app_or in Hx. destruct Hx as [Hx|Hx].
      * right. exists c, dc. split; [now left | auto].
      * destruct (I2 _ Hx) as [Hin|(c' & dc' & Hin & Hf & Hx')].
        -- left. now right.
        -- right. exists c', dc'. split; [now right | auto].
Qed.

(** The list of descendants holds the children of the node and of each
    of its members, and each member is a child of the node or of a
    member. *)
Lemma getDescendants_closed m :
  forall fuel i ds, getDescendants fuel i m = Some ds ->
    (forall n, tabs_get i m = Some n -> incl (childIds n) ds)
    /\ (forall x xn, In x ds -> tabs_get x m = Some xn -> incl (childIds xn) ds)
    /\ (forall x, In x ds ->
          exists y yn, (y = i \/ In y ds) /\ tabs_get y m = Some yn /\ In x (childIds yn)).
Proof.
  induction fuel as [|fuel IH]; intros i ds H; [discriminate|].
  rewrite getDescendants_step in H.
  destruct (tabs_get i m) as [node|] eqn:Hi.
  2:{ injection H as <-. split; [discriminate|]. split; intros x; contradiction. }
  destruct (descend_each_spec _ _ _ H) as [S1 S2]. split; [|split].
  - intros n E. injection E as <-. intros c Hc. now apply S1.
  - intros x xn Hx Hxn. destruct (S2 _ Hx) as [Hin|(c & dc & Hin & Hf & Hxd)].
    + destruct (S1 _ Hin) as (_ & dc & Hf & Hincl).
      destruct (IH _ _ Hf) as (I1 & _ & _). intros y Hy. apply Hincl. now apply (I1 xn).
    + destruct (S1 _ Hin) as (_ & dc' & Hf' & Hincl). rewrite Hf in Hf'. injection Hf' as <-.
      destruct (IH _ _ Hf) as (_ & I2 & _). intros y Hy. apply Hincl. now apply (I2 x xn).
  - intros x Hx. destruct (S2 _ Hx) as [Hin|(c & dc & Hin & Hf & Hxd)].
    + exists i, node. auto.
    + destruct (S1 _ Hin) as (Hcr & dc' & Hf' & Hincl). rewrite Hf in Hf'. injection Hf' as <-.
      destruct (IH _ _ Hf) as (_ & _ & I3). destruct (I3 _ Hxd) as (y & yn & Hy & Hyn & Hxy).
      exists y, yn. split; [|auto]. right. destruct Hy as [->|Hy]; [exact Hcr | now apply Hincl].
Qed.

Lemma ranked_chain m depth :
  ranked m depth -> forall n d a, chain m n d a -> depth a < depth d.
Proof.
  intros Hr n d a Hc. induction Hc as [d a nd Hd Hp Ha | n d b a nd Hd Hp Hc IH].
  - exact (Hr _ _ _ Hd Hp Ha).
  - assert (Hb : tabs_has b m = true).
    { inversion Hc as [? ? nb Hb _ _ | ? ? ? ? nb Hb _ _]; subst; unfold tabs_has; now rewrite Hb. }
    pose proof (Hr _ _ _ Hd Hp Hb). lia.
Qed.

(** A ranked store has no node that is its own ancestor. *)
Lemma ranked_no_cycle m depth : ranked m depth -> forall n k, ~ chain m n k k.
Proof. intros Hr n k Hc. pose proof (ranked_chain m depth Hr _ _ _ Hc). lia. Qed.

Lemma moved_ranked tabId tab np fuel ds depth s s3 :
  linked s -> ranked (tabs s) depth ->
  tabs_get tabId (tabs s) = Some tab -> np <> tabId ->
  getDescendants fuel tabId (tabs s) = Some ds -> includes np ds = false ->
  moved tabId tab (Some np) s s3 ->
  ranked (tabs s3) (depth_after_move depth tabId ds np).
Proof.
  intros L Hr Htab Hne Hds Hinc M.
  destruct (getDescendants_closed _ _ _ _ Hds) as (G1 & G2 & G3).
  pose proof M as (K & _ & _).
  assert (Hnp : includes np (tabId :: ds) = false).
  { simpl. destruct (String.eqb_spec np tabId); [contradiction | exact Hinc]. }
  assert (Htd : includes tabId (tabId :: ds) = true) by (simpl; now rewrite String.eqb_refl).
  intros k n' p Hk Hp Hhas.
  destruct (moved_back _ _ _ _ _ _ _ M Hk) as (n & Hn & Epar & _).
  unfold depth_after_move.
  destruct (String.eqb_spec tabId k) as [<-|Hkt].
  - (* the moved node under its new parent *)
    rewrite Epar in Hp. injection Hp as <-. rewrite Hnp, Htd. lia.
  - rewrite Epar in Hp.
    assert (Hhas0 : tabs_has p (tabs s) = true).
    { apply tabs_has_In. rewrite <- K. now apply tabs_has_In. }
    pose proof (Hr _ _ _ Hn Hp Hhas0) as Hlt.
    pose proof (lk_up s L _ _ Hn) as Hup. rewrite Hp in Hup. destruct Hup as (pn & Hpn & Hkp).
    destruct (includes k (tabId :: ds)) eqn:Hkin.
    + (* below the moved node: so is its parent *)
      assert (Hpin : includes p (tabId :: ds) = true).
      { apply includes_In in Hkin. destruct Hkin as [E|Hkin]; [congruence|].
        destruct (G3 _ Hkin) as (y & yn & Hy & Hyn & Hky).
        destruct (lk_down s L _ _ _ Hyn Hky) as (cn & Hc & Hcp).
        rewrite Hn in Hc. injection Hc as <-. rewrite Hp in Hcp. injection Hcp as ->.
        apply includes_In. destruct Hy as [->|Hy]; [now left | now right]. }
      rewrite Hpin. lia.
    + (* elsewhere: so is its parent *)
      assert (Hpin : includes p (tabId :: ds) = false).
      { apply includes_false. intros Hpin. apply includes_false in Hkin. apply Hkin. right.
        destruct Hpin as [<-|Hpin].
        - now apply (G1 pn Hpn).
        - now apply (G2 p pn Hpin Hpn). }
      rewrite Hpin. exact Hlt.
Qed.

Lemma moved_to_roots_ranked tabId tab depth s s3 :
  ranked (tabs s) depth -> moved tabId tab None s s3 -> ranked (tabs s3) depth.
Proof.
  intros Hr M. pose proof M as (K & _ & _). intros k n' p Hk Hp Hhas.
  destruct (moved_back _ _ _ _ _ _ _ M Hk) as (n & Hn & Epar & _).
  rewrite Epar in Hp. destruct (tabId =? k); [discriminate|].
  apply (Hr _ _ _ Hn Hp). apply tabs_has_In. rewrite <- K. now apply tabs_has_In.
Qed.

Lemma attachTabTo_ranked fuel tabId newParentId depth s s' :
  linked s -> ranked (tabs s) depth -> parent_ok tabId newParentId s ->
  carried (attachTabTo fuel tabId newParentId s) = Some s' ->
  exists depth', ranked (tabs s') depth'.
Proof.
  intros L Hr Hnp H.
  destruct (attachTabTo_moved fuel tabId newParentId s s' Hnp H) as [->|(tab & Htab & M & G)];
    [eauto|].
  unfold parent_ok in Hnp. destruct (truthy newParentId) as [np|].
  - destruct G as (ds & Hds & Hinc). destruct Hnp as [Hne _].
    exists (depth_after_move depth tabId ds np).
    exact (moved_ranked tabId tab np fuel ds depth s s' L Hr Htab Hne Hds Hinc M).
  - exists depth. exact (moved_to_roots_ranked tabId tab depth s s' Hr M).
Qed.

(** X2.  [attachTabTo] under a node of the store other than the moved node,
    and [makeRootTab], make no cycle: if the links were consistent and
    no node of the store was its own ancestor, none is afterwards. *)
Theorem attachTabTo_makes_no_cycle :
  forall fuel tabId newParentId depth s s',
    linked s -> ranked (tabs s) depth -> parent_ok tabId newParentId s ->
    carried (attachTabTo fuel tabId newParentId s) = Some s' ->
    forall n k, ~ chain (tabs s') n k k.
Proof.
  intros fuel tabId newParentId depth s s' L Hr Hnp H.
  destruct (attachTabTo_ranked fuel tabId newParentId depth s s' L Hr Hnp H) as (depth' & Hr').
  exact (ranked_no_cycle _ _ Hr').
Qed.

Lemma attachTabTo_makes_no_cycle_witness : ~ chain (tabs familyMoved) 3 "A" "A".
Proof.
  refine (attachTabTo_makes_no_cycle 4 "A" (Some "Q")
            (fun k => level_of k (tabs familyStore)) familyStore familyMoved _ _ _ _ 3 "A").
  - apply linkedb_ok. reflexivity.
  - apply rankedb_ok. reflexivity.
  - split; [discriminate | reflexivity].
  - reflexivity.
Defined.

(** ** Operations that leave the links alone *)

Lemma same_links_collapsedSet f s : same_links s (with_collapsedSet f s).
Proof. repeat split. Qed.

Lemma same_links_lastActive v s : same_links s (with_lastActive v s).
Proof. repeat split. Qed.

Lemma same_links_map (g : string * TabNode -> TabNode) s :
  (forall e, links (g e) = links (snd e)) ->
  same_links s (with_tabs (map (fun e => (fst e, g e))) s).
Proof.
  intros Hg. split; [|split; [reflexivity|]].
  - cbn [tabs with_tabs]. unfold keys. rewrite map_map. reflexivity.
  - intros k. cbn [tabs with_tabs]. induction (tabs s) as [|[k' v] m IH]; [reflexivity|].
    simpl. destruct (k =? k'); [|exact IH]. simpl. now rewrite (Hg (k', v)).
Qed.

Lemma collapseSibling_links i s y : same_links s (collapseSibling i s y).
Proof.
  unfold collapseSibling. destruct (y =? i); [apply same_links_refl|].
  destruct (tabs_get y (tabs s)) as [sib|]; [|apply same_links_refl].
  destruct (childIds sib); [apply same_links_refl|].
  eapply same_links_trans; [|apply same_links_collapsedSet]. apply same_links_modify. reflexivity.
Qed.

Lemma toggleCollapsed_links h i s : same_links s (toggleCollapsed h i s).
Proof.
  unfold toggleCollapsed. destruct (tabs_get i (tabs s)) as [node|]; [|apply same_links_refl].
  destruct (childIds node); [apply same_links_refl|].
  assert (H1 : forall f, same_links s
                 (with_collapsedSet f (with_tabs (modify i (set_collapsed (negb (collapsed node)))) s))).
  { intros f. eapply same_links_trans; [|apply same_links_collapsedSet].
    apply same_links_modify. reflexivity. }
  destruct (negb (collapsed node)); [apply H1|].
  destruct (pref_autoCollapse h) as [[|]|]; try apply H1.
  eapply same_links_trans; [apply (H1 (set_delete i))|].
  unfold autoCollapseSiblings.
  destruct (tabs_get i _); [|apply same_links_refl].
  apply (fold_left_rel same_links).
  - apply same_links_refl.
  - apply same_links_trans.
  - intros a b _. apply collapseSibling_links.
Qed.

Lemma collapseAll_links s : same_links s (collapseAll s).
Proof.
  unfold collapseAll. apply (fold_left_rel same_links).
  - apply same_links_refl.
  - apply same_links_trans.
  - intros a e _. destruct (childIds (snd e)); [apply same_links_refl|].
    eapply same_links_trans; [|apply same_links_collapsedSet]. apply same_links_modify. reflexivity.
Qed.

Lemma expandAll_links s : same_links s (expandAll s).
Proof.
  unfold expandAll. eapply same_links_trans; [|apply same_links_collapsedSet].
  apply (same_links_map (fun e => set_collapsed false (snd e))). reflexivity.
Qed.

Lemma renameNode_links i ttl s : same_links s (renameNode i ttl s).
Proof.
  unfold renameNode. destruct (tabs_get i (tabs s)); [|apply same_links_refl].
  apply same_links_modify. reflexivity.
Qed.

Lemma onTabSelected_links ids s : same_links s (onTabSelected ids s).
Proof.
  unfold onTabSelected. eapply same_links_trans; [|apply same_links_lastActive].
  apply (same_links_map
           (fun e => set_selected match hd_error ids with
                                  | Some x => id (snd e) =? x
                                  | None => false
                                  end (snd e))).
  reflexivity.
Qed.

Lemma ranked_same_links depth s s' :
  ranked (tabs s) depth -> same_links s s' -> ranked (tabs s') depth.
Proof.
  intros Hr Hs k n' p Hk Hp Hhas. destruct Hs as (K & R & Lk).
  destruct (same_links_get _ _ _ _ (conj K (conj R Lk)) Hk) as (n & Hn & E).
  apply links_fields in E. destruct E as [E _].
  apply (Hr k n p Hn); [congruence|]. apply tabs_has_In. rewrite <- K. now apply tabs_has_In.
Qed.

(** ** Reordering and reset keep the forest *)

Lemma reordered_linked s s' : linked s -> reordered s s' -> linked s'.
Proof.
  intros L (K & R & _ & F).
  assert (Hback : forall k n', tabs_get k (tabs s') = Some n' ->
            exists n, tabs_get k (tabs s) = Some n /\ parentId n' = parentId n
                      /\ Permutation (childIds n') (childIds n)).
  { intros k n' Hk. specialize (F k). rewrite Hk in F.
    destruct (tabs_get k (tabs s)) as [n|]; [|contradiction].
    destruct F as [E P]. exists n. split; [reflexivity|]. split; [|exact P].
    destruct n, n'. unfold set_childIds in E. simpl in *. congruence. }
  assert (Hfwd : forall k n, tabs_get k (tabs s) = Some n ->
            exists n', tabs_get k (tabs s') = Some n' /\ parentId n' = parentId n
                       /\ Permutation (childIds n') (childIds n)).
  { intros k n Hk. specialize (F k). rewrite Hk in F.
    destruct (tabs_get k (tabs s')) as [n'|]; [|contradiction].
    destruct F as [E P]. exists n'. split; [reflexivity|]. split; [|exact P].
    destruct n, n'. unfold set_childIds in E. simpl in *. congruence. }
  constructor.
  - rewrite K. apply (lk_keys s L).
  - apply (Permutation_NoDup (Permutation_sym R)). apply (lk_roots s L).
  - intros k n' Hk. destruct (Hback _ _ Hk) as (n & Hn & _ & P).
    apply (Permutation_NoDup (Permutation_sym P)). apply (lk_children s L _ _ Hn).
  - intros k n' Hk. destruct (Hback _ _ Hk) as (n & Hn & E & _). rewrite E.
    pose proof (lk_up s L _ _ Hn) as Hup. destruct (truthy (parentId n)) as [p|].
    + destruct Hup as (pn & Hp & Hin). destruct (Hfwd _ _ Hp) as (pn' & Hp' & _ & P).
      exists pn'. split; [exact Hp'|]. apply (Permutation_in _ (Permutation_sym P) Hin).
    + apply (Permutation_in _ (Permutation_sym R) Hup).
  - intros r Hr. apply (Permutation_in _ R) in Hr. destruct (lk_root s L _ Hr) as (n & Hn & Hp).
    destruct (Hfwd _ _ Hn) as (n' & Hn' & E & _). exists n'. split; [exact Hn'|]. congruence.
  - intros p pn' c Hp Hin. destruct (Hback _ _ Hp) as (pn & Hpn & _ & P).
    apply (Permutation_in _ P) in Hin. destruct (lk_down s L _ _ _ Hpn Hin) as (cn & Hc & Hcp).
    destruct (Hfwd _ _ Hc) as (cn' & Hc' & E & _). exists cn'. split; [exact Hc'|]. congruence.
Qed.

Lemma reordered_ranked depth s s' :
  ranked (tabs s) depth -> reordered s s' -> ranked (tabs s') depth.
Proof.
  intros Hr (K & _ & _ & F) k n' p Hk Hp Hhas. specialize (F k). rewrite Hk in F.
  destruct (tabs_get k (tabs s)) as [n|] eqn:Hn; [|contradiction]. destruct F as [E _].
  assert (Epar : parentId n' = parentId n).
  { destruct n, n'. unfold set_childIds in E. simpl in *. congruence. }
  apply (Hr k n p Hn); [congruence|]. apply tabs_has_In. rewrite <- K. now apply tabs_has_In.
Qed.

Lemma moves_linked i s : linked s -> linked (moveUp i s) /\ linked (moveDown i s).
Proof.
  intros L. split; [exact (reordered_linked _ _ L (moveUp_reordered i s))|].
  destruct (tabs_get i (tabs s)) as [tab|] eqn:Hget.
  - pose proof (lk_up s L _ _ Hget) as Hl.
    apply (reordered_linked _ _ L). destruct (truthy (parentId tab)) as [p|] eqn:Ep.
    + destruct Hl as (pn & Hp & Hin).
      apply (moveDown_reordered i s tab (childIds pn) Hget); [|exact Hin].
      unfold siblingsOf. now rewrite Ep, Hp.
    + apply (moveDown_reordered i s tab (roots s) Hget); [|exact Hl].
      unfold siblingsOf. now rewrite Ep.
  - unfold moveDown, moveWith. now rewrite Hget.
Qed.

Lemma resetAllToRoot_linked s :
  NoDup (keys (tabs s)) -> keys_ok (tabs s) ->
  linked (resetAllToRoot s) /\ ranked (tabs (resetAllToRoot s)) (fun _ => 0).
Proof.
  intros Hnd Hok. pose proof (resetAllToRoot_entries s) as Hin.
  pose proof (resetAllToRoot_roots s Hnd Hok) as Hroots.
  assert (Hnd' : NoDup (keys (tabs (resetAllToRoot s)))).
  { rewrite resetAllToRoot_tabs, (keys_map resetNode). now apply NoDup_keys_filter. }
  assert (Hnode : forall k n', tabs_get k (tabs (resetAllToRoot s)) = Some n' ->
                               parentId n' = None /\ childIds n' = []).
  { intros k n' Hk. apply tabs_get_entry in Hk. apply Hin in Hk.
    destruct Hk as (n & _ & _ & ->). auto. }
  split.
  - constructor.
    + exact Hnd'.
    + now rewrite Hroots.
    + intros k n' Hk. destruct (Hnode _ _ Hk) as [_ ->]. constructor.
    + intros k n' Hk. destruct (Hnode _ _ Hk) as [-> _]. cbn [truthy]. rewrite Hroots.
      apply tabs_get_In. congruence.
    + intros r Hr. rewrite Hroots in Hr. apply tabs_get_In in Hr.
      destruct (tabs_get r (tabs (resetAllToRoot s))) as [n'|] eqn:Hk; [|congruence].
      exists n'. split; [reflexivity|]. destruct (Hnode _ _ Hk) as [-> _]. reflexivity.
    + intros p pn c Hp Hc. destruct (Hnode _ _ Hp) as [_ E]. rewrite E in Hc. contradiction.
  - intros k n' p Hk Hp. destruct (Hnode _ _ Hk) as [E _]. rewrite E in Hp. discriminate.
Qed.

(** ** Removal with promotion keeps the forest *)

Lemma includes_app x l1 l2 : includes x (l1 ++ l2) = includes x l1 || includes x l2.
Proof. unfold includes. apply existsb_app. Qed.

Lemma handed_over_start g s : handed_over g [] s s.
Proof.
  split; [reflexivity|]. split; [destruct g; now rewrite app_nil_r|].
  intros k n0 Hk. exists n0. split; [exact Hk|]. split; [reflexivity|].
  destruct g as [p|]; [destruct (p =? k)|]; now rewrite app_nil_r.
Qed.

(** One pass of the promotion loop. *)
Lemma promoteChild_hands_over fuel i c g done node s cur s1 :
  tabs_get i (tabs s) = Some node -> truthy (parentId node) = g ->
  ~ In i done -> c <> i -> tabs_has c (tabs s) = true ->
  ~ In c (roots s) -> ~ In c done ->
  handed_over g done s cur ->
  promoteChild fuel i c cur = Done s1 ->
  handed_over g (done ++ [c]) s s1.
Proof.
  intros Hi Hg Hid Hci Hc Hcr Hcd (K & R & F) H.
  destruct (F _ _ Hi) as (ni & Hni & Epi & _).
  assert (Hid' : includes i done = false) by now apply includes_false.
  rewrite Hid', Hg in Epi.
  assert (Hcc : exists nc, tabs_get c (tabs cur) = Some nc).
  { unfold tabs_has in Hc. destruct (tabs_get c (tabs s)) as [n0|] eqn:Hc0; [|discriminate].
    destruct (F _ _ Hc0) as (n & Hn & _). eauto. }
  destruct Hcc as (nc & Hnc).
  unfold promoteChild in H. rewrite Hnc, Hni in H.
  set (sa := with_tabs (modify c (fun x => set_level (level ni) (set_parentId (parentId ni) x))) cur)
    in H.
  destruct (updateChildLevels fuel c sa) as [sb|sb|] eqn:Eu; simpl in H; try discriminate.
  assert (Hab : same_links sa sb).
  { apply (updateChildLevels_links fuel c). now rewrite Eu. }
  destruct Hab as (Kab & Rab & Lab).
  assert (Ksa : keys (tabs sa) = keys (tabs cur)) by apply keys_modify.
  assert (Rsa : roots sa = roots cur) by reflexivity.
  assert (Fb : forall k n0, tabs_get k (tabs s) = Some n0 ->
            exists n, tabs_get k (tabs sb) = Some n
                      /\ truthy (parentId n)
                         = (if includes k (done ++ [c]) then g else truthy (parentId n0))
                      /\ childIds n = childIds n0 ++ match g with
                                                     | Some p => if p =? k then done else []
                                                     | None => []
                                                     end).
  { intros k n0 Hk. destruct (F _ _ Hk) as (n & Hn & E1 & E2).
    specialize (Lab k). unfold sa in Lab. cbn [tabs with_tabs] in Lab.
    rewrite tabs_get_modify, Hn in Lab.
    destruct (tabs_get k (tabs sb)) as [nb|]; [|now destruct (c =? k)].
    exists nb. split; [reflexivity|].
    rewrite includes_app. simpl. rewrite orb_false_r.
    destruct (String.eqb_spec c k) as [<-|Hne]; simpl in Lab; injection Lab as L1 L2.
    + rewrite String.eqb_refl, orb_true_r. split; [congruence|]. now rewrite L2.
    + destruct (String.eqb_spec k c); [congruence|]. rewrite orb_false_r. split; congruence. }
  rewrite Epi in H. destruct g as [p|].
  - injection H as <-. split; [cbn [tabs with_tabs]; rewrite keys_modify; congruence|].
    split; [cbn [roots with_tabs]; congruence|].
    intros k n0 Hk. destruct (Fb _ _ Hk) as (nb & Hnb & E1 & E2).
    cbn [tabs with_tabs]. rewrite tabs_get_modify, Hnb.
    destruct (String.eqb_spec p k) as [<-|Hne]; simpl.
    + eexists. split; [reflexivity|]. split; [exact E1|]. simpl. unfold push.
      rewrite E2. now rewrite <- app_assoc.
    + exists nb. split; [reflexivity|]. split; [exact E1|]. exact E2.
  - assert (Hinc : includes c (roots sb) = false).
    { apply includes_false. rewrite Rab, Rsa, R.
      intros Hin. apply in_app_or in Hin. tauto. }
    rewrite Hinc in H. injection H as <-.
    split; [cbn [tabs with_roots]; congruence|].
    split.
    + cbn [roots with_roots]. unfold push. rewrite Rab, Rsa, R. now rewrite <- app_assoc.
    + intros k n0 Hk. destruct (Fb _ _ Hk) as (nb & Hnb & E1 & E2). exists nb. auto.
Qed.

(** The whole promotion loop. *)
Lemma promotion_hands_over fuel i g node s :
  tabs_get i (tabs s) = Some node -> truthy (parentId node) = g ->
  forall rest done cur s1,
    ~ In i (done ++ rest) ->
    (forall c, In c rest -> tabs_has c (tabs s) = true /\ ~ In c (roots s)) ->
    NoDup (done ++ rest) ->
    handed_over g done s cur ->
    for_of rest (promoteChild fuel i) cur = Done s1 ->
    handed_over g (done ++ rest) s s1.
Proof.
  intros Hi Hg. induction rest as [|c rest IH]; intros done cur s1 Hid Hrest Hnd Hinv H.
  - injection H as <-. now rewrite app_nil_r.
  - apply for_of_Done in H. destruct H as (s2 & H1 & H2).
    replace (done ++ c :: rest) with ((done ++ [c]) ++ rest) in * by now rewrite <- app_assoc.
    apply (IH (done ++ [c]) s2 s1); try assumption.
    + intros c' Hc'. apply Hrest. now right.
    + destruct (Hrest c (or_introl eq_refl)) as [Hc Hcr].
      apply (promoteChild_hands_over fuel i c g done node s cur s2); try assumption.
      * intros Hin. apply Hid. apply in_or_app. left. apply in_or_app. now left.
      * intros ->. apply Hid. apply in_or_app. left. apply in_or_app. right. now left.
      * rewrite <- app_assoc in Hnd. simpl in Hnd. apply NoDup_remove_2 in Hnd.
        intros Hin. apply Hnd. apply in_or_app. now left.
Qed.

Lemma NoDup_app_disjoint (l1 l2 : list string) :
  NoDup l1 -> NoDup l2 -> (forall x, In x l1 -> In x l2 -> False) -> NoDup (l1 ++ l2).
Proof. intros H1 H2 H. apply NoDup_app; assumption. Qed.

(** [removeNodeFromTree] with promotion, when it returns, keeps the links
    consistent and makes no cycle. *)
Lemma removal_keeps_forest fuel i depth s s' :
  linked s -> ranked (tabs s) depth ->
  removeNodeFromTree fuel i true s = Done s' ->
  linked s' /\ ranked (tabs s') depth.
Proof.
  intros L Hrank H. unfold removeNodeFromTree in H.
  destruct (tabs_get i (tabs s)) as [node|] eqn:Hi; [|injection H as <-; auto].
  destruct (for_of (childIds node) (promoteChild fuel i) s) as [s1|s1|] eqn:Efor;
    simpl in H; try discriminate.
  set (g := truthy (parentId node)) in *. set (cs := childIds node) in *.
  (* the node is not its own parent: the call returned *)
  assert (Hgi : g <> Some i).
  { intros Eg. rewrite Eg in H. rewrite String.eqb_refl in H. simpl in H.
    pose proof (lk_up s L _ _ Hi) as Hup. fold g in Hup. rewrite Eg in Hup.
    destruct Hup as (pn & Hp & Hin). rewrite Hi in Hp. injection Hp as <-.
    assert (E : existsb (fun c => tabs_has c (tabs s)) cs = true).
    { apply existsb_exists. exists i. split; [exact Hin|]. unfold tabs_has. now rewrite Hi. }
    rewrite E in H. discriminate. }
  assert (Hkid : forall c, In c cs ->
            exists cn, tabs_get c (tabs s) = Some cn /\ truthy (parentId cn) = Some i).
  { intros c Hc. exact (lk_down s L _ _ _ Hi Hc). }
  assert (Hics : ~ In i cs).
  { intros Hin. destruct (Hkid _ Hin) as (cn & Hc & Hp). rewrite Hi in Hc. injection Hc as <-.
    now apply Hgi. }
  assert (Hnoroot : forall c, In c cs -> ~ In c (roots s)).
  { intros c Hc Hin. destruct (Hkid _ Hc) as (cn & Hcn & Hp).
    destruct (lk_root s L _ Hin) as (n & Hn & Hpn). congruence. }
  assert (Hinv : handed_over g cs s s1).
  { apply (promotion_hands_over fuel i g node s Hi eq_refl cs [] s s1); simpl; try assumption.
    - intros c Hc. split; [|now apply Hnoroot].
      destruct (Hkid _ Hc) as (cn & Hcn & _). unfold tabs_has. now rewrite Hcn.
    - apply (lk_children s L _ _ Hi).
    - apply handed_over_start. }
  destruct Hinv as (K1 & R1 & F1).
  (* the state that is returned *)
  set (s2 := match g with
             | Some p => with_tabs (modify p (fun n => set_childIds (remove_first i (childIds n)) n)) s1
             | None => with_roots (remove_first i) s1
             end).
  assert (Hs' : s' = with_tabs (tabs_delete i) (with_collapsedSet (set_delete i) s2)).
  { unfold s2. destruct g as [p|].
    - destruct ((p =? i) && existsb (fun c => tabs_has c (tabs s)) cs); simpl in H;
        [discriminate | now injection H as <-].
    - simpl in H. now injection H as <-. }
  clear H.
  assert (K2 : keys (tabs s2) = keys (tabs s)).
  { unfold s2. destruct g; cbn [tabs with_tabs with_roots]; rewrite ?keys_modify; exact K1. }
  assert (Ks' : keys (tabs s') = remove_first i (keys (tabs s))).
  { rewrite Hs'. cbn [tabs with_tabs with_collapsedSet]. now rewrite keys_tabs_delete, K2. }
  assert (Rs' : roots s' = match g with
                           | None => remove_first i (roots s ++ cs)
                           | Some _ => roots s
                           end).
  { rewrite Hs'. cbn [roots with_tabs with_collapsedSet]. unfold s2.
    destruct g; cbn [roots with_tabs with_roots]; rewrite R1; [apply app_nil_r | reflexivity]. }
  assert (Fs' : forall k n0, k <> i -> tabs_get k (tabs s) = Some n0 ->
            exists n', tabs_get k (tabs s') = Some n'
                       /\ truthy (parentId n') = (if includes k cs then g else truthy (parentId n0))
                       /\ childIds n' = match g with
                                        | Some p => if p =? k then remove_first i (childIds n0 ++ cs)
                                                    else childIds n0
                                        | None => childIds n0
                                        end).
  { intros k n0 Hne Hk. destruct (F1 _ _ Hk) as (n1 & Hn1 & E1 & E2).
    rewrite Hs'. cbn [tabs with_tabs with_collapsedSet].
    rewrite tabs_get_delete_other by congruence. unfold s2.
    destruct g as [p|]; cbn [tabs with_tabs with_roots].
    - rewrite tabs_get_modify, Hn1. destruct (String.eqb_spec p k) as [<-|Hpk]; simpl.
      + eexists. split; [reflexivity|]. split; [exact E1|]. simpl. now rewrite E2.
      + exists n1. split; [reflexivity|]. split; [exact E1|]. now rewrite E2, app_nil_r.
    - exists n1. split; [exact Hn1|]. split; [exact E1|]. now rewrite E2, app_nil_r. }
  assert (Hgone : tabs_get i (tabs s') = None).
  { apply tabs_get_None. rewrite Ks'. apply remove_first_NoDup. apply (lk_keys s L). }
  assert (Bs' : forall k n', tabs_get k (tabs s') = Some n' ->
            k <> i /\ exists n0, tabs_get k (tabs s) = Some n0
                       /\ truthy (parentId n') = (if includes k cs then g else truthy (parentId n0))
                       /\ childIds n' = match g with
                                        | Some p => if p =? k then remove_first i (childIds n0 ++ cs)
                                                    else childIds n0
                                        | None => childIds n0
                                        end).
  { intros k n' Hk. assert (Hne : k <> i) by (intros ->; congruence). split; [exact Hne|].
    assert (Hin : In k (keys (tabs s))).
    { apply (remove_first_In i). rewrite <- Ks'. apply tabs_get_In. congruence. }
    apply tabs_get_In in Hin. destruct (tabs_get k (tabs s)) as [n0|] eqn:Hk0; [|congruence].
    destruct (Fs' _ _ Hne Hk0) as (n2 & Hn2 & E). rewrite Hk in Hn2. injection Hn2 as <-. eauto. }
  (* the lists a child of the removed node is not in *)
  assert (Hdisj : forall p pn c, tabs_get p (tabs s) = Some pn -> p <> i ->
                                 In c (childIds pn) -> In c cs -> False).
  { intros p pn c Hp Hne Hc1 Hc2. destruct (Hkid _ Hc2) as (cn & Hcn & Hpar).
    destruct (lk_down s L _ _ _ Hp Hc1) as (cn' & Hcn' & Hpar'). congruence. }
  assert (Hnd_rc : NoDup (roots s ++ cs)).
  { apply NoDup_app_disjoint; [apply (lk_roots s L) | apply (lk_children s L _ _ Hi) |].
    intros x Hx1 Hx2. exact (Hnoroot _ Hx2 Hx1). }
  assert (Hmember : forall k l, k <> i -> In k l -> In k (remove_first i l)).
  { intros k l Hne Hin. now apply remove_first_other. }
  split.
  - constructor.
    + rewrite Ks'. apply remove_first_NoDup_keep. apply (lk_keys s L).
    + rewrite Rs'. destruct g; [apply (lk_roots s L) | now apply remove_first_NoDup_keep].
    + intros k n' Hk. destruct (Bs' _ _ Hk) as (Hne & n0 & Hk0 & _ & ->).
      pose proof (lk_children s L _ _ Hk0) as Hnd0.
      destruct g as [p|]; [|exact Hnd0]. destruct (String.eqb_spec p k) as [->|]; [|exact Hnd0].
      apply remove_first_NoDup_keep.
      apply NoDup_app_disjoint; [exact Hnd0 | apply (lk_children s L _ _ Hi) |].
      intros x Hx1 Hx2. exact (Hdisj _ _ _ Hk0 Hne Hx1 Hx2).
    + intros k n' Hk. destruct (Bs' _ _ Hk) as (Hne & n0 & Hk0 & -> & _).
      destruct (includes k cs) eqn:Hkc.
      * apply includes_In in Hkc. destruct g as [p|] eqn:Eg.
        -- pose proof (lk_up s L _ _ Hi) as Hup. fold g in Hup. rewrite Eg in Hup.
           destruct Hup as (pn & Hp & _).
           assert (Hpi : p <> i) by (intros ->; now apply Hgi).
           destruct (Fs' _ _ Hpi Hp) as (pn' & Hp' & _ & E). exists pn'. split; [exact Hp'|].
           rewrite E, String.eqb_refl. apply Hmember; [exact Hne|]. apply in_or_app. now right.
        -- rewrite Rs'. apply Hmember; [exact Hne|]. apply in_or_app. now right.
      * pose proof (lk_up s L _ _ Hk0) as Hup. destruct (truthy (parentId n0)) as [q|].
        -- destruct Hup as (qn & Hq & Hin).
           assert (Hqi : q <> i).
           { intros ->. rewrite Hi in Hq. injection Hq as <-.
             apply includes_false in Hkc. contradiction. }
           destruct (Fs' _ _ Hqi Hq) as (qn' & Hq' & _ & E). exists qn'. split; [exact Hq'|].
           rewrite E. destruct g as [p|]; [|exact Hin].
           destruct (p =? q); [|exact Hin]. apply Hmember; [exact Hne|]. apply in_or_app. now left.
        -- rewrite Rs'. destruct g; [exact Hup|]. apply Hmember; [exact Hne|].
           apply in_or_app. now left.
    + intros r Hr. rewrite Rs' in Hr.
      assert (Hr' : r <> i /\ (In r (roots s) \/ (g = None /\ In r cs))).
      { destruct g as [p|] eqn:Eg.
        - split; [|now left]. intros ->. destruct (lk_root s L _ Hr) as (n & Hn & Hp).
          rewrite Hi in Hn. injection Hn as <-. fold g in Hp. congruence.
        - split.
          + intros ->. revert Hr. now apply remove_first_NoDup.
          + apply remove_first_In in Hr. apply in_app_or in Hr. tauto. }
      destruct Hr' as [Hne [Hin|[Eg Hin]]].
      * destruct (lk_root s L _ Hin) as (n0 & Hk0 & Hp).
        destruct (Fs' _ _ Hne Hk0) as (n' & Hn' & E & _). exists n'. split; [exact Hn'|].
        rewrite E. destruct (includes r cs) eqn:Hrc; [|exact Hp].
        apply includes_In in Hrc. exfalso. exact (Hnoroot _ Hrc Hin).
      * destruct (Hkid _ Hin) as (cn & Hcn & _).
        destruct (Fs' _ _ Hne Hcn) as (n' & Hn' & E & _). exists n'. split; [exact Hn'|].
        rewrite E. apply includes_In in Hin. now rewrite Hin.
    + intros q qn' c Hq Hin. destruct (Bs' _ _ Hq) as (Hqi & qn & Hqn & _ & E).
      rewrite E in Hin.
      assert (Hc : c <> i /\ ((In c (childIds qn) /\ ~ In c cs) \/ (g = Some q /\ In c cs))).
      { assert (Hold : In c (childIds qn) -> c <> i /\ In c (childIds qn) /\ ~ In c cs).
        { intros Hc0. split; [|split; [exact Hc0|]].
          - intros ->. destruct (lk_down s L _ _ _ Hqn Hc0) as (cn & Hcn & Hp).
            rewrite Hi in Hcn. injection Hcn as <-. fold g in Hp.
            pose proof (lk_up s L _ _ Hi) as Hup. fold g in Hup. rewrite Hp in Hup.
            (* then [q] would be the parent of [i], whose list has lost [i] *)
            rewrite Hp in E. rewrite String.eqb_refl in E.
            rewrite Hp, String.eqb_refl in Hin. revert Hin. apply remove_first_NoDup.
            apply NoDup_app_disjoint;
              [apply (lk_children s L _ _ Hqn) | apply (lk_children s L _ _ Hi) |].
            intros x Hx1 Hx2. exact (Hdisj _ _ _ Hqn Hqi Hx1 Hx2).
          - intros Hc2. exact (Hdisj _ _ _ Hqn Hqi Hc0 Hc2). }
        destruct g as [p|] eqn:Eg; [|destruct (Hold Hin) as (H1 & H2 & H3); auto].
        destruct (String.eqb_spec p q) as [->|Hpq]; [|destruct (Hold Hin) as (H1 & H2 & H3); auto].
        assert (Hci : c <> i).
        { intros ->. revert Hin. apply remove_first_NoDup.
          apply NoDup_app_disjoint;
            [apply (lk_children s L _ _ Hqn) | apply (lk_children s L _ _ Hi) |].
          intros x Hx1 Hx2. exact (Hdisj _ _ _ Hqn Hqi Hx1 Hx2). }
        split; [exact Hci|]. apply remove_first_In in Hin. apply in_app_or in Hin.
        destruct Hin as [Hin|Hin]; [left | right; auto].
        split; [exact Hin|]. intros Hc2. exact (Hdisj _ _ _ Hqn Hqi Hin Hc2). }
      destruct Hc as [Hci [[Hc0 Hnc]|[Eg Hcs]]].
      * destruct (lk_down s L _ _ _ Hqn Hc0) as (cn & Hcn & Hp).
        destruct (Fs' _ _ Hci Hcn) as (cn' & Hcn' & E' & _). exists cn'. split; [exact Hcn'|].
        rewrite E'. apply includes_false in Hnc. now rewrite Hnc.
      * destruct (Hkid _ Hcs) as (cn & Hcn & _).
        destruct (Fs' _ _ Hci Hcn) as (cn' & Hcn' & E' & _). exists cn'. split; [exact Hcn'|].
        rewrite E'. apply includes_In in Hcs. now rewrite Hcs.
  - intros k n' p Hk Hp Hhas. destruct (Bs' _ _ Hk) as (Hne & n0 & Hk0 & E & _).
    rewrite E in Hp.
    assert (Hhas0 : tabs_has p (tabs s) = true).
    { apply tabs_has_In. apply (remove_first_In i). rewrite <- Ks'. now apply tabs_has_In. }
    destruct (includes k cs) eqn:Hkc.
    + apply includes_In in Hkc. destruct (Hkid _ Hkc) as (cn & Hcn & Hpar).
      rewrite Hk0 in Hcn. injection Hcn as <-.
      assert (Hlt1 : depth i < depth k).
      { apply (Hrank k n0 i Hk0 Hpar). unfold tabs_has. now rewrite Hi. }
      assert (Hlt2 : depth p < depth i) by exact (Hrank i node p Hi Hp Hhas0).
      lia.
    + exact (Hrank k n0 p Hk0 Hp Hhas0).
Qed.

(** ** The forest invariant *)

Lemma insertNode_ranked node depth s :
  linked s -> ranked (tabs s) depth -> tabs_has (id node) (tabs s) = false ->
  exists depth', ranked (tabs (insertNode node s)) depth'.
Proof.
  intros L Hr Hfresh. set (i := id node) in *.
  assert (Hold : forall k n, tabs_get k (tabs s) = Some n -> i <> k).
  { intros k n Hk ->. unfold tabs_has in Hfresh. now rewrite Hk in Hfresh. }
  (* every node but the new one keeps its parent, and names a node that was there *)
  assert (Hgen : forall m' node' d,
            (forall k, tabs_get k m' = if i =? k then Some node'
                                       else option_map (fun n => set_childIds (childIds n ++ d k) n)
                                              (tabs_get k (tabs s))) ->
            (forall p, truthy (parentId node') = Some p -> tabs_has p (tabs s) = true) ->
            exists depth', ranked m' depth').
  { intros m' node' d Hget Hpar.
    exists (fun x => if x =? i
                     then match truthy (parentId node') with Some p => depth p + 1 | None => 0 end
                     else depth x).
    intros k n' q Hk Hq Hhas. rewrite Hget in Hk.
    destruct (String.eqb_spec i k) as [<-|Hne].
    - injection Hk as <-. rewrite Hq, String.eqb_refl.
      pose proof (Hpar _ Hq) as Hp. unfold tabs_has in Hp.
      destruct (tabs_get q (tabs s)) as [qn|] eqn:Hqn; [|discriminate].
      destruct (String.eqb_spec q i) as [->|_]; [exfalso; now apply (Hold _ _ Hqn)|]. lia.
    - destruct (tabs_get k (tabs s)) as [n|] eqn:Hn; [|discriminate]. injection Hk as <-.
      cbn [parentId set_childIds] in Hq.
      pose proof (lk_up s L _ _ Hn) as Hup. rewrite Hq in Hup. destruct Hup as (qn & Hqn & _).
      destruct (String.eqb_spec k i); [congruence|].
      destruct (String.eqb_spec q i) as [->|_]; [exfalso; now apply (Hold _ _ Hqn)|].
      apply (Hr k n q Hn Hq). unfold tabs_has. now rewrite Hqn. }
  assert (Hroot : exists depth',
            ranked (tabs (with_tabs (tabs_set i (set_parentId None node))
                            (with_roots (fun r => push r i) s))) depth').
  { apply (Hgen _ (set_parentId None node) (fun _ => [])).
    - intros k. cbn [tabs with_tabs with_roots].
      destruct (String.eqb_spec i k) as [<-|Hne]; [apply tabs_get_set_same|].
      rewrite tabs_get_set_other by exact Hne.
      destruct (tabs_get k (tabs s)) as [[]|]; simpl; [now rewrite app_nil_r | reflexivity].
    - discriminate. }
  unfold insertNode. fold i.
  destruct (truthy (parentId node)) as [p|] eqn:Ep; [|exact Hroot].
  destruct (tabs_get p (tabs s)) as [pn|] eqn:Hp; [|exact Hroot].
  apply (Hgen _ (set_level (level pn + 1) node) (fun k => if p =? k then [i] else [])).
  - intros k. cbn [tabs with_tabs].
    destruct (String.eqb_spec i k) as [<-|Hne]; [apply tabs_get_set_same|].
    rewrite tabs_get_set_other by exact Hne. rewrite tabs_get_modify.
    destruct (p =? k); destruct (tabs_get k (tabs s)) as [[]|]; simpl;
      try reflexivity; now rewrite app_nil_r.
  - cbn [parentId set_level]. intros q Hq. rewrite Ep in Hq. injection Hq as <-.
    unfold tabs_has. now rewrite Hp.
Qed.

Lemma tended_reachable s : tended s -> cleanly_reachable s.
Proof.
  induction 1.
  - apply clean_empty.
  - now apply clean_addTab.
  - now apply clean_createGroup.
  - now apply clean_renameNode.
  - apply (clean_removeNode s fuel i true s'); [assumption|].
    match goal with H : _ = Done _ |- _ => now rewrite H end.
  - now apply (clean_attachTabTo s fuel i p s').
  - now apply clean_toggleCollapsed.
  - now apply clean_collapseAll.
  - now apply clean_expandAll.
  - now apply clean_moveUp.
  - now apply clean_moveDown.
  - now apply clean_onTabSelected.
  - now apply clean_resetAllToRoot.
Qed.

(** X1.  Every state reached from the empty tree by creating nodes under new
    ids, moving them under nodes of the store or to the roots, removing
    them with promotion, renaming, reordering, collapsing, selecting and
    resetting is a forest: each node is a root or a child of the one node
    it names as parent, no list names a node twice, and no node is its own
    ancestor. *)
Theorem tended_states_are_forests :
  forall s, tended s -> forest s /\ forall n k, ~ chain (tabs s) n k k.
Proof.
  assert (Hmain : forall s, tended s -> forest s).
  { induction 1 as [ | s i ttl ty p Ht IH Hf | s gid ttl p Ht IH Hf | s i ttl Ht IH
                     | s fuel i s' Ht IH Hc | s fuel i p s' Ht IH Hok Hc
                     | s h i Ht IH | s Ht IH | s Ht IH | s i Ht IH | s i Ht IH | s ids Ht IH
                     | s Ht IH ].
    - split; [apply linked_empty|]. exists (fun _ => 0). intros k n p Hk. discriminate.
    - destruct IH as (L & depth & Hr). split.
      + now apply insertNode_linked.
      + exact (insertNode_ranked (mkTabNode i p [] 0 false ttl ty TabKind false) depth s L Hr Hf).
    - destruct IH as (L & depth & Hr). split.
      + now apply insertNode_linked.
      + exact (insertNode_ranked (mkTabNode gid p [] 0 false ttl "group" GroupKind false)
                 depth s L Hr Hf).
    - destruct IH as (L & depth & Hr). pose proof (renameNode_links i ttl s) as Hs. split.
      + exact (linked_same_links _ _ L Hs).
      + exists depth. exact (ranked_same_links _ _ _ Hr Hs).
    - destruct IH as (L & depth & Hr).
      destruct (removal_keeps_forest fuel i depth s s' L Hr Hc) as [L' Hr'].
      split; [exact L' | eauto].
    - destruct IH as (L & depth & Hr). split.
      + exact (attachTabTo_linked fuel i p s s' L Hok Hc).
      + exact (attachTabTo_ranked fuel i p depth s s' L Hr Hok Hc).
    - destruct IH as (L & depth & Hr). pose proof (toggleCollapsed_links h i s) as Hs. split.
      + exact (linked_same_links _ _ L Hs).
      + exists depth. exact (ranked_same_links _ _ _ Hr Hs).
    - destruct IH as (L & depth & Hr). pose proof (collapseAll_links s) as Hs. split.
      + exact (linked_same_links _ _ L Hs).
      + exists depth. exact (ranked_same_links _ _ _ Hr Hs).
    - destruct IH as (L & depth & Hr). pose proof (expandAll_links s) as Hs. split.
      + exact (linked_same_links _ _ L Hs).
      + exists depth. exact (ranked_same_links _ _ _ Hr Hs).
    - destruct IH as (L & depth & Hr). split.
      + exact (proj1 (moves_linked i s L)).
      + exists depth. apply (reordered_ranked depth s); [exact Hr|].
        apply moveUp_reordered.
    - destruct IH as (L & depth & Hr). split.
      + exact (proj2 (moves_linked i s L)).
      + exists depth. intros k n' q Hk Hq Hhas.
        assert (Hk0 : exists n, tabs_get k (tabs s) = Some n /\ parentId n' = parentId n).
        { unfold moveDown, moveWith in Hk. destruct (tabs_get i (tabs s)) as [tab|]; [|eauto].
          destruct (truthy (parentId tab)) as [p|]; [|eauto].
          cbn [tabs with_tabs] in Hk. rewrite tabs_get_modify in Hk.
          destruct (p =? k); [|eauto]. destruct (tabs_get k (tabs s)) as [n|]; [|discriminate].
          injection Hk as <-. eauto. }
        destruct Hk0 as (n & Hn & E). apply (Hr k n q Hn); [congruence|].
        unfold tabs_has in *. unfold moveDown, moveWith in Hhas.
        destruct (tabs_get i (tabs s)) as [tab|]; [|exact Hhas].
        destruct (truthy (parentId tab)) as [p|]; [|exact Hhas].
        cbn [tabs with_tabs] in Hhas. rewrite tabs_get_modify in Hhas.
        destruct (p =? q); [|exact Hhas]. now destruct (tabs_get q (tabs s)).
    - destruct IH as (L & depth & Hr). pose proof (onTabSelected_links ids s) as Hs. split.
      + exact (linked_same_links _ _ L Hs).
      + exists depth. exact (ranked_same_links _ _ _ Hr Hs).
    - destruct (flags_inv_cleanly_reachable s (tended_reachable s Ht)) as (Hnd & Hok & _).
      destruct (resetAllToRoot_linked s Hnd Hok) as [L' Hr']. split; [exact L' | eauto]. }
  intros s Ht. pose proof (Hmain s Ht) as Hf. split; [exact Hf|].
  destruct Hf as (_ & depth & Hr). exact (ranked_no_cycle _ _ Hr).
Qed.

Lemma tended_states_are_forests_witness :
  forest staleStore /\ forall n k, ~ chain (tabs staleStore) n k k.
Proof.
  apply tended_states_are_forests.
  change staleStore
    with (toggleCollapsed quietHost "old1"
            (addTab "y" "Notes" "reader" (Some "old1")
               (addTab "old1" "Paper.pdf" "reader" None emptyTree))).
  apply tend_toggleCollapsed.
  apply tend_addTab; [|reflexivity].
  apply tend_addTab; [|reflexivity].
  apply tend_empty.
Defined.

(** ** Call depth on forests *)

Lemma forest_down_ranked s depth : linked s -> ranked (tabs s) depth -> down_ranked (tabs s) depth.
Proof.
  intros L Hr p pn c Hp Hin Hc. destruct (lk_down s L _ _ _ Hp Hin) as (cn & Hcn & Hpar).
  apply (Hr c cn p Hcn Hpar). unfold tabs_has. now rewrite Hp.
Qed.

Lemma down_ranked_same_links depth s s' :
  down_ranked (tabs s) depth -> same_links s s' -> down_ranked (tabs s') depth.
Proof.
  intros Hd Hs p pn' c Hp Hin Hc. destruct Hs as (K & R & Lk).
  destruct (same_links_get _ _ _ _ (conj K (conj R Lk)) Hp) as (pn & Hpn & E).
  apply links_fields in E. destruct E as [_ E]. rewrite E in Hin.
  apply (Hd p pn c Hpn Hin). apply tabs_has_In. rewrite <- K. now apply tabs_has_In.
Qed.

Lemma above_step depth m path i c :
  above depth m path i -> tabs_has i m = true -> depth i < depth c ->
  above depth m (i :: path) c.
Proof.
  intros (Hnd & Hincl & Hlt) Hi Hic. split; [|split].
  - constructor; [|exact Hnd]. intros Hin. specialize (Hlt _ Hin). lia.
  - intros x [<-|Hx]; [now apply tabs_has_In | now apply Hincl].
  - intros x [<-|Hx]; [exact Hic|]. specialize (Hlt _ Hx). lia.
Qed.

Lemma above_length depth m path i :
  above depth m path i -> List.length path <= List.length (keys m).
Proof. intros (Hnd & Hincl & _). now apply NoDup_incl_length. Qed.

Lemma for_of_returns (Inv : TreeData -> Prop) body xs :
  (forall x s, In x xs -> Inv s -> exists s', body x s = Done s' /\ Inv s') ->
  forall s, Inv s -> exists s', for_of xs body s = Done s' /\ Inv s'.
Proof.
  induction xs as [|x xs IH]; intros Hbody s Hs; simpl.
  - eauto.
  - destruct (Hbody x s (or_introl eq_refl) Hs) as (s1 & E & H1). rewrite E. simpl.
    apply IH; [|exact H1]. intros y s0 Hy. apply Hbody. now right.
Qed.

(** With more call depth than the store has nodes, [updateChildLevels]
    returns on a store whose child lists lead downwards. *)
Lemma updateChildLevels_returns depth s0 :
  down_ranked (tabs s0) depth ->
  forall fuel i path s,
    same_links s0 s -> above depth (tabs s0) path i ->
    List.length (keys (tabs s0)) < fuel + List.length path ->
    exists s', updateChildLevels fuel i s = Done s' /\ same_links s0 s'.
Proof.
  intros Hd. induction fuel as [|fuel IH]; intros i path s Hs Hab Hlen.
  - pose proof (above_length _ _ _ _ Hab). simpl in Hlen. lia.
  - simpl. destruct (tabs_get i (tabs s)) as [parent|] eqn:Hi; [|eauto].
    apply (for_of_returns (same_links s0)); [|exact Hs].
    intros c cur Hc Hcur. destruct (tabs_get c (tabs cur)) as [cn|] eqn:Hcn; [|eauto].
    assert (Hi0 : tabs_has i (tabs s0) = true).
    { apply tabs_has_In. destruct Hs as (K & _). rewrite <- K. apply tabs_get_In. congruence. }
    assert (Hc0 : tabs_has c (tabs s0) = true).
    { apply tabs_has_In. destruct Hcur as (K & _). rewrite <- K. apply tabs_get_In. congruence. }
    assert (Hlt : depth i < depth c).
    { destruct (same_links_get _ _ _ _ Hs Hi) as (p0 & Hp0 & E).
      apply links_fields in E. destruct E as [_ E]. rewrite E in Hc.
      exact (Hd i p0 c Hp0 Hc Hc0). }
    apply (IH c (i :: path)).
    + eapply same_links_trans; [exact Hcur|]. now apply same_links_modify.
    + now apply above_step.
    + simpl. lia.
Qed.

Lemma above_nil depth m i : above depth m [] i.
Proof. split; [constructor|]. split; [intros x [] | intros x []]. Qed.

Lemma recalculateLevels_returns depth s fuel :
  down_ranked (tabs s) depth -> List.length (keys (tabs s)) < fuel ->
  exists s', recalculateLevels fuel s = Done s' /\ same_links s s'.
Proof.
  intros Hd Hlen. unfold recalculateLevels.
  apply (for_of_returns (same_links s)); [|apply same_links_refl].
  intros r cur _ Hcur. destruct (tabs_get r (tabs cur)); [|eauto].
  apply (updateChildLevels_returns depth s Hd fuel r []).
  - eapply same_links_trans; [exact Hcur|]. now apply same_links_modify.
  - apply above_nil.
  - simpl. lia.
Qed.

Lemma descend_each_returns (f : string -> option (list string)) cs :
  (forall c, In c cs -> exists ds, f c = Some ds) -> exists r, descend_each f cs = Some r.
Proof.
  induction cs as [|c cs IH]; intros H; simpl; [eauto|].
  destruct (H c (or_introl eq_refl)) as (ds & ->).
  destruct IH as (r & ->); [intros; apply H; now right|]. eauto.
Qed.

Lemma getDescendants_returns depth m :
  down_ranked m depth ->
  forall fuel i path,
    above depth m path i -> List.length (keys m) < fuel + List.length path ->
    exists ds, getDescendants fuel i m = Some ds.
Proof.
  intros Hd. induction fuel as [|fuel IH]; intros i path Hab Hlen.
  - pose proof (above_length _ _ _ _ Hab). simpl in Hlen. lia.
  - rewrite getDescendants_step. destruct (tabs_get i m) as [node|] eqn:Hi; [|eauto].
    apply descend_each_returns. intros c Hc.
    destruct (tabs_get c m) as [cn|] eqn:Hcn.
    + apply (IH c (i :: path)).
      * apply above_step; [exact Hab | unfold tabs_has; now rewrite Hi |].
        apply (Hd i node c Hi Hc). unfold tabs_has. now rewrite Hcn.
      * simpl. lia.
    + destruct fuel as [|fuel']; [|rewrite getDescendants_step, Hcn; eauto].
      (* no depth left: the path already holds every node of the store *)
      exfalso. pose proof (above_length _ _ _ _ Hab) as Hl.
      assert (Hi' : In i (keys m)) by (apply tabs_get_In; congruence).
      destruct Hab as (Hnd & Hincl & Hdepth).
      assert (Hnd' : NoDup (i :: path)).
      { constructor; [|exact Hnd]. intros Hin. specialize (Hdepth _ Hin). lia. }
      assert (Hincl' : incl (i :: path) (keys m)).
      { intros x [<-|Hx]; auto. }
      pose proof (NoDup_incl_length Hnd' Hincl'). simpl in *. lia.
Qed.

Lemma attachTabTo_returns fuel tabId newParentId depth s :
  linked s -> ranked (tabs s) depth -> parent_ok tabId newParentId s ->
  List.length (keys (tabs s)) < fuel ->
  exists s', attachTabTo fuel tabId newParentId s = Done s'.
Proof.
  intros L Hr Hnp Hlen. unfold attachTabTo.
  destruct (tabs_get tabId (tabs s)) as [tab|] eqn:Htab; [|eauto].
  pose proof (forest_down_ranked s depth L Hr) as Hd.
  assert (Hupd : forall np s3 depth',
            moved tabId tab np s s3 -> linked s3 -> ranked (tabs s3) depth' ->
            exists s', updateChildLevels fuel tabId s3 = Done s').
  { intros np s3 depth' M L3 Hr3.
    destruct (updateChildLevels_returns depth' s3 (forest_down_ranked s3 depth' L3 Hr3)
                fuel tabId [] s3) as (s' & E & _).
    - apply same_links_refl.
    - apply above_nil.
    - destruct M as (K & _). rewrite K. simpl. lia.
    - eauto. }
  unfold parent_ok in Hnp. destruct (truthy newParentId) as [np|] eqn:Hnew.
  - destruct Hnp as [Hne Hhas].
    destruct (getDescendants_returns depth (tabs s) Hd fuel tabId [] (above_nil _ _ _))
      as (ds & Hds); [simpl; lia|].
    rewrite Hds. destruct (includes np ds) eqn:Hinc; [eauto|].
    unfold tabs_has in Hhas. destruct (tabs_get np (tabs s)) as [npn|] eqn:Hnpn; [|discriminate].
    destruct (relink_under tabId tab newParentId np npn s Htab Hnew Hne Hnpn) as (lv & E & M).
    cbv zeta in E. rewrite E.
    assert (Hok : match Some np with
                  | Some p => p <> tabId /\ tabs_has p (tabs s) = true
                  | None => True
                  end).
    { split; [exact Hne|]. unfold tabs_has. now rewrite Hnpn. }
    apply (Hupd (Some np) _ (depth_after_move depth tabId ds np) M).
    + exact (moved_linked tabId tab (Some np) s _ L Htab Hok M).
    + exact (moved_ranked tabId tab np fuel ds depth s _ L Hr Htab Hne Hds Hinc M).
  - pose proof (relink_root tabId tab newParentId s Htab Hnew) as M. cbv zeta in M.
    apply (Hupd None _ depth M).
    + exact (moved_linked tabId tab None s _ L Htab I M).
    + exact (moved_to_roots_ranked tabId tab depth s _ Hr M).
Qed.

(** The promotion loop returns on a forest. *)
Lemma promotion_returns fuel i g node depth s :
  linked s -> ranked (tabs s) depth ->
  tabs_get i (tabs s) = Some node -> truthy (parentId node) = g ->
  List.length (keys (tabs s)) < fuel ->
  forall rest done cur,
    incl (done ++ rest) (childIds node) ->
    ~ In i (done ++ rest) ->
    (forall c, In c rest -> tabs_has c (tabs s) = true /\ ~ In c (roots s)) ->
    NoDup (done ++ rest) ->
    handed_over g done s cur ->
    exists s1, for_of rest (promoteChild fuel i) cur = Done s1.
Proof.
  intros L Hr Hi Hg Hlen. pose proof (forest_down_ranked s depth L Hr) as Hd.
  induction rest as [|c rest IH]; intros done cur Hsub Hid Hrest Hnd Hinv; [simpl; eauto|].
  destruct (Hrest c (or_introl eq_refl)) as [Hc Hcr].
  assert (Hci : c <> i).
  { intros ->. apply Hid. apply in_or_app. right. now left. }
  assert (Hcd : ~ In c done).
  { apply NoDup_remove_2 in Hnd. intros Hin. apply Hnd. apply in_or_app. now left. }
  assert (Hidone : ~ In i done).
  { intros Hin. apply Hid. apply in_or_app. now left. }
  (* one pass returns *)
  assert (Hstep : exists s2, promoteChild fuel i c cur = Done s2).
  { pose proof Hinv as (K & R & F).
    destruct (F _ _ Hi) as (ni & Hni & Epi & _).
    unfold tabs_has in Hc. destruct (tabs_get c (tabs s)) as [c0|] eqn:Hc0; [|discriminate].
    destruct (F _ _ Hc0) as (nc & Hnc & _).
    unfold promoteChild. rewrite Hnc, Hni.
    set (sa := with_tabs (modify c (fun x => set_level (level ni) (set_parentId (parentId ni) x)))
                 cur).
    assert (Hda : down_ranked (tabs sa) depth).
    { intros p pa c' Hp Hin Hhas. unfold sa in Hp, Hhas. cbn [tabs with_tabs] in Hp, Hhas.
      assert (Hc's : tabs_has c' (tabs s) = true).
      { apply tabs_has_In. rewrite <- K. apply tabs_has_In. unfold tabs_has in *.
        rewrite tabs_get_modify in Hhas. destruct (c =? c'); [|exact Hhas].
        now destruct (tabs_get c' (tabs cur)). }
      assert (Hp' : exists pc, tabs_get p (tabs cur) = Some pc /\ childIds pa = childIds pc).
      { rewrite tabs_get_modify in Hp. destruct (c =? p); [|eauto].
        destruct (tabs_get p (tabs cur)) as [pc|]; [|discriminate].
        injection Hp as <-. eauto. }
      destruct Hp' as (pc & Hpc & Ech). rewrite Ech in Hin.
      assert (Hp0 : exists p0, tabs_get p (tabs s) = Some p0).
      { assert (Hin0 : In p (keys (tabs s))) by (rewrite <- K; apply tabs_get_In; congruence).
        apply tabs_get_In in Hin0. destruct (tabs_get p (tabs s)); [eauto | congruence]. }
      destruct Hp0 as (p0 & Hp0). destruct (F _ _ Hp0) as (pc' & Hpc' & _ & E2).
      rewrite Hpc in Hpc'. injection Hpc' as <-. rewrite E2 in Hin.
      apply in_app_or in Hin. destruct Hin as [Hin|Hin]; [exact (Hd p p0 c' Hp0 Hin Hc's)|].
      destruct g as [gp|]; [|contradiction].
      destruct (String.eqb_spec gp p) as [->|]; [|contradiction].
      assert (Hkid : In c' (childIds node)).
      { apply Hsub. apply in_or_app. now left. }
      destruct (lk_down s L _ _ _ Hi Hkid) as (cn & Hcn & Hpar).
      assert (depth i < depth c').
      { apply (Hr c' cn i Hcn Hpar). unfold tabs_has. now rewrite Hi. }
      assert (depth p < depth i).
      { apply (Hr i node p Hi Hg). unfold tabs_has. now rewrite Hp0. }
      lia. }
    destruct (updateChildLevels_returns depth sa Hda fuel c [] sa) as (sb & Eu & _).
    - apply same_links_refl.
    - apply above_nil.
    - unfold sa. cbn [tabs with_tabs]. rewrite keys_modify, K. simpl. lia.
    - rewrite Eu. simpl. destruct (truthy (parentId ni)); eauto. }
  destruct Hstep as (s2 & Hs2). simpl. rewrite Hs2. simpl.
  apply (IH (done ++ [c]) s2).
  - now rewrite <- app_assoc.
  - now rewrite <- app_assoc.
  - intros c' Hc'. apply Hrest. now right.
  - now rewrite <- app_assoc.
  - exact (promoteChild_hands_over fuel i c g done node s cur s2 Hi Hg Hidone Hci Hc Hcr Hcd
             Hinv Hs2).
Qed.

Lemma removeNodeFromTree_returns fuel i promote depth s :
  linked s -> ranked (tabs s) depth -> List.length (keys (tabs s)) < fuel ->
  exists s', removeNodeFromTree fuel i promote s = Done s'.
Proof.
  intros L Hr Hlen. unfold removeNodeFromTree.
  destruct (tabs_get i (tabs s)) as [node|] eqn:Hi; [|eauto].
  destruct promote; [|simpl; eauto].
  assert (Hgi : truthy (parentId node) <> Some i).
  { intros Eg. assert (depth i < depth i); [|lia].
    apply (Hr i node i Hi Eg). unfold tabs_has. now rewrite Hi. }
  assert (Hkid : forall c, In c (childIds node) ->
            exists cn, tabs_get c (tabs s) = Some cn /\ truthy (parentId cn) = Some i).
  { intros c Hc. exact (lk_down s L _ _ _ Hi Hc). }
  destruct (promotion_returns fuel i (truthy (parentId node)) node depth s L Hr Hi eq_refl Hlen
              (childIds node) [] s) as (s1 & E1).
  - apply incl_refl.
  - simpl. intros Hin. destruct (Hkid _ Hin) as (cn & Hcn & Hp).
    rewrite Hi in Hcn. injection Hcn as <-. contradiction.
  - intros c Hc. destruct (Hkid _ Hc) as (cn & Hcn & Hp). split.
    + unfold tabs_has. now rewrite Hcn.
    + intros Hin. destruct (lk_root s L _ Hin) as (n & Hn & Hpn). congruence.
  - apply (lk_children s L _ _ Hi).
  - apply handed_over_start.
  - rewrite E1. simpl. destruct (truthy (parentId node)) as [p|]; [|simpl; eauto].
    destruct (String.eqb_spec p i) as [->|]; [exfalso; now apply Hgi|]. simpl. eauto.
Qed.

(** ** The display order on forests *)

Lemma above_present depth m path i :
  above depth m path i -> tabs_has i m = true -> S (List.length path) <= List.length (keys m).
Proof.
  intros (Hnd & Hincl & Hlt) Hi.
  apply (NoDup_incl_length (l := i :: path)).
  - constructor; [|exact Hnd]. intros Hin. specialize (Hlt _ Hin). lia.
  - intros x [<-|Hx]; [now apply tabs_has_In | now apply Hincl].
Qed.

Lemma root_of_grow fuel m i : root_of (grow fuel m i) = i.
Proof. now destruct fuel. Qed.

Lemma map_root_of_grow fuel m cs : map root_of (map (grow fuel m) cs) = cs.
Proof.
  induction cs as [|c cs IH]; simpl; [reflexivity|]. now rewrite root_of_grow, IH.
Qed.

Lemma max_bound (l : list nat) b : (forall x, In x l -> x <= b) -> fold_right Nat.max 0 l <= b.
Proof.
  induction l as [|x l IH]; simpl; intros H; [lia|].
  pose proof (H x (or_introl eq_refl)). specialize (IH (fun y Hy => H y (or_intror Hy))). lia.
Qed.

(** On a store whose child lists go down, [grow] with enough generations
    is the whole subtree. *)
Lemma grow_shaped depth m :
  down_ranked m depth ->
  (forall p pn c, tabs_get p m = Some pn -> In c (childIds pn) -> tabs_has c m = true) ->
  forall fuel i path,
    above depth m path i -> tabs_has i m = true ->
    List.length (keys m) < fuel + List.length path ->
    shaped m (grow fuel m i)
    /\ height (grow fuel m i) + List.length path <= List.length (keys m).
Proof.
  intros Hd Hkids. induction fuel as [|fuel IH]; intros i path Hab Hi Hlen.
  - pose proof (above_present _ _ _ _ Hab Hi). simpl in Hlen. lia.
  - pose proof (above_present _ _ _ _ Hab Hi) as Hpres.
    unfold tabs_has in Hi. destruct (tabs_get i m) as [n|] eqn:Hget; [|discriminate].
    assert (Hc : forall c, In c (childIds n) ->
              shaped m (grow fuel m c)
              /\ height (grow fuel m c) + S (List.length path) <= List.length (keys m)).
    { intros c Hin. pose proof (Hkids _ _ _ Hget Hin) as Hhas.
      apply (IH c (i :: path)).
      - apply above_step; [exact Hab | unfold tabs_has; now rewrite Hget |].
        exact (Hd _ _ _ Hget Hin Hhas).
      - exact Hhas.
      - simpl. lia. }
    cbn [grow shaped height]. rewrite Hget. split; [split|].
    + simpl. now rewrite map_root_of_grow.
    + apply all_map_Forall. apply Forall_forall. intros t Ht.
      apply in_map_iff in Ht. destruct Ht as (c & <- & Hin). exact (proj1 (Hc c Hin)).
    + assert (fold_right Nat.max 0 (map height (map (grow fuel m) (childIds n)))
              <= List.length (keys m) - S (List.length path)); [|lia].
      apply max_bound. intros x Hx. apply in_map_iff in Hx. destruct Hx as (t & <- & Ht).
      apply in_map_iff in Ht. destruct Ht as (c & <- & Hin).
      pose proof (proj2 (Hc c Hin)). lia.
Qed.

Lemma chain_pos m n d a : chain m n d a -> 1 <= n.
Proof. intros H. destruct H; lia. Qed.

Lemma chain_snoc m n k c cn i :
  chain m n k c -> tabs_get c m = Some cn -> truthy (parentId cn) = Some i ->
  tabs_has i m = true -> chain m (S n) k i.
Proof.
  intros Hc Hget Hp Hi. induction Hc as [d a nd Hd Hpd Ha | n d b a nd Hd Hpd Hc IH].
  - eapply chain_step; [exact Hd | exact Hpd |]. eapply chain_parent; eassumption.
  - eapply chain_step; [exact Hd | exact Hpd |]. now apply IH.
Qed.

(** Two walks up from the same node go the same way. *)
Lemma chain_split m n1 k a :
  chain m n1 k a ->
  forall n2 b, chain m n2 k b ->
    (n1 = n2 -> a = b) /\ (n1 < n2 -> chain m (n2 - n1) a b).
Proof.
  intros Hc. induction Hc as [d a nd Hd Hpd Ha | n d b1 a nd Hd Hpd Hc IH]; intros n2 b H2.
  - inversion H2 as [? ? nd' Hd' Hp' Hb | n' ? b' ? nd' Hd' Hp' Hc']; subst.
    + split; [intros _; congruence | lia].
    + pose proof (chain_pos _ _ _ _ Hc'). split; [lia|]. intros _.
      replace (S n' - 1) with n' by lia. congruence.
  - pose proof (chain_pos _ _ _ _ Hc).
    inversion H2 as [? ? nd' Hd' Hp' Hb | n' ? b' ? nd' Hd' Hp' Hc']; subst.
    + split; lia.
    + assert (b' = b1) by congruence. subst b'.
      destruct (IH _ _ Hc') as [E L]. split.
      * intros E'. apply E. lia.
      * intros L'. replace (S n' - S n) with (n' - n) by lia. apply L. lia.
Qed.

(** The nodes of [grow fuel m i] are [i] and nodes whose parent links lead
    up to [i]. *)
Lemma grow_under s :
  linked s ->
  forall fuel i k, In k (ids (grow fuel (tabs s) i)) ->
    k = i \/ exists n, chain (tabs s) n k i.
Proof.
  intros L. induction fuel as [|fuel IH]; intros i k Hin.
  - simpl in Hin. destruct Hin as [<-|[]]. now left.
  - cbn [grow ids] in Hin. destruct Hin as [<-|Hin]; [now left|]. right.
    destruct (tabs_get i (tabs s)) as [ni|] eqn:Hi; [|destruct Hin].
    apply in_flat_map in Hin. destruct Hin as (t & Ht & Hk).
    apply in_map_iff in Ht. destruct Ht as (c & <- & Hc).
    destruct (lk_down s L _ _ _ Hi Hc) as (cn & Hcn & Hp).
    assert (Hhas : tabs_has i (tabs s) = true) by (unfold tabs_has; now rewrite Hi).
    destruct (IH c k Hk) as [->|(n & Hch)].
    + exists 1. eapply chain_parent; eassumption.
    + exists (S n). eapply chain_snoc; eassumption.
Qed.

(** Nodes that are not above one another have no common node below. *)
Lemma under_apart m a b k :
  a <> b -> (forall n, ~ chain m n a b) -> (forall n, ~ chain m n b a) ->
  k = a \/ (exists n, chain m n k a) -> k = b \/ (exists n, chain m n k b) -> False.
Proof.
  intros Hne Hab Hba [->|(n1 & H1)] [E|(n2 & H2)].
  - now apply Hne.
  - exact (Hab _ H2).
  - subst k. exact (Hba _ H1).
  - destruct (Nat.lt_trichotomy n1 n2) as [Hlt|[E|Hlt]].
    + exact (Hab _ (proj2 (chain_split _ _ _ _ H1 _ _ H2) Hlt)).
    + apply Hne. exact (proj1 (chain_split _ _ _ _ H1 _ _ H2) E).
    + exact (Hba _ (proj2 (chain_split _ _ _ _ H2 _ _ H1) Hlt)).
Qed.

Lemma siblings_apart m depth p c1 c2 n1 n2 :
  ranked m depth ->
  tabs_get c1 m = Some n1 -> truthy (parentId n1) = Some p ->
  tabs_get c2 m = Some n2 -> truthy (parentId n2) = Some p ->
  tabs_has p m = true -> c1 <> c2 ->
  forall n, ~ chain m n c1 c2.
Proof.
  intros Hr H1 P1 H2 P2 Hp Hne n Hc.
  assert (Hup : chain m 1 c1 p) by (eapply chain_parent; eassumption).
  destruct (chain_split _ _ _ _ Hup _ _ Hc) as [E Hlt].
  pose proof (chain_pos _ _ _ _ Hc) as Hpos.
  destruct (Nat.eq_dec n 1) as [->|Hn].
  - specialize (E eq_refl). subst c2.
    apply (ranked_no_cycle m depth Hr 1 p). eapply chain_parent; eassumption.
  - assert (Hl : 1 < n) by lia. specialize (Hlt Hl).
    apply (ranked_no_cycle m depth Hr (S (n - 1)) p).
    eapply chain_snoc; eassumption.
Qed.

Lemma flat_map_map_ids (g : string -> tree) cs :
  flat_map ids (map g cs) = flat_map (fun c => ids (g c)) cs.
Proof. induction cs as [|c cs IH]; simpl; [reflexivity|]. now rewrite IH. Qed.

Lemma NoDup_flat_map (g : string -> list string) cs :
  NoDup cs -> (forall c, In c cs -> NoDup (g c)) ->
  (forall c1 c2 k, In c1 cs -> In c2 cs -> c1 <> c2 -> In k (g c1) -> In k (g c2) -> False) ->
  NoDup (flat_map g cs).
Proof.
  induction cs as [|c cs IH]; simpl; intros Hnd Hg Hdis; [constructor|].
  inversion Hnd as [|? ? Hc Hnd']; subst.
  apply NoDup_app_disjoint.
  - apply Hg. now left.
  - apply IH; [exact Hnd' | intros; apply Hg; now right |].
    intros c1 c2 k H1 H2. apply Hdis; now right.
  - intros k Hk Hk'. apply in_flat_map in Hk'. destruct Hk' as (c' & Hc' & Hk').
    apply (Hdis c c' k); auto. intros ->. contradiction.
Qed.

(** No node is met twice below [i]. *)
Lemma grow_NoDup depth s :
  linked s -> ranked (tabs s) depth ->
  forall fuel i, NoDup (ids (grow fuel (tabs s) i)).
Proof.
  intros L Hr. induction fuel as [|fuel IH]; intros i.
  - simpl. constructor; [intros [] | constructor].
  - cbn [grow ids]. destruct (tabs_get i (tabs s)) as [ni|] eqn:Hi;
      [|simpl; constructor; [intros [] | constructor]].
    assert (Hhas : tabs_has i (tabs s) = true) by (unfold tabs_has; now rewrite Hi).
    rewrite flat_map_map_ids. constructor.
    + intros Hin. apply in_flat_map in Hin. destruct Hin as (c & Hc & Hk).
      destruct (lk_down s L _ _ _ Hi Hc) as (cn & Hcn & Hp).
      destruct (grow_under s L _ _ _ Hk) as [->|(n & Hch)].
      * apply (ranked_no_cycle _ depth Hr 1 c). eapply chain_parent; eassumption.
      * apply (ranked_no_cycle _ depth Hr (S n) i). eapply chain_snoc; eassumption.
    + apply NoDup_flat_map.
      * exact (lk_children s L _ _ Hi).
      * intros c _. apply IH.
      * intros c1 c2 k Hc1 Hc2 Hne Hk1 Hk2.
        destruct (lk_down s L _ _ _ Hi Hc1) as (n1 & Hn1 & Hp1).
        destruct (lk_down s L _ _ _ Hi Hc2) as (n2 & Hn2 & Hp2).
        apply (under_apart (tabs s) c1 c2 k Hne).
        -- exact (siblings_apart _ depth i c1 c2 n1 n2 Hr Hn1 Hp1 Hn2 Hp2 Hhas Hne).
        -- apply (siblings_apart _ depth i c2 c1 n2 n1 Hr Hn2 Hp2 Hn1 Hp1 Hhas).
           intros E. now apply Hne.
        -- exact (grow_under s L _ _ _ Hk1).
        -- exact (grow_under s L _ _ _ Hk2).
Qed.

Lemma root_in_ids t : In (root_of t) (ids t).
Proof. destruct t. now left. Qed.

(** A tree that matches the child lists holds the children of its nodes. *)
Lemma shaped_closed m t :
  shaped m t ->
  forall p pn c, In p (ids t) -> tabs_get p m = Some pn -> In c (childIds pn) -> In c (ids t).
Proof.
  induction t as [i ks IH] using tree_rose_ind. intros Hsh p pn c Hp Hget Hc.
  destruct (shaped_get _ _ _ Hsh) as (n & Hi & Hkids).
  pose proof (shaped_kids _ _ _ Hsh) as Hshk.
  cbn [ids] in *. right. apply in_flat_map. destruct Hp as [<-|Hp].
  - assert (n = pn) by congruence. subst pn. rewrite Hkids in Hc.
    apply in_map_iff in Hc. destruct Hc as (t & <- & Ht).
    exists t. split; [exact Ht | apply root_in_ids].
  - apply in_flat_map in Hp. destruct Hp as (t & Ht & Hp). exists t. split; [exact Ht|].
    rewrite Forall_forall in IH, Hshk. exact (IH t Ht (Hshk t Ht) p pn c Hp Hget Hc).
Qed.

Lemma linked_children_present s :
  linked s ->
  forall p pn c, tabs_get p (tabs s) = Some pn -> In c (childIds pn) ->
                 tabs_has c (tabs s) = true.
Proof.
  intros L p pn c Hp Hc. destruct (lk_down s L _ _ _ Hp Hc) as (cn & Hcn & _).
  unfold tabs_has. now rewrite Hcn.
Qed.

(** The trees below the roots: they match the child lists, are no higher
    than the store is large, and hold every node exactly once. *)
Lemma forest_trees depth s fuel :
  linked s -> ranked (tabs s) depth -> List.length (keys (tabs s)) < fuel ->
  let F := map (grow fuel (tabs s)) (roots s) in
  map root_of F = roots s
  /\ Forall (shaped (tabs s)) F
  /\ Forall (fun t => height t <= fuel) F
  /\ NoDup (flat_map ids F)
  /\ (forall k, In k (flat_map ids F) <-> In k (keys (tabs s))).
Proof.
  intros L Hr Hlen F.
  pose proof (forest_down_ranked s depth L Hr) as Hd.
  pose proof (linked_children_present s L) as Hkids.
  assert (Hroot : forall r, In r (roots s) ->
            shaped (tabs s) (grow fuel (tabs s) r)
            /\ height (grow fuel (tabs s) r) + 0 <= List.length (keys (tabs s))).
  { intros r Hin. destruct (lk_root s L _ Hin) as (n & Hn & _).
    apply (grow_shaped depth (tabs s) Hd Hkids fuel r []).
    - apply above_nil.
    - unfold tabs_has. now rewrite Hn.
    - simpl. lia. }
  assert (Hin_keys : forall fuel' i k, tabs_has i (tabs s) = true ->
            In k (ids (grow fuel' (tabs s) i)) -> In k (keys (tabs s))).
  { intros fuel' i k Hi Hk. destruct (grow_under s L _ _ _ Hk) as [->|(n & Hch)].
    - now apply tabs_has_In.
    - apply tabs_get_In. destruct Hch; congruence. }
  split; [apply map_root_of_grow|]. split; [|split; [|split]].
  - apply Forall_forall. intros t Ht. apply in_map_iff in Ht. destruct Ht as (r & <- & Hin).
    exact (proj1 (Hroot r Hin)).
  - apply Forall_forall. intros t Ht. apply in_map_iff in Ht. destruct Ht as (r & <- & Hin).
    pose proof (proj2 (Hroot r Hin)). lia.
  - unfold F. rewrite flat_map_map_ids. apply NoDup_flat_map.
    + exact (lk_roots s L).
    + intros r _. apply (grow_NoDup depth s L Hr).
    + intros r1 r2 k H1 H2 Hne Hk1 Hk2.
      destruct (lk_root s L _ H1) as (n1 & Hn1 & Hp1).
      destruct (lk_root s L _ H2) as (n2 & Hn2 & Hp2).
      apply (under_apart (tabs s) r1 r2 k Hne).
      * intros n Hc. destruct Hc; congruence.
      * intros n Hc. destruct Hc; congruence.
      * exact (grow_under s L _ _ _ Hk1).
      * exact (grow_under s L _ _ _ Hk2).
  - intros k. unfold F. rewrite flat_map_map_ids. split.
    + intros Hin. apply in_flat_map in Hin. destruct Hin as (r & Hr' & Hk).
      destruct (lk_root s L _ Hr') as (n & Hn & _).
      apply (Hin_keys fuel r k); [unfold tabs_has; now rewrite Hn | exact Hk].
    + assert (Hcover : forall d k', depth k' <= d -> In k' (keys (tabs s)) ->
                In k' (flat_map (fun c => ids (grow fuel (tabs s) c)) (roots s))).
      { induction d as [|d IHd]; intros k' Hdk Hk';
          apply tabs_get_In in Hk';
          destruct (tabs_get k' (tabs s)) as [nk|] eqn:Hnk; try congruence;
          pose proof (lk_up s L _ _ Hnk) as Hup;
          destruct (truthy (parentId nk)) as [p|] eqn:Hp.
        - destruct Hup as (pn & Hpn & _).
          assert (depth p < depth k'); [|lia].
          apply (Hr _ _ _ Hnk Hp). unfold tabs_has. now rewrite Hpn.
        - apply in_flat_map. exists k'. split; [exact Hup|].
          rewrite <- (root_of_grow fuel (tabs s) k') at 1. apply root_in_ids.
        - destruct Hup as (pn & Hpn & Hkin).
          assert (Hlt : depth p < depth k').
          { apply (Hr _ _ _ Hnk Hp). unfold tabs_has. now rewrite Hpn. }
          assert (Hpin : In p (keys (tabs s))) by (apply tabs_get_In; congruence).
          specialize (IHd p ltac:(lia) Hpin).
          apply in_flat_map in IHd. destruct IHd as (r & Hr' & Hpr).
          apply in_flat_map. exists r. split; [exact Hr'|].
          exact (shaped_closed _ _ (proj1 (Hroot r Hr')) p pn k' Hpr Hpn Hkin).
        - apply in_flat_map. exists k'. split; [exact Hup|].
          rewrite <- (root_of_grow fuel (tabs s) k') at 1. apply root_in_ids. }
      intros Hk. exact (Hcover (depth k) k (le_n _) Hk).
Qed.

(** X23.  [getTabsInTreeOrder] on a forest returns, with call depth above the
    number of nodes, the node of every key of the store exactly once. *)
Theorem tree_order_lists_every_node_once :
  forall fuel s,
    forest s -> List.length (keys (tabs s)) < fuel ->
    exists order,
      getTabsInTreeOrder fuel s = Some (nodes_at (tabs s) order)
      /\ Permutation order (keys (tabs s)).
Proof.
  intros fuel s [L (depth & Hr)] Hlen.
  destruct (forest_trees depth s fuel L Hr Hlen) as (Hroots & Hsh & Hh & Hnd & Hin).
  exists (flat_map ids (map (grow fuel (tabs s)) (roots s))). split.
  - unfold getTabsInTreeOrder. rewrite <- Hroots at 1. now apply treeOrderFrom_shaped.
  - apply NoDup_Permutation; [exact Hnd | exact (lk_keys s L) | exact Hin].
Qed.

Lemma tree_order_lists_every_node_once_witness :
  exists order,
    getTabsInTreeOrder 8 familyStore = Some (nodes_at (tabs familyStore) order)
    /\ Permutation order (keys (tabs familyStore)).
Proof.
  apply tree_order_lists_every_node_once.
  - split; [apply linkedb_ok; reflexivity|].
    exists (fun k => level_of k (tabs familyStore)). apply rankedb_ok. reflexivity.
  - vm_compute. lia.
Defined.

Lemma visibleFrom_returns depth m :
  ranked m depth ->
  forall fuel current path,
    NoDup path -> incl path (keys m) ->
    (forall c, truthy current = Some c -> tabs_has c m = true ->
               forall x, In x path -> depth c < depth x) ->
    List.length (keys m) < fuel + List.length path ->
    exists b, visibleFrom fuel current m = Some b.
Proof.
  intros Hr. induction fuel as [|fuel IH]; intros current path Hnd Hincl Hlt Hlen.
  - pose proof (NoDup_incl_length Hnd Hincl). simpl in Hlen. lia.
  - simpl. destruct (truthy current) as [c|] eqn:Hc; [|eauto].
    destruct (tabs_get c m) as [parent|] eqn:Hp; [|eauto].
    destruct (collapsed parent); [eauto|].
    assert (Hhas : tabs_has c m = true) by (unfold tabs_has; now rewrite Hp).
    apply (IH (parentId parent) (c :: path)).
    + constructor; [|exact Hnd]. intros Hin. specialize (Hlt c eq_refl Hhas c Hin). lia.
    + intros x [<-|Hx]; [now apply tabs_has_In | now apply Hincl].
    + intros c' Hc' Hhas' x [<-|Hx].
      * exact (Hr _ _ _ Hp Hc' Hhas').
      * pose proof (Hr _ _ _ Hp Hc' Hhas'). specialize (Hlt c eq_refl Hhas x Hx). lia.
    + simpl. lia.
Qed.

(** X24.  On a forest no call runs deeper than the store is large: with call
    depth above the number of nodes, recomputing the levels, collecting
    descendants, the visibility test, a move under a node of the store (or
    to the roots) and a removal with or without promotion all return. *)
Theorem forest_calls_return :
  forall fuel s,
    forest s -> List.length (keys (tabs s)) < fuel ->
    (exists s', recalculateLevels fuel s = Done s')
    /\ (forall i, exists ds, getDescendants fuel i (tabs s) = Some ds)
    /\ (forall i, exists b, isTabVisible fuel i s = Some b)
    /\ (forall i p, parent_ok i p s -> exists s', attachTabTo fuel i p s = Done s')
    /\ (forall i promote, exists s', removeNodeFromTree fuel i promote s = Done s').
Proof.
  intros fuel s [L (depth & Hr)] Hlen.
  pose proof (forest_down_ranked s depth L Hr) as Hd.
  split; [|split; [|split; [|split]]].
  - destruct (recalculateLevels_returns depth s fuel Hd Hlen) as (s' & E & _). eauto.
  - intros i. apply (getDescendants_returns depth (tabs s) Hd fuel i []).
    + apply above_nil.
    + simpl. lia.
  - intros i. unfold isTabVisible. destruct (tabs_get i (tabs s)) as [tab|]; [|eauto].
    apply (visibleFrom_returns depth (tabs s) Hr fuel (parentId tab) []).
    + constructor.
    + intros x [].
    + intros c _ _ x [].
    + simpl. lia.
  - intros i p Hp. exact (attachTabTo_returns fuel i p depth s L Hr Hp Hlen).
  - intros i promote. exact (removeNodeFromTree_returns fuel i promote depth s L Hr Hlen).
Qed.

Lemma forest_calls_return_witness :
  (exists s', recalculateLevels 8 familyStore = Done s')
  /\ (forall i, exists ds, getDescendants 8 i (tabs familyStore) = Some ds)
  /\ (forall i, exists b, isTabVisible 8 i familyStore = Some b)
  /\ (forall i p, parent_ok i p familyStore -> exists s', attachTabTo 8 i p familyStore = Done s')
  /\ (forall i promote, exists s', removeNodeFromTree 8 i promote familyStore = Done s').
Proof.
  apply forest_calls_return.
  - split; [apply linkedb_ok; reflexivity|].
    exists (fun k => level_of k (tabs familyStore)). apply rankedb_ok. reflexivity.
  - vm_compute. lia.
Defined.

(** ** Reconciliation with the window *)

Lemma same_faces_refl s : same_faces s s.
Proof. intros k. reflexivity. Qed.

Lemma same_faces_trans s1 s2 s3 : same_faces s1 s2 -> same_faces s2 s3 -> same_faces s1 s3.
Proof. intros H1 H2 k. now rewrite H2, H1. Qed.

Lemma same_faces_modify k f s :
  (forall n, face (f n) = face n) -> same_faces s (with_tabs (modify k f) s).
Proof.
  intros Hf j. simpl. rewrite tabs_get_modify. destruct (k =? j); [|reflexivity].
  destruct (tabs_get j (tabs s)); simpl; [now rewrite Hf | reflexivity].
Qed.

Lemma face_get k m m' n :
  option_map face (tabs_get k m') = option_map face (tabs_get k m) ->
  tabs_get k m = Some n ->
  exists n', tabs_get k m' = Some n' /\ face n' = face n.
Proof.
  intros H Hk. rewrite Hk in H. destruct (tabs_get k m') as [n'|]; [|discriminate].
  exists n'. split; [reflexivity|].
  assert (E : Some (face n') = Some (face n)) by exact H. congruence.
Qed.

Lemma face_fields a b :
  face a = face b ->
  id a = id b /\ title a = title b /\ type a = type b /\ nodeType a = nodeType b
  /\ selected a = selected b /\ collapsed a = collapsed b.
Proof. unfold face. intros H. injection H. intros. repeat split; assumption. Qed.

Lemma updateChildLevels_faces fuel :
  forall i s s', carried (updateChildLevels fuel i s) = Some s' -> same_faces s s'.
Proof.
  induction fuel as [|fuel IH]; intros i s s' H; simpl in H.
  - injection H as <-. apply same_faces_refl.
  - destruct (tabs_get i (tabs s)) as [parent|]; [|injection H as <-; apply same_faces_refl].
    revert H. apply for_of_carried; [apply same_faces_refl | apply same_faces_trans |].
    intros c s0 s0' H0. destruct (tabs_get c (tabs s0)); [|injection H0 as <-; apply same_faces_refl].
    eapply same_faces_trans; [|apply (IH _ _ _ H0)].
    apply same_faces_modify. intros []. reflexivity.
Qed.

Lemma recalculateLevels_faces fuel s s' :
  carried (recalculateLevels fuel s) = Some s' -> same_faces s s'.
Proof.
  unfold recalculateLevels. apply for_of_carried; [apply same_faces_refl | apply same_faces_trans |].
  intros r s0 s0' H0.
  destruct (tabs_get r (tabs s0)); [|injection H0 as <-; apply same_faces_refl].
  eapply same_faces_trans; [|apply (updateChildLevels_faces _ _ _ _ H0)].
  apply same_faces_modify. intros []. reflexivity.
Qed.

Lemma promoteChild_faces fuel i c s s' :
  carried (promoteChild fuel i c s) = Some s' -> same_faces s s'.
Proof.
  unfold promoteChild. intros H.
  destruct (tabs_get c (tabs s)); [|injection H as <-; apply same_faces_refl].
  destruct (tabs_get i (tabs s)) as [node|]; [|injection H as <-; apply same_faces_refl].
  assert (Hup : forall s1,
            carried (updateChildLevels fuel c
                       (with_tabs (modify c (fun c0 => set_level (level node)
                                                         (set_parentId (parentId node) c0))) s))
            = Some s1 -> same_faces s s1).
  { intros s1 H1. eapply same_faces_trans; [|apply (updateChildLevels_faces _ _ _ _ H1)].
    apply same_faces_modify. intros []. reflexivity. }
  apply carried_bind in H. destruct H as [H|(s1 & H & H1)].
  - apply Hup. now rewrite H.
  - assert (H0 : same_faces s s1) by (apply Hup; now rewrite H).
    destruct (truthy (parentId node)); simpl in H1; injection H1 as <-.
    + eapply same_faces_trans; [exact H0|]. apply same_faces_modify. intros []. reflexivity.
    + destruct (includes c (roots s1)); [exact H0|]. exact H0.
Qed.

(** A removal leaves the faces of the other nodes alone. *)
Lemma removeNodeFromTree_faces fuel i promote s s' :
  carried (removeNodeFromTree fuel i promote s) = Some s' ->
  forall k, k <> i ->
    option_map face (tabs_get k (tabs s')) = option_map face (tabs_get k (tabs s)).
Proof.
  intros H. unfold removeNodeFromTree in H.
  destruct (tabs_get i (tabs s)) as [node|]; [|injection H as <-; reflexivity].
  assert (Hloop : forall s1,
            carried (if promote
                     then for_of (childIds node) (promoteChild fuel i) s >>= (fun s1 =>
                            match truthy (parentId node) with
                            | Some g =>
                                if (g =? i) && existsb (fun c => tabs_has c (tabs s)) (childIds node)
                                then Hang else Done s1
                            | None => Done s1
                            end)
                     else Done s) = Some s1 -> same_faces s s1).
  { intros s1 H1. destruct promote; [|injection H1 as <-; apply same_faces_refl].
    assert (Hfor : forall s2, carried (for_of (childIds node) (promoteChild fuel i) s) = Some s2 ->
                              same_faces s s2).
    { intros s2. apply for_of_carried; [apply same_faces_refl | apply same_faces_trans |].
      intros c s0 s0'. apply promoteChild_faces. }
    apply carried_bind in H1. destruct H1 as [H1|(s2 & H1 & H2)].
    - apply Hfor. now rewrite H1.
    - assert (same_faces s s2) by (apply Hfor; now rewrite H1).
      destruct (truthy (parentId node)) as [g|].
      + destruct ((g =? i) && existsb (fun c => tabs_has c (tabs s)) (childIds node));
          [discriminate | now injection H2 as <-].
      + now injection H2 as <-. }
  apply carried_bind in H. destruct H as [H|(s1 & H & H1)].
  - intros k _. apply Hloop. now rewrite H.
  - assert (H0 : same_faces s s1) by (apply Hloop; now rewrite H).
    simpl in H1. injection H1 as <-. intros k Hk. cbn [tabs with_tabs with_collapsedSet].
    rewrite tabs_get_delete_other by congruence. rewrite <- (H0 k).
    destruct (truthy (parentId node)); cbn [tabs with_tabs with_roots]; [|reflexivity].
    apply (same_faces_modify _ _ s1). intros []. reflexivity.
Qed.

(** A removal that returns takes the key out of the store. *)
Lemma removeNodeFromTree_gone fuel i promote s s' :
  NoDup (keys (tabs s)) -> removeNodeFromTree fuel i promote s = Done s' ->
  NoDup (keys (tabs s')) /\ tabs_get i (tabs s') = None.
Proof.
  intros Hnd H. rewrite (proj1 (removeNodeFromTree_keys fuel i promote s) s' H) in *.
  split; [now apply remove_first_NoDup_keep|].
  apply tabs_get_None. rewrite (proj1 (removeNodeFromTree_keys fuel i promote s) s' H).
  now apply remove_first_NoDup.
Qed.

(** The removal loop of [syncWithZoteroTabs], when it returns: the listed
    keys are out of the store, and the other nodes show the same face. *)
Lemma removal_loop fuel h xs :
  forall s s',
    NoDup (keys (tabs s)) -> for_of xs (removeTabFromTree fuel h) s = Done s' ->
    NoDup (keys (tabs s'))
    /\ (forall k, In k xs -> tabs_get k (tabs s') = None)
    /\ (forall k, ~ In k xs ->
          option_map face (tabs_get k (tabs s')) = option_map face (tabs_get k (tabs s))).
Proof.
  induction xs as [|x xs IH]; intros s s' Hnd H.
  - simpl in H. injection H as <-. split; [exact Hnd|]. split; [intros k []|reflexivity].
  - apply for_of_Done in H. destruct H as (s1 & H1 & Hrest). unfold removeTabFromTree in H1.
    destruct (removeNodeFromTree_gone _ _ _ _ _ Hnd H1) as [Hnd1 Hx].
    destruct (IH s1 s' Hnd1 Hrest) as (Hnd' & Hout & Hkeep).
    assert (Hx' : tabs_get x (tabs s') = None).
    { destruct (in_dec string_dec x xs) as [Hin|Hin]; [now apply Hout|].
      specialize (Hkeep x Hin). rewrite Hx in Hkeep.
      now destruct (tabs_get x (tabs s')). }
    split; [exact Hnd'|]. split.
    + intros k [<-|Hk]; [exact Hx' | now apply Hout].
    + intros k Hk. rewrite Hkeep by (intros Hin; apply Hk; now right).
      apply (removeNodeFromTree_faces _ _ _ _ _ ltac:(rewrite H1; reflexivity)).
      intros ->. apply Hk. now left.
Qed.

Lemma keys_tabs_set k v m :
  keys (tabs_set k v m) = if tabs_has k m then keys m else keys m ++ [k].
Proof.
  unfold tabs_has. induction m as [|[k' v'] m IH]; simpl; [reflexivity|].
  destruct (k =? k'); simpl; [reflexivity|]. rewrite IH.
  now destruct (tabs_get k m).
Qed.

Lemma NoDup_keys_tabs_set k v m : NoDup (keys m) -> NoDup (keys (tabs_set k v m)).
Proof.
  intros Hnd. rewrite keys_tabs_set. destruct (tabs_has k m) eqn:E; [exact Hnd|].
  apply NoDup_push; [exact Hnd | now apply tabs_has_false].
Qed.

Lemma applyMigration_faces mig s : same_faces s (applyMigration mig s).
Proof.
  destruct mig as [|e mig'] eqn:Emig; [apply same_faces_refl|].
  rewrite <- Emig. intros k.
  assert (Hm : tabs (applyMigration mig s)
               = map (fun e => (fst e, migrateChildren mig (migrateParent mig (snd e)))) (tabs s)).
  { rewrite Emig. reflexivity. }
  rewrite Hm, (tabs_get_map (fun n => migrateChildren mig (migrateParent mig n))).
  destruct (tabs_get k (tabs s)) as [n|]; [|reflexivity]. simpl. f_equal.
  unfold migrateChildren, migrateParent.
  destruct (truthy (parentId n)); [destruct (mig_get s0 mig)|]; now destruct n.
Qed.

Lemma reported_start h s0 :
  NoDup (keys (tabs s0)) -> keys_ok (tabs s0) -> reported h s0 [] (mkSyncAcc s0 [] []).
Proof.
  intros Hnd Hok. unfold reported. simpl.
  split; [exact Hnd|]. split; [exact Hok|]. split; [tauto|]. split; [intros zt []|]. auto.
Qed.

(** One round of the first pass. *)
Lemma reported_step h sel s0 done a zt :
  reported h s0 done a -> ~ In (zt_id zt) (map zt_id done) ->
  reported h s0 (done ++ [zt]) (syncTab h sel a zt).
Proof.
  intros (Hnd & Hok & Hids & Hdone & Hgrp) Hnew.
  set (z := zt_id zt) in *. set (m := tabs (acc_tree a)) in *.
  assert (Hids' : forall x, In x (set_add z (currentTabIds a)) <-> In x (map zt_id (done ++ [zt]))).
  { intros x. rewrite set_add_In, map_app, in_app_iff, Hids. simpl. fold z. intuition. }
  assert (Hseen : forall zt', In zt' done -> In (zt_id zt') (set_add z (currentTabIds a))
                                             /\ zt_id zt' <> z).
  { intros zt' Hin. assert (In (zt_id zt') (map zt_id done)) by now apply in_map. split.
    - apply set_add_In. right. now apply Hids.
    - intros E. apply Hnew. now rewrite <- E. }
  assert (Hout : forall k, ~ In k (map zt_id (done ++ [zt])) ->
                           ~ In k (map zt_id done) /\ k <> z).
  { intros k Hk. rewrite map_app, in_app_iff in Hk. simpl in Hk. fold z in Hk. split.
    - tauto.
    - intros ->. tauto. }
  unfold syncTab. fold z. fold m.
  destruct (findExisting (getTabTitle h zt) (set_add z (currentTabIds a)) m)
    as [[tabId ex]|] eqn:Efind.
  - apply findExisting_Some in Efind. destruct Efind as (Hin & Htab & Htitle & Hnot).
    pose proof (entry_tabs_get _ _ _ Hnd Hin) as Hex.
    pose proof (Hok _ _ Hex) as Hid.
    assert (Hne : tabId <> z).
    { intros ->. apply Hnot. apply set_add_In. now left. }
    unfold reported. cbn [acc_tree currentTabIds tabs with_tabs]. fold m. rewrite Hid.
    split; [|split; [|split; [exact Hids'|split]]].
    + apply NoDup_keys_tabs_set. rewrite keys_tabs_delete. now apply remove_first_NoDup_keep.
    + intros k n. rewrite (tabs_get_migrate k z tabId _ m Hnd Hne).
      destruct (String.eqb_spec k z) as [->|Hkz].
      * intros E. injection E as <-. reflexivity.
      * destruct (k =? tabId); [discriminate|]. apply Hok.
    + intros zt' Hzt'. apply in_app_or in Hzt'. destruct Hzt' as [Hzt'|[<-|[]]].
      * destruct (Hseen _ Hzt') as [Hs Hz]. destruct (Hdone _ Hzt') as (n & Hn & Ht & Hty).
        exists n. rewrite (tabs_get_migrate _ z tabId _ m Hnd Hne).
        destruct (String.eqb_spec (zt_id zt') z) as [E|_]; [contradiction|].
        destruct (String.eqb_spec (zt_id zt') tabId) as [E|_]; [rewrite E in Hs; contradiction|].
        auto.
      * fold z. rewrite (tabs_get_migrate z z tabId _ m Hnd Hne), String.eqb_refl.
        eexists. split; [reflexivity|]. split; reflexivity.
    + intros k n Hk Hg Hnk. destruct (Hout _ Hnk) as [Hnd' Hkz].
      pose proof (Hgrp _ _ Hk Hg Hnd') as Hkm.
      rewrite (tabs_get_migrate k z tabId _ m Hnd Hne).
      destruct (String.eqb_spec k z) as [E|_]; [contradiction|].
      destruct (String.eqb_spec k tabId) as [E|_]; [|exact Hkm].
      subst k. fold m in Hkm. rewrite Hex in Hkm. injection Hkm as <-. congruence.
  - destruct (tabs_has z m) eqn:Ehas; cbn [negb].
    + unfold reported. cbn [acc_tree currentTabIds tabs with_tabs]. fold m.
      split; [|split; [|split; [exact Hids'|split]]].
      * now rewrite keys_modify.
      * intros k n. rewrite tabs_get_modify. destruct (String.eqb_spec z k) as [->|_]; [|apply Hok].
        destruct (tabs_get k m) as [n0|] eqn:E0; [|discriminate]. simpl.
        intros E. injection E as <-. simpl. exact (Hok _ _ E0).
      * intros zt' Hzt'. apply in_app_or in Hzt'. destruct Hzt' as [Hzt'|[<-|[]]].
        -- destruct (Hseen _ Hzt') as [Hs Hz]. destruct (Hdone _ Hzt') as (n & Hn & Ht & Hty).
           exists n. rewrite tabs_get_modify.
           destruct (String.eqb_spec z (zt_id zt')) as [E|_]; [symmetry in E; contradiction|].
           auto.
        -- fold z. rewrite tabs_get_modify, String.eqb_refl. unfold tabs_has in Ehas.
           destruct (tabs_get z m) as [n0|]; [|discriminate]. simpl.
           eexists. split; [reflexivity|]. split; reflexivity.
      * intros k n Hk Hg Hnk. destruct (Hout _ Hnk) as [Hnd' Hkz].
        rewrite tabs_get_modify. destruct (String.eqb_spec z k) as [E|_]; [symmetry in E; contradiction|].
        exact (Hgrp _ _ Hk Hg Hnd').
    + rewrite (addTab_root _ _ _ _ Ehas).
      unfold reported. cbn [acc_tree currentTabIds tabs appendRoot rootTab id]. fold m.
      split; [|split; [|split; [exact Hids'|split]]].
      * unfold keys. rewrite map_app. simpl. apply NoDup_push; [exact Hnd|].
        now apply tabs_has_false.
      * intros k n. rewrite tabs_get_app. destruct (tabs_get k m) as [n0|] eqn:E0.
        -- intros E. injection E as <-. exact (Hok _ _ E0).
        -- simpl. destruct (String.eqb_spec k z) as [->|_]; [|discriminate].
           intros E. injection E as <-. reflexivity.
      * intros zt' Hzt'. apply in_app_or in Hzt'. destruct Hzt' as [Hzt'|[<-|[]]].
        -- destruct (Hdone _ Hzt') as (n & Hn & Ht & Hty).
           exists n. rewrite tabs_get_app. fold m in Hn. rewrite Hn. auto.
        -- fold z. rewrite tabs_get_app. unfold tabs_has in Ehas.
           destruct (tabs_get z m); [discriminate|]. simpl. rewrite String.eqb_refl.
           eexists. split; [reflexivity|]. split; reflexivity.
      * intros k n Hk Hg Hnk. destruct (Hout _ Hnk) as [Hnd' Hkz].
        rewrite tabs_get_app. fold m in Hgrp. now rewrite (Hgrp _ _ Hk Hg Hnd').
Qed.

Lemma reported_fold h sel s0 rest :
  forall done a,
    reported h s0 done a -> NoDup (map zt_id (done ++ rest)) ->
    reported h s0 (done ++ rest) (fold_left (syncTab h sel) rest a).
Proof.
  induction rest as [|zt rest IH]; intros done a Hinv Hnd; simpl.
  - now rewrite app_nil_r.
  - replace (done ++ zt :: rest) with ((done ++ [zt]) ++ rest) in * by now rewrite <- app_assoc.
    apply IH; [|exact Hnd]. apply reported_step; [exact Hinv|].
    rewrite !map_app in Hnd. apply NoDup_app_remove_r in Hnd.
    apply NoDup_remove_2 in Hnd. simpl in Hnd. now rewrite app_nil_r in Hnd.
Qed.

Lemma bind_Done (o : outcome TreeData) f s' :
  o >>= f = Done s' -> exists s1, o = Done s1 /\ f s1 = Done s'.
Proof. destruct o as [s1|s1|]; simpl; intros H; try discriminate. eauto. Qed.

Lemma face_selected b b' n n' :
  face n' = face n -> b' = b -> face (set_selected b' n') = face (set_selected b n).
Proof.
  intros H ->. destruct (face_fields _ _ H) as (H1 & H2 & H3 & H4 & _ & H6).
  destruct n, n'. simpl in *. unfold face. simpl. congruence.
Qed.

(** The faces of the store after a reconciliation pass that returns, read
    off the store the first pass leaves: a tab-kind node whose key was not
    reported is gone, every other node is there with its selection flag
    set afresh. *)
Lemma sync_faces fuel h win zts s s' :
  NoDup (keys (tabs s)) -> keys_ok (tabs s) ->
  zoteroTabs win = Some zts -> NoDup (map zt_id zts) ->
  syncWithZoteroTabs fuel h win s = Done s' ->
  exists a,
    reported h s zts a
    /\ forall k,
         option_map face (tabs_get k (tabs s'))
         = match tabs_get k (tabs (acc_tree a)) with
           | Some n =>
               if is_tab n && negb (includes k (currentTabIds a)) then None
               else Some (face (set_selected (is_tab n && is_selected (selectedID win) (id n)) n))
           | None => None
           end.
Proof.
  intros Hnd Hok Hz Hzts. unfold syncWithZoteroTabs. rewrite Hz. cbv zeta.
  unfold migrateTabs. cbv zeta. cbn [acc_tree currentTabIds].
  pose proof (reported_fold h (selectedID win) s zts [] (mkSyncAcc s [] [])
                (reported_start h s Hnd Hok) Hzts) as Hrep.
  simpl in Hrep.
  set (a := fold_left (syncTab h (selectedID win)) zts (mkSyncAcc s [] [])) in *.
  set (s2 := applyMigration (idMigrationMap a) (acc_tree a)).
  intros H. apply bind_Done in H. destruct H as (s3 & Hloop & Hrec).
  exists a. split; [exact Hrep|].
  destruct Hrep as (Hnda & Hoka & _).
  pose proof (applyMigration_faces (idMigrationMap a) (acc_tree a)) as Hmig. fold s2 in Hmig.
  assert (Hnd2 : NoDup (keys (tabs s2))).
  { unfold s2. now rewrite (proj1 (applyMigration_flags (idMigrationMap a) (acc_tree a))). }
  destruct (removal_loop fuel h _ s2 s3 Hnd2 Hloop) as (Hnd3 & Hout & Hkeep).
  pose proof (recalculateLevels_faces fuel _ s' ltac:(rewrite Hrec; reflexivity)) as Hlast.
  intros k. rewrite (Hlast k). cbn [tabs with_tabs].
  rewrite (tabs_get_map
             (fun n => set_selected (is_tab n && is_selected (selectedID win) (id n)) n)).
  destruct (tabs_get k (tabs (acc_tree a))) as [n|] eqn:Hn.
  - destruct (face_get k _ _ n (Hmig k) Hn) as (n2 & Hn2 & F2).
    destruct (face_fields _ _ F2) as (_ & _ & _ & Hty & _).
    assert (Htab : is_tab n2 = is_tab n) by (unfold is_tab; now rewrite Hty).
    destruct (is_tab n && negb (includes k (currentTabIds a))) eqn:Egone.
    + rewrite Hout; [reflexivity|].
      apply in_map_iff. exists (k, n2). split; [reflexivity|].
      apply filter_In. split; [now apply tabs_get_entry|]. simpl. now rewrite Htab.
    + assert (Hk : ~ In k (map fst (filter (fun e => is_tab (snd e)
                                            && negb (includes (fst e) (currentTabIds a)))
                                      (tabs s2)))).
      { intros Hin. apply in_map_iff in Hin. destruct Hin as ([k' n'] & E & Hin).
        simpl in E. subst k'. apply filter_In in Hin. destruct Hin as [Hin Hp].
        rewrite (entry_tabs_get _ _ _ Hnd2 Hin) in Hn2. injection Hn2 as ->.
        simpl in Hp. rewrite Htab in Hp. congruence. }
      destruct (face_get k _ _ n2 (Hkeep k Hk) Hn2) as (n3 & Hn3 & F3).
      rewrite Hn3. simpl. f_equal.
      assert (F : face n3 = face n) by congruence.
      apply (face_selected _ _ _ _ F).
      destruct (face_fields _ _ F) as (Hid & _ & _ & Hty3 & _).
      unfold is_tab. now rewrite Hid, Hty3.
  - pose proof (Hmig k) as E2. rewrite Hn in E2.
    destruct (tabs_get k (tabs s2)) as [n2|] eqn:Hn2; [discriminate|].
    destruct (in_dec string_dec k
                (map fst (filter (fun e => is_tab (snd e)
                                           && negb (includes (fst e) (currentTabIds a)))
                            (tabs s2)))) as [Hin|Hin].
    + now rewrite (Hout k Hin).
    + pose proof (Hkeep k Hin) as E3. rewrite Hn2 in E3.
      now destruct (tabs_get k (tabs s3)).
Qed.

(** The removal loop of [syncWithZoteroTabs], whether it returns or
    throws: the nodes under the keys not listed show the same face. *)
Lemma removal_loop_carried fuel h xs :
  forall s s',
    carried (for_of xs (removeTabFromTree fuel h) s) = Some s' ->
    forall k, ~ In k xs ->
      option_map face (tabs_get k (tabs s')) = option_map face (tabs_get k (tabs s)).
Proof.
  induction xs as [|x xs IH]; intros s s' H k Hk.
  - simpl in H. now injection H as <-.
  - simpl in H. apply carried_bind in H.
    assert (Hx : k <> x) by (intros ->; apply Hk; now left).
    destruct H as [H|(s1 & H & Hrest)].
    + unfold removeTabFromTree in H.
      eapply removeNodeFromTree_faces; [rewrite H; reflexivity | exact Hx].
    + rewrite (IH s1 s' Hrest k) by (intros Hin; apply Hk; now right).
      unfold removeTabFromTree in H.
      eapply removeNodeFromTree_faces; [rewrite H; reflexivity | exact Hx].
Qed.

(** A reconciliation pass, whether it runs to its end or returns from its
    [catch] block: every node the first pass leaves, other than a tab-kind
    node whose key was not reported, is still there with its id, title,
    type, kind and collapsed flag. *)
Lemma sync_carried fuel h win zts s s' :
  NoDup (keys (tabs s)) -> keys_ok (tabs s) ->
  zoteroTabs win = Some zts -> NoDup (map zt_id zts) ->
  carried (syncWithZoteroTabs fuel h win s) = Some s' ->
  exists a,
    reported h s zts a
    /\ forall k n,
         tabs_get k (tabs (acc_tree a)) = Some n ->
         is_tab n && negb (includes k (currentTabIds a)) = false ->
         exists n', tabs_get k (tabs s') = Some n'
                    /\ id n' = id n /\ title n' = title n /\ type n' = type n
                    /\ nodeType n' = nodeType n /\ collapsed n' = collapsed n.
Proof.
  intros Hnd Hok Hz Hzts. unfold syncWithZoteroTabs. rewrite Hz. cbv zeta.
  unfold migrateTabs. cbv zeta. cbn [acc_tree currentTabIds].
  pose proof (reported_fold h (selectedID win) s zts [] (mkSyncAcc s [] [])
                (reported_start h s Hnd Hok) Hzts) as Hrep.
  simpl in Hrep.
  set (a := fold_left (syncTab h (selectedID win)) zts (mkSyncAcc s [] [])) in *.
  set (s2 := applyMigration (idMigrationMap a) (acc_tree a)).
  intros H. exists a. split; [exact Hrep|].
  destruct Hrep as (Hnda & _).
  pose proof (applyMigration_faces (idMigrationMap a) (acc_tree a)) as Hmig. fold s2 in Hmig.
  assert (Hnd2 : NoDup (keys (tabs s2))).
  { unfold s2. now rewrite (proj1 (applyMigration_flags (idMigrationMap a) (acc_tree a))). }
  intros k n Hn Hkeep.
  destruct (face_get k _ _ n (Hmig k) Hn) as (n2 & Hn2 & F2).
  assert (Hk : ~ In k (map fst (filter (fun e => is_tab (snd e)
                                          && negb (includes (fst e) (currentTabIds a)))
                                    (tabs s2)))).
  { intros Hin. apply in_map_iff in Hin. destruct Hin as ([k' n'] & E & Hin).
    simpl in E. subst k'. apply filter_In in Hin. destruct Hin as [Hin Hp].
    rewrite (entry_tabs_get _ _ _ Hnd2 Hin) in Hn2. injection Hn2 as ->.
    simpl in Hp. destruct (face_fields _ _ F2) as (_ & _ & _ & Hty & _).
    unfold is_tab in *. rewrite Hty in Hp. congruence. }
  assert (Hfields : forall n3 b, face n3 = face n2 ->
            id (set_selected b n3) = id n /\ title (set_selected b n3) = title n
            /\ type (set_selected b n3) = type n /\ nodeType (set_selected b n3) = nodeType n
            /\ collapsed (set_selected b n3) = collapsed n).
  { intros n3 b F3. assert (F : face n3 = face n) by congruence.
    destruct (face_fields _ _ F) as (F1 & F2' & F3' & F4 & _ & F6).
    destruct n3. simpl in *. auto. }
  apply carried_bind in H. destruct H as [H|(s3 & H & Hrec)].
  - pose proof (removal_loop_carried fuel h _ s2 s' ltac:(rewrite H; reflexivity) k Hk) as E.
    destruct (face_get k _ _ n2 E Hn2) as (n' & Hn' & F').
    exists n'. split; [exact Hn'|].
    destruct (Hfields n' (selected n') F') as (G1 & G2 & G3 & G4 & G5).
    destruct n'. simpl in *. auto.
  - pose proof (removal_loop_carried fuel h _ s2 s3 ltac:(rewrite H; reflexivity) k Hk) as E.
    destruct (face_get k _ _ n2 E Hn2) as (n3 & Hn3 & F3).
    pose proof (recalculateLevels_faces fuel _ s' Hrec k) as E'.
    cbn [tabs with_tabs] in E'.
    rewrite (tabs_get_map
               (fun n => set_selected (is_tab n && is_selected (selectedID win) (id n)) n)),
      Hn3 in E'.
    destruct (tabs_get k (tabs s')) as [n'|]; [|discriminate].
    exists n'. split; [reflexivity|].
    assert (F' : face n' = face (set_selected
                   (is_tab n3 && is_selected (selectedID win) (id n3)) n3)).
    { assert (E2 : Some (face n') = Some (face (set_selected
                     (is_tab n3 && is_selected (selectedID win) (id n3)) n3))) by exact E'.
      congruence. }
    destruct (face_fields _ _ F') as (G1 & G2 & G3 & G4 & _ & G6).
    destruct (Hfields n3 (is_tab n3 && is_selected (selectedID win) (id n3)) F3)
      as (K1 & K2 & K3 & K4 & K5).
    rewrite G1, G2, G3, G4, G6. auto.
Qed.

(** X25.  A reconciliation pass against a window with distinct ids leaves
    every reported tab with a node that has the reported title and type,
    whether the pass runs to its end or returns from its [catch] block.
    When it runs to its end, also every tab-kind node of the store is a
    reported tab, and exactly the tab-kind node with the selected id is
    flagged as selected. *)
Theorem sync_matches_the_window :
  forall fuel h win zts s s',
    NoDup (keys (tabs s)) -> keys_ok (tabs s) ->
    zoteroTabs win = Some zts -> NoDup (map zt_id zts) ->
    carried (syncWithZoteroTabs fuel h win s) = Some s' ->
    (forall zt, In zt zts ->
       exists n, tabs_get (zt_id zt) (tabs s') = Some n
                 /\ title n = getTabTitle h zt /\ type n = zt_type zt)
    /\ (syncWithZoteroTabs fuel h win s = Done s' ->
        (forall k n, tabs_get k (tabs s') = Some n -> is_tab n = true ->
                     In k (map zt_id zts))
        /\ (forall k n, tabs_get k (tabs s') = Some n ->
              id n = k /\ selected n = is_tab n && is_selected (selectedID win) k)).
Proof.
  intros fuel h win zts s s' Hnd Hok Hz Hzts Hc. split.
  - destruct (sync_carried fuel h win zts s s' Hnd Hok Hz Hzts Hc)
      as (a & (_ & _ & Hids & Hdone & _) & Hkept).
    intros zt Hzt. destruct (Hdone zt Hzt) as (n & Hn & Ht & Hty).
    assert (Hin : includes (zt_id zt) (currentTabIds a) = true).
    { apply includes_In. apply Hids. now apply in_map. }
    destruct (Hkept _ _ Hn) as (n' & Hn' & _ & F2 & F3 & _).
    { rewrite Hin. apply andb_false_r. }
    exists n'. split; [exact Hn'|]. now rewrite F2, F3.
  - intros H.
    destruct (sync_faces fuel h win zts s s' Hnd Hok Hz Hzts H)
      as (a & (_ & Hoka & Hids & _ & _) & Hface).
    assert (Hback : forall k n', tabs_get k (tabs s') = Some n' ->
              exists n, tabs_get k (tabs (acc_tree a)) = Some n
                        /\ is_tab n && negb (includes k (currentTabIds a)) = false
                        /\ face n' = face (set_selected
                                             (is_tab n && is_selected (selectedID win) (id n)) n)).
    { intros k n' Hn'. pose proof (Hface k) as E. rewrite Hn' in E.
      destruct (tabs_get k (tabs (acc_tree a))) as [n|]; [|discriminate].
      destruct (is_tab n && negb (includes k (currentTabIds a))) eqn:Ek; [discriminate|].
      exists n. split; [reflexivity|]. split; [exact Ek|].
      assert (E' : Some (face n') = Some (face (set_selected
                     (is_tab n && is_selected (selectedID win) (id n)) n))) by exact E.
      congruence. }
    split.
    + intros k n' Hn' Htab. destruct (Hback k n' Hn') as (n & Hn & Hkeep & F).
      destruct (face_fields _ _ F) as (_ & _ & _ & F4 & _).
      assert (Htab' : is_tab n = true).
      { unfold is_tab in *. rewrite F4 in Htab. now destruct n. }
      rewrite Htab' in Hkeep. simpl in Hkeep.
      apply Hids. apply includes_In. now destruct (includes k (currentTabIds a)).
    + intros k n' Hn'. destruct (Hback k n' Hn') as (n & Hn & _ & F).
      destruct (face_fields _ _ F) as (F1 & _ & _ & F4 & F5 & _).
      pose proof (Hoka _ _ Hn) as Hid.
      assert (Htab : is_tab n' = is_tab n).
      { unfold is_tab. rewrite F4. now destruct n. }
      split.
      * rewrite F1. now destruct n.
      * rewrite F5, Htab. destruct n. simpl in *. now subst.
Qed.

Lemma sync_matches_the_window_witness :
  (forall zt, In zt reopened ->
     exists n, tabs_get (zt_id zt) (tabs relabelled) = Some n
               /\ title n = getTabTitle quietHost zt /\ type n = zt_type zt)
  /\ (syncWithZoteroTabs 3 quietHost (mkWindow (Some reopened) (Some "new1")) staleStore
      = Done relabelled ->
      (forall k n, tabs_get k (tabs relabelled) = Some n -> is_tab n = true ->
         In k (map zt_id reopened))
      /\ (forall k n, tabs_get k (tabs relabelled) = Some n ->
            id n = k /\ selected n = is_tab n && is_selected (Some "new1") k)).
Proof.
  apply (sync_matches_the_window 3 quietHost (mkWindow (Some reopened) (Some "new1")) reopened
           staleStore relabelled).
  - apply distinctb_NoDup. reflexivity.
  - apply keys_okb_ok. reflexivity.
  - reflexivity.
  - apply distinctb_NoDup. reflexivity.
  - reflexivity.
Defined.

(** With call depth 1 the same pass ends in its [catch] block, while the
    levels are recomputed; the reported tabs are in the store all the
    same. *)
Example sync_caught_error_keeps_reported :
  exists s',
    syncWithZoteroTabs 1 quietHost (mkWindow (Some reopened) (Some "new1")) staleStore
    = Thrown s'
    /\ option_map title (tabs_get "new1" (tabs s')) = Some "Paper.pdf"
    /\ option_map title (tabs_get "y" (tabs s')) = Some "Notes".
Proof. eexists. split; [vm_compute; reflexivity|]. split; reflexivity. Qed.

(** X26.  A reconciliation pass keeps every node that is not a tab and whose
    id the window does not report, a group for one, with its title, type,
    kind and collapsed flag, whether the pass runs to its end or returns
    from its [catch] block; when it runs to its end the node is left
    unselected. *)
Theorem sync_keeps_groups :
  forall fuel h win zts s s' k n,
    NoDup (keys (tabs s)) -> keys_ok (tabs s) ->
    zoteroTabs win = Some zts -> NoDup (map zt_id zts) ->
    carried (syncWithZoteroTabs fuel h win s) = Some s' ->
    tabs_get k (tabs s) = Some n -> is_tab n = false -> ~ In k (map zt_id zts) ->
    exists n', tabs_get k (tabs s') = Some n'
               /\ title n' = title n /\ type n' = type n /\ nodeType n' = nodeType n
               /\ collapsed n' = collapsed n
               /\ (syncWithZoteroTabs fuel h win s = Done s' -> selected n' = false).
Proof.
  intros fuel h win zts s s' k n Hnd Hok Hz Hzts Hc Hn Hg Hk.
  destruct (sync_carried fuel h win zts s s' Hnd Hok Hz Hzts Hc)
    as (a & (_ & _ & _ & _ & Hgrp) & Hkept).
  destruct (Hkept k n (Hgrp _ _ Hn Hg Hk)) as (n' & Hn' & _ & F2 & F3 & F4 & F5).
  { now rewrite Hg. }
  exists n'. split; [exact Hn'|]. split; [exact F2|]. split; [exact F3|].
  split; [exact F4|]. split; [exact F5|].
  intros H.
  destruct (sync_faces fuel h win zts s s' Hnd Hok Hz Hzts H)
    as (a' & (_ & _ & _ & _ & Hgrp') & Hface).
  pose proof (Hface k) as E. rewrite (Hgrp' _ _ Hn Hg Hk), Hg, Hn' in E. simpl in E.
  assert (F : face n' = face (set_selected false n)).
  { assert (E' : Some (face n') = Some (face (set_selected false n))) by exact E. congruence. }
  destruct (face_fields _ _ F) as (_ & _ & _ & _ & G5 & _). rewrite G5. now destruct n.
Qed.

Lemma sync_keeps_groups_witness :
  exists n', tabs_get "g" (tabs groupedSynced) = Some n'
             /\ title n' = "Reading" /\ type n' = "group" /\ nodeType n' = GroupKind
             /\ collapsed n' = true
             /\ (syncWithZoteroTabs 4 quietHost groupedWindow groupedStore = Done groupedSynced ->
                 selected n' = false).
Proof.
  refine (sync_keeps_groups 4 quietHost groupedWindow _ groupedStore groupedSynced "g" _
            _ _ eq_refl _ _ eq_refl eq_refl _).
  - apply distinctb_NoDup. reflexivity.
  - apply keys_okb_ok. reflexivity.
  - apply distinctb_NoDup. reflexivity.
  - reflexivity.
  - simpl. intros [E|[E|[]]]; discriminate.
Defined.

Lemma NoDup_map_inj {A B : Type} (f : A -> B) l x y :
  NoDup (map f l) -> In x l -> In y l -> f x = f y -> x = y.
Proof.
  induction l as [|a l IH]; simpl; intros Hnd Hx Hy E; [destruct Hx|].
  inversion Hnd as [|? ? Hni Hnd']; subst.
  destruct Hx as [->|Hx], Hy as [->|Hy]; auto.
  - exfalso. apply Hni. rewrite E. now apply in_map.
  - exfalso. apply Hni. rewrite <- E. now apply in_map.
Qed.

Lemma filter_none {A : Type} (P : A -> bool) l : (forall x, In x l -> P x = false) -> filter P l = [].
Proof.
  induction l as [|x l IH]; simpl; intros H; [reflexivity|].
  rewrite (H x (or_introl eq_refl)). auto.
Qed.

(** On a settled store whose reported titles differ, the first pass
    changes nothing and migrates no id. *)
Lemma first_pass_settled h win zts s :
  NoDup (keys (tabs s)) -> keys_ok (tabs s) ->
  NoDup (map (getTabTitle h) zts) -> settled h win zts s ->
  forall rest done ids,
    zts = done ++ rest -> (forall x, In x ids <-> In x (map zt_id done)) ->
    exists ids',
      fold_left (syncTab h (selectedID win)) rest (mkSyncAcc s ids []) = mkSyncAcc s ids' []
      /\ forall x, In x ids' <-> In x (map zt_id zts).
Proof.
  intros Hnd Hok Htitles (Hrep & Htabs & Hsel).
  induction rest as [|zt rest IH]; intros done ids Ezts Hids; simpl.
  - exists ids. split; [reflexivity|]. rewrite Ezts, app_nil_r. exact Hids.
  - assert (Hzt : In zt zts) by (rewrite Ezts; apply in_or_app; right; now left).
    destruct (Hrep zt Hzt) as (n & Hn & Htab & Ht & Hty).
    assert (Hstep : syncTab h (selectedID win) (mkSyncAcc s ids []) zt
                    = mkSyncAcc s (set_add (zt_id zt) ids) []).
    { unfold syncTab. cbn [acc_tree currentTabIds idMigrationMap].
      rewrite findExisting_None.
      - unfold tabs_has. rewrite Hn. cbn [negb]. f_equal.
        transitivity (with_tabs (fun _ => tabs s) s); [|now apply with_tabs_same].
        unfold with_tabs. f_equal.
        apply (modify_id_at _ _ _ n Hn).
        pose proof (Hsel _ _ Hn) as Hs. rewrite Htab in Hs. simpl in Hs.
        destruct n. simpl in *. now subst.
      - intros k n' Hin Htab' Ht'. apply set_add_In. left.
        pose proof (entry_tabs_get _ _ _ Hnd Hin) as Hk.
        pose proof (Htabs _ _ Hk Htab') as Hrepk.
        apply in_map_iff in Hrepk. destruct Hrepk as (zt' & <- & Hzt').
        destruct (Hrep zt' Hzt') as (n2 & Hn2 & _ & Ht2 & _).
        assert (n2 = n') by congruence. subst n2.
        f_equal. apply (NoDup_map_inj (getTabTitle h) zts); auto. congruence. }
    rewrite Hstep. apply (IH (done ++ [zt])).
    + now rewrite <- app_assoc.
    + intros x. rewrite set_add_In, map_app, in_app_iff, Hids. simpl. intuition.
Qed.

(** X27.  When the store agrees with the window and the reported titles differ
    from one another, a reconciliation pass does nothing but recompute the
    levels. *)
Theorem sync_of_settled_store :
  forall fuel h win zts s,
    NoDup (keys (tabs s)) -> keys_ok (tabs s) ->
    zoteroTabs win = Some zts -> NoDup (map (getTabTitle h) zts) ->
    settled h win zts s ->
    syncWithZoteroTabs fuel h win s = recalculateLevels fuel s.
Proof.
  intros fuel h win zts s Hnd Hok Hz Htitles Hset.
  destruct (first_pass_settled h win zts s Hnd Hok Htitles Hset zts [] [] eq_refl)
    as (ids & Hfold & Hids); [tauto|].
  destruct Hset as (Hrep & Htabs & Hsel).
  unfold syncWithZoteroTabs. rewrite Hz. cbv zeta. unfold migrateTabs. cbv zeta.
  rewrite Hfold. cbn [acc_tree currentTabIds idMigrationMap applyMigration].
  rewrite filter_none.
  - cbn [map for_of bind]. f_equal.
    transitivity (with_tabs (fun _ => tabs s) s); [|now apply with_tabs_same].
    unfold with_tabs. f_equal. rewrite <- (map_id (tabs s)) at 2.
    apply map_ext_in. intros [k n] Hin. simpl.
    pose proof (entry_tabs_get _ _ _ Hnd Hin) as Hk.
    pose proof (Hsel _ _ Hk) as Hs. rewrite (Hok _ _ Hk). rewrite <- Hs. now destruct n.
  - intros [k n] Hin. simpl. destruct (is_tab n) eqn:Htab; [|reflexivity]. simpl.
    pose proof (entry_tabs_get _ _ _ Hnd Hin) as Hk.
    assert (Hi : includes k ids = true).
    { apply includes_In. apply Hids. exact (Htabs _ _ Hk Htab). }
    now rewrite Hi.
Qed.

Lemma sync_of_settled_store_witness :
  syncWithZoteroTabs 3 quietHost (mkWindow (Some reopened) (Some "new1")) relabelled
  = recalculateLevels 3 relabelled.
Proof.
  apply (sync_of_settled_store 3 quietHost (mkWindow (Some reopened) (Some "new1")) reopened).
  - apply distinctb_NoDup. reflexivity.
  - apply keys_okb_ok. reflexivity.
  - reflexivity.
  - apply distinctb_NoDup. reflexivity.
  - split; [|split].
    + intros zt [<-|[<-|[]]]; eexists; (split; [reflexivity|]); repeat split.
    + intros k n H _. simpl in H.
      destruct (String.eqb_spec k "y") as [->|_]; [simpl; tauto|].
      destruct (String.eqb_spec k "new1") as [->|_]; [simpl; tauto | discriminate].
    + intros k n H. simpl in H.
      destruct (String.eqb_spec k "y") as [->|_]; [now injection H as <-|].
      destruct (String.eqb_spec k "new1") as [->|_]; [now injection H as <- | discriminate].
Defined.

(** ** The tab-added handler *)

Lemma onTabAdded_cons win i ids s :
  onTabAdded win (i :: ids) s = onTabAdded win ids (onTabAdded win [i] s).
Proof. reflexivity. Qed.

Lemma onTabAdded_one win i s :
  onTabAdded win [i] s
  = match findTab win i with
    | Some zt =>
        if tabs_has i (tabs s) then s
        else addTab i (if zt_title zt =? "" then zt_type zt else zt_title zt) (zt_type zt) None s
    | None => s
    end.
Proof. unfold onTabAdded, findTab. simpl. now destruct (zoteroTabs win). Qed.

Lemma onTabAdded_one_keeps win i s k n :
  tabs_get k (tabs s) = Some n -> tabs_get k (tabs (onTabAdded win [i] s)) = Some n.
Proof.
  intros Hk. rewrite onTabAdded_one. destruct (findTab win i) as [zt|]; [|exact Hk].
  destruct (tabs_has i (tabs s)) eqn:Ehas; [exact Hk|].
  rewrite (addTab_root _ _ _ _ Ehas). cbn [tabs appendRoot]. rewrite tabs_get_app. now rewrite Hk.
Qed.

Lemma onTabAdded_keeps win ids :
  forall s k n, tabs_get k (tabs s) = Some n -> tabs_get k (tabs (onTabAdded win ids s)) = Some n.
Proof.
  induction ids as [|i ids IH]; intros s k n Hk; [exact Hk|].
  rewrite onTabAdded_cons. apply IH. now apply onTabAdded_one_keeps.
Qed.

Lemma onTabAdded_one_has win i s zt :
  findTab win i = Some zt -> tabs_has i (tabs (onTabAdded win [i] s)) = true.
Proof.
  intros Hzt. rewrite onTabAdded_one, Hzt.
  destruct (tabs_has i (tabs s)) eqn:Ehas; [exact Ehas|].
  rewrite (addTab_root _ _ _ _ Ehas). unfold tabs_has. cbn [tabs appendRoot rootTab id].
  rewrite tabs_get_app. unfold tabs_has in Ehas.
  destruct (tabs_get i (tabs s)); [reflexivity|]. simpl. now rewrite String.eqb_refl.
Qed.

Lemma onTabAdded_nothing_new win ids :
  forall s,
    (forall i zt, In i ids -> findTab win i = Some zt -> tabs_has i (tabs s) = true) ->
    onTabAdded win ids s = s.
Proof.
  induction ids as [|i ids IH]; intros s H; [reflexivity|].
  rewrite onTabAdded_cons.
  assert (E : onTabAdded win [i] s = s).
  { rewrite onTabAdded_one. destruct (findTab win i) as [zt|] eqn:Hzt; [|reflexivity].
    now rewrite (H i zt (or_introl eq_refl) Hzt). }
  rewrite E. apply IH. intros i' zt' Hin. apply H. now right.
Qed.

(** X28.  The tab-added handler gives a node to every listed id that the window
    reports, leaves the nodes of the store as they are, and adds nothing
    when the same notification comes again. *)
Theorem onTabAdded_adds_once :
  forall win ids s,
    (forall i zt, In i ids -> findTab win i = Some zt ->
                  tabs_has i (tabs (onTabAdded win ids s)) = true)
    /\ (forall k n, tabs_get k (tabs s) = Some n ->
                    tabs_get k (tabs (onTabAdded win ids s)) = Some n)
    /\ onTabAdded win ids (onTabAdded win ids s) = onTabAdded win ids s.
Proof.
  intros win ids s.
  assert (Hhas : forall ids s i zt, In i ids -> findTab win i = Some zt ->
                   tabs_has i (tabs (onTabAdded win ids s)) = true).
  { clear. intros ids. induction ids as [|j ids IH]; intros s i zt Hin Hzt; [destruct Hin|].
    rewrite onTabAdded_cons. destruct Hin as [->|Hin]; [|now apply (IH _ i zt)].
    pose proof (onTabAdded_one_has win i s zt Hzt) as H1. unfold tabs_has in *.
    destruct (tabs_get i (tabs (onTabAdded win [i] s))) as [n|] eqn:E; [|discriminate].
    now rewrite (onTabAdded_keeps win ids _ _ _ E). }
  split; [apply Hhas|]. split; [apply onTabAdded_keeps|].
  apply onTabAdded_nothing_new. intros i zt. apply Hhas.
Qed.

(** ** Visibility *)

Lemma visibleFrom_false m :
  forall fuel d nd,
    tabs_get d m = Some nd -> visibleFrom fuel (parentId nd) m = Some false ->
    exists n a na, chain m n d a /\ tabs_get a m = Some na /\ collapsed na = true.
Proof.
  induction fuel as [|fuel IH]; intros d nd Hd H; simpl in H; [discriminate|].
  destruct (truthy (parentId nd)) as [c|] eqn:Hc; [|discriminate].
  destruct (tabs_get c m) as [parent|] eqn:Hp; [|discriminate].
  destruct (collapsed parent) eqn:Hcol.
  - exists 1, c, parent. split; [|auto].
    eapply chain_parent; [exact Hd | exact Hc |]. unfold tabs_has. now rewrite Hp.
  - destruct (IH c parent Hp H) as (n & a & na & Hch & Ha & Hna).
    exists (S n), a, na. split; [|auto]. eapply chain_step; eassumption.
Qed.

Lemma visibleFrom_true m n d a :
  chain m n d a ->
  forall fuel nd na,
    tabs_get d m = Some nd -> visibleFrom fuel (parentId nd) m = Some true ->
    tabs_get a m = Some na -> collapsed na = false.
Proof.
  intros Hc. induction Hc as [d a nd0 Hd0 Hp _ | n d b a nd0 Hd0 Hp Hc IH];
    intros fuel nd na Hd H Ha; rewrite Hd0 in Hd; injection Hd as <-;
    (destruct fuel as [|fuel]; [discriminate|]); simpl in H; rewrite Hp in H.
  - rewrite Ha in H. now destruct (collapsed na).
  - assert (Hb : exists nb, tabs_get b m = Some nb).
    { inversion Hc; subst; eauto. }
    destruct Hb as (nb & Hb). rewrite Hb in H.
    destruct (collapsed nb); [discriminate|]. exact (IH fuel nb na Hb H Ha).
Qed.

(** [isTabVisible] returns on a store without cycles, and answers false
    exactly below a collapsed ancestor. *)
Lemma isTabVisible_decides fuel depth s i :
  ranked (tabs s) depth -> List.length (keys (tabs s)) < fuel ->
  tabs_has i (tabs s) = true ->
  exists b,
    isTabVisible fuel i s = Some b
    /\ (b = false <-> exists n a na, chain (tabs s) n i a /\ tabs_get a (tabs s) = Some na
                                     /\ collapsed na = true).
Proof.
  intros Hr Hlen Hi. unfold isTabVisible, tabs_has in *.
  destruct (tabs_get i (tabs s)) as [tab|] eqn:Htab; [|discriminate].
  destruct (visibleFrom_returns depth (tabs s) Hr fuel (parentId tab) []) as (b & Hb).
  - constructor.
  - intros x [].
  - intros c _ _ x [].
  - simpl. lia.
  - exists b. split; [exact Hb|]. split.
    + intros ->. exact (visibleFrom_false _ _ _ _ Htab Hb).
    + intros (n & a & na & Hc & Ha & Hcol). destruct b; [|reflexivity].
      pose proof (visibleFrom_true _ _ _ _ Hc _ _ _ Htab Hb Ha). congruence.
Qed.

(** X29.  On a store without cycles, with enough iterations for its size,
    [isTabVisible] answers false for a node exactly when one of its
    ancestors is collapsed, and true exactly when none is. *)
Theorem visible_iff_no_collapsed_ancestor :
  forall fuel depth s i,
    ranked (tabs s) depth -> List.length (keys (tabs s)) < fuel ->
    tabs_has i (tabs s) = true ->
    (isTabVisible fuel i s = Some false
     <-> exists n a na, chain (tabs s) n i a /\ tabs_get a (tabs s) = Some na
                        /\ collapsed na = true)
    /\ (isTabVisible fuel i s = Some true
        <-> forall n a na, chain (tabs s) n i a -> tabs_get a (tabs s) = Some na ->
                           collapsed na = false).
Proof.
  intros fuel depth s i Hr Hlen Hi.
  destruct (isTabVisible_decides fuel depth s i Hr Hlen Hi) as (b & Hb & Hiff).
  rewrite Hb. split; split.
  - intros E. apply Hiff. congruence.
  - intros H. f_equal. now apply Hiff.
  - intros E n a na Hc Ha. destruct (collapsed na) eqn:Hcol; [|reflexivity].
    assert (Hbf : b = false) by (apply Hiff; exists n, a, na; auto).
    rewrite Hbf in E. discriminate.
  - intros H. f_equal. destruct b; [reflexivity|].
    destruct (proj1 Hiff eq_refl) as (n & a & na & Hc & Ha & Hcol).
    pose proof (H _ _ _ Hc Ha). congruence.
Qed.

Lemma visible_iff_no_collapsed_ancestor_witness :
  (isTabVisible 8 "D" familyStore = Some false
   <-> exists n a na, chain (tabs familyStore) n "D" a /\ tabs_get a (tabs familyStore) = Some na
                      /\ collapsed na = true)
  /\ (isTabVisible 8 "D" familyStore = Some true
      <-> forall n a na, chain (tabs familyStore) n "D" a ->
                         tabs_get a (tabs familyStore) = Some na -> collapsed na = false).
Proof.
  apply (visible_iff_no_collapsed_ancestor 8 (fun k => level_of k (tabs familyStore))).
  - apply rankedb_ok. reflexivity.
  - vm_compute. lia.
  - reflexivity.
Defined.

(** ** The sidebar list *)





(** ** The display order and collapsing *)



